(* ===== verification/_CoqProject ===== *)
-Q . S2P
Prelude.v
Stdio.v
Header.v
Writer.v
Varint.v
Crc32.v
MemoryPool.v
HashTable.v
Budget.v
Simd.v
Tracker.v
Source.v
Ledger.v
Patch.v
Matches.v
StageIdentity.v
StageRelocation.v
BlockSearch.v
StagePartial.v
ExtReader.v
ExtMap.v
ExtTree.v
ExtWalk.v
WalkSim.v
StageFsmap.v
FsmapBudget.v
StageController.v
PatchSafety.v
PatchClose.v
Encoder.v
Codec.v
DiffData.v
RoundTrip.v
EncoderSpec.v
EndToEnd.v
MatchLog.v
Diff.v
Delivery.v
Resources.v
Platform.v
DiffSuccess.v
Library.v
Getopt.v
Cli.v
Main.v
UnitTests.v
