(* ===== verification/Prelude.v ===== *)
(** * fsdiff: a verification library

    fsdiff makes a binary patch (.bkdf) between two disk or filesystem images and
    applies it.  A diff splits the destination image into blocks, lets a series
    of stages find each block in the source, and encodes the result as a header
    and three streams (operations, diff bytes, literals).  A patch is applied by
    reading the operations one by one and writing the destination in order.

    This development translates the C code into executable Rocq functions, from
    the bytes up, and proves what the components promise one another, up to the
    statement about the whole program: when a diff of two images succeeds, the
    file it wrote turns the first image into the second.

    ** Conventions

    A C function that reports [fsd_error_t] returns an [outcome]: [Ok] with its
    results, [Err] with the code, [UB] for an access outside an object, a null
    dereference or signed overflow, [NoFuel] for a loop that used up its fuel.
    The theorems exclude the last two.  Integers are [Z] with the wrap-around of
    their width written out ([u8] ... [u64], [s32], [s64], [chk64] for signed
    64-bit arithmetic).  Memory is a list of bytes ([bytes_ok]), a pointer an
    offset into it, [slice] and [load] are its reads.  Files, devices, malloc,
    vector intrinsics and the processor are parameters or explicit state, with
    failures at any call.  Loops are structural recursions on the number of
    iterations left, or take fuel that is shown to be enough: the length of a
    byte string for decoders, the number of bytes for readers and writers, the
    size of the store for linked lists.

    ** Files (paths under src/src unless said otherwise)

    - Prelude: error codes, outcomes, machine integers, byte strings, tactics.
    - Stdio: FILE streams with a capacity, flush and close failures.
    - Header: encoding/bkdf_header.c.
    - Writer: io/buffered_writer.c, and the interface [ByteSink] through which the
      encoder writes.
    - Varint: the varints of encoding/operation_encoder.c and patch.c.
    - Crc32: core/crc32.c.
    - MemoryPool: core/memory_pool.c over the interface [Allocator].
    - HashTable: core/hash_table.c over the interface [Arena], which the pool
      implements.
    - Simd: simd/ (scalar, AVX2, NEON and dispatch), intrinsics as the interfaces
      [Avx2] and [Neon].
    - Tracker: core/block_tracker.c.
    - Source: io/source_reader.c and the POSIX part of io/mmap_reader.c; the
      interface [SourceReader] of the patcher.
    - Patch: patch.c, the header and stream checks and the operation loop.
    - Matches: what a truthful tracker is ([tracker_sound]) and the tracker calls
      of the stages.
    - StageIdentity, StageRelocation, BlockSearch, StagePartial: stages/.
    - ExtReader: fs/ext_reader.c, the read-only ext2/3/4 reader.
    - ExtMap, ExtTree, ExtWalk: the meaning of the block maps, the extent trees and
      the directory tree that ExtReader reads.
    - StageFsmap: stages/stage_fsmap.c, the stage that matches files by path.
    - StageController: stages/stage_controller.c, the stages in order, with
      cancellation and progress; the options of include/fsdiff/options.h.
    - PatchSafety: the operation loop on arbitrary patch bytes.
    - PatchClose: the operation loop when fclose of its output fails.
    - Encoder: encoding/operation_encoder.c.
    - Codec, DiffData, RoundTrip, EncoderSpec, EndToEnd: the field codecs, the
      sparse and dense diff formats, one run at a time, the whole encoder, and the
      encoder against the patcher.
    - MatchLog: the match log of diff.c.
    - Diff: diff.c, from the opened images to the patch file.
    - Delivery: what a success of each direction says of the file left on disk.
    - Budget, FsmapBudget, WalkSim: how much memory the pools, the hash table and the
      path index need, the last by two walks of the source in step.
    - DiffSuccess: when a diff goes through.
    - Ledger, Resources: the opening, closing and cleanup code of io/, of
      stages/stage_controller.c, patch.c and diff.c, with what it acquires and
      releases; the Windows branch of io/mmap_reader.c.
    - Platform: platform.h, temporary files and special output files.
    - Getopt: getopt_compat.h, the getopt_long of the Windows build.
    - Library: the contexts, error strings and start-up of patch.c, with threads.
    - Cli, Main: tools/fsdiff.c, the commands and the whole of main.
    - UnitTests: the programs of src/tests/, run on the model.

    ** What the theorems show

    - Round trips: the header, varints, operation fields and sparse diffs decode
      to what was encoded; encoding a destination against a truthful tracker and
      applying the patch file to the source yields the destination
      (EndToEnd.encode_apply_roundtrip); so does the file that the whole diff
      leaves (Diff.diff_patch_roundtrip), which is a well-formed patch of bounded
      size (Diff.diff_output_wellformed).
    - Safety of the patcher: any patch file whatever is applied without undefined
      behaviour and in bounded time, and a success writes exactly the announced
      size (PatchSafety).
    - The stages: each runs within bounds, leaves earlier matches alone and keeps
      the tracker truthful, which is what the encoder's theorems start from; the
      identity and relocation stages find exactly what they should, the block
      search is optimal among the screened candidates.
    - The stage controller: a run is defined whatever the images, the cancel flags
      and the allocator do, fails only for memory or a cancel, and leaves a
      truthful tracker in which every block is accounted for
      (StageController.controller_run_correct).
    - The ext reader, on any bytes whatever: no read outside the image, a bounded
      walk, well-formed paths, extents inside the filesystem
      (ExtReader.extfs_walk_safe); and the extents read from a block map or from
      a sorted extent tree are exactly the blocks of the file
      (ExtMap.blockmap_collect_exact, ExtTree.extents_from_node_exact), and the
      walk enters the directories that names lead to once each and reports
      exactly their files (ExtWalk.extfs_walk_lists_tree).
    - Start-up: however threads interleave, the dispatch table offers only correct
      routines; used as documented, threads see the complete table and no call of
      fsd_init is stuck (Library).
    - The tool: the options it passes on are valid, and a delta command
      line followed by a patch command line gives the destination back
      (Main.command_lines_roundtrip); the program's own getopt_long
      is safe on any arguments and reads back what was written (Getopt,
      Cli.delta_argv_reads).
    - Resources: what the readers, the controller, the diff and the patcher acquire
      they release once on every path, but for a temporary stream whose writer could
      not be allocated (Ledger, Resources).
    - The data structures: the tracker's bitmap and counters agree with its
      records; the hash table refines a multimap; the pool hands out disjoint,
      aligned, live regions and returns them; the buffered writer refines an
      append-only list; the source reader refines an array of bytes under short
      reads, interrupts and either backend.
    - Equivalences: table-driven CRC-32 and its bit-serial definition, each SIMD
      version and the byte-wise specification, the next power of two by smearing.
    - Success: with sound images, surroundings that do not fail and the memory that
      the options and the source determine, a diff returns a patch
      (DiffSuccess.diff_succeeds).
    - Errors: a diff that fails leaves no partial patch and no changed statistics
      (Diff.diff_fails_clean) and its success vouches for the patch file, while the
      patcher reports success whatever fclose of its output says
      (Delivery.success_and_fclose); a run of 2^32 blocks is truncated by the encoder, a
      pool that was reset loses chunks, and the walk of an ext image calls its
      callback again after it asked to stop; fsd_init does not undo a switch to
      scalar code; the tool checks a block size after cutting it to eight bits,
      accepts a negative radius, and on Windows prints stream lengths modulo 2^32.

    ** Bounds

    Block sizes are between 32 bytes and 2^24, destinations below 2^32 blocks (a
    run of more is where the encoder truncates), sources up to 2^62 bytes; these
    cover the format, whose block size is the power of two given in the header.

    ** Not modelled

    The elapsed time; the getopt_long of systems other than Windows; the messages
    and statistics that the command line tool prints on the standard error.
    Verbose output, the macros of platform.h and the build files; of the tests,
    those that need devices or an image made by mkfs.ext4. *)

From stdpp Require Import base list numbers tactics.
From Stdlib Require Import ZArith Lia Sorted.

Open Scope Z_scope.

(** * Error codes (include/fsdiff/error.h) *)

Inductive fsd_error_t : Type :=
| FSD_SUCCESS
| FSD_ERR_INVALID_ARG
| FSD_ERR_OUT_OF_MEMORY
| FSD_ERR_IO
| FSD_ERR_CORRUPT_DATA
| FSD_ERR_BAD_MAGIC
| FSD_ERR_BAD_VERSION
| FSD_ERR_BAD_BLOCK_SIZE
| FSD_ERR_SIZE_MISMATCH
| FSD_ERR_NOT_INITIALIZED
| FSD_ERR_CANCELLED
| FSD_ERR_FILE_NOT_FOUND
| FSD_ERR_PERMISSION
| FSD_ERR_MMAP_FAILED
| FSD_ERR_TRUNCATED
| FSD_ERR_BAD_OPERATION.

#[global] Instance fsd_error_eq_dec : EqDecision fsd_error_t.
Proof. solve_decision. Defined.

(** * Outcomes

    A C function that reports an [fsd_error_t] either succeeds with its output
    parameters, or returns an error code.  Two more values record what C leaves
    undefined (a read or write outside an object, signed overflow) and a loop
    that ran out of the fuel its definition was given; the theorems show that
    neither is reached. *)

Inductive outcome (A : Type) : Type :=
| Ok (a : A)
| Err (e : fsd_error_t)
| UB
| NoFuel.
Arguments Ok {A} a.
Arguments Err {A} e.
Arguments UB {A}.
Arguments NoFuel {A}.

#[global] Instance outcome_ret : MRet outcome := @Ok.
#[global] Instance outcome_bind : MBind outcome := fun A B f m =>
  match m with
  | Ok a => f a
  | Err e => Err e
  | UB => UB
  | NoFuel => NoFuel
  end.

(** [defined m]: the computation reaches neither undefined behaviour nor the end
    of its fuel. *)
Definition defined {A} (m : outcome A) : Prop :=
  match m with Ok _ | Err _ => True | UB | NoFuel => False end.

Lemma defined_bind {A B} (m : outcome A) (f : A → outcome B) :
  defined m → (∀ a, m = Ok a → defined (f a)) → defined (mbind f m).
Proof. destruct m; simpl; auto. Qed.

Lemma bind_Ok_inv {A B} (m : outcome A) (f : A → outcome B) b :
  mbind f m = Ok b → ∃ a, m = Ok a ∧ f a = Ok b.
Proof. destruct m; simpl; intros; naive_solver. Qed.

(** The result of a computation that is known to succeed. *)
Definition from_ok {A} (d : A) (m : outcome A) : A := match m with Ok a => a | _ => d end.

Definition is_ok {A} (m : outcome A) : bool := match m with Ok _ => true | _ => false end.

Lemma is_ok_true {A} (d : A) m : is_ok m = true → m = Ok (from_ok d m).
Proof. by destruct m. Qed.

(** [returns Q E m]: the computation is defined, a result satisfies [Q] and an
    error code [E]. *)
Definition returns {A} (Q : A → Prop) (E : fsd_error_t → Prop) (m : outcome A) : Prop :=
  match m with Ok a => Q a | Err e => E e | UB | NoFuel => False end.

Lemma returns_bind {A B} (Q : A → Prop) (R : B → Prop) E (m : outcome A) (f : A → outcome B) :
  returns Q E m → (∀ a, Q a → returns R E (f a)) → returns R E (mbind f m).
Proof. destruct m; simpl; auto. Qed.

Lemma returns_bind_eq {A B} (Q : A → Prop) (R : B → Prop) E (m : outcome A) (f : A → outcome B) :
  returns Q E m → (∀ a, Q a → m = Ok a → returns R E (f a)) → returns R E (mbind f m).
Proof. destruct m; simpl; auto. Qed.

Lemma returns_mono {A} (Q R : A → Prop) (E F : fsd_error_t → Prop) m :
  returns Q E m → (∀ a, Q a → R a) → (∀ e, E e → F e) → returns R F m.
Proof. destruct m; simpl; auto. Qed.

Lemma returns_defined {A} (Q : A → Prop) E m : returns Q E m → defined m.
Proof. destruct m; simpl; auto. Qed.

(** Only memory can run out. *)
Definition oom (e : fsd_error_t) : Prop := e = FSD_ERR_OUT_OF_MEMORY.

(** Stateful C code: the state survives an error return. *)
Definition ST (S A : Type) : Type := S → outcome A * S.

#[global] Instance ST_ret {S} : MRet (ST S) := fun A a s => (Ok a, s).
#[global] Instance ST_bind {S} : MBind (ST S) := fun A B f m s =>
  match m s with
  | (Ok a, s') => f a s'
  | (Err e, s') => (Err e, s')
  | (UB, s') => (UB, s')
  | (NoFuel, s') => (NoFuel, s')
  end.

Definition st_fail {S A} (e : fsd_error_t) : ST S A := fun s => (Err e, s).
Definition st_lift {S A} (m : outcome A) : ST S A := fun s => (m, s).
Definition st_get {S} : ST S S := fun s => (Ok s, s).

(** * Machine integers

    A w-bit unsigned integer is a [Z] in [0, 2^w); conversions and arithmetic
    that can wrap are written out with [wrap]. *)

Definition wrap (w z : Z) : Z := z mod 2 ^ w.
Abbreviation u8 := (wrap 8).
Abbreviation u16 := (wrap 16).
Abbreviation u32 := (wrap 32).
Abbreviation u64 := (wrap 64).

(** Two's complement reading of the low [w] bits. *)
Definition sgn (w z : Z) : Z :=
  let r := wrap w z in if r <? 2 ^ (w - 1) then r else r - 2 ^ w.
Abbreviation s16 := (sgn 16).
Abbreviation s32 := (sgn 32).
Abbreviation s64 := (sgn 64).

Definition UINT32_MAX : Z := 2 ^ 32 - 1.
Definition UINT64_MAX : Z := 2 ^ 64 - 1.
Definition SIZE_MAX : Z := 2 ^ 64 - 1.
Definition INT32_MIN : Z := - 2 ^ 31.
Definition INT32_MAX : Z := 2 ^ 31 - 1.
Definition INT64_MIN : Z := - 2 ^ 63.
Definition INT64_MAX : Z := 2 ^ 63 - 1.

(** Signed 64-bit arithmetic: overflow is undefined behaviour. *)
Definition chk64 (z : Z) : outcome Z :=
  if (INT64_MIN <=? z) && (z <=? INT64_MAX) then Ok z else UB.

Lemma wrap_small w z : 0 ≤ z < 2 ^ w → wrap w z = z.
Proof. apply Z.mod_small. Qed.

Lemma wrap_range w z : 0 ≤ w → 0 ≤ wrap w z < 2 ^ w.
Proof. intros. apply Z.mod_pos_bound. lia. Qed.

Lemma sgn_small w z : 0 < w → - 2 ^ (w - 1) ≤ z < 2 ^ (w - 1) → sgn w z = z.
Proof.
  intros Hw Hz. unfold sgn, wrap.
  assert (2 ^ w = 2 * 2 ^ (w - 1)) as E.
  { rewrite <- Z.pow_succ_r by lia. f_equal. lia. }
  destruct (decide (0 ≤ z)).
  - rewrite Z.mod_small by lia. destruct (Z.ltb_spec z (2 ^ (w - 1))); lia.
  - replace (z mod 2 ^ w) with (z + 2 ^ w).
    + destruct (Z.ltb_spec (z + 2 ^ w) (2 ^ (w - 1))); lia.
    + apply Z.mod_unique with (-1); lia.
Qed.

Lemma sgn_wrap w z : 0 < w → sgn w (wrap w z) = sgn w z.
Proof.
  intros. unfold sgn, wrap.
  rewrite Z.mod_mod; [done | apply Z.pow_nonzero; lia].
Qed.

Lemma chk64_ok z : INT64_MIN ≤ z ≤ INT64_MAX → chk64 z = Ok z.
Proof. intros. unfold chk64. destruct (_ && _) eqn:E; [done | lia]. Qed.

(** * Byte sequences *)

Abbreviation bytes := (list Z).

Definition is_byte (b : Z) : Prop := 0 ≤ b < 256.
Definition bytes_ok (l : bytes) : Prop := Forall is_byte l.

Definition zlen {A} (l : list A) : Z := Z.of_nat (length l).

(** [l[i]] of a C array: [None] is an access outside the array. *)
Definition zget {A} (l : list A) (i : Z) : option A :=
  if 0 <=? i then l !! Z.to_nat i else None.

Definition zput {A} (l : list A) (i : Z) (x : A) : list A :=
  if 0 <=? i then <[Z.to_nat i := x]> l else l.

(** The [len] bytes of [l] that start at byte [off]. *)
Definition slice {A} (off len : Z) (l : list A) : list A :=
  take (Z.to_nat len) (drop (Z.to_nat off) l).

(** A read of [len] bytes at [off]: undefined unless the range is inside. *)
Definition load (off len : Z) (l : bytes) : outcome bytes :=
  if (0 <=? off) && (0 <=? len) && (off + len <=? zlen l)
  then Ok (slice off len l) else UB.

(** memset / memcpy source values *)
Definition fill (n b : Z) : bytes := replicate (Z.to_nat n) b.

(** memcpy into the array [l] at [off]. *)
Definition blit (off : Z) (d l : bytes) : bytes :=
  take (Z.to_nat off) l ++ d ++ drop (Z.to_nat off + length d) l.

Create Rewrite HintDb len.
#[export] Hint Rewrite @length_app @length_take @length_drop @length_replicate
  @length_insert @length_alter @length_cons @length_nil @length_fmap
  @length_zip_with @length_seq : len.

Ltac zl :=
  unfold zlen, fill, slice, blit in *; autorewrite with len in *; simpl length in *; try lia.

(** Linear arithmetic with division and remainder by constants. *)
Ltac zmod := Z.to_euclidean_division_equations; lia.

Ltac case_bool :=
  match goal with
  | |- context [?a <? ?b] => destruct (Z.ltb_spec a b)
  | |- context [?a <=? ?b] => destruct (Z.leb_spec a b)
  | |- context [?a =? ?b] => destruct (Z.eqb_spec a b)
  end.

Lemma zlen_nonneg {A} (l : list A) : 0 ≤ zlen l.
Proof. zl. Qed.

Lemma zlen_app {A} (l k : list A) : zlen (l ++ k) = zlen l + zlen k.
Proof. zl. Qed.

Lemma zlen_cons {A} (x : A) (l : list A) : zlen (x :: l) = 1 + zlen l.
Proof. zl. Qed.

Lemma zlen_nil {A} : zlen (@nil A) = 0.
Proof. done. Qed.

Lemma zlen_replicate {A} n (x : A) : zlen (replicate n x) = Z.of_nat n.
Proof. zl. Qed.

Lemma zlen_fill n b : 0 ≤ n → zlen (fill n b) = n.
Proof. zl. Qed.

Lemma zlen_slice {A} off len (l : list A) :
  0 ≤ off → 0 ≤ len → off + len ≤ zlen l → zlen (slice off len l) = len.
Proof. zl. Qed.

Lemma slice_app_add {A} off a b (l : list A) :
  0 ≤ off → 0 ≤ a → 0 ≤ b →
  slice off (a + b) l = slice off a l ++ slice (off + a) b l.
Proof.
  intros. unfold slice. rewrite !Z2Nat.inj_add by lia.
  rewrite <- (drop_drop l (Z.to_nat a) (Z.to_nat off)).
  by rewrite take_take_drop.
Qed.

Lemma slice_full {A} (l : list A) n : n = zlen l → slice 0 n l = l.
Proof. intros ->. unfold slice, zlen. rewrite Nat2Z.id. apply take_ge. lia. Qed.

Lemma slice_nil {A} off (l : list A) : slice off 0 l = [].
Proof. done. Qed.

Lemma slice_app_l {A} off n (l k : list A) :
  0 ≤ off → 0 ≤ n → off + n ≤ zlen l → slice off n (l ++ k) = slice off n l.
Proof.
  intros. unfold slice. rewrite drop_app_le by zl. rewrite take_app_le; zl. done.
Qed.

Lemma slice_app_r {A} off n (l k : list A) :
  off = zlen l → n = zlen k → slice off n (l ++ k) = k.
Proof.
  intros -> ->. unfold slice, zlen. rewrite !Nat2Z.id, drop_app_length.
  apply take_ge. lia.
Qed.

Lemma lookup_slice {A} off n (l : list A) i :
  (i < Z.to_nat n)%nat → slice off n l !! i = l !! (Z.to_nat off + i)%nat.
Proof. intros. unfold slice. rewrite lookup_take_lt by lia. by rewrite lookup_drop. Qed.

Lemma slice_slice {A} a n b m (l : list A) :
  0 ≤ a → 0 ≤ n → 0 ≤ b → a + n ≤ m → slice a n (slice b m l) = slice (b + a) n l.
Proof.
  intros. unfold slice. rewrite skipn_firstn_comm, take_take, drop_drop.
  f_equal; [lia|f_equal; lia].
Qed.

Lemma slice_cons {A} off n (l : list A) :
  0 ≤ off → 0 < n → off < zlen l →
  ∃ x, zget l off = Some x ∧ slice off n l = x :: slice (off + 1) (n - 1) l.
Proof.
  intros H0 Hn Hl. unfold zget, slice, zlen in *.
  replace (0 <=? off) with true by lia.
  destruct (lookup_lt_is_Some_2 l (Z.to_nat off) ltac:(lia)) as [x Hx].
  exists x. split; [done|].
  rewrite (drop_S _ _ _ Hx).
  replace (Z.to_nat n) with (S (Z.to_nat (n - 1))) by lia.
  replace (Z.to_nat (off + 1)) with (S (Z.to_nat off)) by lia. done.
Qed.

Lemma zget_zput {A} (l : list A) i j x :
  0 ≤ i < zlen l → zget (zput l i x) j = if i =? j then Some x else zget l j.
Proof.
  intros Hi. unfold zget, zput, zlen in *. replace (0 <=? i) with true by lia.
  destruct (Z.eqb_spec i j) as [<-|Hne].
  - replace (0 <=? i) with true by lia. apply list_lookup_insert_eq. lia.
  - destruct (Z.leb_spec 0 j); [|done]. apply list_lookup_insert_ne. lia.
Qed.

Lemma zlen_zput {A} (l : list A) i x : zlen (zput l i x) = zlen l.
Proof. unfold zput, zlen. destruct (0 <=? i); [by rewrite length_insert|done]. Qed.

Lemma zget_is_Some {A} (l : list A) i : 0 ≤ i < zlen l → ∃ x, zget l i = Some x.
Proof.
  intros Hi. unfold zget, zlen in *. replace (0 <=? i) with true by lia.
  apply lookup_lt_is_Some_2. lia.
Qed.

Lemma load_ok off len l :
  0 ≤ off → 0 ≤ len → off + len ≤ zlen l → load off len l = Ok (slice off len l).
Proof. intros. unfold load. destruct (_ && _) eqn:E; [done | lia]. Qed.

Lemma bytes_ok_app l k : bytes_ok (l ++ k) ↔ bytes_ok l ∧ bytes_ok k.
Proof. apply Forall_app. Qed.

Lemma bytes_ok_slice off n l : bytes_ok l → bytes_ok (slice off n l).
Proof. intros. apply Forall_take, Forall_drop. done. Qed.

Lemma bytes_ok_fill n b : is_byte b → bytes_ok (fill n b).
Proof. intros. apply Forall_replicate. done. Qed.

Lemma bytes_ok_cons b l : bytes_ok (b :: l) ↔ is_byte b ∧ bytes_ok l.
Proof. apply Forall_cons_iff. Qed.

Lemma bytes_okb l : forallb (fun b => (0 <=? b) && (b <? 256)) l = true → bytes_ok l.
Proof.
  intros Hl. apply List.Forall_forall. intros x Hx. rewrite List.forallb_forall in Hl.
  specialize (Hl x Hx). unfold is_byte. lia.
Qed.

Lemma is_byte_wrap z : is_byte (u8 z).
Proof. apply (wrap_range 8). lia. Qed.

Create HintDb fsd.
Create Rewrite HintDb zlen.
#[export] Hint Resolve bytes_ok_slice is_byte_wrap zlen_nonneg : fsd.
#[export] Hint Rewrite @zlen_app @zlen_cons @zlen_replicate : zlen.

(** * Little-endian integers *)

(** The value of a little-endian byte string, and the [n] low bytes of [z]. *)
Fixpoint le_val (l : bytes) : Z :=
  match l with [] => 0 | b :: l => b + 256 * le_val l end.

Fixpoint le_bytes (n : nat) (z : Z) : bytes :=
  match n with O => [] | S n => u8 z :: le_bytes n (z / 256) end.

Lemma length_le_bytes n z : length (le_bytes n z) = n.
Proof. revert z. induction n; simpl; auto. Qed.

Lemma le_bytes_ok n z : bytes_ok (le_bytes n z).
Proof.
  revert z. induction n as [|n IH]; intros z; simpl; [constructor|].
  constructor; [apply is_byte_wrap | apply IH].
Qed.

Lemma le_val_bytes n z : le_val (le_bytes n z) = z mod 2 ^ (8 * Z.of_nat n).
Proof.
  revert z. induction n as [|n IH]; intros z.
  { simpl. by rewrite Z.mod_1_r. }
  cbn [le_bytes le_val]. rewrite IH.
  replace (8 * Z.of_nat (S n)) with (8 + 8 * Z.of_nat n) by lia.
  rewrite Z.pow_add_r by lia. unfold wrap. change (2 ^ 8) with 256.
  rewrite Z.rem_mul_r; lia.
Qed.

Lemma le_val_range l : bytes_ok l → 0 ≤ le_val l < 2 ^ (8 * zlen l).
Proof.
  induction 1 as [|b l Hb _ IH]; [split; done|].
  cbn [le_val]. rewrite zlen_cons, Z.mul_add_distr_l, Z.pow_add_r by zl.
  change (2 ^ (8 * 1)) with 256. unfold is_byte in Hb. simpl in IH. lia.
Qed.

Lemma le_val_app l k : le_val (l ++ k) = le_val l + 2 ^ (8 * zlen l) * le_val k.
Proof.
  induction l as [|b l IH]; cbn [le_val app].
  - change (2 ^ (8 * zlen [])) with 1. lia.
  - rewrite IH, zlen_cons, (Z.mul_add_distr_l 8), Z.pow_add_r by zl.
    change (2 ^ (8 * 1)) with 256. lia.
Qed.

(** C assembles an integer from bytes with shifts and bitwise or; on disjoint
    bit ranges that is addition. *)
Lemma lor_shiftl_add a b n :
  0 ≤ n → 0 ≤ a < 2 ^ n → 0 ≤ b → Z.lor a (Z.shiftl b n) = a + b * 2 ^ n.
Proof.
  intros Hn Ha Hb. rewrite <- Z.shiftl_mul_pow2 by done.
  rewrite Z.add_nocarry_lxor, Z.lxor_lor; try done;
    apply Z.bits_inj'; intros i Hi; rewrite Z.land_spec, Z.bits_0;
    (destruct (decide (i < n));
     [rewrite Z.shiftl_spec_low by lia; apply andb_false_r
     |rewrite <- (Z.mod_small a (2 ^ n)) by lia;
      rewrite Z.mod_pow2_bits_high by lia; done]).
Qed.

Lemma land_ones_mod z n : 0 ≤ n → Z.land z (2 ^ n - 1) = z mod 2 ^ n.
Proof. intros. rewrite <- Z.land_ones by done. f_equal. rewrite Z.ones_equiv. lia. Qed.

Lemma land_255 z : Z.land z 255 = u8 z.
Proof. apply (land_ones_mod z 8). lia. Qed.

Lemma le_bytes_val n l : bytes_ok l → length l = n → le_bytes n (le_val l) = l.
Proof.
  intros Hl <-. induction Hl as [|b l Hb Hl IH]; simpl; [done|].
  unfold is_byte in Hb. f_equal.
  - unfold wrap. change (2 ^ 8) with 256. rewrite (Z.mul_comm 256), Z.mod_add by lia.
    apply Z.mod_small. lia.
  - rewrite (Z.mul_comm 256), Z.div_add by lia. rewrite Z.div_small by lia. done.
Qed.

Lemma lor_range w a b : 0 ≤ a < 2 ^ w → 0 ≤ b < 2 ^ w → 0 ≤ Z.lor a b < 2 ^ w.
Proof.
  intros Ha Hb. assert (0 ≤ Z.lor a b) by (apply Z.lor_nonneg; lia). split; [done|].
  destruct (decide (w < 0)) as [Hw|Hw]; [rewrite Z.pow_neg_r in Ha; lia|].
  destruct (decide (Z.lor a b = 0)) as [->|Hne]; [apply Z.pow_pos_nonneg; lia|].
  apply Z.log2_lt_pow2; [lia|]. rewrite Z.log2_lor by lia.
  assert (∀ x, 0 ≤ x < 2 ^ w → 0 < w → Z.log2 x < w) as Hlog.
  { intros x Hx Hw0. destruct (decide (x = 0)) as [->|]; [done|].
    apply Z.log2_lt_pow2; lia. }
  assert (0 < w).
  { destruct (decide (w = 0)) as [->|]; [|lia].
    exfalso. apply Hne. change (2 ^ 0) with 1 in *.
    replace a with 0 by lia. replace b with 0 by lia. done. }
  apply Z.max_lub_lt; auto.
Qed.

(** * Checked stores, allocation *)

(** memcpy of [d] to offset [off] of an array: undefined unless it fits. *)
Definition store (off : Z) (d l : bytes) : outcome bytes :=
  if (0 <=? off) && (off + zlen d <=? zlen l) then Ok (blit off d l) else UB.

Lemma store_ok off d l :
  0 ≤ off → off + zlen d ≤ zlen l → store off d l = Ok (blit off d l).
Proof. intros. unfold store. destruct (_ && _) eqn:E; [done | lia]. Qed.

Lemma zlen_blit off d l : 0 ≤ off → off + zlen d ≤ zlen l → zlen (blit off d l) = zlen l.
Proof. zl. Qed.

Lemma slice_blit off d l :
  0 ≤ off → off + zlen d ≤ zlen l →
  slice 0 (off + zlen d) (blit off d l) = slice 0 off l ++ d.
Proof.
  intros. unfold slice, blit. rewrite drop_0, app_assoc, drop_0.
  apply take_app_length'. zl.
Qed.

(** malloc and calloc: [true] when the allocation of that many bytes succeeds. *)
Abbreviation allocator := (Z → bool).

(** * Alignment masks *)

(** [x & ~(2^k - 1)] on 64-bit words. *)
Lemma land_align x k :
  0 ≤ k → 0 ≤ x < 2 ^ 64 →
  Z.land x (u64 (Z.lnot (2 ^ k - 1))) = x / 2 ^ k * 2 ^ k.
Proof.
  intros Hk Hx. unfold wrap. rewrite <- Z.land_ones by lia.
  rewrite (Z.land_comm (Z.lnot _)), Z.land_assoc, Z.land_ones by lia.
  rewrite (Z.mod_small x) by lia.
  replace (2 ^ k - 1) with (Z.ones k) by (rewrite Z.ones_equiv; lia).
  rewrite <- Z.ldiff_land, Z.ldiff_ones_r by lia.
  by rewrite Z.shiftl_mul_pow2, Z.shiftr_div_pow2 by lia.
Qed.

Lemma align_down_bounds x a : 0 < a → x - a < x / a * a ≤ x.
Proof. intros. pose proof (Z.div_mod x a). pose proof (Z.mod_pos_bound x a). lia. Qed.

(** The usual test for a power of two. *)
Lemma land_pred_pow2 a : 0 < a → Z.land a (a - 1) = 0 → a = 2 ^ Z.log2 a.
Proof.
  intros Ha Hz. destruct (Z.log2_spec a Ha) as [Hlo Hhi].
  destruct (decide (a = 2 ^ Z.log2 a)) as [|Hne]; [done|]. exfalso.
  assert (Z.log2 (a - 1) = Z.log2 a) as Hl by (apply Z.log2_unique; [apply Z.log2_nonneg | lia]).
  assert (Z.testbit (Z.land a (a - 1)) (Z.log2 a) = true) as Ht.
  { rewrite Z.land_spec, Z.bit_log2 by lia. rewrite <- Hl. rewrite Z.bit_log2; [done|].
    assert (1 ≤ 2 ^ Z.log2 a) by (apply (Z.pow_le_mono_r 2 0); [lia | apply Z.log2_nonneg]). lia. }
  by rewrite Hz, Z.bits_0 in Ht.
Qed.

(** Testing one bit with a mask. *)
Lemma land_bit x n : 0 ≤ n → negb (Z.land x (Z.shiftl 1 n) =? 0) = Z.testbit x n.
Proof.
  intros Hn. destruct (Z.testbit x n) eqn:E.
  - apply negb_true_iff, Z.eqb_neq. intros H0. apply (f_equal (fun z => Z.testbit z n)) in H0.
    rewrite Z.land_spec, E, Z.shiftl_spec, Z.sub_diag, Z.bits_0 in H0 by lia. done.
  - apply negb_false_iff, Z.eqb_eq. apply Z.bits_inj'. intros i Hi.
    rewrite Z.land_spec, Z.shiftl_spec, Z.bits_0 by lia.
    destruct (decide (i = n)) as [->|Hne]; [by rewrite E|].
    destruct (decide (i < n)); [rewrite (Z.testbit_neg_r 1) by lia|rewrite (Z.bits_above_log2 1) by (cbn; lia)];
      apply andb_false_r.
Qed.

(** A sorted list with one element more. *)
Lemma StronglySorted_snoc {X} (R : X → X → Prop) l x :
  StronglySorted R (l ++ [x]) ↔ StronglySorted R l ∧ Forall (fun y => R y x) l.
Proof.
  induction l as [|y l IH]; cbn.
  { split; intros; repeat constructor. }
  split.
  - intros Hs. apply StronglySorted_inv in Hs as [Hs Hf].
    apply IH in Hs as [??]. apply Forall_app in Hf as [? Hx].
    inversion_clear Hx. split; constructor; done.
  - intros [Hs Hf]. apply StronglySorted_inv in Hs as [? ?].
    inversion_clear Hf. constructor; [by apply IH|].
    apply Forall_app; split; [done | constructor; done].
Qed.
