(* ===== verification/Stdio.v ===== *)
(** The part of C's stdio the program uses.

    A [FILE] is the bytes of the stream, the position of the next read, and what
    the environment will do: how many more bytes the device accepts, whether the
    final flush and close reach the disk.  Output streams are only appended to. *)

From S2P Require Import Prelude.
From stdpp Require Import base list numbers tactics strings.
From Stdlib Require Import ZArith Lia Ascii.
Open Scope Z_scope.

(** The bytes of a string literal. *)
Definition bytes_of (s : string) : bytes := (fun c => Z.of_N (N_of_ascii c)) <$> String.list_ascii_of_string s.

Record FILE : Type := mkFILE {
  f_data : bytes;
  f_pos : Z;
  f_room : Z;
  f_flush_ok : bool;
  f_close_ok : bool
}.

(** A stream on an empty file whose device accepts [room] bytes. *)
Definition file_new (room : Z) : FILE := mkFILE [] 0 room true true.

(** A stream opened for reading. *)
Definition file_of (d : bytes) : FILE := mkFILE d 0 0 true true.

Definition fwrite (d : bytes) (f : FILE) : Z * FILE :=
  let n := Z.min (zlen d) (Z.max 0 (f_room f)) in
  (n, mkFILE (f_data f ++ take (Z.to_nat n) d) (f_pos f) (f_room f - n)
             (f_flush_ok f) (f_close_ok f)).

Definition fread (n : Z) (f : FILE) : bytes * FILE :=
  let d := slice (f_pos f) n (f_data f) in
  (d, mkFILE (f_data f) (f_pos f + zlen d) (f_room f) (f_flush_ok f) (f_close_ok f)).

Definition rewind (f : FILE) : FILE :=
  mkFILE (f_data f) 0 (f_room f) (f_flush_ok f) (f_close_ok f).

(** fflush and fclose: [true] is a zero return. *)
Definition fflush (f : FILE) : bool := f_flush_ok f.
Definition fclose (f : FILE) : bool := f_close_ok f.

(** What the file holds once an output stream is closed: the bytes written when the
    last buffer reaches the disk, and nothing to rely on when it does not. *)
Definition file_left (f : FILE) : option bytes := if fclose f then Some (f_data f) else None.

(** The bytes the stream can hold in all. *)
Definition f_cap (f : FILE) : Z := zlen (f_data f) + Z.max 0 (f_room f).

Lemma fwrite_fits d f :
  zlen d ≤ f_room f →
  fwrite d f = (zlen d, mkFILE (f_data f ++ d) (f_pos f) (f_room f - zlen d)
                               (f_flush_ok f) (f_close_ok f)).
Proof.
  intros H. unfold fwrite. rewrite Z.min_l by (pose proof (zlen_nonneg d); lia).
  unfold zlen. by rewrite Nat2Z.id, firstn_all.
Qed.

Lemma fwrite_short d f :
  d ≠ [] → f_room f < zlen d → ∃ f', fwrite d f = (Z.max 0 (f_room f), f') ∧
    f_cap f' = f_cap f ∧ Z.max 0 (f_room f) ≠ zlen d.
Proof.
  intros Hd H. assert (0 < zlen d) by (destruct d; [done | rewrite zlen_cons; zl]).
  unfold fwrite. rewrite Z.min_r by lia. eexists; split; [done|]. split; [|lia].
  unfold f_cap; simpl. rewrite zlen_app. unfold zlen at 2.
  rewrite length_take. zl.
Qed.

Lemma fwrite_cap d f n f' : fwrite d f = (n, f') → f_cap f' = f_cap f.
Proof.
  unfold fwrite, f_cap. intros [= <- <-]; simpl. rewrite zlen_app.
  unfold zlen at 2. rewrite length_take. zl.
Qed.
