(* ===== verification/Header.v ===== *)
(** The BKDF header: src/src/encoding/bkdf_header.c and the format structure of
    include/fsdiff/types.h. *)

From S2P Require Import Prelude Stdio.
From stdpp Require Import base list numbers tactics.
From Stdlib Require Import ZArith Lia.
Open Scope Z_scope.

Definition FSD_VERSION : Z := 1.
Definition FSD_HEADER_SIZE : Z := 32.

Record fsd_header_t : Type := mkHeader {
  magic : bytes;
  version : Z;
  block_size_log2 : Z;
  reserved : Z;
  dest_blocks : Z;
  op_stream_len : Z;
  diff_stream_len : Z
}.

(** [p[0] | p[1] << 8 | ... | p[7] << 56] *)
Definition read_u64_le (p : bytes) : outcome Z :=
  match p with
  | p0 :: p1 :: p2 :: p3 :: p4 :: p5 :: p6 :: p7 :: _ =>
      Ok (Z.lor (Z.lor (Z.lor (Z.lor (Z.lor (Z.lor (Z.lor p0
           (Z.shiftl p1 8)) (Z.shiftl p2 16)) (Z.shiftl p3 24)) (Z.shiftl p4 32))
           (Z.shiftl p5 40)) (Z.shiftl p6 48)) (Z.shiftl p7 56))
  | _ => UB
  end.

Definition write_u64_le (v : Z) : bytes :=
  [ u8 (Z.land v 255);
    u8 (Z.land (Z.shiftr v 8) 255);
    u8 (Z.land (Z.shiftr v 16) 255);
    u8 (Z.land (Z.shiftr v 24) 255);
    u8 (Z.land (Z.shiftr v 32) 255);
    u8 (Z.land (Z.shiftr v 40) 255);
    u8 (Z.land (Z.shiftr v 48) 255);
    u8 (Z.land (Z.shiftr v 56) 255) ].

(** The 32-byte array [header] that fsd_header_write fills. *)
Definition header_buf (dest_blocks block_size_log2 op_stream_len diff_stream_len : Z)
    : bytes :=
  let header := fill FSD_HEADER_SIZE 0 in
  let header := zput header 0 66 in        (* 'B' *)
  let header := zput header 1 75 in        (* 'K' *)
  let header := zput header 2 68 in        (* 'D' *)
  let header := zput header 3 70 in        (* 'F' *)
  let header := zput header 4 FSD_VERSION in
  let header := zput header 5 block_size_log2 in
  let header := blit 8 (write_u64_le dest_blocks) header in
  let header := blit 16 (write_u64_le op_stream_len) header in
  blit 24 (write_u64_le diff_stream_len) header.

Definition fsd_header_write (file : option FILE)
    (dest_blocks block_size_log2 op_stream_len diff_stream_len : Z)
    : fsd_error_t * option FILE :=
  match file with
  | None => (FSD_ERR_INVALID_ARG, None)
  | Some f =>
      let header := header_buf dest_blocks block_size_log2 op_stream_len diff_stream_len in
      let '(n, f') := fwrite header f in
      if negb (n =? FSD_HEADER_SIZE) then (FSD_ERR_IO, Some f') else (FSD_SUCCESS, Some f')
  end.

Definition byte_at (l : bytes) (i : Z) : outcome Z :=
  match zget l i with Some b => Ok b | None => UB end.

Definition fsd_header_read_memory (data : option bytes) (len : Z)
    : outcome fsd_header_t :=
  match data with
  | None => Err FSD_ERR_INVALID_ARG
  | Some buf =>
      if len <? FSD_HEADER_SIZE then Err FSD_ERR_INVALID_ARG else
      b0 ← byte_at buf 0; b1 ← byte_at buf 1; b2 ← byte_at buf 2; b3 ← byte_at buf 3;
      if negb (b0 =? 66) || negb (b1 =? 75) || negb (b2 =? 68) || negb (b3 =? 70)
      then Err FSD_ERR_BAD_MAGIC else
      b4 ← byte_at buf 4;
      if negb (b4 =? FSD_VERSION) then Err FSD_ERR_BAD_VERSION else
      b5 ← byte_at buf 5;
      if (b5 <? 5) || (24 <? b5) then Err FSD_ERR_BAD_BLOCK_SIZE else
      b6 ← byte_at buf 6; b7 ← byte_at buf 7;
      if negb (b6 =? 0) || negb (b7 =? 0) then Err FSD_ERR_CORRUPT_DATA else
      db ← read_u64_le (drop 8 buf);
      ol ← read_u64_le (drop 16 buf);
      dl ← read_u64_le (drop 24 buf);
      Ok {| magic := slice 0 4 buf; version := b4; block_size_log2 := b5;
            reserved := 0; dest_blocks := db; op_stream_len := ol;
            diff_stream_len := dl |}
  end.

Definition fsd_header_read (file : option FILE) : outcome fsd_header_t * option FILE :=
  match file with
  | None => (Err FSD_ERR_INVALID_ARG, None)
  | Some f =>
      let '(buf, f') := fread FSD_HEADER_SIZE f in
      if negb (zlen buf =? FSD_HEADER_SIZE) then (Err FSD_ERR_TRUNCATED, Some f')
      else (fsd_header_read_memory (Some buf) FSD_HEADER_SIZE, Some f')
  end.

(** * Little-endian loads and stores *)

Lemma write_u64_le_bytes v : write_u64_le v = le_bytes 8 v.
Proof.
  unfold write_u64_le. cbn [le_bytes]. rewrite !land_255, !Z.shiftr_div_pow2 by lia.
  rewrite !Z.div_div by lia.
  unfold wrap. rewrite !Z.mod_mod by lia. reflexivity.
Qed.

Lemma length_write_u64_le v : length (write_u64_le v) = 8%nat.
Proof. done. Qed.

Lemma read_u64_le_val p :
  bytes_ok p → (8 ≤ length p)%nat → read_u64_le p = Ok (le_val (take 8 p)).
Proof.
  intros Hp Hl.
  do 8 (destruct p as [|?b p]; [simpl in Hl; lia|]; apply bytes_ok_cons in Hp as [?Hb Hp]).
  cbn [read_u64_le take le_val]. unfold is_byte in *. f_equal.
  change (le_val (take 0 p)) with 0.
  rewrite (lor_shiftl_add _ _ 8), (lor_shiftl_add _ _ 16), (lor_shiftl_add _ _ 24),
    (lor_shiftl_add _ _ 32), (lor_shiftl_add _ _ 40), (lor_shiftl_add _ _ 48),
    (lor_shiftl_add _ _ 56); lia.
Qed.

Lemma read_write_u64 v k :
  0 ≤ v < 2 ^ 64 → bytes_ok k → read_u64_le (write_u64_le v ++ k) = Ok v.
Proof.
  intros Hv Hk. rewrite read_u64_le_val.
  - rewrite take_app_length' by done. rewrite write_u64_le_bytes, le_val_bytes.
    by rewrite Z.mod_small.
  - apply bytes_ok_app; split; [|done]. rewrite write_u64_le_bytes. apply le_bytes_ok.
  - rewrite length_app, length_write_u64_le. lia.
Qed.

(** * The header as 32 bytes *)

Lemma header_buf_eq db bl ol dl :
  header_buf db bl ol dl =
  [66; 75; 68; 70; FSD_VERSION; bl; 0; 0] ++
  write_u64_le db ++ write_u64_le ol ++ write_u64_le dl.
Proof. reflexivity. Qed.

Lemma zlen_header_buf db bl ol dl : zlen (header_buf db bl ol dl) = FSD_HEADER_SIZE.
Proof. reflexivity. Qed.

Lemma header_buf_ok db bl ol dl : is_byte bl → bytes_ok (header_buf db bl ol dl).
Proof.
  intros Hb. rewrite header_buf_eq, !write_u64_le_bytes, !bytes_ok_app. split; [|split_and!; apply le_bytes_ok].
  rewrite !bytes_ok_cons. unfold is_byte, FSD_VERSION in *. split_and!; first [lia|apply Forall_nil_2].
Qed.

Definition u64_ok (z : Z) : Prop := 0 ≤ z < 2 ^ 64.

(** The header record that reading back a written header must give. *)
Definition header_of (db bl ol dl : Z) : fsd_header_t :=
  {| magic := [66; 75; 68; 70]; version := FSD_VERSION; block_size_log2 := bl;
     reserved := 0; dest_blocks := db; op_stream_len := ol; diff_stream_len := dl |}.

(** What the reader computes on a buffer of 32 bytes or more, split in fields. *)
Lemma header_read_parts b0 b1 b2 b3 b4 b5 b6 b7 D O L k len :
  length D = 8%nat → length O = 8%nat → length L = 8%nat →
  bytes_ok D → bytes_ok O → bytes_ok L → bytes_ok k → FSD_HEADER_SIZE ≤ len →
  fsd_header_read_memory (Some ([b0; b1; b2; b3; b4; b5; b6; b7] ++ D ++ O ++ L ++ k)) len =
  if negb (b0 =? 66) || negb (b1 =? 75) || negb (b2 =? 68) || negb (b3 =? 70)
  then Err FSD_ERR_BAD_MAGIC else
  if negb (b4 =? FSD_VERSION) then Err FSD_ERR_BAD_VERSION else
  if (b5 <? 5) || (24 <? b5) then Err FSD_ERR_BAD_BLOCK_SIZE else
  if negb (b6 =? 0) || negb (b7 =? 0) then Err FSD_ERR_CORRUPT_DATA else
  Ok {| magic := [b0; b1; b2; b3]; version := b4; block_size_log2 := b5;
        reserved := 0; dest_blocks := le_val D; op_stream_len := le_val O;
        diff_stream_len := le_val L |}.
Proof.
  intros HD HO HL okD okO okL okk Hlen.
  unfold fsd_header_read_memory. destruct (Z.ltb_spec len FSD_HEADER_SIZE); [lia|].
  change (drop 8 ([b0; b1; b2; b3; b4; b5; b6; b7] ++ D ++ O ++ L ++ k))
    with (D ++ O ++ L ++ k).
  change (drop 16 ([b0; b1; b2; b3; b4; b5; b6; b7] ++ D ++ O ++ L ++ k))
    with (drop 8 (D ++ O ++ L ++ k)).
  change (drop 24 ([b0; b1; b2; b3; b4; b5; b6; b7] ++ D ++ O ++ L ++ k))
    with (drop 16 (D ++ O ++ L ++ k)).
  rewrite (drop_app_length' D _ 8) by lia.
  rewrite (app_assoc D O), (drop_app_length' (D ++ O) _ 16) by (rewrite length_app; lia).
  rewrite <- app_assoc. set (buf := _ ++ D ++ _).
  change (byte_at buf 0) with (Ok b0). change (byte_at buf 1) with (Ok b1).
  change (byte_at buf 2) with (Ok b2). change (byte_at buf 3) with (Ok b3).
  change (byte_at buf 4) with (Ok b4). change (byte_at buf 5) with (Ok b5).
  change (byte_at buf 6) with (Ok b6). change (byte_at buf 7) with (Ok b7).
  change (slice 0 4 buf) with [b0; b1; b2; b3].
  rewrite !read_u64_le_val by (rewrite ?length_app; try lia; rewrite ?bytes_ok_app; auto).
  rewrite !take_app_length' by lia.
  reflexivity.
Qed.

Lemma header_split (buf : bytes) :
  (32 ≤ length buf)%nat → bytes_ok buf →
  ∃ b0 b1 b2 b3 b4 b5 b6 b7 D O L k,
    buf = [b0; b1; b2; b3; b4; b5; b6; b7] ++ D ++ O ++ L ++ k ∧
    length D = 8%nat ∧ length O = 8%nat ∧ length L = 8%nat ∧
    bytes_ok D ∧ bytes_ok O ∧ bytes_ok L ∧ bytes_ok k.
Proof.
  intros Hl Hok.
  do 8 (destruct buf as [|?b buf]; [simpl in Hl; lia|]; apply bytes_ok_cons in Hok as [_ Hok]).
  do 8 eexists. exists (take 8 buf), (take 8 (drop 8 buf)), (take 8 (drop 16 buf)), (drop 24 buf).
  simpl in Hl. split.
  { change (drop 24 buf) with (drop (16 + 8) buf).
    rewrite <- (drop_drop buf 8 16), take_drop.
    change (drop 16 buf) with (drop (8 + 8) buf).
    rewrite <- (drop_drop buf 8 8), take_drop, take_drop. done. }
  rewrite !length_take, !length_drop.
  repeat split; try lia; repeat first [apply Forall_take | apply Forall_drop]; done.
Qed.

(** ** Theorems *)

(** A header written by fsd_header_write is read back with the same fields,
    whatever follows it in the buffer. *)
Lemma header_read_buf db bl ol dl k len :
  5 ≤ bl ≤ 24 → u64_ok db → u64_ok ol → u64_ok dl → bytes_ok k → FSD_HEADER_SIZE ≤ len →
  fsd_header_read_memory (Some (header_buf db bl ol dl ++ k)) len =
  Ok (header_of db bl ol dl).
Proof.
  intros Hbl Hdb Hol Hdl Hk Hlen. rewrite header_buf_eq, !write_u64_le_bytes, <- !app_assoc.
  rewrite header_read_parts by (auto using length_le_bytes, le_bytes_ok).
  rewrite !le_val_bytes, !Z.mod_small by done. simpl.
  destruct (Z.ltb_spec bl 5); [lia|]. destruct (Z.ltb_spec 24 bl); [lia|]. done.
Qed.

Lemma header_read_defined buf len :
  len ≤ zlen buf → bytes_ok buf → defined (fsd_header_read_memory (Some buf) len).
Proof.
  intros Hlen Hok. destruct (Z.ltb_spec len FSD_HEADER_SIZE) as [H|H].
  - unfold fsd_header_read_memory.
    destruct (Z.ltb_spec len FSD_HEADER_SIZE); [done | lia].
  - destruct (header_split buf) as
      (b0 & b1 & b2 & b3 & b4 & b5 & b6 & b7 & D & O & L & k & -> & ? & ? & ? & ? & ? & ? & ?);
      [unfold FSD_HEADER_SIZE in *; zl | done |].
    rewrite header_read_parts by done. repeat case_match; done.
Qed.

(** What fsd_header_write puts in an empty file with room for it,
    fsd_header_read reads back field for field. *)
Theorem header_write_read_roundtrip db bl ol dl f :
  5 ≤ bl ≤ 24 → u64_ok db → u64_ok ol → u64_ok dl →
  f_data f = [] → FSD_HEADER_SIZE ≤ f_room f →
  ∃ f', fsd_header_write (Some f) db bl ol dl = (FSD_SUCCESS, Some f') ∧
        zlen (f_data f') = FSD_HEADER_SIZE ∧
        fst (fsd_header_read (Some (rewind f'))) = Ok (header_of db bl ol dl).
Proof.
  intros Hbl Hdb Hol Hdl Hd Hroom. unfold fsd_header_write.
  rewrite fwrite_fits by (rewrite zlen_header_buf; done).
  rewrite zlen_header_buf, Z.eqb_refl. simpl negb.
  eexists; split; [done|]. rewrite Hd; cbn [f_data app].
  split; [apply zlen_header_buf|].
  unfold fsd_header_read, fread, rewind; cbn [f_data f_pos].
  rewrite slice_full by (by rewrite zlen_header_buf).
  rewrite zlen_header_buf, Z.eqb_refl. simpl negb. cbv iota. cbn [fst].
  rewrite <- (app_nil_r (header_buf db bl ol dl)).
  apply header_read_buf; try done; constructor.
Qed.

(** An accepted buffer starts with the header that fsd_header_write produces for
    the fields returned, and those fields are in range. *)
Lemma header_read_inv buf h :
  bytes_ok buf → fsd_header_read_memory (Some buf) (zlen buf) = Ok h →
  slice 0 FSD_HEADER_SIZE buf =
    header_buf (dest_blocks h) (block_size_log2 h) (op_stream_len h) (diff_stream_len h) ∧
  5 ≤ block_size_log2 h ≤ 24 ∧
  u64_ok (dest_blocks h) ∧ u64_ok (op_stream_len h) ∧ u64_ok (diff_stream_len h) ∧
  h = header_of (dest_blocks h) (block_size_log2 h) (op_stream_len h) (diff_stream_len h).
Proof.
  intros Hok Hr. destruct (Z.ltb_spec (zlen buf) FSD_HEADER_SIZE) as [Hs|Hs].
  { unfold fsd_header_read_memory in Hr.
    destruct (Z.ltb_spec (zlen buf) FSD_HEADER_SIZE); [done | lia]. }
  destruct (header_split buf) as
      (b0 & b1 & b2 & b3 & b4 & b5 & b6 & b7 & D & O & L & k & -> & HD & HO & HL & okD & okO & okL & okk);
      [unfold FSD_HEADER_SIZE in *; zl | done |].
  rewrite header_read_parts in Hr by done.
  repeat case_match; try done. injection Hr as <-.
  cbn [dest_blocks block_size_log2 op_stream_len diff_stream_len].
  rewrite header_buf_eq, !write_u64_le_bytes, !le_bytes_val by done.
  assert (b0 = 66 ∧ b1 = 75 ∧ b2 = 68 ∧ b3 = 70 ∧ b4 = FSD_VERSION ∧ b6 = 0 ∧ b7 = 0)
    as (-> & -> & -> & -> & -> & -> & ->) by lia.
  pose proof (le_val_range D okD). pose proof (le_val_range O okO).
  pose proof (le_val_range L okL). unfold zlen in *. rewrite HD, HO, HL in *.
  split; [|unfold u64_ok; split_and!; lia || done].
  rewrite !app_assoc. apply take_app_length'. unfold FSD_HEADER_SIZE. zl.
Qed.

(** Reading the header from the stream gives the same as reading it from the
    mapped file. *)
Lemma header_read_file p h :
  bytes_ok p → fsd_header_read_memory (Some p) (zlen p) = Ok h →
  fst (fsd_header_read (Some (file_of p))) = Ok h.
Proof.
  intros Hok Hh. destruct (header_read_inv p h Hok Hh) as (Hs & Hbl & Hdb & Hol & Hdl & Hof).
  unfold fsd_header_read, fread, file_of; cbn [f_data f_pos].
  rewrite Hs, zlen_header_buf, Z.eqb_refl. simpl negb. cbv iota. cbn [fst].
  rewrite Hof at 5. rewrite <- (app_nil_r (header_buf _ _ _ _)).
  apply header_read_buf; try done; constructor.
Qed.

(** C39: the reader accepts exactly the buffers that start with a header as
    fsd_header_write writes it, and returns the fields it was written from. *)
Theorem header_read_canonical buf h :
  bytes_ok buf →
  fsd_header_read_memory (Some buf) (zlen buf) = Ok h ↔
  ∃ db bl ol dl k, buf = header_buf db bl ol dl ++ k ∧ h = header_of db bl ol dl ∧
    5 ≤ bl ≤ 24 ∧ u64_ok db ∧ u64_ok ol ∧ u64_ok dl.
Proof.
  intros Hok. split.
  - intros Hr. destruct (header_read_inv buf h Hok Hr) as (Hs & Hbl & Hdb & Hol & Hdl & Hh).
    exists (dest_blocks h), (block_size_log2 h), (op_stream_len h), (diff_stream_len h),
      (drop (Z.to_nat FSD_HEADER_SIZE) buf).
    split_and!; try done; try lia. rewrite <- Hs. unfold slice. by rewrite take_drop.
  - intros (db & bl & ol & dl & k & -> & -> & Hbl & Hdb & Hol & Hdl).
    apply bytes_ok_app in Hok as [_ Hk].
    apply header_read_buf; try done. rewrite zlen_app, zlen_header_buf.
    pose proof (zlen_nonneg k). lia.
Qed.

Lemma header_write_read_roundtrip_witness :
  ∃ f', fsd_header_write (Some (file_new 100)) 1000 12 77 2 = (FSD_SUCCESS, Some f') ∧
        zlen (f_data f') = FSD_HEADER_SIZE ∧
        fst (fsd_header_read (Some (rewind f'))) = Ok (header_of 1000 12 77 2).
Proof.
  apply (header_write_read_roundtrip 1000 12 77 2 (file_new 100)); done.
Defined.

Lemma header_read_canonical_witness :
  fsd_header_read_memory (Some (header_buf 3 5 1 0 ++ [9])) 33 = Ok (header_of 3 5 1 0) ↔
  ∃ db bl ol dl k, header_buf 3 5 1 0 ++ [9] = header_buf db bl ol dl ++ k ∧
    header_of 3 5 1 0 = header_of db bl ol dl ∧
    5 ≤ bl ≤ 24 ∧ u64_ok db ∧ u64_ok ol ∧ u64_ok dl.
Proof.
  apply (header_read_canonical (header_buf 3 5 1 0 ++ [9])). by apply bytes_okb.
Defined.
