(* ===== verification/Writer.v ===== *)
(** Buffered output: src/src/io/buffered_writer.c.

    The encoder writes its three streams through this component.  What it relies
    on is the class [ByteSink] below: a sink has a view (all bytes given to it so
    far) and a capacity; a write appends to the view, or fails with FSD_ERR_IO
    only when the view would outgrow the capacity.  The buffered writer is an
    instance. *)

From S2P Require Import Prelude Stdio.
From stdpp Require Import base list numbers tactics strings.
From Stdlib Require Import ZArith Lia.
Open Scope Z_scope.

(** * The interface *)

Class ByteSink (W : Type) : Type := {
  snk_byte : Z → ST W unit;
  snk_write : bytes → ST W unit;
  snk_size : W → Z
}.

Class ByteSinkSpec (W : Type) : Type := {
  snk_ok : W → Prop;
  snk_view : W → bytes;
  snk_cap : W → Z
}.

(** One write of [d], from [w] to the result [rw]. *)
Definition sink_step {W} `{ByteSinkSpec W} (w : W) (d : bytes) (rw : outcome unit * W) : Prop :=
  (fst rw = Ok tt ∧ snk_ok (snd rw) ∧ snk_view (snd rw) = snk_view w ++ d ∧
   snk_cap (snd rw) = snk_cap w) ∨
  (fst rw = Err FSD_ERR_IO ∧ snk_cap w < zlen (snk_view w) + zlen d).

Class ByteSinkLaws (W : Type) `{ByteSink W, ByteSinkSpec W} : Prop := {
  snk_byte_law b w : snk_ok w → sink_step w [b] (snk_byte b w);
  snk_write_law d w : snk_ok w → sink_step w d (snk_write d w);
  snk_size_law w : snk_ok w → snk_size w = zlen (snk_view w)
}.

(** Multi-byte writes: one fsd_writer_write of a local array. *)
Definition fsd_writer_write_u16_le {W} `{ByteSink W} (value : Z) : ST W unit :=
  snk_write [u8 (Z.land value 255); u8 (Z.land (Z.shiftr value 8) 255)].

Definition fsd_writer_write_u32_le {W} `{ByteSink W} (value : Z) : ST W unit :=
  snk_write [u8 (Z.land value 255); u8 (Z.land (Z.shiftr value 8) 255);
             u8 (Z.land (Z.shiftr value 16) 255); u8 (Z.land (Z.shiftr value 24) 255)].

Definition fsd_writer_write_u64_le {W} `{ByteSink W} (value : Z) : ST W unit :=
  snk_write [u8 (Z.land value 255); u8 (Z.land (Z.shiftr value 8) 255);
             u8 (Z.land (Z.shiftr value 16) 255); u8 (Z.land (Z.shiftr value 24) 255);
             u8 (Z.land (Z.shiftr value 32) 255); u8 (Z.land (Z.shiftr value 40) 255);
             u8 (Z.land (Z.shiftr value 48) 255); u8 (Z.land (Z.shiftr value 56) 255)].

(** * The buffered writer *)

Definition FSD_WRITER_DEFAULT_BUFFER : Z := 64 * 1024.

Record fsd_buffered_writer_t : Type := mkWriter {
  file : FILE;
  buffer : bytes;
  buffer_size : Z;
  buffer_pos : Z;
  total_written : Z;
  owns_file : bool
}.

Definition set_buffer (b : bytes) (pos : Z) (w : fsd_buffered_writer_t) :=
  mkWriter (file w) b (buffer_size w) pos (total_written w) (owns_file w).

Definition set_owns_file (b : bool) (w : fsd_buffered_writer_t) :=
  mkWriter (file w) (buffer w) (buffer_size w) (buffer_pos w) (total_written w) b.

(** sizeof(fsd_buffered_writer_t) on an LP64 target *)
Definition SIZEOF_WRITER : Z := 48.

Definition fsd_writer_create_from_file (malloc_ok : allocator) (f : option FILE)
    (buffer_size : Z) : outcome fsd_buffered_writer_t :=
  match f with
  | None => Err FSD_ERR_INVALID_ARG
  | Some f =>
      let buffer_size := if buffer_size =? 0 then FSD_WRITER_DEFAULT_BUFFER else buffer_size in
      if negb (malloc_ok SIZEOF_WRITER) then Err FSD_ERR_OUT_OF_MEMORY else
      if negb (malloc_ok buffer_size) then Err FSD_ERR_OUT_OF_MEMORY else
      Ok (mkWriter f (fill buffer_size 0) buffer_size 0 0 false)
  end.

(** [fopen] is the environment's answer for a path in mode "wb". *)
Definition fsd_writer_create (malloc_ok : allocator) (fopen : string → option FILE)
    (path : option string) (buffer_size : Z) : outcome fsd_buffered_writer_t :=
  match path with
  | None => Err FSD_ERR_INVALID_ARG
  | Some p =>
      match fopen p with
      | None => Err FSD_ERR_IO
      | Some f =>
          w ← fsd_writer_create_from_file malloc_ok (Some f) buffer_size;
          Ok (set_owns_file true w)
      end
  end.

Definition fsd_writer_flush : ST fsd_buffered_writer_t unit := fun w =>
  if buffer_pos w =? 0 then (Ok tt, w) else
  match load 0 (buffer_pos w) (buffer w) with
  | Ok d =>
      let '(written, f') := fwrite d (file w) in
      if negb (written =? buffer_pos w)
      then (Err FSD_ERR_IO,
            mkWriter f' (buffer w) (buffer_size w) (buffer_pos w) (total_written w) (owns_file w))
      else (Ok tt,
            mkWriter f' (buffer w) (buffer_size w) 0
              (u64 (total_written w + buffer_pos w)) (owns_file w))
  | _ => (UB, w)
  end.

(** The while loop of fsd_writer_write; [src] is what remains to be written. *)
Fixpoint writer_write_loop (fuel : nat) (src : bytes) : ST fsd_buffered_writer_t unit := fun w =>
  match fuel with
  | O => (NoFuel, w)
  | S fuel =>
      if zlen src =? 0 then (Ok tt, w) else
      let space := buffer_size w - buffer_pos w in
      if zlen src <=? space then
        match store (buffer_pos w) src (buffer w) with
        | Ok b => (Ok tt, set_buffer b (buffer_pos w + zlen src) w)
        | _ => (UB, w)
        end
      else
        match store (buffer_pos w) (slice 0 space src) (buffer w) with
        | Ok b =>
            (fsd_writer_flush ≫= fun _ =>
              writer_write_loop fuel (slice space (zlen src - space) src))
              (set_buffer b (buffer_size w) w)
        | _ => (UB, w)
        end
  end.

Definition fsd_writer_write (data : bytes) : ST fsd_buffered_writer_t unit :=
  writer_write_loop (S (S (length data))) data.

Definition fsd_writer_write_byte (byte : Z) : ST fsd_buffered_writer_t unit := fun w =>
  let flushed := if buffer_size w <=? buffer_pos w then fsd_writer_flush w else (Ok tt, w) in
  match flushed with
  | (Ok _, w) =>
      match store (buffer_pos w) [byte] (buffer w) with
      | Ok b => (Ok tt, set_buffer b (buffer_pos w + 1) w)
      | _ => (UB, w)
      end
  | r => r
  end.

Definition fsd_writer_bytes_written (w : fsd_buffered_writer_t) : Z :=
  u64 (total_written w + buffer_pos w).

(** The error code of fsd_writer_close and the stream it leaves behind. *)
Definition fsd_writer_close (w : fsd_buffered_writer_t) : outcome unit * FILE :=
  let '(err, w) := fsd_writer_flush w in
  let err := match err with
             | Ok _ => if negb (fflush (file w)) then Err FSD_ERR_IO else Ok tt
             | e => e end in
  let err := if owns_file w then
               match err with
               | Ok _ => if negb (fclose (file w)) then Err FSD_ERR_IO else Ok tt
               | e => e end
             else err in
  (err, file w).

(** * Invariant and view *)

Record writer_ok (w : fsd_buffered_writer_t) : Prop := {
  wok_size : 0 < buffer_size w;
  wok_buffer : zlen (buffer w) = buffer_size w;
  wok_pos : 0 ≤ buffer_pos w ≤ buffer_size w;
  wok_total : total_written w = zlen (f_data (file w));
  wok_room : 0 ≤ f_room (file w);
  wok_cap : f_cap (file w) + buffer_size w < 2 ^ 64
}.

Definition writer_view (w : fsd_buffered_writer_t) : bytes :=
  f_data (file w) ++ slice 0 (buffer_pos w) (buffer w).

Definition writer_cap (w : fsd_buffered_writer_t) : Z := f_cap (file w).

#[export] Instance writer_sink : ByteSink fsd_buffered_writer_t := {
  snk_byte := fsd_writer_write_byte;
  snk_write := fsd_writer_write;
  snk_size := fsd_writer_bytes_written
}.

#[export] Instance writer_sink_spec : ByteSinkSpec fsd_buffered_writer_t := {
  snk_ok := writer_ok;
  snk_view := writer_view;
  snk_cap := writer_cap
}.

Lemma zlen_writer_view w :
  writer_ok w → zlen (writer_view w) = zlen (f_data (file w)) + buffer_pos w.
Proof.
  intros []. unfold writer_view. rewrite zlen_app, zlen_slice; lia.
Qed.

(** A flush that succeeds empties the buffer into the file and keeps the view. *)
Lemma writer_flush_spec w r w' :
  writer_ok w → fsd_writer_flush w = (r, w') →
  (r = Ok tt ∧ writer_ok w' ∧ writer_view w' = writer_view w ∧ writer_cap w' = writer_cap w ∧
   buffer_pos w' = 0 ∧ buffer_size w' = buffer_size w ∧
   f_data (file w') = writer_view w) ∨
  (r = Err FSD_ERR_IO ∧ writer_cap w < zlen (writer_view w)).
Proof.
  intros Hok Hf. pose proof (zlen_writer_view w Hok) as Hv. destruct Hok.
  unfold fsd_writer_flush in Hf.
  destruct (Z.eqb_spec (buffer_pos w) 0) as [E0|E0].
  { injection Hf as <- <-. left. split; [done|]. split; [done|].
    do 4 (split; [done|]). unfold writer_view. rewrite E0, slice_nil, app_nil_r. done. }
  rewrite load_ok in Hf by lia.
  set (d := slice 0 (buffer_pos w) (buffer w)) in *.
  assert (zlen d = buffer_pos w) as Hd by (apply zlen_slice; lia).
  destruct (decide (zlen d ≤ f_room (file w))) as [Hfit|Hno].
  - rewrite fwrite_fits in Hf by done. rewrite Hd, Z.eqb_refl in Hf. injection Hf as <- <-.
    left. unfold writer_view, writer_cap, f_cap in *; cbn.
    rewrite slice_nil, app_nil_r. split; [done|].
    split; [|repeat split; try done; rewrite zlen_app; lia].
    constructor; unfold f_cap; cbn; rewrite ?zlen_app; try lia.
    pose proof (zlen_nonneg (f_data (file w))). rewrite wrap_small; lia.
  - destruct (fwrite_short d (file w)) as (f' & Hw & _ & Hne);
      [intros Hnil; rewrite Hnil in Hd; unfold zlen in Hd; simpl in Hd; lia | lia |].
    rewrite Hw in Hf. rewrite Hd in Hne.
    destruct (Z.eqb_spec (Z.max 0 (f_room (file w))) (buffer_pos w)); [done|].
    injection Hf as <- <-. right. split; [done|]. unfold writer_cap, f_cap. lia.
Qed.

Lemma writer_store w d :
  writer_ok w → buffer_pos w + zlen d ≤ buffer_size w →
  ∃ b, store (buffer_pos w) d (buffer w) = Ok b ∧
       writer_ok (set_buffer b (buffer_pos w + zlen d) w) ∧
       writer_view (set_buffer b (buffer_pos w + zlen d) w) = writer_view w ++ d.
Proof.
  intros [] Hd. pose proof (zlen_nonneg d).
  rewrite store_ok by lia. eexists; split; [done|]. split.
  - constructor; cbn; try done; try lia. rewrite zlen_blit; lia.
  - unfold writer_view; cbn. rewrite slice_blit by lia. by rewrite app_assoc.
Qed.

Lemma writer_write_loop_spec fuel src w :
  writer_ok w →
  (length src + (if decide (buffer_pos w = buffer_size w) then 1 else 0) < fuel)%nat →
  sink_step w src (writer_write_loop fuel src w).
Proof.
  revert src w. induction fuel as [|fuel IH]; intros src w Hok Hfuel; [lia|].
  cbn [writer_write_loop].
  destruct (Z.eqb_spec (zlen src) 0) as [E|E].
  { left. destruct src; [|rewrite zlen_cons in E; pose proof (zlen_nonneg src); lia].
    cbn. rewrite app_nil_r. done. }
  pose proof (zlen_nonneg src). pose proof Hok as [].
  set (space := buffer_size w - buffer_pos w) in *.
  destruct (Z.leb_spec (zlen src) space) as [Hfit|Hbig].
  { destruct (writer_store w src) as (b & -> & Hok' & Hv); [done | lia |].
    left. cbn. done. }
  destruct (writer_store w (slice 0 space src)) as (b & -> & Hok' & Hv);
    [done | rewrite zlen_slice; lia |].
  assert (zlen (slice 0 space src) = space) as Hsp by (apply zlen_slice; lia).
  rewrite Hsp in Hok', Hv. replace (buffer_pos w + space) with (buffer_size w) in Hok', Hv by lia.
  set (w1 := set_buffer b (buffer_size w) w) in *.
  unfold mbind, ST_bind.
  destruct (fsd_writer_flush w1) as [r w2] eqn:Hfl.
  assert (src = slice 0 space src ++ slice space (zlen src - space) src) as Hsplit.
  { pose proof (slice_app_add 0 space (zlen src - space) src) as Ha.
    rewrite Z.add_0_l in Ha. rewrite <- Ha by lia.
    symmetry. apply slice_full. lia. }
  assert (zlen (slice space (zlen src - space) src) = zlen src - space) as Hrest
    by (apply zlen_slice; lia).
  destruct (writer_flush_spec w1 r w2 Hok' Hfl)
    as [(-> & Hok2 & Hv2 & Hc2 & Hp2 & Hs2 & _) | (-> & Hcap)].
  - destruct (IH (slice space (zlen src - space) src) w2 Hok2) as [(Hr & Ho & Hvw & Hc)|(Hr & Hc)].
    + rewrite Hp2, Hs2. cbn in *. destruct (decide (0 = buffer_size w)); [lia|].
      assert (length (slice space (zlen src - space) src) = Z.to_nat (zlen src - space)) as ->
        by (unfold slice; rewrite length_take, length_drop; zl).
      destruct (decide (buffer_pos w = buffer_size w)); zl.
    + left. cbn [snk_ok snk_view snk_cap writer_sink_spec] in *. split_and!; try done.
      * rewrite Hvw, Hv2, Hv, <- app_assoc, <- Hsplit. done.
      * rewrite Hc, Hc2. done.
    + right. split; [done|]. cbn [snk_ok snk_view snk_cap writer_sink_spec] in *.
      rewrite Hc2 in Hc. rewrite Hv2, Hv in Hc. unfold writer_cap in *. cbn in Hc.
      rewrite zlen_app in Hc. lia.
  - right. cbn. split; [done|]. rewrite Hv in Hcap. unfold writer_cap in *. cbn in Hcap.
    rewrite zlen_app in Hcap. lia.
Qed.

Lemma writer_write_byte_spec b w :
  writer_ok w → sink_step w [b] (fsd_writer_write_byte b w).
Proof.
  intros Hok. unfold fsd_writer_write_byte.
  destruct (Z.leb_spec (buffer_size w) (buffer_pos w)) as [Hfull|Hroom].
  - destruct (fsd_writer_flush w) as [r w2] eqn:Hfl.
    destruct (writer_flush_spec w r w2 Hok Hfl)
      as [(-> & Hok2 & Hv2 & Hc2 & Hp2 & Hs2 & _) | (-> & Hcap)].
    + destruct (writer_store w2 [b]) as (b' & -> & Hok' & Hv);
        [done | pose proof (wok_size w Hok); change (zlen [b]) with 1; lia |].
      change (zlen [b]) with 1 in *. left. cbn in *. rewrite Hv, Hv2. done.
    + right. cbn in *. split; [done | change (zlen [b]) with 1; lia].
  - destruct (writer_store w [b]) as (b' & -> & Hok' & Hv); [done | change (zlen [b]) with 1; lia |].
    change (zlen [b]) with 1 in *. left. cbn in *. done.
Qed.

#[export] Instance writer_sink_laws : ByteSinkLaws fsd_buffered_writer_t.
Proof.
  split.
  - apply writer_write_byte_spec.
  - intros d w Hok. apply writer_write_loop_spec; [done|]. case_decide; lia.
  - intros w Hok. cbn. unfold fsd_writer_bytes_written.
    rewrite zlen_writer_view by done. destruct Hok. rewrite wok_total0.
    apply wrap_small. unfold f_cap in *. pose proof (zlen_nonneg (f_data (file w))). lia.
Qed.

(** * Theorems *)

Lemma writer_create_ok malloc_ok f n w :
  f_data f = [] → 0 ≤ f_room f → 0 ≤ n →
  f_room f + Z.max n FSD_WRITER_DEFAULT_BUFFER < 2 ^ 64 →
  fsd_writer_create_from_file malloc_ok (Some f) n = Ok w →
  writer_ok w ∧ writer_view w = [] ∧ writer_cap w = f_room f.
Proof.
  intros Hd Hroom Hn Hcap. unfold fsd_writer_create_from_file.
  set (size := if n =? 0 then _ else _).
  assert (0 < size ≤ Z.max n FSD_WRITER_DEFAULT_BUFFER) as Hsize.
  { subst size. unfold FSD_WRITER_DEFAULT_BUFFER in *. destruct (Z.eqb_spec n 0); lia. }
  repeat case_match; try done. intros [= <-].
  unfold writer_view, writer_cap, f_cap. cbn. rewrite Hd, slice_nil.
  change (zlen []) with 0. split; [|split; [done | lia]].
  constructor; unfold f_cap; cbn; rewrite ?Hd; change (zlen (@nil Z)) with 0; try lia.
  apply zlen_fill. lia.
Qed.

(** Closing a writer whose device has room leaves exactly the bytes written in
    the file, and reports success when the stdio flush (and close) succeed. *)
Lemma writer_close_spec w :
  writer_ok w → zlen (writer_view w) ≤ writer_cap w →
  f_data (snd (fsd_writer_close w)) = writer_view w ∧
  fst (fsd_writer_close w) =
    (if fflush (file w) && (negb (owns_file w) || fclose (file w))
     then Ok tt else Err FSD_ERR_IO).
Proof.
  intros Hok Hcap. unfold fsd_writer_close.
  destruct (fsd_writer_flush w) as [r w2] eqn:Hfl.
  assert (owns_file w2 = owns_file w ∧ fflush (file w2) = fflush (file w) ∧
          fclose (file w2) = fclose (file w)) as (Ho & Hff & Hfc).
  { unfold fsd_writer_flush, fwrite, fflush, fclose in *. repeat case_match; simplify_eq; done. }
  destruct (writer_flush_spec w r w2 Hok Hfl)
    as [(-> & _ & _ & _ & _ & _ & Hd) | (-> & Hc)]; [|lia].
  cbv beta iota. rewrite Ho, Hff, Hfc. cbn [fst snd]. split; [done|].
  by destruct (fflush (file w)), (owns_file w), (fclose (file w)).
Qed.

(** A sequence of fsd_writer_write calls. *)
Fixpoint write_all {W} `{ByteSink W} (ds : list bytes) : ST W unit :=
  match ds with
  | [] => mret tt
  | d :: ds => snk_write d ≫= fun _ => write_all ds
  end.

Lemma write_all_law {W} `{ByteSinkLaws W} ds (w : W) :
  snk_ok w → sink_step w (concat ds) (write_all ds w).
Proof.
  revert w. induction ds as [|d ds IH]; intros w Hok; cbn.
  { left. cbn. by rewrite app_nil_r. }
  unfold mbind, ST_bind. pose proof (snk_write_law d w Hok) as Hs.
  destruct (snk_write d w) as [r w1].
  destruct Hs as [(Hr & Hok1 & Hv1 & Hc1) | (Hr & Hc1)]; cbn in Hr; subst r.
  - destruct (IH w1 Hok1) as [(Hr & Hok2 & Hv2 & Hc2) | (Hr & Hc2)]; cbn in *.
    + left. split_and!; [done | done | by rewrite Hv2, Hv1, app_assoc | by rewrite Hc2].
    + right. split; [done|]. rewrite Hv1, Hc1 in Hc2. rewrite zlen_app in *. lia.
  - right. cbn in *. split; [done|]. rewrite zlen_app.
    pose proof (zlen_nonneg (concat ds)). lia.
Qed.

(** C38: any sequence of writes that fits the device ends with exactly the
    concatenation of the data in the file once the writer is closed, and the
    byte count reported before the close is the number of bytes written. *)
Theorem writer_refines_append ds w :
  writer_ok w → zlen (writer_view w ++ concat ds) ≤ writer_cap w →
  ∃ w', write_all ds w = (Ok tt, w') ∧
        fsd_writer_bytes_written w' = zlen (writer_view w ++ concat ds) ∧
        f_data (snd (fsd_writer_close w')) = writer_view w ++ concat ds.
Proof.
  intros Hok Hcap. pose proof (write_all_law ds w Hok) as Hs.
  destruct (write_all ds w) as [r w'].
  destruct Hs as [(Hr & Hok1 & Hv1 & Hc1) | (Hr & Hc1)]; cbn in *; subst r.
  - exists w'. split; [done|]. rewrite <- Hv1.
    split; [exact (snk_size_law w' Hok1)|].
    apply writer_close_spec; [done|]. by rewrite Hv1, Hc1.
  - rewrite zlen_app in Hcap. lia.
Qed.

Definition demo_writer4 : fsd_buffered_writer_t := mkWriter (file_new 100) (fill 4 0) 4 0 0 false.

Lemma writer_refines_append_witness :
  ∃ w', write_all [[1; 2; 3]; [4; 5; 6; 7; 8; 9]] demo_writer4 = (Ok tt, w') ∧
    fsd_writer_bytes_written w' = 9 ∧
    f_data (snd (fsd_writer_close w')) = [1; 2; 3; 4; 5; 6; 7; 8; 9].
Proof.
  apply (writer_refines_append [[1; 2; 3]; [4; 5; 6; 7; 8; 9]] demo_writer4); [split; done | done].
Defined.
