(* ===== verification/Varint.v ===== *)
(** Base-128 variable-length integers: encode_varint of
    src/src/encoding/operation_encoder.c and read_varint of src/src/patch.c. *)

From S2P Require Import Prelude.
From stdpp Require Import base list numbers tactics.
From Stdlib Require Import ZArith Lia.
Open Scope Z_scope.

(** The while loop of encode_varint: the bytes put in [buf].  A size_t needs at
    most ten iterations. *)
Fixpoint encode_varint_loop (fuel : nat) (value : Z) : bytes :=
  match fuel with
  | O => []
  | S fuel =>
      if 128 <=? value
      then u8 (Z.lor (Z.land value 127) 128) :: encode_varint_loop fuel (Z.shiftr value 7)
      else [u8 (Z.land value 127)]
  end.

Definition encode_varint (value : Z) : bytes := encode_varint_loop 10 value.

(** The stream pointer is the list of bytes left before [end]; the result is the
    value and the advanced pointer. *)
Fixpoint read_varint_loop (ptr : bytes) (value shift : Z) : outcome (Z * bytes) :=
  match ptr with
  | [] => Err FSD_ERR_TRUNCATED
  | byte :: ptr =>
      let value := Z.lor value (u64 (Z.shiftl (Z.land byte 127) shift)) in
      if Z.land byte 128 =? 0 then Ok (value, ptr) else
      let shift := shift + 7 in
      if 64 <=? shift then Err FSD_ERR_CORRUPT_DATA else read_varint_loop ptr value shift
  end.

Definition read_varint (ptr : bytes) : outcome (Z * bytes) := read_varint_loop ptr 0 0.

(** * Bits of a varint byte *)

Lemma land_127 z : Z.land z 127 = z mod 128.
Proof. apply (land_ones_mod z 7). lia. Qed.

Lemma land_128_small b : 0 ≤ b < 128 → Z.land b 128 = 0.
Proof.
  intros H. apply Z.bits_inj'. intros i Hi. rewrite Z.land_spec, Z.bits_0.
  destruct (decide (i = 7)) as [->|Hne].
  - rewrite <- (Z.mod_small b (2 ^ 7)) by lia. by rewrite Z.mod_pow2_bits_high by lia.
  - change 128 with (2 ^ 7). rewrite (Z.pow2_bits_false 7) by lia. apply andb_false_r.
Qed.

Lemma lor_128 b : 0 ≤ b < 128 → Z.lor b 128 = b + 128.
Proof. intros. change (Z.lor b 128) with (Z.lor b (Z.shiftl 1 7)). rewrite lor_shiftl_add; lia. Qed.

Lemma land_128_big b : 0 ≤ b < 128 → Z.land (b + 128) 128 ≠ 0.
Proof.
  intros H. rewrite <- lor_128 by done. intros E.
  assert (Z.testbit (Z.land (Z.lor b 128) 128) 7 = false) as Ht by (rewrite E; apply Z.bits_0).
  rewrite Z.land_spec, Z.lor_spec in Ht. change (Z.testbit 128 7) with true in Ht.
  rewrite orb_true_r in Ht. done.
Qed.

Lemma encode_varint_length_loop fuel v :
  0 ≤ v < 2 ^ (7 * Z.of_nat fuel) →
  (length (encode_varint_loop fuel v) ≤ fuel)%nat ∧
  (fuel ≠ 0%nat → 1 ≤ length (encode_varint_loop fuel v))%nat.
Proof.
  revert v. induction fuel as [|fuel IH]; intros v Hv; [cbn; lia|].
  cbn [encode_varint_loop]. destruct (Z.leb_spec 128 v); cbn [length]; [|lia].
  rewrite Z.shiftr_div_pow2 by lia.
  destruct (IH (v / 2 ^ 7)); [|lia].
  replace (7 * Z.of_nat (S fuel)) with (7 + 7 * Z.of_nat fuel) in Hv by lia.
  rewrite Z.pow_add_r in Hv by lia. split; [apply Z.div_pos; lia|].
  apply Z.div_lt_upper_bound; lia.
Qed.

Lemma encode_varint_bytes_loop fuel v : bytes_ok (encode_varint_loop fuel v).
Proof.
  revert v. induction fuel as [|fuel IH]; intros v; cbn; [constructor|].
  destruct (128 <=? v); apply bytes_ok_cons; split; auto using is_byte_wrap. constructor.
Qed.

Lemma lor_chunk acc b shift :
  0 ≤ shift → 0 ≤ acc < 2 ^ shift → 0 ≤ b → b * 2 ^ shift < 2 ^ 64 →
  Z.lor acc (u64 (Z.shiftl b shift)) = acc + b * 2 ^ shift.
Proof.
  intros. rewrite wrap_small; [by rewrite lor_shiftl_add|].
  rewrite Z.shiftl_mul_pow2 by lia. lia.
Qed.

(** The decoder, entered with [acc] holding the low [shift] bits, adds the bits
    of [v] above them. *)
Lemma read_encode_varint_loop fuel v acc shift k :
  fuel ≠ 0%nat → 0 ≤ v → v * 2 ^ shift < 2 ^ 64 → 0 ≤ shift < 64 → 0 ≤ acc < 2 ^ shift →
  v < 2 ^ (7 * Z.of_nat fuel) →
  read_varint_loop (encode_varint_loop fuel v ++ k) acc shift = Ok (acc + v * 2 ^ shift, k).
Proof.
  revert v acc shift. induction fuel as [|fuel IH]; intros v acc shift Hf0 Hv Hs Hsh Hacc Hf; [done|].
  cbn [encode_varint_loop]. rewrite !land_127.
  pose proof (Z.mod_pos_bound v 128). pose proof (Z.div_mod v 128).
  assert (0 < 2 ^ shift) by (apply Z.pow_pos_nonneg; lia).
  assert (v mod 128 ≤ v) by (apply Z.mod_le; lia).
  assert (v mod 128 * 2 ^ shift < 2 ^ 64) by nia.
  destruct (Z.leb_spec 128 v) as [Hbig|Hsmall]; cbn [app read_varint_loop].
  - rewrite lor_128 by lia. rewrite (wrap_small 8) by lia.
    destruct (Z.eqb_spec (Z.land (v mod 128 + 128) 128) 0) as [E|_];
      [apply land_128_big in E; lia|].
    rewrite land_127, <- Z.add_mod_idemp_r, Z_mod_same_full, Z.add_0_r, Z.mod_mod by lia.
    rewrite lor_chunk by lia.
    assert (2 ^ (shift + 7) = 2 ^ shift * 128) as E7 by (rewrite Z.pow_add_r by lia; done).
    assert (1 ≤ v / 128) by (apply Z.div_le_lower_bound; lia).
    destruct (Z.leb_spec 64 (shift + 7)).
    { exfalso. assert (2 ^ 64 ≤ 2 ^ (shift + 7)) by (apply Z.pow_le_mono_r; lia). nia. }
    rewrite Z.shiftr_div_pow2 by lia. change (2 ^ 7) with 128.
    replace (7 * Z.of_nat (S fuel)) with (7 + 7 * Z.of_nat fuel) in Hf by lia.
    rewrite Z.pow_add_r in Hf by lia. change (2 ^ 7) with 128 in Hf.
    rewrite IH; [|destruct fuel; [cbn in Hf; lia | done] | lia | rewrite E7; nia | lia | nia | nia].
    f_equal. f_equal. rewrite E7. nia.
  - rewrite (Z.mod_small v) in * by lia. rewrite (wrap_small 8) by lia.
    rewrite land_128_small by lia. cbn [Z.eqb].
    rewrite land_127, Z.mod_small by lia.
    by rewrite lor_chunk by lia.
Qed.

Lemma read_varint_encode v k :
  0 ≤ v < 2 ^ 64 → read_varint (encode_varint v ++ k) = Ok (v, k).
Proof.
  intros Hv. assert (2 ^ 64 < 2 ^ 70) by done. unfold read_varint, encode_varint.
  rewrite read_encode_varint_loop; simpl; try lia. do 2 f_equal. lia.
Qed.

(** * Theorems *)

(** Every size_t value is encoded in 1 to 10 bytes, and decoding gives the value
    back and stops exactly after the encoding. *)
Theorem varint_roundtrip v k :
  0 ≤ v < 2 ^ 64 →
  read_varint (encode_varint v ++ k) = Ok (v, k) ∧
  1 ≤ zlen (encode_varint v) ≤ 10 ∧ bytes_ok (encode_varint v).
Proof.
  intros Hv. assert (2 ^ 64 < 2 ^ 70) by done. split_and!.
  - by apply read_varint_encode.
  - destruct (encode_varint_length_loop 10 v); [cbn; lia|]. unfold encode_varint, zlen. lia.
  - destruct (encode_varint_length_loop 10 v); [cbn; lia|]. unfold encode_varint, zlen. lia.
  - apply encode_varint_bytes_loop.
Qed.

(** The decoder only moves forward: it consumes at least one byte. *)
Lemma read_varint_shorter ptr v rest :
  read_varint ptr = Ok (v, rest) → (length rest < length ptr)%nat.
Proof.
  unfold read_varint. generalize 0 at 1 as acc. generalize 0 as shift.
  induction ptr as [|b ptr IH]; intros shift acc Hr; cbn in Hr; [done|].
  repeat case_match; simplify_eq; cbn; [lia|]. apply IH in Hr. lia.
Qed.

Lemma read_varint_suffix ptr v rest :
  read_varint ptr = Ok (v, rest) → ∃ used, ptr = used ++ rest.
Proof.
  unfold read_varint. generalize 0 at 1 as acc. generalize 0 as shift.
  induction ptr as [|b ptr IH]; intros shift acc Hr; cbn in Hr; [done|].
  repeat case_match; simplify_eq; [by exists [b]|].
  destruct (IH _ _ Hr) as [u ->]. by exists (b :: u).
Qed.

Lemma read_varint_defined ptr : defined (read_varint ptr).
Proof.
  unfold read_varint. generalize 0 at 1 as acc. generalize 0 as shift.
  induction ptr as [|b ptr IH]; intros shift acc; cbn; [done|].
  repeat case_match; done.
Qed.

Lemma read_varint_loop_range ptr acc shift v rest :
  0 ≤ acc < 2 ^ 64 → read_varint_loop ptr acc shift = Ok (v, rest) → 0 ≤ v < 2 ^ 64.
Proof.
  revert acc shift. induction ptr as [|b ptr IH]; intros acc shift Hacc Hr; [done|].
  cbn [read_varint_loop] in Hr. cbv zeta in Hr.
  assert (0 ≤ Z.lor acc (u64 (Z.land b 127 ≪ shift)) < 2 ^ 64) as Hv'.
  { apply lor_range; [done|]. apply wrap_range. lia. }
  repeat case_match; simplify_eq; [done|]. by apply (IH _ _ Hv' Hr).
Qed.

(** A decoded value is a size_t. *)
Lemma read_varint_range ptr v rest :
  read_varint ptr = Ok (v, rest) → 0 ≤ v < 2 ^ 64.
Proof. by apply read_varint_loop_range. Qed.

Lemma varint_roundtrip_witness :
  read_varint (encode_varint 300 ++ [5]) = Ok (300, [5]) ∧
  1 ≤ zlen (encode_varint 300) ≤ 10 ∧ bytes_ok (encode_varint 300).
Proof. apply (varint_roundtrip 300 [5]). done. Defined.
