(* ===== verification/Crc32.v ===== *)
(** CRC-32 of a block (src/core/crc32.c).

    [fsd_crc32_update] is the table-driven routine with its eight-fold unrolled
    loop; [crc_bits] is the bit-serial shift register with the reflected
    polynomial 0xEDB88320 that defines the checksum.  The development shows that
    the table holds eight steps of the register for every byte value, and that
    the routine computes the register on the data it is given, never reading
    outside of it; that a checksum may be taken in pieces follows. *)

From stdpp Require Import base list numbers tactics.
From Stdlib Require Import ZArith Lia.
From S2P Require Import Prelude.

Open Scope Z_scope.

(** * The program *)

Definition crc32_table : list Z := [
  0x00000000; 0x77073096; 0xee0e612c; 0x990951ba;
  0x076dc419; 0x706af48f; 0xe963a535; 0x9e6495a3;
  0x0edb8832; 0x79dcb8a4; 0xe0d5e91e; 0x97d2d988;
  0x09b64c2b; 0x7eb17cbd; 0xe7b82d07; 0x90bf1d91;
  0x1db71064; 0x6ab020f2; 0xf3b97148; 0x84be41de;
  0x1adad47d; 0x6ddde4eb; 0xf4d4b551; 0x83d385c7;
  0x136c9856; 0x646ba8c0; 0xfd62f97a; 0x8a65c9ec;
  0x14015c4f; 0x63066cd9; 0xfa0f3d63; 0x8d080df5;
  0x3b6e20c8; 0x4c69105e; 0xd56041e4; 0xa2677172;
  0x3c03e4d1; 0x4b04d447; 0xd20d85fd; 0xa50ab56b;
  0x35b5a8fa; 0x42b2986c; 0xdbbbc9d6; 0xacbcf940;
  0x32d86ce3; 0x45df5c75; 0xdcd60dcf; 0xabd13d59;
  0x26d930ac; 0x51de003a; 0xc8d75180; 0xbfd06116;
  0x21b4f4b5; 0x56b3c423; 0xcfba9599; 0xb8bda50f;
  0x2802b89e; 0x5f058808; 0xc60cd9b2; 0xb10be924;
  0x2f6f7c87; 0x58684c11; 0xc1611dab; 0xb6662d3d;
  0x76dc4190; 0x01db7106; 0x98d220bc; 0xefd5102a;
  0x71b18589; 0x06b6b51f; 0x9fbfe4a5; 0xe8b8d433;
  0x7807c9a2; 0x0f00f934; 0x9609a88e; 0xe10e9818;
  0x7f6a0dbb; 0x086d3d2d; 0x91646c97; 0xe6635c01;
  0x6b6b51f4; 0x1c6c6162; 0x856530d8; 0xf262004e;
  0x6c0695ed; 0x1b01a57b; 0x8208f4c1; 0xf50fc457;
  0x65b0d9c6; 0x12b7e950; 0x8bbeb8ea; 0xfcb9887c;
  0x62dd1ddf; 0x15da2d49; 0x8cd37cf3; 0xfbd44c65;
  0x4db26158; 0x3ab551ce; 0xa3bc0074; 0xd4bb30e2;
  0x4adfa541; 0x3dd895d7; 0xa4d1c46d; 0xd3d6f4fb;
  0x4369e96a; 0x346ed9fc; 0xad678846; 0xda60b8d0;
  0x44042d73; 0x33031de5; 0xaa0a4c5f; 0xdd0d7cc9;
  0x5005713c; 0x270241aa; 0xbe0b1010; 0xc90c2086;
  0x5768b525; 0x206f85b3; 0xb966d409; 0xce61e49f;
  0x5edef90e; 0x29d9c998; 0xb0d09822; 0xc7d7a8b4;
  0x59b33d17; 0x2eb40d81; 0xb7bd5c3b; 0xc0ba6cad;
  0xedb88320; 0x9abfb3b6; 0x03b6e20c; 0x74b1d29a;
  0xead54739; 0x9dd277af; 0x04db2615; 0x73dc1683;
  0xe3630b12; 0x94643b84; 0x0d6d6a3e; 0x7a6a5aa8;
  0xe40ecf0b; 0x9309ff9d; 0x0a00ae27; 0x7d079eb1;
  0xf00f9344; 0x8708a3d2; 0x1e01f268; 0x6906c2fe;
  0xf762575d; 0x806567cb; 0x196c3671; 0x6e6b06e7;
  0xfed41b76; 0x89d32be0; 0x10da7a5a; 0x67dd4acc;
  0xf9b9df6f; 0x8ebeeff9; 0x17b7be43; 0x60b08ed5;
  0xd6d6a3e8; 0xa1d1937e; 0x38d8c2c4; 0x4fdff252;
  0xd1bb67f1; 0xa6bc5767; 0x3fb506dd; 0x48b2364b;
  0xd80d2bda; 0xaf0a1b4c; 0x36034af6; 0x41047a60;
  0xdf60efc3; 0xa867df55; 0x316e8eef; 0x4669be79;
  0xcb61b38c; 0xbc66831a; 0x256fd2a0; 0x5268e236;
  0xcc0c7795; 0xbb0b4703; 0x220216b9; 0x5505262f;
  0xc5ba3bbe; 0xb2bd0b28; 0x2bb45a92; 0x5cb36a04;
  0xc2d7ffa7; 0xb5d0cf31; 0x2cd99e8b; 0x5bdeae1d;
  0x9b64c2b0; 0xec63f226; 0x756aa39c; 0x026d930a;
  0x9c0906a9; 0xeb0e363f; 0x72076785; 0x05005713;
  0x95bf4a82; 0xe2b87a14; 0x7bb12bae; 0x0cb61b38;
  0x92d28e9b; 0xe5d5be0d; 0x7cdcefb7; 0x0bdbdf21;
  0x86d3d2d4; 0xf1d4e242; 0x68ddb3f8; 0x1fda836e;
  0x81be16cd; 0xf6b9265b; 0x6fb077e1; 0x18b74777;
  0x88085ae6; 0xff0f6a70; 0x66063bca; 0x11010b5c;
  0x8f659eff; 0xf862ae69; 0x616bffd3; 0x166ccf45;
  0xa00ae278; 0xd70dd2ee; 0x4e048354; 0x3903b3c2;
  0xa7672661; 0xd06016f7; 0x4969474d; 0x3e6e77db;
  0xaed16a4a; 0xd9d65adc; 0x40df0b66; 0x37d83bf0;
  0xa9bcae53; 0xdebb9ec5; 0x47b2cf7f; 0x30b5ffe9;
  0xbdbdf21c; 0xcabac28a; 0x53b39330; 0x24b4a3a6;
  0xbad03605; 0xcdd70693; 0x54de5729; 0x23d967bf;
  0xb3667a2e; 0xc4614ab8; 0x5d681b02; 0x2a6f2b94;
  0xb40bbe37; 0xc30c8ea1; 0x5a05df1b; 0x2d02ef8d
].

(** One line of the loop: [crc32_table[(crc ^ b) & 0xFF] ^ (crc >> 8)]. *)
Definition crc32_byte (crc b : Z) : outcome Z :=
  match zget crc32_table (Z.land (Z.lxor crc b) 0xFF) with
  | Some t => Ok (Z.lxor t (Z.shiftr crc 8))
  | None => UB
  end.

(** A line of the loop at [buf[i]]. *)
Definition crc32_at (crc : Z) (buf : bytes) (i : Z) : outcome Z :=
  match zget buf i with Some b => crc32_byte crc b | None => UB end.

(** [while (len >= 8) ...], the eight lines of its body in turn; [buf] is the
    object, [pos] how far the pointer has advanced in it. *)
Fixpoint crc32_unrolled (fuel : nat) (crc : Z) (buf : bytes) (pos len : Z) : outcome (Z * Z * Z) :=
  match fuel with
  | O => NoFuel
  | S fuel =>
      if 8 <=? len then
        crc ← crc32_at crc buf pos;
        crc ← crc32_at crc buf (pos + 1);
        crc ← crc32_at crc buf (pos + 2);
        crc ← crc32_at crc buf (pos + 3);
        crc ← crc32_at crc buf (pos + 4);
        crc ← crc32_at crc buf (pos + 5);
        crc ← crc32_at crc buf (pos + 6);
        crc ← crc32_at crc buf (pos + 7);
        crc32_unrolled fuel crc buf (pos + 8) (len - 8)
      else Ok (crc, pos, len)
  end.

(** [while (len--) ...]. *)
Fixpoint crc32_tail (fuel : nat) (crc : Z) (buf : bytes) (pos len : Z) : outcome Z :=
  match fuel with
  | O => NoFuel
  | S fuel =>
      if len =? 0 then Ok crc
      else crc ← crc32_at crc buf pos; crc32_tail fuel crc buf (pos + 1) (len - 1)
  end.

Definition fsd_crc32_update (crc : Z) (buf : bytes) (len : Z) : outcome Z :=
  '(crc, pos, rest) ← crc32_unrolled (S (Z.to_nat len)) crc buf 0 len;
  crc32_tail (S (Z.to_nat rest)) crc buf pos rest.

(** [~crc] on 32 bits. *)
Definition fsd_crc32_final (crc : Z) : Z := u32 (Z.lnot crc).

Definition fsd_crc32 (data : bytes) (len : Z) : outcome Z :=
  crc ← fsd_crc32_update (u32 (Z.lnot 0)) data len;
  Ok (fsd_crc32_final crc).

(** * The definition of the checksum: a bit-serial shift register *)

Definition CRC_POLY : Z := 0xEDB88320.

(** One shift of the reflected register. *)
Definition crc_bit (r : Z) : Z :=
  Z.lxor (Z.shiftr r 1) (if Z.odd r then CRC_POLY else 0).

Definition crc_bit8 (r : Z) : Z := Nat.iter 8 crc_bit r.

(** Feeding a message, least significant bit of each byte first. *)
Definition crc_bits (r : Z) (msg : bytes) : Z :=
  fold_left (fun r b => crc_bit8 (Z.lxor r b)) msg r.

(** * The register is linear *)

Lemma crc_bit_lxor a b : crc_bit (Z.lxor a b) = Z.lxor (crc_bit a) (crc_bit b).
Proof.
  unfold crc_bit. rewrite Z.shiftr_lxor, <- !Z.bit0_odd, Z.lxor_spec.
  apply Z.bits_inj'. intros n Hn. rewrite !Z.lxor_spec.
  destruct (Z.testbit a 0), (Z.testbit b 0); cbn [xorb]; rewrite ?Z.bits_0;
    destruct (Z.testbit (Z.shiftr a 1) n), (Z.testbit (Z.shiftr b 1) n), (Z.testbit CRC_POLY n); reflexivity.
Qed.

Lemma crc_bit_double h : crc_bit (2 * h) = h.
Proof.
  unfold crc_bit. rewrite Z.odd_mul. cbn [Z.odd andb].
  rewrite Z.lxor_0_r, Z.shiftr_div_pow2 by lia.
  change (2 ^ 1) with 2. rewrite Z.mul_comm. by apply Z.div_mul.
Qed.

Lemma crc_bit8_lxor a b : crc_bit8 (Z.lxor a b) = Z.lxor (crc_bit8 a) (crc_bit8 b).
Proof. unfold crc_bit8. cbn [Nat.iter nat_rect]. by rewrite !crc_bit_lxor. Qed.

Lemma crc_bit8_shiftl h : crc_bit8 (Z.shiftl h 8) = h.
Proof.
  unfold crc_bit8. cbn [Nat.iter nat_rect]. rewrite Z.shiftl_mul_pow2 by lia.
  replace (h * 2 ^ 8) with (2 * (2 * (2 * (2 * (2 * (2 * (2 * (2 * h)))))))) by lia.
  by rewrite !crc_bit_double.
Qed.

(** A word is its low byte and the rest. *)
Lemma split_low_byte r : r = Z.lxor (Z.land r 255) (Z.shiftl (Z.shiftr r 8) 8).
Proof.
  apply Z.bits_inj'. intros n Hn.
  change 255 with (Z.ones 8). rewrite Z.lxor_spec, Z.land_spec.
  rewrite Z.testbit_ones by lia.
  destruct (decide (n < 8)).
  - rewrite Z.shiftl_spec_low by lia.
    replace (0 <=? n) with true by lia. replace (n <? 8) with true by lia.
    by destruct (Z.testbit r n).
  - rewrite Z.shiftl_spec, Z.shiftr_spec by lia.
    replace (n <? 8) with false by lia. rewrite !andb_false_r.
    replace (n - 8 + 8) with n by lia. by destruct (Z.testbit r n).
Qed.

(** * The table *)

(** Row [i] of the table is eight shifts of the register from [i]. *)
Lemma crc32_table_row i : 0 ≤ i < 256 → zget crc32_table i = Some (crc_bit8 i).
Proof.
  intros Hi.
  assert (H : crc32_table = (fun i => crc_bit8 (Z.of_nat i)) <$> seq 0 256) by (vm_compute; reflexivity).
  unfold zget. replace (0 <=? i) with true by lia.
  rewrite H, list_lookup_fmap, lookup_seq_lt by lia. cbn [fmap option_fmap option_map].
  do 2 f_equal. lia.
Qed.

Lemma crc32_byte_bits crc b :
  is_byte b → crc32_byte crc b = Ok (crc_bit8 (Z.lxor crc b)).
Proof.
  intros Hb. unfold crc32_byte.
  pose proof (wrap_range 8 (Z.lxor crc b) ltac:(lia)).
  rewrite crc32_table_row by (change 0xFF with 255; rewrite land_255; lia).
  f_equal. rewrite (split_low_byte (Z.lxor crc b)) at 2.
  rewrite crc_bit8_lxor, crc_bit8_shiftl, Z.shiftr_lxor.
  replace (Z.shiftr b 8) with 0; [by rewrite Z.lxor_0_r|].
  symmetry. rewrite Z.shiftr_div_pow2 by lia. apply Z.div_small. apply Hb.
Qed.

(** * The routine computes the register *)

Lemma crc32_at_bits crc buf pos len :
  bytes_ok buf → 0 ≤ pos → 0 < len → pos + len ≤ zlen buf →
  ∃ b, crc32_at crc buf pos = Ok (crc_bit8 (Z.lxor crc b)) ∧
       slice pos len buf = b :: slice (pos + 1) (len - 1) buf.
Proof.
  intros Hok Hp Hl Hb.
  destruct (slice_cons pos len buf) as (b & Hg & Hs); [lia..|].
  exists b. split; [|done]. unfold crc32_at. rewrite Hg. apply crc32_byte_bits.
  pose proof (bytes_ok_slice pos len _ Hok) as H. rewrite Hs in H.
  apply bytes_ok_cons in H as [H _]. exact H.
Qed.

Ltac crc_line :=
  match goal with
  | |- context [mbind _ (crc32_at ?c ?buf ?pos)] =>
      match goal with
      | |- context [crc_bits _ (slice ?pos' ?len buf)] =>
          let b := fresh "b" in let H1 := fresh in let H2 := fresh in
          replace pos with pos' by lia;
          destruct (crc32_at_bits c buf pos' len) as (b & H1 & H2); [assumption|lia..|];
          rewrite H1, H2; cbn [mbind outcome_bind]; clear H1 H2;
          change (crc_bits c (b :: slice (pos' + 1) (len - 1) buf))
            with (crc_bits (crc_bit8 (Z.lxor c b)) (slice (pos' + 1) (len - 1) buf))
      end
  end.

Lemma crc32_tail_bits fuel crc buf pos len :
  bytes_ok buf → 0 ≤ pos → 0 ≤ len → pos + len ≤ zlen buf → (Z.to_nat len < fuel)%nat →
  crc32_tail fuel crc buf pos len = Ok (crc_bits crc (slice pos len buf)).
Proof.
  revert crc pos len. induction fuel as [|fuel IH]; intros crc pos len Hok Hp Hl Hb Hf; [lia|].
  cbn [crc32_tail]. destruct (Z.eqb_spec len 0) as [->|Hn].
  - by rewrite slice_nil.
  - crc_line. apply IH; [done|lia..].
Qed.

Lemma crc32_unrolled_bits fuel crc buf pos len :
  bytes_ok buf → 0 ≤ pos → 0 ≤ len → pos + len ≤ zlen buf → (Z.to_nat len < fuel)%nat →
  ∃ crc' pos' len', crc32_unrolled fuel crc buf pos len = Ok (crc', pos', len') ∧
    0 ≤ pos' ∧ 0 ≤ len' ∧ pos' + len' ≤ zlen buf ∧
    crc_bits crc' (slice pos' len' buf) = crc_bits crc (slice pos len buf).
Proof.
  revert crc pos len. induction fuel as [|fuel IH]; intros crc pos len Hok Hp Hl Hb Hf; [lia|].
  cbn [crc32_unrolled]. destruct (Z.leb_spec 8 len) as [Hn|Hn]; [|by exists crc, pos, len].
  do 8 crc_line.
  match goal with |- context [crc_bits ?c (slice ?p ?n buf)] =>
    replace (pos + 8) with p by lia; replace (len - 8) with n by lia;
    apply (IH c p n); [done|lia..]
  end.
Qed.

Lemma fsd_crc32_update_bits crc buf len :
  bytes_ok buf → 0 ≤ len ≤ zlen buf →
  fsd_crc32_update crc buf len = Ok (crc_bits crc (slice 0 len buf)).
Proof.
  intros Hok Hl. unfold fsd_crc32_update.
  destruct (crc32_unrolled_bits (S (Z.to_nat len)) crc buf 0 len)
    as (c & p & n & -> & Hp & Hn & Hb & <-); [done|lia..|].
  cbn [mbind outcome_bind]. apply crc32_tail_bits; [done|lia..].
Qed.

Lemma fsd_crc32_eq buf len :
  bytes_ok buf → 0 ≤ len ≤ zlen buf →
  fsd_crc32 buf len = Ok (fsd_crc32_final (crc_bits (u32 (Z.lnot 0)) (slice 0 len buf))).
Proof. intros. unfold fsd_crc32. by rewrite fsd_crc32_update_bits. Qed.

(** * Properties *)

(** C36: the unrolled, table-driven checksum of [len] bytes of a buffer is the
    bit-serial CRC-32 with polynomial 0xEDB88320 (initial value all ones, result
    complemented) of those bytes, read without leaving the buffer; and taking it
    in two pieces with [fsd_crc32_update] and [fsd_crc32_final] gives the same
    value. *)
Theorem crc32_is_bit_serial buf len cut :
  bytes_ok buf → 0 ≤ cut ≤ len → len ≤ zlen buf →
  fsd_crc32 buf len =
    Ok (u32 (Z.lnot (crc_bits (2 ^ 32 - 1) (slice 0 len buf)))) ∧
  (crc ← fsd_crc32_update (2 ^ 32 - 1) buf cut;
   crc ← fsd_crc32_update crc (drop (Z.to_nat cut) buf) (len - cut);
   Ok (fsd_crc32_final crc)) = fsd_crc32 buf len.
Proof.
  intros Hok Hc Hl.
  assert (Hd : bytes_ok (drop (Z.to_nat cut) buf)) by (unfold bytes_ok in *; by apply Forall_drop).
  assert (zlen (drop (Z.to_nat cut) buf) = zlen buf - cut) by (unfold zlen in *; zl; lia).
  rewrite fsd_crc32_eq by (done || lia). split; [done|].
  rewrite fsd_crc32_update_bits by (done || lia). cbn [mbind outcome_bind].
  rewrite fsd_crc32_update_bits by (done || lia). cbn [mbind outcome_bind].
  do 2 f_equal. change (u32 (Z.lnot 0)) with (2 ^ 32 - 1).
  unfold crc_bits. rewrite <- fold_left_app. f_equal.
  replace len with (cut + (len - cut)) at 2 by lia.
  rewrite slice_app_add by lia. done.
Qed.

Lemma crc32_is_bit_serial_witness :
  fsd_crc32 [49; 50; 51; 52; 53; 54; 55; 56; 57] 9 = Ok 0xCBF43926.
Proof.
  destruct (crc32_is_bit_serial [49; 50; 51; 52; 53; 54; 55; 56; 57] 9 4) as [-> _];
    [by apply bytes_okb|lia|unfold zlen; cbn [length]; lia|].
  vm_compute. reflexivity.
Defined.
