(* ===== verification/MemoryPool.v ===== *)
(** The arena allocator (src/core/memory_pool.c, memory_pool.h).

    A pool carves allocations out of chunks obtained from an underlying
    [fsd_allocator_t].  The chunks form a linked list in memory, so the model
    keeps them in a store indexed by address, with [next] pointers that the code
    reads and overwrites; a null pointer is 0 and a dereference of an address
    with no chunk is undefined.

    The allocator is an interface: the operations ([Allocator]), the live
    regions a state stands for ([AllocatorSpec]) and the documented behaviour of
    malloc and free ([AllocatorLaws]); [bump] is an implementation of it.

    Shown here: whatever sequence of allocations and resets follows, the pool
    never dereferences a bad pointer, hands out aligned regions that lie in live
    memory and do not overlap one another, and stays under its memory limit;
    without a reset, destroying it gives back every region; after a reset it
    may not. *)

From stdpp Require Import base gmap list numbers tactics sorting.
From Stdlib Require Import ZArith Lia.
From S2P Require Import Prelude.

Open Scope Z_scope.

(** * The underlying allocator *)

(** [malloc_fn] returns the address, 0 when it fails. *)
Class Allocator (A : Type) := {
  malloc_fn : Z → A → Z * A;
  free_fn : Z → A → A
}.

(** A region of memory: address and size. *)
Definition region : Type := Z * Z.

(** The bytes of a list of regions. *)
Definition region_bytes (l : list region) : Z := foldr (fun r s => r.2 + s) 0 l.

Class AllocatorSpec (A : Type) := {
  live : A → list region;
  alloc_ok : A → Prop
}.

Definition disj (r s : region) : Prop := r.1 + r.2 ≤ s.1 ∨ s.1 + s.2 ≤ r.1.

(** Every region is disjoint from all the others. *)
Definition pairwise (l : list region) : Prop := ∀ r l', l ≡ₚ r :: l' → Forall (disj r) l'.

(** malloc's regions are 8-aligned, do not overlap and fit the address space. *)
Class AllocatorLaws (A : Type) `{AL : Allocator A} `{ALS : AllocatorSpec A} := {
  live_disj a : alloc_ok a → pairwise (live a);
  live_range a : alloc_ok a → Forall (fun r => 0 < r.1 ∧ 0 < r.2 ∧ r.1 + r.2 < 2 ^ 64 ∧ r.1 mod 8 = 0) (live a);
  live_total a : alloc_ok a → region_bytes (live a) < 2 ^ 64;
  malloc_law size a p a' :
    alloc_ok a → 0 < size → malloc_fn size a = (p, a') →
    alloc_ok a' ∧ (p = 0 ∧ live a' ≡ₚ live a ∨ p ≠ 0 ∧ live a' ≡ₚ (p, size) :: live a);
  free_law p size a l :
    alloc_ok a → live a ≡ₚ (p, size) :: l → alloc_ok (free_fn p a) ∧ live (free_fn p a) ≡ₚ l
}.

(** * The program *)

Record fsd_pool_chunk_t := mkChunk {
  ck_data : Z;
  ck_size : Z;
  ck_used : Z;
  ck_next : Z
}.

Record fsd_memory_pool_t := mkPool {
  mp_chunks : Z;
  mp_current : Z;
  mp_chunk_size : Z;
  mp_total_allocated : Z;
  mp_max_memory : Z
}.

(** [sizeof] on a 64-bit target: four words, and five words plus the four
    pointers of the embedded [fsd_allocator_t]. *)
Definition sizeof_chunk : Z := 32.
Definition sizeof_pool : Z := 72.

Section Pool.
Context {A : Type} {AL : Allocator A}.

(** Memory: the allocator and the chunk structures. *)
Record world := mkWorld { w_alloc : A; w_heap : gmap Z fsd_pool_chunk_t }.

Definition deref (w : world) (p : Z) : outcome fsd_pool_chunk_t :=
  match w_heap w !! p with Some k => Ok k | None => UB end.

Definition assign (w : world) (p : Z) (k : fsd_pool_chunk_t) : world :=
  mkWorld (w_alloc w) (<[p := k]> (w_heap w)).

Definition set_used (k : fsd_pool_chunk_t) (u : Z) : fsd_pool_chunk_t :=
  mkChunk (ck_data k) (ck_size k) u (ck_next k).

Definition set_next (k : fsd_pool_chunk_t) (n : Z) : fsd_pool_chunk_t :=
  mkChunk (ck_data k) (ck_size k) (ck_used k) n.

Definition create_chunk (pool : fsd_memory_pool_t) (size : Z) (w : world) : Z * fsd_memory_pool_t * world :=
  if (0 <? mp_max_memory pool) && (mp_max_memory pool <? u64 (mp_total_allocated pool + size))
  then (0, pool, w)
  else
    let '(c, a) := malloc_fn sizeof_chunk (w_alloc w) in
    if c =? 0 then (0, pool, mkWorld a (w_heap w)) else
    let '(d, a) := malloc_fn size a in
    if d =? 0 then (0, pool, mkWorld (free_fn c a) (w_heap w)) else
    (c,
     mkPool (mp_chunks pool) (mp_current pool) (mp_chunk_size pool)
            (u64 (mp_total_allocated pool + size)) (mp_max_memory pool),
     mkWorld a (<[c := mkChunk d size 0 0]> (w_heap w))).

(** The address of the pool structure and its contents, or an error with the
    allocator as it is left. *)
Definition fsd_pool_create (chunk_size max_memory : Z) (w : world)
  : outcome (Z * fsd_memory_pool_t) * world :=
  if chunk_size =? 0 then (Err FSD_ERR_INVALID_ARG, w) else
  let '(p, a) := malloc_fn sizeof_pool (w_alloc w) in
  if p =? 0 then (Err FSD_ERR_OUT_OF_MEMORY, mkWorld a (w_heap w)) else
  let pool := mkPool 0 0 chunk_size 0 max_memory in
  let '(initial, pool, w) := create_chunk pool chunk_size (mkWorld a (w_heap w)) in
  if initial =? 0 then (Err FSD_ERR_OUT_OF_MEMORY, mkWorld (free_fn p (w_alloc w)) (w_heap w)) else
  (Ok (p, mkPool initial initial (mp_chunk_size pool) (mp_total_allocated pool) (mp_max_memory pool)), w).

(** [if (chunk) chunk->next = new_chunk; else pool->chunks = new_chunk;
    pool->current = new_chunk;], common to both allocators. *)
Definition link_chunk (pool : fsd_memory_pool_t) (new_chunk : Z) (w : world) : outcome (fsd_memory_pool_t * world) :=
  let chunk := mp_current pool in
  if chunk =? 0 then
    Ok (mkPool new_chunk new_chunk (mp_chunk_size pool) (mp_total_allocated pool) (mp_max_memory pool), w)
  else
    k ← deref w chunk;
    Ok (mkPool (mp_chunks pool) new_chunk (mp_chunk_size pool) (mp_total_allocated pool) (mp_max_memory pool),
        assign w chunk (set_next k new_chunk)).

(** [(addr + alignment - 1) & ~(alignment - 1)] on a [uintptr_t]. *)
Definition align_up (addr alignment : Z) : Z :=
  Z.land (u64 (addr + alignment - 1)) (u64 (Z.lnot (alignment - 1))).

Definition fsd_pool_alloc (pool : fsd_memory_pool_t) (size : Z) (w : world)
  : outcome (Z * fsd_memory_pool_t * world) :=
  if size =? 0 then Ok (0, pool, w) else
  if SIZE_MAX - 7 <? size then Ok (0, pool, w) else
  let size := Z.land (u64 (size + 7)) (u64 (Z.lnot 7)) in
  let chunk := mp_current pool in
  let fresh :=
    let new_size := if mp_chunk_size pool <? size then size else mp_chunk_size pool in
    let '(new_chunk, pool, w) := create_chunk pool new_size w in
    if new_chunk =? 0 then Ok (0, pool, w) else
    '(pool, w) ← link_chunk pool new_chunk w;
    k ← deref w new_chunk;
    Ok (ck_data k, pool, assign w new_chunk (set_used k size)) in
  if chunk =? 0 then fresh else
  k ← deref w chunk;
  if size <=? u64 (ck_size k - ck_used k)
  then Ok (ck_data k + ck_used k, pool, assign w chunk (set_used k (u64 (ck_used k + size))))
  else fresh.

Definition fsd_pool_alloc_aligned (pool : fsd_memory_pool_t) (size alignment : Z) (w : world)
  : outcome (Z * fsd_memory_pool_t * world) :=
  if (size =? 0) || (alignment =? 0) then Ok (0, pool, w) else
  if negb (Z.land alignment (alignment - 1) =? 0) then Ok (0, pool, w) else
  let chunk := mp_current pool in
  let fresh :=
    if SIZE_MAX - (alignment - 1) <? size then Ok (0, pool, w) else
    let new_size := u64 (size + alignment - 1) in
    let new_size := if new_size <? mp_chunk_size pool then mp_chunk_size pool else new_size in
    let '(new_chunk, pool, w) := create_chunk pool new_size w in
    if new_chunk =? 0 then Ok (0, pool, w) else
    '(pool, w) ← link_chunk pool new_chunk w;
    k ← deref w new_chunk;
    let aligned := align_up (ck_data k) alignment in
    let padding := u64 (aligned - ck_data k) in
    Ok (aligned, pool, assign w new_chunk (set_used k (u64 (padding + size)))) in
  if chunk =? 0 then fresh else
  k ← deref w chunk;
  let addr := ck_data k + ck_used k in
  let aligned := align_up addr alignment in
  let padding := u64 (aligned - addr) in
  let free_space := u64 (ck_size k - ck_used k) in
  if (padding <=? free_space) && (size <=? free_space - padding)
  then Ok (aligned, pool, assign w chunk (set_used k (u64 (ck_used k + (padding + size)))))
  else fresh.

(** [for (chunk = pool->chunks; chunk; chunk = chunk->next) chunk->used = 0]. *)
Fixpoint reset_loop (fuel : nat) (chunk : Z) (w : world) : outcome world :=
  match fuel with
  | O => NoFuel
  | S fuel =>
      if chunk =? 0 then Ok w else
      k ← deref w chunk;
      reset_loop fuel (ck_next k) (assign w chunk (set_used k 0))
  end.

(** No list of distinct chunks is longer than the store. *)
Definition list_fuel (w : world) : nat := S (size (w_heap w)).

Definition fsd_pool_reset (pool : fsd_memory_pool_t) (w : world) : outcome (fsd_memory_pool_t * world) :=
  w ← reset_loop (list_fuel w) (mp_chunks pool) w;
  Ok (mkPool (mp_chunks pool) (mp_chunks pool) (mp_chunk_size pool) (mp_total_allocated pool) (mp_max_memory pool), w).

Fixpoint usage_loop (fuel : nat) (chunk used : Z) (w : world) : outcome Z :=
  match fuel with
  | O => NoFuel
  | S fuel =>
      if chunk =? 0 then Ok used else
      k ← deref w chunk;
      usage_loop fuel (ck_next k) (u64 (used + ck_used k)) w
  end.

Definition fsd_pool_usage (pool : fsd_memory_pool_t) (w : world) : outcome Z :=
  usage_loop (list_fuel w) (mp_chunks pool) 0 w.

Fixpoint destroy_loop (fuel : nat) (chunk : Z) (w : world) : outcome world :=
  match fuel with
  | O => NoFuel
  | S fuel =>
      if chunk =? 0 then Ok w else
      k ← deref w chunk;
      let a := free_fn (ck_data k) (w_alloc w) in
      let a := free_fn chunk a in
      destroy_loop fuel (ck_next k) (mkWorld a (delete chunk (w_heap w)))
  end.

(** [self] is the address of the pool structure. *)
Definition fsd_pool_destroy (self : Z) (pool : fsd_memory_pool_t) (w : world) : outcome world :=
  w ← destroy_loop (list_fuel w) (mp_chunks pool) w;
  Ok (mkWorld (free_fn self (w_alloc w)) (w_heap w)).

End Pool.

(** * Lists of disjoint regions *)

#[global] Instance pairwise_proper : Proper ((≡ₚ) ==> iff) pairwise.
Proof. intros l l' Hl. unfold pairwise. by setoid_rewrite Hl. Qed.

Lemma disj_sym r s : disj r s → disj s r.
Proof. unfold disj. tauto. Qed.

Lemma pairwise_cons r l : pairwise (r :: l) ↔ Forall (disj r) l ∧ pairwise l.
Proof.
  split.
  - intros H. split; [by apply H|]. intros s l' Hl.
    specialize (H s (r :: l')). rewrite Hl in H.
    by apply Forall_cons_iff in H as [_ H]; [|constructor].
  - intros [Hr Hl] s l' Hp.
    assert (s ∈ r :: l) as Hs by (rewrite Hp; left).
    apply elem_of_cons in Hs as [->|Hs]; [by apply Permutation_cons_inv in Hp; rewrite <- Hp|].
    apply elem_of_Permutation in Hs as [l'' Hl''].
    assert (l' ≡ₚ r :: l'') as ->.
    { apply (Permutation_cons_inv (a := s)). rewrite <- Hp, Hl''. constructor. }
    apply Forall_cons_iff. split; [|by apply Hl].
    rewrite Hl'' in Hr. apply Forall_cons_iff in Hr as [? _]. by apply disj_sym.
Qed.

Lemma pairwise_nil : pairwise [].
Proof. intros r l' H. by apply Permutation_nil_cons in H. Qed.

Lemma pairwise_app_l l k : pairwise (l ++ k) → pairwise l.
Proof.
  induction l as [|r l IH]; cbn [app]; [intros; apply pairwise_nil|].
  rewrite !pairwise_cons. intros [H ?]. apply Forall_app in H as [? _]. auto.
Qed.

#[global] Instance region_bytes_proper : Proper ((≡ₚ) ==> eq) region_bytes.
Proof. intros l l'. unfold region_bytes. induction 1; cbn [foldr] in *; lia. Qed.

Lemma region_bytes_app l k : region_bytes (l ++ k) = region_bytes l + region_bytes k.
Proof. unfold region_bytes. induction l; cbn [app foldr] in *; lia. Qed.

Lemma region_bytes_nonneg l : Forall (fun r : region => 0 < r.2) l → 0 ≤ region_bytes l.
Proof. unfold region_bytes. induction 1; cbn [foldr] in *; lia. Qed.

(** * The linked list of chunks *)

Definition cell : Type := Z * fsd_pool_chunk_t.

(** [seg h p cs q]: following [next] from [p] meets the chunks [cs], then [q]. *)
Fixpoint seg (h : gmap Z fsd_pool_chunk_t) (p : Z) (cs : list cell) (q : Z) : Prop :=
  match cs with
  | [] => p = q
  | x :: cs => p = x.1 ∧ p ≠ 0 ∧ h !! p = Some x.2 ∧ seg h (ck_next x.2) cs q
  end.

Lemma seg_app h p cs ds q : seg h p (cs ++ ds) q ↔ ∃ m, seg h p cs m ∧ seg h m ds q.
Proof.
  revert p. induction cs as [|x cs IH]; intros p; cbn [app seg].
  - naive_solver.
  - rewrite IH. naive_solver.
Qed.

Lemma seg_ext h h' p cs q :
  (∀ c, c ∈ cs.*1 → h' !! c = h !! c) → seg h p cs q → seg h' p cs q.
Proof.
  revert p. induction cs as [|x cs IH]; intros p He; cbn [seg]; [done|].
  intros (-> & Hn & Hh & Hs). split_and!; [done|done| |].
  - rewrite He; [done|]. left.
  - apply IH; [|done]. intros c Hc. apply He. by right.
Qed.

Lemma seg_lookup h p cs q x : seg h p cs q → x ∈ cs → h !! x.1 = Some x.2 ∧ x.1 ≠ 0.
Proof.
  revert p. induction cs as [|y cs IH]; intros p; cbn [seg]; [by intros _ ?%elem_of_nil|].
  intros (-> & Hn & Hh & Hs) [->|Hx]%elem_of_cons; eauto.
Qed.

Lemma seg_length h p cs q : NoDup cs.*1 → seg h p cs q → (length cs ≤ size h)%nat.
Proof.
  intros Hnd Hs. rewrite <- (length_fmap fst cs).
  rewrite <- (size_list_to_set (C := gset Z)) by done.
  rewrite <- (size_dom (D := gset Z)). apply subseteq_size.
  intros c. rewrite elem_of_list_to_set, elem_of_dom.
  intros (x & -> & Hx)%list_elem_of_fmap. destruct (seg_lookup _ _ _ _ _ Hs Hx). eauto.
Qed.

(** Changing a chunk in place. *)
Lemma seg_put h p pre c k k' post :
  NoDup (pre ++ (c, k) :: post).*1 → ck_next k' = ck_next k →
  seg h p (pre ++ (c, k) :: post) 0 → seg (<[c := k']> h) p (pre ++ (c, k') :: post) 0.
Proof.
  rewrite fmap_app. intros (_ & Hpre & Hpost)%NoDup_app Hk (m & H1 & H2)%seg_app.
  cbn [fmap list_fmap fst] in *. apply NoDup_cons in Hpost as [Hc _].
  apply seg_app. exists m. split.
  - eapply seg_ext; [|done]. intros c' Hc'. apply lookup_insert_ne. intros ->.
    eapply Hpre; [done|left].
  - cbn [seg fst snd] in *. destruct H2 as (-> & ? & ? & ?).
    split_and!; [done|done|apply lookup_insert_eq|]. rewrite Hk.
    eapply seg_ext; [|done]. intros c' Hc'. apply lookup_insert_ne. naive_solver.
Qed.

(** Overwriting [next] of a chunk cuts off what followed it. *)
Lemma seg_cut h h' p pre c k post n kn :
  seg h p (pre ++ (c, k) :: post) 0 →
  (∀ c', c' ∈ pre.*1 → h' !! c' = h !! c') →
  h' !! c = Some (set_next k n) → h' !! n = Some kn → n ≠ 0 → ck_next kn = 0 →
  seg h' p ((pre ++ [(c, set_next k n)]) ++ [(n, kn)]) 0.
Proof.
  intros (m & H1 & H2)%seg_app He Hc Hn Hn0 Hkn. cbn [seg fst snd] in H2.
  destruct H2 as (-> & ? & ? & ?).
  apply seg_app. exists n. split; [|by cbn [seg fst snd]].
  apply seg_app. exists c. split; [by eapply seg_ext|]. by cbn [seg fst snd].
Qed.

Definition cell_regions (cs : list cell) : list region :=
  cs ≫= fun x => [(x.1, sizeof_chunk); (ck_data x.2, ck_size x.2)].

Definition cell_bytes (cs : list cell) : Z := foldr (fun x s => ck_size x.2 + s) 0 cs.

Lemma cell_bytes_app l k : cell_bytes (l ++ k) = cell_bytes l + cell_bytes k.
Proof. unfold cell_bytes. induction l; cbn [app foldr] in *; lia. Qed.

Lemma cell_regions_bytes cs : cell_bytes cs ≤ region_bytes (cell_regions cs).
Proof.
  unfold cell_bytes, cell_regions, region_bytes, sizeof_chunk.
  induction cs as [|x cs IH]; cbn [mbind list_bind app foldr fst snd] in *; lia.
Qed.

#[global] Instance cell_regions_proper : Proper ((≡ₚ) ==> (≡ₚ)) cell_regions.
Proof. intros l l' H. unfold cell_regions. by rewrite H. Qed.

Lemma cell_regions_app l k : cell_regions (l ++ k) = cell_regions l ++ cell_regions k.
Proof. apply bind_app. Qed.

(** Two different chunks have different addresses and disjoint data. *)
Lemma cells_disjoint x cs y :
  pairwise (cell_regions (x :: cs)) → y ∈ cs →
  x.1 ≠ y.1 ∧ disj (ck_data x.2, ck_size x.2) (ck_data y.2, ck_size y.2).
Proof.
  intros H Hy. apply elem_of_Permutation in Hy as [cs' Hc]. rewrite Hc in H. clear Hc.
  cbn in H. rewrite !pairwise_cons, !Forall_cons_iff in H.
  destruct H as ((_ & H1 & _) & (_ & H2 & _) & _). unfold disj, sizeof_chunk in *. cbn in *. lia.
Qed.

Lemma cells_nodup cs : pairwise (cell_regions cs) → NoDup cs.*1.
Proof.
  induction cs as [|x cs IH]; cbn [fmap list_fmap]; [constructor|].
  intros H. apply NoDup_cons. split.
  - intros (y & Hxy & Hy)%list_elem_of_fmap.
    by destruct (cells_disjoint x cs y H Hy) as [? _].
  - apply IH. cbn in H. rewrite !pairwise_cons in H. tauto.
Qed.

(** * The pool invariant *)

Section PoolInv.
Context {A : Type} {AL : Allocator A} {ALS : AllocatorSpec A} {ALL : AllocatorLaws A}.

(** A chunk's fill level is within its size and a multiple of [g]. *)
Definition cell_ok (g : Z) (x : cell) : Prop :=
  0 ≤ ck_used x.2 ≤ ck_size x.2 ∧ ck_used x.2 mod g = 0.

(** The region lies in the part of the chunk handed out so far. *)
Definition in_cell (r : region) (x : cell) : Prop :=
  ck_data x.2 ≤ r.1 ∧ r.1 + r.2 ≤ ck_data x.2 + ck_used x.2.

(** The allocations handed out since the last reset, with the alignment each
    was promised. *)
Definition alloc_log : Type := list (region * Z).

(** The pool at address [self], its list of chunks [pre ++ cur :: post] with
    [cur] the current one, and [lost], the chunks no pointer leads to any more;
    [base] is what others have allocated. *)
Record pool_ok (g self : Z) (base : list region) (pool : fsd_memory_pool_t) (w : @world A)
    (pre : list cell) (cur : cell) (post lost : list cell) (log : alloc_log) : Prop := {
  po_alloc : alloc_ok (w_alloc w);
  po_live : live (w_alloc w) ≡ₚ
    cell_regions (pre ++ cur :: post) ++ cell_regions lost ++ (self, sizeof_pool) :: base;
  po_seg : seg (w_heap w) (mp_chunks pool) (pre ++ cur :: post) 0;
  po_current : mp_current pool = cur.1;
  po_size : 0 < mp_chunk_size pool < 2 ^ 64;
  po_cells : Forall (cell_ok g) (pre ++ cur :: post);
  po_total : mp_total_allocated pool = cell_bytes (pre ++ cur :: post) + cell_bytes lost;
  po_limit : 0 < mp_max_memory pool → mp_total_allocated pool ≤ mp_max_memory pool;
  po_log : Forall (fun e => e.1.1 mod e.2 = 0 ∧ ∃ x, x ∈ pre ++ [cur] ∧ in_cell e.1 x) log;
  po_disj : pairwise log.*1
}.

Lemma po_pairwise g self base pool w pre cur post lost log :
  pool_ok g self base pool w pre cur post lost log → pairwise (cell_regions (pre ++ cur :: post)).
Proof.
  intros H. eapply pairwise_app_l. rewrite <- (po_live _ _ _ _ _ _ _ _ _ _ H).
  apply live_disj. apply H.
Qed.

(** What the allocator knows of a chunk of the list. *)
Lemma po_cell g self base pool w pre cur post lost log x :
  pool_ok g self base pool w pre cur post lost log → x ∈ pre ++ cur :: post →
  0 < ck_data x.2 ∧ 0 < ck_size x.2 ∧ ck_data x.2 + ck_size x.2 < 2 ^ 64 ∧ ck_data x.2 mod 8 = 0 ∧
  cell_ok g x.
Proof.
  intros H Hx. pose proof (live_range _ (po_alloc _ _ _ _ _ _ _ _ _ _ H)) as Hr.
  rewrite (po_live _ _ _ _ _ _ _ _ _ _ H) in Hr. apply Forall_app in Hr as [Hr _].
  pose proof (po_cells _ _ _ _ _ _ _ _ _ _ H) as Hc. rewrite Forall_forall in Hc.
  apply elem_of_Permutation in Hx as [cs Hcs].
  assert (x ∈ pre ++ cur :: post) as Hx by (rewrite Hcs; left).
  rewrite Hcs in Hr. cbn in Hr. rewrite !Forall_cons_iff in Hr.
  destruct Hr as (_ & Hr & _). specialize (Hc _ Hx). naive_solver.
Qed.

(** Carving [s] bytes at [off] out of the current chunk. *)
Lemma carve_ok off p g self base pool w pre c k post lost log s u al :
  pool_ok g self base pool w pre (c, k) post lost log → p = ck_data k + off →
  ck_used k ≤ off → 0 ≤ s → off + s ≤ u → u ≤ ck_size k → u mod g = 0 → p mod al = 0 →
  pool_ok g self base pool (assign w c (set_used k u)) pre (c, set_used k u) post lost
    (((p, s), al) :: log).
Proof.
  intros H -> Ho Hs Hu Hk Hg Hal. pose proof (po_pairwise _ _ _ _ _ _ _ _ _ _ H) as Hp.
  pose proof (cells_nodup _ Hp) as Hnd.
  assert (HP : pre ++ (c, k) :: post ≡ₚ (c, k) :: pre ++ post) by (symmetry; apply Permutation_middle).
  assert (Hc0 : cell_ok g (c, k)).
  { eapply Forall_forall; [apply (po_cells _ _ _ _ _ _ _ _ _ _ H)|]. apply elem_of_app. right. left. }
  destruct Hc0 as [Hc0 _]. cbn [snd] in Hc0.
  destruct H. constructor; cbn [w_alloc w_heap assign fst snd] in *; try done.
  - rewrite po_live0, !cell_regions_app. reflexivity.
  - by eapply seg_put.
  - apply Forall_app in po_cells0 as [? (Hc & ?)%Forall_cons_iff].
    apply Forall_app. split; [done|]. apply Forall_cons_iff. split; [|done].
    unfold cell_ok in *. cbn in *. lia.
  - by rewrite po_total0, !cell_bytes_app.
  - apply Forall_cons_iff. split.
    + cbn [fst snd]. split; [done|]. exists (c, set_used k u). split; [set_solver|].
      unfold in_cell. cbn. lia.
    + eapply Forall_impl; [done|]. cbn beta. intros [r a] (? & x & Hx & Hi). split; [done|].
      apply elem_of_app in Hx as [Hx|Hx]; [exists x; split; [set_solver|done]|].
      apply list_elem_of_singleton in Hx as ->. exists (c, set_used k u).
      split; [set_solver|]. unfold in_cell in *. cbn in *. lia.
  - cbn [fmap list_fmap fst]. apply pairwise_cons. split; [|done].
    apply Forall_fmap. eapply Forall_impl; [done|]. cbn. intros [r a] (_ & x & Hx & Hi).
    cbn [fst] in *. unfold in_cell in Hi.
    apply elem_of_app in Hx as [Hx|Hx].
    + rewrite HP in Hp. destruct (cells_disjoint _ _ x Hp ltac:(set_solver)) as [_ Hd].
      apply Forall_app in po_cells0 as [Hc _]. rewrite Forall_forall in Hc. specialize (Hc _ Hx).
      unfold disj, cell_ok in *. cbn in *. lia.
    + apply list_elem_of_singleton in Hx as ->. unfold disj. cbn in *. lia.
Qed.

(** ** A new chunk *)

Lemma create_chunk_spec pool size w n pool' w' :
  alloc_ok (w_alloc w) → 0 < size →
  0 ≤ mp_total_allocated pool ≤ region_bytes (live (w_alloc w)) →
  create_chunk pool size w = (n, pool', w') →
  alloc_ok (w_alloc w') ∧
  (n = 0 ∧ pool' = pool ∧ live (w_alloc w') ≡ₚ live (w_alloc w) ∧ w_heap w' = w_heap w ∨
   n ≠ 0 ∧ ∃ d,
     live (w_alloc w') ≡ₚ cell_regions [(n, mkChunk d size 0 0)] ++ live (w_alloc w) ∧
     w_heap w' = <[n := mkChunk d size 0 0]> (w_heap w) ∧
     pool' = mkPool (mp_chunks pool) (mp_current pool) (mp_chunk_size pool)
               (mp_total_allocated pool + size) (mp_max_memory pool) ∧
     (0 < mp_max_memory pool → mp_total_allocated pool + size ≤ mp_max_memory pool)).
Proof.
  intros Ha Hs Ht. unfold create_chunk.
  destruct (_ && _) eqn:Hlim; [intros [= <- <- <-]; split; [done|by left]|].
  destruct (malloc_fn sizeof_chunk _) as [c a1] eqn:Hm1.
  destruct (malloc_law sizeof_chunk _ _ _ Ha eq_refl Hm1) as [Ha1 [[-> Hl1]|[Hc Hl1]]].
  { cbn [Z.eqb]. intros [= <- <- <-]. cbn. split; [done|]. by left. }
  destruct (Z.eqb_spec c 0) as [|_]; [done|].
  destruct (malloc_fn size a1) as [d a2] eqn:Hm2.
  destruct (malloc_law _ _ _ _ Ha1 Hs Hm2) as [Ha2 [[-> Hl2]|[Hd Hl2]]].
  { cbn [Z.eqb]. intros [= <- <- <-]. cbn. rewrite Hl1 in Hl2.
    destruct (free_law c sizeof_chunk a2 _ Ha2 Hl2) as [? ?]. split; [done|]. by left. }
  destruct (Z.eqb_spec d 0) as [|_]; [done|].
  intros [= <- <- <-]. cbn. split; [done|]. right. split; [done|]. exists d.
  assert (Hl : live a2 ≡ₚ (c, sizeof_chunk) :: (d, size) :: live (w_alloc w))
    by (rewrite Hl2, Hl1; constructor).
  pose proof (live_total _ Ha2) as Htot. rewrite Hl in Htot.
  cbn [region_bytes foldr snd] in Htot. unfold region_bytes, sizeof_chunk in *.
  rewrite wrap_small in * by lia. split_and!; [done|done|done|].
  intros Hmax. apply andb_false_iff in Hlim as [Hlim|Hlim]; apply Z.ltb_ge in Hlim; lia.
Qed.

(** The pool's account never exceeds what is live. *)
Lemma po_bytes g self base pool w pre cur post lost log :
  pool_ok g self base pool w pre cur post lost log →
  0 ≤ mp_total_allocated pool ≤ region_bytes (live (w_alloc w)).
Proof.
  intros H. pose proof (live_range _ (po_alloc _ _ _ _ _ _ _ _ _ _ H)) as Hr.
  pose proof (po_live _ _ _ _ _ _ _ _ _ _ H) as Hl. rewrite Hl in Hr |- *.
  rewrite !region_bytes_app. rewrite (po_total _ _ _ _ _ _ _ _ _ _ H).
  pose proof (cell_regions_bytes (pre ++ cur :: post)). pose proof (cell_regions_bytes lost).
  assert (Hnn : ∀ cs, Forall (fun r : region => 0 < r.1 ∧ 0 < r.2 ∧ r.1 + r.2 < 2 ^ 64 ∧ r.1 mod 8 = 0)
                        (cell_regions cs) → 0 ≤ cell_bytes cs).
  { induction cs as [|x cs IH]; cbn; [lia|]. rewrite !Forall_cons_iff. cbn. intros (_ & ? & ?).
    unfold cell_bytes in *. specialize (IH ltac:(done)). lia. }
  rewrite !Forall_app in Hr. destruct Hr as (F1 & F2 & F3).
  assert (0 ≤ region_bytes ((self, sizeof_pool) :: base)).
  { apply region_bytes_nonneg. eapply Forall_impl; [exact F3|]. cbn beta. tauto. }
  pose proof (Hnn _ F1). pose proof (Hnn _ F2). lia.
Qed.

(** Getting a chunk and linking it, as both allocators do. *)
Lemma fresh_ok g self base pool w pre c k post lost log size n pool' w' :
  pool_ok g self base pool w pre (c, k) post lost log → 0 < size →
  create_chunk pool size w = (n, pool', w') →
  (n = 0 ∧ pool_ok g self base pool' w' pre (c, k) post lost log) ∨
  (n ≠ 0 ∧ ∃ d pool2 w2,
     link_chunk pool' n w' = Ok (pool2, w2) ∧
     deref w2 n = Ok (mkChunk d size 0 0) ∧
     pool_ok g self base pool2 w2 (pre ++ [(c, set_next k n)]) (n, mkChunk d size 0 0) [] (lost ++ post) log).
Proof.
  intros H Hs Hc. pose proof (po_bytes _ _ _ _ _ _ _ _ _ _ H) as Hb.
  pose proof (po_pairwise _ _ _ _ _ _ _ _ _ _ H) as Hp. pose proof (cells_nodup _ Hp) as Hnd.
  destruct (seg_lookup _ _ _ _ (c, k) (po_seg _ _ _ _ _ _ _ _ _ _ H)) as [Hck Hc0];
    [apply elem_of_app; right; left|]. cbn [fst snd] in Hck, Hc0.
  destruct (create_chunk_spec _ _ _ _ _ _ (po_alloc _ _ _ _ _ _ _ _ _ _ H) Hs Hb Hc)
    as (Ha & [(-> & -> & Hl & Hh)|(Hn & d & Hl & Hh & -> & Hlim)]).
  { left. split; [done|]. destruct H. constructor; rewrite ?Hl, ?Hh; done. }
  right. split; [done|]. unfold link_chunk. cbn [mp_current].
  rewrite (po_current _ _ _ _ _ _ _ _ _ _ H). cbn [fst].
  destruct (Z.eqb_spec c 0) as [|_]; [done|].
  assert (Hnew : Forall (fun x => n ≠ x.1) (pre ++ (c, k) :: post)).
  { pose proof (live_disj _ Ha) as Hd. rewrite Hl, (po_live _ _ _ _ _ _ _ _ _ _ H), app_assoc in Hd.
    apply pairwise_app_l in Hd. rewrite <- cell_regions_app in Hd.
    apply Forall_forall. intros x Hx. by destruct (cells_disjoint _ _ x Hd Hx). }
  assert (Hnc : n ≠ c) by (apply Forall_app in Hnew as [_ Hnew]; by apply Forall_cons_iff in Hnew as [? _]).
  unfold deref at 1. rewrite Hh, lookup_insert_ne, Hck by done. cbn [mbind outcome_bind].
  eexists d, _, _. split; [reflexivity|]. split.
  { unfold deref. cbn [w_heap assign]. by rewrite Hh, lookup_insert_ne, lookup_insert_eq by done. }
  destruct H. constructor; cbn [w_alloc w_heap assign mp_chunks mp_current mp_chunk_size mp_total_allocated mp_max_memory fst] in *.
  - done.
  - rewrite Hl, po_live0, !cell_regions_app. cbn. solve_Permutation.
  - rewrite Hh. eapply seg_cut; [exact po_seg0| |apply lookup_insert_eq| |done|done].
    + intros c' Hc'. rewrite fmap_app in Hnd. apply NoDup_app in Hnd as (_ & Hpre & _).
      assert (c' ≠ c) by (intros ->; eapply Hpre; [done|left]).
      rewrite lookup_insert_ne, lookup_insert_ne; [done| |done].
      apply Forall_app in Hnew as [Hnew _]. rewrite Forall_forall in Hnew.
      apply list_elem_of_fmap in Hc' as (x & -> & Hx). by apply Hnew.
    + by rewrite lookup_insert_ne, lookup_insert_eq.
  - done.
  - done.
  - apply Forall_app in po_cells0 as [? (Hck1 & ?)%Forall_cons_iff].
    rewrite !Forall_app, !Forall_cons_iff. split_and!; try done.
    split; cbn; [lia|apply Zmod_0_l].
  - rewrite po_total0, !cell_bytes_app. unfold cell_bytes. cbn [foldr snd ck_size set_next]. lia.
  - done.
  - eapply Forall_impl; [done|]. cbn beta. intros [r a] (? & x & Hx & Hi). split; [done|].
    apply elem_of_app in Hx as [Hx|Hx].
    + exists x. split; [|done]. rewrite !elem_of_app. by left; left.
    + apply list_elem_of_singleton in Hx as ->. exists (c, set_next k n). split; [|done].
      rewrite !elem_of_app. left; right. left.
  - done.
Qed.

(** ** The operations keep the invariant *)

Lemma deref_some (w : @world A) p k : w_heap w !! p = Some k → deref w p = Ok k.
Proof. unfold deref. by intros ->. Qed.

Definition pool_inv (g self : Z) (base : list region) (pool : fsd_memory_pool_t) (w : @world A)
    (clean : bool) (log : alloc_log) : Prop :=
  ∃ pre cur post lost, pool_ok g self base pool w pre cur post lost log ∧
    (clean = true → post = [] ∧ lost = []).

Definition granule (g : Z) : Prop := g = 1 ∨ g = 8.

Lemma round8_spec size :
  0 < size → size ≤ SIZE_MAX - 7 →
  let s := Z.land (u64 (size + 7)) (u64 (Z.lnot 7)) in
  size ≤ s < size + 8 ∧ s mod 8 = 0.
Proof.
  unfold SIZE_MAX. intros H1 H2. cbn zeta. rewrite (wrap_small 64 (size + 7)) by lia.
  change (Z.lnot 7) with (Z.lnot (2 ^ 3 - 1)). rewrite land_align by lia. change (2 ^ 3) with 8. zmod.
Qed.

Lemma align_up_spec addr al :
  0 ≤ addr < 2 ^ 64 → 0 < al < 2 ^ 64 → Z.land al (al - 1) = 0 →
  ∃ up, addr ≤ up < addr + al ∧ up mod al = 0 ∧ align_up addr al = u64 up ∧
        u64 (align_up addr al - addr) = up - addr.
Proof.
  intros Ha Hal Hz. apply land_pred_pow2 in Hz; [|lia].
  set (k := Z.log2 al) in *. assert (Hk : 0 ≤ k < 64) by (split; [apply Z.log2_nonneg|apply Z.log2_lt_pow2; lia]).
  pose proof (Z.div_mod (addr + al - 1) al). pose proof (Z.mod_pos_bound (addr + al - 1) al).
  exists ((addr + al - 1) / al * al). split; [lia|]. split; [by apply Z.mod_mul; lia|].
  assert (Heq : align_up addr al = u64 ((addr + al - 1) / al * al)).
  { unfold align_up. rewrite Hz at 2. rewrite land_align; [|lia|apply wrap_range; lia].
    rewrite <- Hz. unfold wrap.
    assert (Hdiv : 2 ^ 64 = 2 ^ (64 - k) * al) by (rewrite Hz, <- Z.pow_add_r by lia; f_equal; lia).
    rewrite Hdiv. rewrite Z.mul_mod_distr_r by lia. f_equal.
    rewrite (Z.mul_comm _ al). rewrite Z.rem_mul_r by lia.
    rewrite Z.mul_comm, Z.div_add by lia. rewrite (Z.div_small (_ mod al)) by lia. lia. }
  split; [done|]. rewrite Heq. unfold wrap. rewrite Zminus_mod_idemp_l.
  apply Z.mod_small. lia.
Qed.

Lemma fsd_pool_alloc_inv g self base pool w clean log size :
  granule g → pool_inv g self base pool w clean log → 0 ≤ size < 2 ^ 64 →
  ∃ p pool' w', fsd_pool_alloc pool size w = Ok (p, pool', w') ∧
    pool_inv g self base pool' w' clean (if p =? 0 then log else ((p, size), g) :: log).
Proof.
  intros Hg (pre & [c k] & post & lost & H & Hcl) Hs. unfold fsd_pool_alloc.
  destruct (Z.eqb_spec size 0) as [?|Hs0]; [by exists 0, pool, w; split; [|exists pre, (c, k), post, lost]|].
  destruct (Z.ltb_spec (SIZE_MAX - 7) size); [by exists 0, pool, w; split; [|exists pre, (c, k), post, lost]|].
  pose proof (round8_spec size ltac:(lia) ltac:(lia)) as Hr. cbn zeta in Hr.
  set (sz := Z.land _ _) in *.
  destruct (po_cell _ _ _ _ _ _ _ _ _ _ (c, k) H) as (Hd & Hsz & Htop & Hd8 & Hcu & Hcg);
    [apply elem_of_app; right; left|]. cbn [snd] in *.
  destruct (seg_lookup _ _ _ _ (c, k) (po_seg _ _ _ _ _ _ _ _ _ _ H)) as [Hck Hc0];
    [apply elem_of_app; right; left|]. cbn [fst snd] in Hck, Hc0.
  rewrite (po_current _ _ _ _ _ _ _ _ _ _ H). cbn [fst].
  destruct (Z.eqb_spec c 0) as [|_]; [done|].
  rewrite (deref_some _ _ _ Hck). cbn [mbind outcome_bind].
  rewrite (wrap_small 64 (ck_size k - ck_used k)) by lia.
  destruct (Z.leb_spec sz (ck_size k - ck_used k)) as [Hfit|Hfit].
  - eexists _, _, _. split; [reflexivity|].
    destruct (Z.eqb_spec (ck_data k + ck_used k) 0) as [|_]; [lia|].
    exists pre, (c, set_used k (u64 (ck_used k + sz))), post, lost. split; [|done].
    rewrite wrap_small by lia.
    apply (carve_ok (ck_used k)); try done; try lia; destruct Hg as [->| ->]; zmod.
  - set (ns := if mp_chunk_size pool <? sz then sz else mp_chunk_size pool).
    pose proof (po_size _ _ _ _ _ _ _ _ _ _ H) as Hcs.
    assert (Hns : 0 < ns ∧ sz ≤ ns) by (unfold ns; destruct (Z.ltb_spec (mp_chunk_size pool) sz); lia).
    destruct (create_chunk pool ns w) as [[n pool1] w1] eqn:Hcr.
    destruct (fresh_ok _ _ _ _ _ _ _ _ _ _ _ _ _ _ _ H (proj1 Hns) Hcr)
      as [[-> H1]|(Hn & d & pool2 & w2 & -> & Hdr & H2)].
    { eexists 0, _, _. split; [reflexivity|]. by exists pre, (c, k), post, lost. }
    destruct (Z.eqb_spec n 0) as [|_]; [done|]. cbn [mbind outcome_bind]. rewrite Hdr. cbn [mbind outcome_bind ck_data].
    eexists _, _, _. split; [reflexivity|].
    destruct (po_cell _ _ _ _ _ _ _ _ _ _ (n, mkChunk d ns 0 0) H2) as (Hd' & _ & _ & Hd8' & _);
      [apply elem_of_app; right; left|]. cbn [snd ck_data] in *.
    destruct (Z.eqb_spec d 0) as [|_]; [lia|].
    eexists _, (n, set_used (mkChunk d ns 0 0) sz), [], (lost ++ post).
    split; [|intros Hc; destruct (Hcl Hc) as [-> ->]; done].
    apply (carve_ok 0); try done; cbn; try lia; destruct Hg as [->| ->]; zmod.
Qed.

Lemma fsd_pool_alloc_aligned_inv self base pool w clean log size al :
  pool_inv 1 self base pool w clean log → 0 ≤ size < 2 ^ 64 → 0 ≤ al < 2 ^ 64 →
  ∃ p pool' w', fsd_pool_alloc_aligned pool size al w = Ok (p, pool', w') ∧
    pool_inv 1 self base pool' w' clean (if p =? 0 then log else ((p, size), al) :: log).
Proof.
  intros (pre & [c k] & post & lost & H & Hcl) Hs Hal. unfold fsd_pool_alloc_aligned.
  destruct (_ || _) eqn:H0; [by exists 0, pool, w; split; [|exists pre, (c, k), post, lost]|].
  apply orb_false_iff in H0 as [Hs0%Z.eqb_neq Hal0%Z.eqb_neq].
  destruct (Z.eqb_spec (Z.land al (al - 1)) 0) as [Hpow|];
    [|by exists 0, pool, w; split; [|exists pre, (c, k), post, lost]].
  cbn [negb].
  destruct (po_cell _ _ _ _ _ _ _ _ _ _ (c, k) H) as (Hd & Hsz & Htop & Hd8 & Hcu & Hcg);
    [apply elem_of_app; right; left|]. cbn [snd] in *.
  destruct (seg_lookup _ _ _ _ (c, k) (po_seg _ _ _ _ _ _ _ _ _ _ H)) as [Hck Hc0];
    [apply elem_of_app; right; left|]. cbn [fst snd] in Hck, Hc0.
  rewrite (po_current _ _ _ _ _ _ _ _ _ _ H). cbn [fst].
  destruct (Z.eqb_spec c 0) as [|_]; [done|].
  rewrite (deref_some _ _ _ Hck). cbn [mbind outcome_bind].
  destruct (align_up_spec (ck_data k + ck_used k) al) as (up & Hup & Hum & Hue & Hpad); [lia|lia|done|].
  rewrite Hpad, (wrap_small 64 (ck_size k - ck_used k)) by lia.
  destruct (_ && _) eqn:Hfit.
  - apply andb_true_iff in Hfit as [F1%Z.leb_le F2%Z.leb_le].
    eexists _, _, _. split; [reflexivity|]. rewrite Hue, (wrap_small 64 up) by lia.
    destruct (Z.eqb_spec up 0) as [|_]; [lia|].
    exists pre, (c, set_used k (u64 (ck_used k + (up - (ck_data k + ck_used k) + size)))), post, lost.
    split; [|done]. rewrite wrap_small by lia.
    apply (carve_ok (up - ck_data k)); try done; try lia. apply Z.mod_1_r.
  - destruct (Z.ltb_spec (SIZE_MAX - (al - 1)) size) as [|Hmax];
      [by exists 0, pool, w; split; [|exists pre, (c, k), post, lost]|].
    unfold SIZE_MAX in Hmax. rewrite (wrap_small 64 (size + al - 1)) by lia.
    set (ns := if size + al - 1 <? mp_chunk_size pool then mp_chunk_size pool else size + al - 1).
    pose proof (po_size _ _ _ _ _ _ _ _ _ _ H) as Hcs.
    assert (Hns : 0 < ns ∧ size + al - 1 ≤ ns)
      by (unfold ns; destruct (Z.ltb_spec (size + al - 1) (mp_chunk_size pool)); lia).
    destruct (create_chunk pool ns w) as [[n pool1] w1] eqn:Hcr.
    destruct (fresh_ok _ _ _ _ _ _ _ _ _ _ _ _ _ _ _ H (proj1 Hns) Hcr)
      as [[-> H1]|(Hn & d & pool2 & w2 & -> & Hdr & H2)].
    { eexists 0, _, _. split; [reflexivity|]. by exists pre, (c, k), post, lost. }
    destruct (Z.eqb_spec n 0) as [|_]; [done|]. cbn [mbind outcome_bind]. rewrite Hdr. cbn [mbind outcome_bind ck_data].
    eexists _, _, _. split; [reflexivity|].
    destruct (po_cell _ _ _ _ _ _ _ _ _ _ (n, mkChunk d ns 0 0) H2) as (Hd' & _ & Htop' & _);
      [apply elem_of_app; right; left|]. cbn [snd ck_data ck_size] in *.
    destruct (align_up_spec d al) as (up' & Hup' & Hum' & Hue' & Hpad'); [lia|lia|done|].
    rewrite Hpad', Hue', (wrap_small 64 up'), (wrap_small 64 (_ + size)) by lia.
    destruct (Z.eqb_spec up' 0) as [|_]; [lia|].
    eexists _, (n, set_used (mkChunk d ns 0 0) (up' - d + size)), [], (lost ++ post).
    split; [|intros Hc; destruct (Hcl Hc) as [-> ->]; done].
    apply (carve_ok (up' - d)); try done; cbn; try lia. apply Z.mod_1_r.
Qed.

Definition clear_cell (x : cell) : cell := (x.1, set_used x.2 0).

Lemma clear_regions cs : cell_regions (clear_cell <$> cs) = cell_regions cs.
Proof. induction cs as [|y cs IH]; [done|]. exact (f_equal (fun l => _ :: _ :: l) IH). Qed.

Lemma clear_bytes cs : cell_bytes (clear_cell <$> cs) = cell_bytes cs.
Proof. induction cs as [|y cs IH]; [done|]. exact (f_equal (Z.add _) IH). Qed.

Lemma reset_loop_spec fuel (w : @world A) p cs :
  NoDup cs.*1 → seg (w_heap w) p cs 0 → (length cs < fuel)%nat →
  ∃ w', reset_loop fuel p w = Ok w' ∧ w_alloc w' = w_alloc w ∧
    seg (w_heap w') p (clear_cell <$> cs) 0 ∧ ∀ c, c ∉ cs.*1 → w_heap w' !! c = w_heap w !! c.
Proof.
  revert w p cs. induction fuel as [|fuel IH]; intros w p cs Hnd Hs Hf; [lia|].
  cbn [reset_loop]. destruct cs as [|x cs]; cbn [seg fmap list_fmap] in *.
  { subst p. exists w. split_and!; done. }
  destruct Hs as (-> & Hn & Hx & Hs). apply NoDup_cons in Hnd as [Hx1 Hnd].
  destruct (Z.eqb_spec x.1 0) as [|_]; [done|].
  rewrite (deref_some _ _ _ Hx). cbn [mbind outcome_bind].
  destruct (IH (assign w x.1 (set_used x.2 0)) (ck_next x.2) cs) as (w' & -> & Ha & Hs' & Hh); [done| |cbn in Hf; lia|].
  { eapply seg_ext; [|done]. intros c Hc. cbn. apply lookup_insert_ne. naive_solver. }
  exists w'. split_and!; [done|done|done|done| |done|].
  - rewrite Hh by done. apply lookup_insert_eq.
  - intros c Hc. apply not_elem_of_cons in Hc as [? ?]. rewrite Hh by done. by apply lookup_insert_ne.
Qed.

Lemma fsd_pool_reset_inv g self base pool w clean log :
  pool_inv g self base pool w clean log →
  ∃ pool' w', fsd_pool_reset pool w = Ok (pool', w') ∧ pool_inv g self base pool' w' false [].
Proof.
  intros (pre & cur & post & lost & H & _). unfold fsd_pool_reset.
  pose proof (cells_nodup _ (po_pairwise _ _ _ _ _ _ _ _ _ _ H)) as Hnd.
  pose proof (po_seg _ _ _ _ _ _ _ _ _ _ H) as Hseg.
  pose proof (seg_length _ _ _ _ Hnd Hseg) as Hlen.
  destruct (reset_loop_spec (list_fuel w) w (mp_chunks pool) _ Hnd Hseg) as (w' & -> & Ha & Hs & _);
    [unfold list_fuel; lia|].
  cbn [mbind outcome_bind]. eexists _, w'. split; [reflexivity|].
  destruct (pre ++ cur :: post) as [|x cs] eqn:Hcs; [by destruct pre|].
  exists [], (clear_cell x), (clear_cell <$> cs), lost. split; [|done].
  destruct H; rewrite Hcs in *.
  constructor; cbn [mp_chunks mp_current mp_chunk_size mp_total_allocated mp_max_memory app] in *; try done.
  - by rewrite Ha.
  - rewrite Ha, po_live0. change (clear_cell x :: (clear_cell <$> cs)) with (clear_cell <$> (x :: cs)).
    by rewrite clear_regions.
  - by destruct Hseg as [-> _].
  - change (clear_cell x :: (clear_cell <$> cs)) with (clear_cell <$> (x :: cs)).
    apply Forall_fmap. eapply Forall_impl; [done|]. intros y [? ?]. unfold cell_ok. cbn. split; [lia|apply Zmod_0_l].
  - change (clear_cell x :: (clear_cell <$> cs)) with (clear_cell <$> (x :: cs)). by rewrite clear_bytes.
  - apply pairwise_nil.
Qed.

Lemma destroy_loop_spec fuel (w : @world A) p cs l :
  alloc_ok (w_alloc w) → live (w_alloc w) ≡ₚ cell_regions cs ++ l →
  NoDup cs.*1 → seg (w_heap w) p cs 0 → (length cs < fuel)%nat →
  ∃ w', destroy_loop fuel p w = Ok w' ∧ alloc_ok (w_alloc w') ∧ live (w_alloc w') ≡ₚ l.
Proof.
  revert w p cs. induction fuel as [|fuel IH]; intros w p cs Ha Hl Hnd Hs Hf; [lia|].
  cbn [destroy_loop]. destruct cs as [|x cs]; cbn [seg] in *.
  { subst p. exists w. done. }
  destruct Hs as (-> & Hn & Hx & Hs). apply NoDup_cons in Hnd as [Hx1 Hnd].
  destruct (Z.eqb_spec x.1 0) as [|_]; [done|].
  rewrite (deref_some _ _ _ Hx). cbn [mbind outcome_bind].
  change (cell_regions (x :: cs)) with
    ((x.1, sizeof_chunk) :: (ck_data x.2, ck_size x.2) :: cell_regions cs) in Hl.
  cbn [app] in Hl. rewrite perm_swap in Hl.
  destruct (free_law _ _ _ _ Ha Hl) as [Ha1 Hl1].
  destruct (free_law _ _ _ _ Ha1 Hl1) as [Ha2 Hl2].
  apply IH with cs; cbn [w_alloc w_heap]; [done|done|done| |cbn in Hf; lia].
  eapply seg_ext; [|done]. intros c Hc. apply lookup_delete_ne. naive_solver.
Qed.

(** Destroying the pool leaves what others own and the chunks it lost. *)
Lemma fsd_pool_destroy_spec g self base pool w pre cur post lost log :
  pool_ok g self base pool w pre cur post lost log →
  ∃ w', fsd_pool_destroy self pool w = Ok w' ∧ alloc_ok (w_alloc w') ∧
    live (w_alloc w') ≡ₚ cell_regions lost ++ base.
Proof.
  intros H. unfold fsd_pool_destroy.
  pose proof (cells_nodup _ (po_pairwise _ _ _ _ _ _ _ _ _ _ H)) as Hnd.
  pose proof (po_seg _ _ _ _ _ _ _ _ _ _ H) as Hseg.
  pose proof (seg_length _ _ _ _ Hnd Hseg) as Hlen.
  destruct (destroy_loop_spec (list_fuel w) w (mp_chunks pool) _ _
    (po_alloc _ _ _ _ _ _ _ _ _ _ H) (po_live _ _ _ _ _ _ _ _ _ _ H) Hnd Hseg) as (w' & -> & Ha & Hl);
    [exact (le_n_S _ _ Hlen)|].
  cbn [mbind outcome_bind].
  assert (Hl' : live (w_alloc w') ≡ₚ (self, sizeof_pool) :: cell_regions lost ++ base)
    by (rewrite Hl; symmetry; apply Permutation_middle).
  destruct (free_law _ _ _ _ Ha Hl') as [? ?]. eexists. split; [reflexivity|]. done.
Qed.

(** Creation establishes the invariant; a failed one gives everything back. *)
Lemma fsd_pool_create_spec g chunk_size max_memory (w : @world A) :
  granule g → alloc_ok (w_alloc w) → 0 ≤ chunk_size < 2 ^ 64 →
  match fsd_pool_create chunk_size max_memory w with
  | (Ok (self, pool), w') =>
      pool_inv g self (live (w_alloc w)) pool w' true [] ∧ mp_max_memory pool = max_memory
  | (Err _, w') => alloc_ok (w_alloc w') ∧ live (w_alloc w') ≡ₚ live (w_alloc w)
  | _ => False
  end.
Proof.
  intros Hg Ha Hc. unfold fsd_pool_create.
  destruct (Z.eqb_spec chunk_size 0); [done|].
  destruct (malloc_fn sizeof_pool _) as [p a1] eqn:Hm.
  destruct (malloc_law sizeof_pool _ _ _ Ha eq_refl Hm) as [Ha1 [[-> Hl1]|[Hp Hl1]]]; [done|].
  destruct (Z.eqb_spec p 0) as [|_]; [done|].
  set (pool0 := mkPool 0 0 chunk_size 0 max_memory).
  destruct (create_chunk pool0 chunk_size _) as [[c pool1] w1] eqn:Hcr.
  apply create_chunk_spec in Hcr as (Ha2 & Hcr); cbn [w_alloc w_heap mp_total_allocated pool0] in *; [|done|lia|].
  2:{ split; [lia|]. apply region_bytes_nonneg. eapply Forall_impl; [by apply live_range|]. cbn. tauto. }
  destruct Hcr as [(-> & -> & Hl2 & Hh)|(Hc0 & d & Hl2 & Hh & -> & Hlim)].
  { cbn [Z.eqb]. cbn [w_alloc]. rewrite Hl1 in Hl2. by destruct (free_law _ _ _ _ Ha2 Hl2). }
  destruct (Z.eqb_spec c 0) as [|_]; [done|]. split; [|done].
  exists [], (c, mkChunk d chunk_size 0 0), [], []. split; [|done].
  cbn [pool0 mp_chunk_size mp_total_allocated mp_max_memory] in *.
  constructor; cbn [mp_chunks mp_current mp_chunk_size mp_total_allocated mp_max_memory app] in *; try done.
  - rewrite Hl2, Hl1. done.
  - rewrite Hh. cbn. by rewrite lookup_insert_eq.
  - lia.
  - apply Forall_cons_iff. split; [|done]. split; cbn; [lia|apply Zmod_0_l].
  - cbn. lia.
  - apply pairwise_nil.
Qed.

(** ** Sequences of operations *)

Inductive pool_op : Type :=
| OpAlloc (size : Z)
| OpAligned (size alignment : Z)
| OpReset.

Definition pool_op_ok (o : pool_op) : Prop :=
  match o with
  | OpAlloc s => 0 ≤ s < 2 ^ 64
  | OpAligned s al => 0 ≤ s < 2 ^ 64 ∧ 0 ≤ al < 2 ^ 64
  | OpReset => True
  end.

(** One call on the pool.  The log keeps the allocations since the last reset
    with the alignment the caller may count on: what it asked for, or [g] for
    [fsd_pool_alloc]. *)
Definition pool_step (g : Z) (o : pool_op) (st : fsd_memory_pool_t * @world A * alloc_log)
  : outcome (fsd_memory_pool_t * @world A * alloc_log) :=
  let '(pool, w, log) := st in
  match o with
  | OpAlloc s =>
      '(p, pool, w) ← fsd_pool_alloc pool s w;
      Ok (pool, w, if p =? 0 then log else ((p, s), g) :: log)
  | OpAligned s al =>
      '(p, pool, w) ← fsd_pool_alloc_aligned pool s al w;
      Ok (pool, w, if p =? 0 then log else ((p, s), al) :: log)
  | OpReset =>
      '(pool, w) ← fsd_pool_reset pool w;
      Ok (pool, w, [])
  end.

Fixpoint pool_run (g : Z) (ops : list pool_op) (st : fsd_memory_pool_t * @world A * alloc_log)
  : outcome (fsd_memory_pool_t * @world A * alloc_log) :=
  match ops with
  | [] => Ok st
  | o :: ops => st ← pool_step g o st; pool_run g ops st
  end.

(** Without [fsd_pool_alloc_aligned] every allocation is 8-aligned; mixed with
    it, [fsd_pool_alloc] promises nothing. *)
Definition run_granule (ops : list pool_op) : Z :=
  if forallb (fun o => match o with OpAligned _ _ => false | _ => true end) ops then 8 else 1.

Definition no_reset (ops : list pool_op) : bool :=
  forallb (fun o => match o with OpReset => false | _ => true end) ops.

Lemma pool_run_inv g self base ops pool w clean log :
  g = 1 ∨ g = 8 ∧ run_granule ops = 8 →
  Forall pool_op_ok ops → pool_inv g self base pool w clean log →
  ∃ pool' w' log', pool_run g ops (pool, w, log) = Ok (pool', w', log') ∧
    pool_inv g self base pool' w' (clean && no_reset ops) log'.
Proof.
  revert pool w clean log. induction ops as [|o ops IH]; intros pool w clean log Hg Hops Hi.
  { exists pool, w, log. split; [done|]. cbn. by rewrite andb_true_r. }
  apply Forall_cons_iff in Hops as [Ho Hops].
  assert (Hgr : granule g) by (unfold granule; tauto).
  assert (Hg' : g = 1 ∨ g = 8 ∧ run_granule ops = 8).
  { destruct Hg as [|[? Hr]]; [by left|right; split; [done|]]. unfold run_granule in *.
    cbn [forallb] in Hr. destruct o; cbn [andb] in Hr; done. }
  cbn [pool_run pool_step no_reset forallb]. destruct o as [s|s al|].
  - destruct (fsd_pool_alloc_inv _ _ _ _ _ _ _ s Hgr Hi Ho) as (p & pool' & w' & -> & Hi').
    cbn [mbind outcome_bind andb]. by apply IH.
  - assert (g = 1) as -> by (destruct Hg as [|[_ Hr]]; [done|by vm_compute in Hr]).
    destruct Ho. destruct (fsd_pool_alloc_aligned_inv _ _ _ _ _ _ s al Hi) as (p & pool' & w' & -> & Hi'); [done..|].
    cbn [mbind outcome_bind andb]. by apply IH.
  - destruct (fsd_pool_reset_inv _ _ _ _ _ _ _ Hi) as (pool' & w' & -> & Hi').
    cbn [mbind outcome_bind andb]. rewrite andb_false_r. by apply (IH _ _ false).
Qed.

(** The limit is set at creation. *)
Lemma create_chunk_max pool size (w : @world A) n pool' w' :
  create_chunk pool size w = (n, pool', w') → mp_max_memory pool' = mp_max_memory pool.
Proof.
  unfold create_chunk. destruct (_ && _); [by intros [= _ <- _]|].
  destruct (malloc_fn _ _) as [c a]. destruct (c =? 0); [by intros [= _ <- _]|].
  destruct (malloc_fn size a) as [d a2]. destruct (d =? 0); by intros [= _ <- _].
Qed.

Lemma link_chunk_max pool n (w : @world A) pool' w' :
  link_chunk pool n w = Ok (pool', w') → mp_max_memory pool' = mp_max_memory pool.
Proof.
  unfold link_chunk. destruct (_ =? 0); [by intros [= <- _]|].
  intros (k & _ & [= <- _])%bind_Ok_inv. done.
Qed.

Ltac max_case :=
  repeat match goal with
  | H : Ok _ = Ok _ |- _ => injection H; clear H; intros; subst
  | H : (if ?b then _ else _) = Ok _ |- _ => destruct b
  | H : mbind _ _ = Ok _ |- _ => apply bind_Ok_inv in H as (? & ? & H)
  | H : context [match ?x with (_, _) => _ end] |- _ => destruct x eqn:?
  | H : create_chunk _ _ _ = _ |- _ => apply create_chunk_max in H
  | H : link_chunk _ _ _ = _ |- _ => apply link_chunk_max in H
  end; simpl in *; congruence.

Lemma pool_alloc_max pool s (w : @world A) p pool' w' :
  fsd_pool_alloc pool s w = Ok (p, pool', w') → mp_max_memory pool' = mp_max_memory pool.
Proof. unfold fsd_pool_alloc. intros H. cbn zeta in H. max_case. Qed.

Lemma pool_alloc_aligned_max pool s al (w : @world A) p pool' w' :
  fsd_pool_alloc_aligned pool s al w = Ok (p, pool', w') → mp_max_memory pool' = mp_max_memory pool.
Proof. unfold fsd_pool_alloc_aligned. intros H. cbn zeta in H. max_case. Qed.

Lemma pool_step_max g o pool (w : @world A) log pool' w' log' :
  pool_step g o (pool, w, log) = Ok (pool', w', log') → mp_max_memory pool' = mp_max_memory pool.
Proof.
  destruct o; cbn [pool_step]; intros ([[??]?] & H1 & [= <- _ _])%bind_Ok_inv || intros ([??] & H1 & [= <- _ _])%bind_Ok_inv.
  - by apply pool_alloc_max in H1.
  - by apply pool_alloc_aligned_max in H1.
  - unfold fsd_pool_reset in H1. by apply bind_Ok_inv in H1 as (? & _ & [= <- _]).
Qed.

Lemma pool_run_max g ops pool (w : @world A) log pool' w' log' :
  pool_run g ops (pool, w, log) = Ok (pool', w', log') → mp_max_memory pool' = mp_max_memory pool.
Proof.
  revert pool w log. induction ops as [|o ops IH]; intros pool w log; cbn [pool_run].
  - by intros [= <- _ _].
  - intros ([[pool1 w1] log1] & Hs%pool_step_max & Hr%IH)%bind_Ok_inv. congruence.
Qed.

Definition cells_used (cs : list cell) : Z := foldr (fun x s => ck_used x.2 + s) 0 cs.

Lemma usage_loop_spec fuel (w : @world A) p cs acc :
  Forall (fun x : cell => 0 ≤ ck_used x.2) cs → 0 ≤ acc → acc + cells_used cs < 2 ^ 64 →
  seg (w_heap w) p cs 0 → (length cs < fuel)%nat →
  usage_loop fuel p acc w = Ok (acc + cells_used cs).
Proof.
  revert p cs acc. induction fuel as [|fuel IH]; intros p cs acc Hu Ha Hm Hs Hf; [lia|].
  cbn [usage_loop]. destruct cs as [|x cs]; cbn [seg] in *.
  { subst p. cbn. f_equal. lia. }
  destruct Hs as (-> & Hn & Hx & Hs). apply Forall_cons_iff in Hu as [Hx0 Hu].
  destruct (Z.eqb_spec x.1 0) as [|_]; [done|].
  rewrite (deref_some _ _ _ Hx). cbn [mbind outcome_bind].
  change (cells_used (x :: cs)) with (ck_used x.2 + cells_used cs) in *.
  assert (0 ≤ cells_used cs).
  { clear -Hu. induction Hu; [done|]. cbn in *. unfold cells_used in *. lia. }
  rewrite wrap_small by lia. rewrite (IH _ cs); [f_equal; lia|done|lia|lia|done|cbn in Hf; lia].
Qed.

Lemma fsd_pool_usage_spec g self base pool w clean log :
  pool_inv g self base pool w clean log →
  ∃ u, fsd_pool_usage pool w = Ok u ∧ 0 ≤ u ≤ mp_total_allocated pool.
Proof.
  intros (pre & cur & post & lost & H & _). unfold fsd_pool_usage.
  pose proof (cells_nodup _ (po_pairwise _ _ _ _ _ _ _ _ _ _ H)) as Hnd.
  pose proof (po_seg _ _ _ _ _ _ _ _ _ _ H) as Hseg.
  pose proof (seg_length _ _ _ _ Hnd Hseg) as Hlen.
  pose proof (po_bytes _ _ _ _ _ _ _ _ _ _ H) as Hb.
  pose proof (live_total _ (po_alloc _ _ _ _ _ _ _ _ _ _ H)) as Ht.
  pose proof (po_cells _ _ _ _ _ _ _ _ _ _ H) as Hc.
  assert (Hlost : 0 ≤ cell_bytes lost).
  { pose proof (live_range _ (po_alloc _ _ _ _ _ _ _ _ _ _ H)) as Hr.
    rewrite (po_live _ _ _ _ _ _ _ _ _ _ H), !Forall_app in Hr. destruct Hr as (_ & Hr & _).
    clear -Hr. induction lost as [|x l IH]; [done|]. cbn in Hr. rewrite !Forall_cons_iff in Hr.
    destruct Hr as (_ & ? & ?). unfold cell_bytes in *. cbn in *. specialize (IH ltac:(done)). lia. }
  assert (Hle : 0 ≤ cells_used (pre ++ cur :: post) ≤ cell_bytes (pre ++ cur :: post)).
  { clear -Hc. induction Hc as [|x l [? _] ? IH]; [done|]. unfold cell_bytes, cells_used in *. cbn in *. lia. }
  rewrite (po_total _ _ _ _ _ _ _ _ _ _ H) in *.
  exists (0 + cells_used (pre ++ cur :: post)). split; [|lia].
  apply usage_loop_spec; [|done|lia|done|exact (le_n_S _ _ Hlen)].
  eapply Forall_impl; [exact Hc|]. intros x [? _]. lia.
Qed.

(** * Properties *)

(** C35: whatever sequence of allocations (plain or aligned, of any sizes) and
    resets is made on a freshly created pool, no call dereferences a bad
    pointer; the regions handed out since the last reset are pairwise disjoint,
    each lies in memory obtained from the allocator and not yet returned to it,
    and has the alignment asked for (8 for [fsd_pool_alloc] as long as
    [fsd_pool_alloc_aligned] is not used on the pool); the memory taken never
    exceeds a non-zero limit, and the usage reported is at most that memory. *)
Theorem pool_run_safe chunk_size max_memory (w w1 : @world A) self pool ops :
  alloc_ok (w_alloc w) → 0 ≤ chunk_size < 2 ^ 64 → Forall pool_op_ok ops →
  fsd_pool_create chunk_size max_memory w = (Ok (self, pool), w1) →
  ∃ pool' w' log u, pool_run (run_granule ops) ops (pool, w1, []) = Ok (pool', w', log) ∧
    pairwise log.*1 ∧
    Forall (fun e => e.1.1 mod e.2 = 0 ∧
      ∃ r, r ∈ live (w_alloc w') ∧ r.1 ≤ e.1.1 ∧ e.1.1 + e.1.2 ≤ r.1 + r.2) log ∧
    (0 < max_memory → mp_total_allocated pool' ≤ max_memory) ∧
    fsd_pool_usage pool' w' = Ok u ∧ 0 ≤ u ≤ mp_total_allocated pool'.
Proof.
  intros Ha Hc Hops Hcr.
  assert (Hg : run_granule ops = 1 ∨ run_granule ops = 8 ∧ run_granule ops = 8)
    by (unfold run_granule; destruct (forallb _ _); tauto).
  assert (Hgr : granule (run_granule ops)) by (unfold granule; tauto).
  pose proof (fsd_pool_create_spec _ chunk_size max_memory w Hgr Ha Hc) as Hinv.
  rewrite Hcr in Hinv. destruct Hinv as [Hinv Hmax].
  destruct (pool_run_inv _ _ _ _ _ _ _ _ Hg Hops Hinv) as (pool' & w' & log & Hrun & Hinv').
  destruct (fsd_pool_usage_spec _ _ _ _ _ _ _ Hinv') as (u & Hu & Hub).
  exists pool', w', log, u. split; [done|].
  pose proof (pool_run_max _ _ _ _ _ _ _ _ Hrun) as Hm.
  destruct Hinv' as (pre & cur & post & lost & H & _). split; [apply H|]. split; [|split; [|done]].
  - eapply Forall_impl; [apply H|]. cbn beta. intros [r a] (? & x & Hx & Hi). split; [done|].
    assert (Hx' : x ∈ pre ++ cur :: post)
      by (rewrite elem_of_app, elem_of_cons in *; rewrite elem_of_nil in Hx; tauto).
    destruct (po_cell _ _ _ _ _ _ _ _ _ _ x H Hx') as (_ & _ & _ & _ & Hok & _).
    exists (ck_data x.2, ck_size x.2). split; [|unfold in_cell in Hi; cbn in *; lia].
    rewrite (po_live _ _ _ _ _ _ _ _ _ _ H). apply elem_of_app. left.
    unfold cell_regions. apply list_elem_of_bind. exists x. split; [|done]. right. left.
  - rewrite <- Hmax, <- Hm. apply H.
Qed.

(** As long as the pool is not reset, destroying it after any sequence of
    allocations returns every region it took: the live memory is what it was
    before the pool was created.  A pool that could not be created leaves no
    region behind either. *)
Theorem pool_destroy_returns_all chunk_size max_memory (w : @world A) ops :
  alloc_ok (w_alloc w) → 0 ≤ chunk_size < 2 ^ 64 → Forall pool_op_ok ops → no_reset ops = true →
  match fsd_pool_create chunk_size max_memory w with
  | (Ok (self, pool), w1) =>
      ∃ pool' w2 log w3, pool_run 1 ops (pool, w1, []) = Ok (pool', w2, log) ∧
        fsd_pool_destroy self pool' w2 = Ok w3 ∧ live (w_alloc w3) ≡ₚ live (w_alloc w)
  | (Err _, w1) => live (w_alloc w1) ≡ₚ live (w_alloc w)
  | _ => False
  end.
Proof.
  intros Ha Hc Hops Hnr.
  pose proof (fsd_pool_create_spec 1 chunk_size max_memory w (or_introl eq_refl) Ha Hc) as Hinv.
  destruct (fsd_pool_create chunk_size max_memory w) as [[[self pool]|e| |] w1]; [|by destruct Hinv|done|done].
  destruct Hinv as [Hinv _].
  destruct (pool_run_inv _ _ _ _ _ _ _ _ (or_introl eq_refl) Hops Hinv)
    as (pool' & w2 & log & Hrun & pre & cur & post & lost & H & Hcl).
  destruct (fsd_pool_destroy_spec _ _ _ _ _ _ _ _ _ _ H) as (w3 & Hd & _ & Hl).
  exists pool', w2, log, w3. split_and!; [done|done|].
  rewrite Hnr in Hcl. destruct (Hcl eq_refl) as [_ ->]. done.
Qed.

End PoolInv.

(** * An allocator: addresses increase and are never reused *)

Record bump := mkBump { b_next : Z; b_live : list region }.

Definition bump_malloc (size : Z) (b : bump) : Z * bump :=
  if b_next b + size <? 2 ^ 32
  then (b_next b, mkBump ((b_next b + size + 7) / 8 * 8) ((b_next b, size) :: b_live b))
  else (0, b).

Definition bump_free (p : Z) (b : bump) : bump :=
  mkBump (b_next b) (filter (fun r => r.1 ≠ p) (b_live b)).

#[global] Instance bump_allocator : Allocator bump := {| malloc_fn := bump_malloc; free_fn := bump_free |}.

Record bump_ok (b : bump) : Prop := {
  bo_next : 0 < b_next b ≤ 2 ^ 32 ∧ b_next b mod 8 = 0;
  bo_pair : pairwise (b_live b);
  bo_range : Forall (fun r : region => 0 < r.1 ∧ 0 < r.2 ∧ r.1 + r.2 ≤ b_next b ∧ r.1 mod 8 = 0) (b_live b);
  bo_total : region_bytes (b_live b) ≤ b_next b
}.

#[global] Instance bump_spec : AllocatorSpec bump := {| live := b_live; alloc_ok := bump_ok |}.

Lemma bump_malloc_ok size b p b' :
  bump_ok b → 0 < size → bump_malloc size b = (p, b') →
  bump_ok b' ∧ (p = 0 ∧ b_live b' ≡ₚ b_live b ∨ p ≠ 0 ∧ b_live b' ≡ₚ (p, size) :: b_live b).
Proof.
  intros [Hn Hp Hr Ht] Hs. unfold bump_malloc.
  destruct (Z.ltb_spec (b_next b + size) (2 ^ 32)); intros [= <- <-]; [|split; [done|by left]].
  assert (Hup : b_next b + size ≤ (b_next b + size + 7) / 8 * 8 ≤ 2 ^ 32) by zmod.
  split; [|right; split; [lia|done]].
  constructor; cbn [b_next b_live].
  - split; [lia|]. apply Z.mod_mul. lia.
  - apply pairwise_cons. split; [|done]. eapply Forall_impl; [done|].
    intros r Hr0. cbn in Hr0. unfold disj. cbn. lia.
  - apply Forall_cons_iff. cbn. split; [lia|]. eapply Forall_impl; [done|]. intros r Hr0. cbn in *. lia.
  - cbn. unfold region_bytes in *. lia.
Qed.

Lemma bump_free_ok p size b l :
  bump_ok b → b_live b ≡ₚ (p, size) :: l → bump_ok (bump_free p b) ∧ b_live (bump_free p b) ≡ₚ l.
Proof.
  intros [Hn Hp Hr Ht] Hl.
  assert (Hf : b_live (bump_free p b) ≡ₚ l).
  { cbn. rewrite Hl. rewrite filter_cons_False by (cbn; tauto).
    rewrite Hl in Hp, Hr. apply pairwise_cons in Hp as [Hd _]. apply Forall_cons_iff in Hr as [Hs Hr].
    cbn in Hs. clear -Hd Hr Hs. induction Hr as [|r l H0 Hr IH]; [done|].
    apply Forall_cons_iff in Hd as [Hd0 Hd]. unfold disj in Hd0. cbn in H0, Hd0.
    rewrite filter_cons_True by lia. by rewrite IH. }
  split; [|done]. cbn [bump_free b_live] in Hf. rewrite Hl in Hp, Hr, Ht.
  apply pairwise_cons in Hp as [_ Hp]. apply Forall_cons_iff in Hr as [Hs Hr].
  constructor; cbn [b_next b_live bump_free]; rewrite ?Hf; try done.
  cbn in Ht, Hs. unfold region_bytes in *. cbn in Ht. lia.
Qed.

#[global] Instance bump_laws : AllocatorLaws bump.
Proof.
  split.
  - intros a Ha. apply Ha.
  - intros a Ha. pose proof (bo_next _ Ha). eapply Forall_impl; [apply (bo_range _ Ha)|].
    intros r Hr. cbn in *. lia.
  - intros a Ha. pose proof (bo_total _ Ha). pose proof (bo_next _ Ha). change (live a) with (b_live a). lia.
  - apply bump_malloc_ok.
  - apply bump_free_ok.
Qed.

Definition empty_world : @world bump := mkWorld (mkBump 4096 []) ∅.

Lemma empty_world_ok : alloc_ok (w_alloc empty_world).
Proof. constructor; cbn; [split; [lia|reflexivity]|apply pairwise_nil|constructor|lia]. Qed.

(** Two odd sizes, an aligned block and one that needs a chunk of its own, on
    chunks of 64 bytes with a limit of 1000. *)
Definition demo_ops : list pool_op := [OpAlloc 3; OpAlloc 9; OpAligned 5 32; OpAlloc 200].

Lemma pool_run_safe_witness :
  ∃ pool' w' log u,
    pool_run (A := bump) 1 demo_ops
      (mkPool 4168 4168 64 64 1000, mkWorld (mkBump 4264 [(4200, 64); (4168, 32); (4096, 72)])
         {[4168 := mkChunk 4200 64 0 0]}, []) = Ok (pool', w', log) ∧
    pairwise log.*1 ∧ fsd_pool_usage pool' w' = Ok u ∧ mp_total_allocated pool' ≤ 1000.
Proof.
  destruct (pool_run_safe (A := bump) 64 1000 empty_world
    (mkWorld (mkBump 4264 [(4200, 64); (4168, 32); (4096, 72)]) {[4168 := mkChunk 4200 64 0 0]})
    4096 (mkPool 4168 4168 64 64 1000) demo_ops) as (pool' & w' & log & u & Hr & Hp & _ & Hm & Hu & _).
  - apply empty_world_ok.
  - lia.
  - repeat constructor; lia.
  - vm_compute. reflexivity.
  - exists pool', w', log, u. split_and!; [exact Hr|exact Hp|exact Hu|apply Hm; lia].
Defined.

Lemma pool_destroy_returns_all_witness :
  ∃ pool' w2 log w3,
    pool_run (A := bump) 1 demo_ops
      (mkPool 4168 4168 64 64 1000, mkWorld (mkBump 4264 [(4200, 64); (4168, 32); (4096, 72)])
         {[4168 := mkChunk 4200 64 0 0]}, []) = Ok (pool', w2, log) ∧
    fsd_pool_destroy 4096 pool' w2 = Ok w3 ∧ live (w_alloc w3) ≡ₚ [].
Proof.
  pose proof (pool_destroy_returns_all (A := bump) 64 1000 empty_world demo_ops
    empty_world_ok ltac:(lia) ltac:(repeat constructor; lia) eq_refl) as H.
  replace (fsd_pool_create 64 1000 empty_world) with
    (Ok (4096, mkPool 4168 4168 64 64 1000),
     mkWorld (mkBump 4264 [(4200, 64); (4168, 32); (4096, 72)]) {[4168 := mkChunk 4200 64 0 0]}) in H
    by (vm_compute; reflexivity).
  exact H.
Defined.

(** A reset does not keep the chunks it promises to keep.  On chunks of 64
    bytes: three allocations of 64 fill three chunks; after a reset the second
    allocation gets a new chunk, whose link overwrites the one to the two chunks
    behind the first; destroying the pool then leaves those two live. *)
Theorem pool_reset_leaks :
  (let '(r, w1) := fsd_pool_create 64 0 empty_world in
   '(self, pool) ← r;
   '(pool', w2, _) ← pool_run 8
      [OpAlloc 64; OpAlloc 64; OpAlloc 64; OpReset; OpAlloc 64; OpAlloc 64] (pool, w1, []);
   w3 ← fsd_pool_destroy self pool' w2;
   Ok (mp_total_allocated pool', live (w_alloc w3)))
  = Ok (256, [(4392, 64); (4360, 32); (4296, 64); (4264, 32)]).
Proof. vm_compute. reflexivity. Qed.
