(* ===== verification/HashTable.v ===== *)
(** The CRC-32 to block table of the relocation stage (src/core/hash_table.c).

    A chained table that lives in a memory pool.  The pool is used through an
    interface ([Arena]): the table's theorems hold for any implementation of it,
    and the pool of MemoryPool.v is one.  Entries are never changed once linked,
    so a pointer to an entry is modelled by the chain that starts there, the
    null pointer by the empty chain; the bucket array has the length of the
    memory that was really requested for it.

    Shown here: the bucket count is a power of two, no size computation of the
    creation overflows into too small an array, and the table refines a multimap:
    walking the chain that a lookup returns meets exactly the blocks inserted
    under that checksum, latest first. *)

From stdpp Require Import base gmap list numbers tactics.
From Stdlib Require Import ZArith Lia.
From S2P Require Import Prelude MemoryPool.

Open Scope Z_scope.

(** * What the table needs of a pool *)

Class Arena (P : Type) := {
  arena_alloc : Z → P → outcome (Z * P)   (** the address, 0 when it fails *)
}.

Class ArenaSpec (P : Type) := { arena_ok : P → Prop }.

Class ArenaLaws (P : Type) `{AR : Arena P} `{ARS : ArenaSpec P} := {
  arena_alloc_ok size p : arena_ok p → 0 ≤ size < 2 ^ 64 →
    ∃ a p', arena_alloc size p = Ok (a, p') ∧ arena_ok p';
  arena_alloc_0 p : arena_alloc 0 p = Ok (0, p)
}.

(** The pool of memory_pool.c, with the memory it lives in. *)
#[global] Instance pool_arena {A} `{Allocator A} : Arena (fsd_memory_pool_t * @world A) := {|
  arena_alloc size p := '(a, pool, w) ← fsd_pool_alloc p.1 size p.2; Ok (a, (pool, w))
|}.

#[global] Instance pool_arena_spec {A} `{Allocator A} `{AllocatorSpec A} : ArenaSpec (fsd_memory_pool_t * @world A) := {|
  arena_ok p := ∃ self base clean log, pool_inv 8 self base p.1 p.2 clean log
|}.

#[global] Instance pool_arena_laws {A} `{AllocatorLaws A} : ArenaLaws (fsd_memory_pool_t * @world A).
Proof.
  split.
  - intros size [pool w] (self & base & clean & log & Hi) Hs. cbn in Hi |- *.
    destruct (fsd_pool_alloc_inv 8 _ _ _ _ _ _ size (or_intror eq_refl) Hi Hs) as (p & pool' & w' & -> & Hi').
    eexists _, _. split; [reflexivity|]. eexists _, _, _, _. exact Hi'.
  - intros [pool w]. reflexivity.
Qed.

(** * The program *)

Record fsd_hash_entry_t := mkEntry {
  he_crc32 : Z;
  he_block_index : Z
}.

#[global] Instance fsd_hash_entry_eq_dec : EqDecision fsd_hash_entry_t.
Proof. solve_decision. Defined.

Record fsd_hash_table_t := mkTable {
  ht_buckets : list (list fsd_hash_entry_t);
  ht_bucket_count : Z;
  ht_entry_count : Z
}.

Definition LOAD_FACTOR_NUM : Z := 3.
Definition LOAD_FACTOR_DENOM : Z := 4.
Definition MIN_BUCKETS : Z := 1024.
Definition sizeof_table : Z := 32.
Definition sizeof_entry : Z := 24.
Definition sizeof_ptr : Z := 8.

(** [crc32 % bucket_count]; a remainder by zero is undefined. *)
Definition hash_to_bucket (crc32 bucket_count : Z) : outcome Z :=
  if bucket_count =? 0 then UB else Ok (crc32 mod bucket_count).

Definition next_power_of_2 (n : Z) : Z :=
  if n =? 0 then 1 else
  let n := n - 1 in
  let n := Z.lor n (Z.shiftr n 1) in
  let n := Z.lor n (Z.shiftr n 2) in
  let n := Z.lor n (Z.shiftr n 4) in
  let n := Z.lor n (Z.shiftr n 8) in
  let n := Z.lor n (Z.shiftr n 16) in
  let n := Z.lor n (Z.shiftr n 32) in
  u64 (n + 1).

Section Table.
Context {P : Type} {AR : Arena P}.

Definition fsd_hash_table_create (expected_entries : Z) : ST P fsd_hash_table_t := fun pool =>
  let bucket_count := u64 (expected_entries * LOAD_FACTOR_DENOM) / LOAD_FACTOR_NUM in
  let bucket_count := if bucket_count <? MIN_BUCKETS then MIN_BUCKETS else bucket_count in
  let bucket_count := next_power_of_2 bucket_count in
  match arena_alloc sizeof_table pool with
  | Ok (table, pool) =>
      if table =? 0 then (Err FSD_ERR_OUT_OF_MEMORY, pool) else
      let bytes := u64 (bucket_count * sizeof_ptr) in
      match arena_alloc bytes pool with
      | Ok (buckets, pool) =>
          if buckets =? 0 then (Err FSD_ERR_OUT_OF_MEMORY, pool) else
          (Ok (mkTable (replicate (Z.to_nat (bytes / sizeof_ptr)) []) bucket_count 0), pool)
      | Err e => (Err e, pool) | UB => (UB, pool) | NoFuel => (NoFuel, pool)
      end
  | Err e => (Err e, pool) | UB => (UB, pool) | NoFuel => (NoFuel, pool)
  end.

Definition fsd_hash_table_insert (table : fsd_hash_table_t) (crc32 block_index : Z) (pool : P)
  : outcome (fsd_hash_table_t * P) :=
  '(entry, pool) ← arena_alloc sizeof_entry pool;
  if entry =? 0 then Ok (table, pool) else
  bucket ← hash_to_bucket crc32 (ht_bucket_count table);
  match zget (ht_buckets table) bucket with
  | None => UB
  | Some next =>
      Ok (mkTable (zput (ht_buckets table) bucket (mkEntry crc32 block_index :: next))
            (ht_bucket_count table) (u64 (ht_entry_count table + 1)), pool)
  end.

End Table.

(** The [while (entry)] loop of the lookup. *)
Fixpoint lookup_loop (crc32 : Z) (entry : list fsd_hash_entry_t) : list fsd_hash_entry_t :=
  match entry with
  | [] => []
  | e :: next => if he_crc32 e =? crc32 then entry else lookup_loop crc32 next
  end.

Definition fsd_hash_table_lookup (table : fsd_hash_table_t) (crc32 : Z) : outcome (list fsd_hash_entry_t) :=
  bucket ← hash_to_bucket crc32 (ht_bucket_count table);
  match zget (ht_buckets table) bucket with
  | None => UB
  | Some entry => Ok (lookup_loop crc32 entry)
  end.

Definition fsd_hash_table_count (table : fsd_hash_table_t) : Z := ht_entry_count table.

(** * The next power of two *)

(** Bit [i] of [m] is set when one of [k] consecutive bits of [n] from [i] is. *)
Definition smeared (n m k : Z) : Prop :=
  ∀ i, 0 ≤ i → Z.testbit m i = true ↔ ∃ j, 0 ≤ j < k ∧ Z.testbit n (i + j) = true.

Lemma smear_step n m k : 0 < k → smeared n m k → smeared n (Z.lor m (Z.shiftr m k)) (2 * k).
Proof.
  intros Hk H i Hi. rewrite Z.lor_spec, Z.shiftr_spec, orb_true_iff, (H i), (H (i + k)) by lia.
  split.
  - intros [(j & ? & Hj)|(j & ? & Hj)]; [exists j; split; [lia|done]|].
    exists (k + j). split; [lia|]. by replace (i + (k + j)) with (i + k + j) by lia.
  - intros (j & ? & Hj). destruct (decide (j < k)); [left; exists j; split; [lia|done]|].
    right. exists (j - k). split; [lia|]. by replace (i + k + (j - k)) with (i + j) by lia.
Qed.

Lemma smear_start n : smeared n n 1.
Proof.
  intros i Hi. split.
  - intros Hn. exists 0. split; [lia|]. by rewrite Z.add_0_r.
  - intros (j & ? & Hj). replace (i + j) with i in Hj by lia. done.
Qed.

Lemma smear_all n m : 0 < n < 2 ^ 64 → 0 ≤ m → smeared n m 64 → m = 2 ^ (Z.log2 n + 1) - 1.
Proof.
  intros Hn Hm Hs. pose proof (Z.log2_nonneg n).
  assert (Hl : Z.log2 n < 64) by (apply Z.log2_lt_pow2; lia).
  rewrite Z.sub_1_r, <- Z.ones_equiv. apply Z.bits_inj'. intros i Hi.
  apply eq_true_iff_eq. rewrite (Hs i Hi), Z.testbit_ones_nonneg, Z.ltb_lt by lia. split.
  - intros (j & ? & Hj). destruct (decide (Z.log2 n < i + j)); [|lia].
    rewrite Z.bits_above_log2 in Hj; [done|lia|lia].
  - intros. exists (Z.log2 n - i). split; [lia|].
    replace (i + (Z.log2 n - i)) with (Z.log2 n) by lia. apply Z.bit_log2. lia.
Qed.

Lemma next_power_of_2_eq n :
  1 < n < 2 ^ 64 → next_power_of_2 n = u64 (2 ^ (Z.log2 (n - 1) + 1)).
Proof.
  intros Hn. unfold next_power_of_2. destruct (Z.eqb_spec n 0) as [|_]; [lia|]. cbn zeta.
  pose proof (smear_start (n - 1)) as H.
  do 6 (apply smear_step in H; [|lia]).
  change (2 * 1) with 2 in H. change (2 * 2) with 4 in H. change (2 * 4) with 8 in H.
  change (2 * 8) with 16 in H. change (2 * 16) with 32 in H. change (2 * 32) with 64 in H.
  apply smear_all in H; [|lia|].
  - rewrite H. f_equal. lia.
  - rewrite !Z.lor_nonneg, !Z.shiftr_nonneg, !Z.lor_nonneg, !Z.shiftr_nonneg, !Z.lor_nonneg, !Z.shiftr_nonneg, !Z.lor_nonneg, !Z.shiftr_nonneg, !Z.lor_nonneg, !Z.shiftr_nonneg, !Z.lor_nonneg, !Z.shiftr_nonneg. lia.
Qed.

(** It is the least power of two that is at least [n]; beyond 2^63 it wraps to 0. *)
Lemma next_power_of_2_spec n :
  1 < n ≤ 2 ^ 63 → ∃ k, 0 ≤ k ≤ 63 ∧ next_power_of_2 n = 2 ^ k ∧ n ≤ 2 ^ k < 2 * n.
Proof.
  intros Hn. rewrite next_power_of_2_eq by lia.
  destruct (Z.log2_spec (n - 1)) as [Hlo Hhi]; [lia|]. pose proof (Z.log2_nonneg (n - 1)).
  assert (Z.log2 (n - 1) < 63) by (apply Z.log2_lt_pow2; lia).
  exists (Z.log2 (n - 1) + 1). split; [lia|].
  assert (2 ^ (Z.log2 (n - 1) + 1) ≤ 2 ^ 63) by (apply Z.pow_le_mono_r; lia).
  rewrite wrap_small by lia. split; [done|].
  rewrite Z.pow_succ_r in Hhi by lia. rewrite Z.pow_add_r by lia. lia.
Qed.

Lemma next_power_of_2_wraps n : 2 ^ 63 < n < 2 ^ 64 → next_power_of_2 n = 0.
Proof.
  intros Hn. rewrite next_power_of_2_eq by lia.
  replace (Z.log2 (n - 1)) with 63; [done|]. symmetry. apply Z.log2_unique; lia.
Qed.

(** * The table refines a multimap *)

(** [table_ok t l]: bucket [b] chains the entries of [l] that hash to [b]. *)
Record table_ok (t : fsd_hash_table_t) (l : list fsd_hash_entry_t) : Prop := {
  to_len : zlen (ht_buckets t) = ht_bucket_count t;
  to_pos : 0 < ht_bucket_count t;
  to_buckets b : 0 ≤ b < ht_bucket_count t →
    zget (ht_buckets t) b = Some (filter (fun e => he_crc32 e mod ht_bucket_count t = b) l);
  to_count : ht_entry_count t = u64 (zlen l)
}.

Section TableSpec.
Context {P : Type} {AR : Arena P} {ARS : ArenaSpec P} {ARL : ArenaLaws P}.

Lemma fsd_hash_table_create_spec expected p :
  0 ≤ expected < 2 ^ 64 → arena_ok p →
  ∃ p', arena_ok p' ∧
  (fsd_hash_table_create expected p = (Err FSD_ERR_OUT_OF_MEMORY, p') ∨
   ∃ t k, fsd_hash_table_create expected p = (Ok t, p') ∧ table_ok t [] ∧
     10 ≤ k ≤ 60 ∧ ht_bucket_count t = 2 ^ k ∧
     (expected < 2 ^ 62 → LOAD_FACTOR_DENOM * expected ≤ LOAD_FACTOR_NUM * ht_bucket_count t + 2)).
Proof.
  intros He Hp. unfold fsd_hash_table_create.
  change LOAD_FACTOR_DENOM with 4. change LOAD_FACTOR_NUM with 3. change MIN_BUCKETS with 1024.
  pose proof (wrap_range 64 (expected * 4) ltac:(lia)) as Hw.
  set (n0 := u64 (expected * 4) / 3) in *.
  assert (Hn0 : 0 ≤ n0 < 2 ^ 63 ∧ (expected < 2 ^ 62 → 4 * expected ≤ 3 * n0 + 2)).
  { unfold n0. split; [zmod|]. intros. rewrite wrap_small by lia. zmod. }
  set (n1 := if n0 <? 1024 then 1024 else n0).
  assert (Hn1 : 1024 ≤ n1 < 2 ^ 63 ∧ n0 ≤ n1) by (unfold n1; destruct (Z.ltb_spec n0 1024); lia).
  clearbody n0 n1. destruct (next_power_of_2_spec n1) as (k & Hk & Hbc & Hb); [lia|].
  rewrite Hbc. clear Hbc.
  destruct (arena_alloc_ok sizeof_table p Hp ltac:(unfold sizeof_table; lia)) as (a1 & p1 & -> & Hp1).
  destruct (a1 =? 0); [exists p1; split; [done|by left]|].
  set (bytes := u64 (2 ^ k * sizeof_ptr)).
  pose proof (wrap_range 64 (2 ^ k * sizeof_ptr) ltac:(lia)) as Hby.
  destruct (decide (k ≤ 60)) as [Hk60|Hk61].
  - destruct (arena_alloc_ok bytes p1 Hp1 Hby) as (a2 & p2 & -> & Hp2).
    destruct (a2 =? 0); [exists p2; split; [done|by left]|].
    exists p2. split; [done|]. right. eexists _, k. split; [reflexivity|].
    assert (Hpk : 2 ^ k ≤ 2 ^ 60) by (apply Z.pow_le_mono_r; lia).
    assert (Hb8 : bytes / sizeof_ptr = 2 ^ k).
    { unfold bytes, sizeof_ptr. rewrite wrap_small by lia. apply Z.div_mul. lia. }
    rewrite Hb8. cbn [ht_bucket_count].
    assert (Hk10 : 10 ≤ k).
    { destruct (decide (k < 10)); [|lia]. assert (2 ^ k < 2 ^ 10) by (apply Z.pow_lt_mono_r; lia). lia. }
    split; [|split; [lia|split; [done|lia]]].
    constructor; cbn [ht_bucket_count ht_buckets ht_entry_count]; [|lia| |done].
    + unfold zlen. rewrite length_replicate. lia.
    + intros b Hb'. unfold zget. replace (0 <=? b) with true by lia.
      by apply lookup_replicate_2; lia.
  - assert (bytes = 0) as ->.
    { unfold bytes, wrap, sizeof_ptr. change 8 with (2 ^ 3). rewrite <- Z.pow_add_r by lia.
      replace (k + 3) with (k - 61 + 64) by lia. rewrite Z.pow_add_r by lia. apply Z.mod_mul. lia. }
    rewrite arena_alloc_0. exists p1. split; [done|by left].
Qed.

Lemma fsd_hash_table_insert_spec t l crc idx p :
  table_ok t l → arena_ok p →
  ∃ t' p', fsd_hash_table_insert t crc idx p = Ok (t', p') ∧ arena_ok p' ∧
    (t' = t ∨ table_ok t' (mkEntry crc idx :: l)).
Proof.
  intros [Hl Hp Hb Hc] Hpo. unfold fsd_hash_table_insert.
  destruct (arena_alloc_ok sizeof_entry p Hpo ltac:(unfold sizeof_entry; lia)) as (a & p' & -> & Hpo').
  cbn [mbind outcome_bind]. destruct (a =? 0); [exists t, p'; split_and!; [done|done|by left]|].
  unfold hash_to_bucket. destruct (Z.eqb_spec (ht_bucket_count t) 0); [lia|]. cbn [mbind outcome_bind].
  pose proof (Z.mod_pos_bound crc (ht_bucket_count t) Hp) as Hm.
  rewrite (Hb _ Hm). eexists _, p'. split; [reflexivity|]. split; [done|]. right.
  constructor; cbn [ht_buckets ht_bucket_count ht_entry_count]; [by rewrite zlen_zput|done| |].
  - intros b Hbb. rewrite zget_zput by lia. rewrite filter_cons. cbn [he_crc32].
    destruct (Z.eqb_spec (crc mod ht_bucket_count t) b) as [<-|Hne].
    + by rewrite decide_True.
    + rewrite decide_False by done. by apply Hb.
  - rewrite Hc, zlen_cons. unfold wrap. rewrite Z.add_comm, Zplus_mod_idemp_r. done.
Qed.

End TableSpec.

(** The loop drops the entries before the first one with the checksum. *)
Lemma lookup_loop_spec crc l :
  ∃ pre, l = pre ++ lookup_loop crc l ∧ Forall (fun e => he_crc32 e ≠ crc) pre ∧
    match lookup_loop crc l with [] => True | e :: _ => he_crc32 e = crc end.
Proof.
  induction l as [|e l IH]; cbn [lookup_loop]; [by exists []|].
  destruct (Z.eqb_spec (he_crc32 e) crc); [by exists []|].
  destruct IH as (pre & Hl & Hpre & Hh). exists (e :: pre). split_and!; [cbn; congruence| |done].
  by apply Forall_cons_iff.
Qed.

Lemma fsd_hash_table_lookup_spec t l crc :
  table_ok t l →
  ∃ chain, fsd_hash_table_lookup t crc = Ok chain ∧
    sublist chain l ∧
    filter (fun e => he_crc32 e = crc) chain = filter (fun e => he_crc32 e = crc) l ∧
    match chain with [] => True | e :: _ => he_crc32 e = crc end.
Proof.
  intros [Hl Hp Hb Hc]. unfold fsd_hash_table_lookup, hash_to_bucket.
  destruct (Z.eqb_spec (ht_bucket_count t) 0); [lia|]. cbn [mbind outcome_bind].
  rewrite (Hb (crc mod ht_bucket_count t)) by (apply Z.mod_pos_bound; lia).
  set (f := filter _ l). destruct (lookup_loop_spec crc f) as (pre & Hf & Hpre & Hh).
  eexists. split; [reflexivity|]. split_and!; [| |done].
  - transitivity f; [|apply sublist_filter]. rewrite Hf at 2. apply sublist_inserts_l. done.
  - assert (Hff : filter (fun e => he_crc32 e = crc) f = filter (fun e => he_crc32 e = crc) l).
    { unfold f. apply list_filter_filter_l. intros e <-. done. }
    rewrite <- Hff. rewrite Hf at 2. rewrite list.filter_app.
    replace (filter _ pre) with (@nil fsd_hash_entry_t); [done|].
    symmetry. clear -Hpre. induction Hpre; [done|]. by rewrite filter_cons_False.
Qed.

Lemma sublist_same_length {A} (l k : list A) : sublist l k → length l = length k → l = k.
Proof.
  induction 1 as [|x l k _ IH|x l k Hs _]; cbn [length]; intros Hl.
  - done.
  - f_equal. apply IH. lia.
  - apply sublist_length in Hs. lia.
Qed.

(** * Properties *)

Section TableProps.
Context {P : Type} {AR : Arena P} {ARS : ArenaSpec P} {ARL : ArenaLaws P}.

(** A sequence of insertions, as the relocation stage makes them. *)
Fixpoint insert_all (ins : list fsd_hash_entry_t) (t : fsd_hash_table_t) (p : P) : outcome (fsd_hash_table_t * P) :=
  match ins with
  | [] => Ok (t, p)
  | e :: ins => '(t, p) ← fsd_hash_table_insert t (he_crc32 e) (he_block_index e) p; insert_all ins t p
  end.

Lemma insert_all_spec ins t p l :
  table_ok t l → arena_ok p →
  ∃ t' p' l', insert_all ins t p = Ok (t', p') ∧ arena_ok p' ∧
    table_ok t' (l' ++ l) ∧ sublist l' (rev ins).
Proof.
  revert t p l. induction ins as [|e ins IH]; intros t p l Ht Hp; cbn [insert_all].
  { by exists t, p, []. }
  destruct (fsd_hash_table_insert_spec t l (he_crc32 e) (he_block_index e) p Ht Hp)
    as (t1 & p1 & -> & Hp1 & [->|Ht1]); cbn [mbind outcome_bind rev].
  - destruct (IH t p1 l Ht Hp1) as (t' & p' & l' & -> & Hp' & Ht' & Hs).
    exists t', p', l'. split_and!; [done|done|done|]. by apply sublist_inserts_r.
  - destruct (IH t1 p1 _ Ht1 Hp1) as (t' & p' & l' & -> & Hp' & Ht' & Hs).
    exists t', p', (l' ++ [e]). rewrite <- app_assoc. destruct e as [c i].
    split_and!; [done|done|done|]. by apply sublist_app.
Qed.

(** Creating a table for any 64-bit number of expected entries either runs
    out of memory or yields an empty table whose bucket count is a power of two
    between 2^10 and 2^60 with a bucket array of exactly that length, although
    the size computations may wrap around; below 2^62 expected entries the load
    stays within the target of three quarters (up to rounding). *)
Theorem hash_create_sound expected p :
  0 ≤ expected < 2 ^ 64 → arena_ok p →
  match fsd_hash_table_create expected p with
  | (Ok t, _) =>
      ∃ k, 10 ≤ k ≤ 60 ∧ ht_bucket_count t = 2 ^ k ∧ zlen (ht_buckets t) = 2 ^ k ∧
        fsd_hash_table_count t = 0 ∧
        (∀ crc, fsd_hash_table_lookup t crc = Ok []) ∧
        (expected < 2 ^ 62 → LOAD_FACTOR_DENOM * expected ≤ LOAD_FACTOR_NUM * 2 ^ k + 2)
  | (Err e, _) => e = FSD_ERR_OUT_OF_MEMORY
  | _ => False
  end.
Proof.
  intros He Hp. destruct (fsd_hash_table_create_spec expected p He Hp)
    as (p' & _ & [->|(t & k & -> & Ht & Hk & Hbc & Hload)]); [done|].
  exists k. rewrite Hbc in Hload. pose proof (to_len _ _ Ht).
  split_and!; [lia|lia|done|congruence|exact (to_count _ _ Ht)| |done].
  intros crc. destruct (fsd_hash_table_lookup_spec t [] crc Ht) as (chain & -> & Hs & _).
  by apply sublist_nil_r in Hs as ->.
Qed.

(** C34: after any sequence of insertions into a new table, the chain that a
    lookup returns contains, for that checksum, exactly the accepted insertions,
    latest first, starts with one of them if there is any, and holds nothing
    that was not inserted.  The accepted insertions are a subsequence of those
    made, as many as the table counts: all of them when no allocation fails. *)
Theorem hash_table_refines_multimap expected p t p1 ins :
  0 ≤ expected < 2 ^ 64 → arena_ok p → zlen ins < 2 ^ 64 →
  fsd_hash_table_create expected p = (Ok t, p1) →
  ∃ t' p' l, insert_all ins t p1 = Ok (t', p') ∧ sublist l (rev ins) ∧
    fsd_hash_table_count t' = zlen l ∧
    (fsd_hash_table_count t' = zlen ins → l = rev ins) ∧
    ∀ crc, ∃ chain, fsd_hash_table_lookup t' crc = Ok chain ∧ sublist chain l ∧
      filter (fun e => he_crc32 e = crc) chain = filter (fun e => he_crc32 e = crc) l ∧
      match chain with [] => True | e :: _ => he_crc32 e = crc end.
Proof.
  intros He Hp Hi Hcr. destruct (fsd_hash_table_create_spec expected p He Hp)
    as (p2 & Hp2 & [Hc|(t0 & k & Hc & Ht & _)]); rewrite Hc in Hcr; [done|].
  injection Hcr as -> ->.
  destruct (insert_all_spec ins t p1 [] Ht Hp2) as (t' & p' & l & Hr & _ & Ht' & Hs).
  rewrite app_nil_r in Ht'. pose proof (sublist_length _ _ Hs) as Hlen. rewrite length_rev in Hlen.
  assert (Hcount : fsd_hash_table_count t' = zlen l).
  { unfold fsd_hash_table_count. rewrite (to_count _ _ Ht'). apply wrap_small. unfold zlen in *. lia. }
  exists t', p', l. split_and!; [done|done|done| |].
  - rewrite Hcount. intros Heq. apply (sublist_same_length _ _ Hs).
    rewrite length_rev. unfold zlen in *. lia.
  - intros crc. by apply fsd_hash_table_lookup_spec.
Qed.

End TableProps.

(** A pool of one chunk of 64 KiB. *)
Definition demo_pool : fsd_memory_pool_t * @world bump :=
  match fsd_pool_create 65536 0 empty_world with
  | (Ok (_, pool), w) => (pool, w)
  | (_, w) => (mkPool 0 0 0 0 0, w)
  end.

Lemma demo_pool_ok : arena_ok demo_pool.
Proof.
  pose proof (fsd_pool_create_spec 8 65536 0 empty_world (or_intror eq_refl) empty_world_ok ltac:(lia)) as H.
  unfold demo_pool. destruct (fsd_pool_create 65536 0 empty_world) as [[[self pool]|e| |] w] eqn:Hc;
    [|by vm_compute in Hc|done|done].
  destruct H as [H _]. by exists self, (live (w_alloc empty_world)), true, [].
Qed.

Definition demo_table : fsd_hash_table_t := mkTable (replicate 1024 []) 1024 0.

Definition demo_pool1 : fsd_memory_pool_t * @world bump := snd (fsd_hash_table_create 3 demo_pool).

Lemma hash_create_sound_witness :
  ∃ k, 10 ≤ k ≤ 60 ∧ ht_bucket_count demo_table = 2 ^ k.
Proof.
  pose proof (hash_create_sound 3 demo_pool ltac:(lia) demo_pool_ok) as H.
  replace (fsd_hash_table_create 3 demo_pool) with
    (Ok demo_table : outcome fsd_hash_table_t, demo_pool1) in H by (vm_compute; reflexivity).
  destruct H as (k & Hk & Hb & _). exists k. split; [exact Hk|exact Hb].
Defined.

Lemma hash_table_refines_multimap_witness :
  ∃ t' p' l, insert_all [mkEntry 7 0; mkEntry 1031 1; mkEntry 7 2] demo_table demo_pool1 = Ok (t', p') ∧
    fsd_hash_table_count t' = zlen l ∧
    ∃ chain, fsd_hash_table_lookup t' 7 = Ok chain ∧ sublist chain l.
Proof.
  destruct (hash_table_refines_multimap 3 demo_pool demo_table demo_pool1
    [mkEntry 7 0; mkEntry 1031 1; mkEntry 7 2]) as (t' & p' & l & Hr & _ & Hc & _ & Hl).
  - lia.
  - apply demo_pool_ok.
  - unfold zlen. cbn. lia.
  - vm_compute. reflexivity.
  - destruct (Hl 7) as (chain & H1 & H2 & _). exists t', p', l. split_and!; [exact Hr|exact Hc|].
    exists chain. split; [exact H1|exact H2].
Defined.
