(* ===== verification/Budget.v ===== *)
(** Memory budgets: when an allocation of a pool cannot fail.

    The pools, the hash table and the stages pass a refused allocation on as a null
    pointer or FSD_ERR_OUT_OF_MEMORY.  Here an allocator may state how many bytes it
    still serves ([AllocatorBudget]); from that follows how many bytes, in how many
    requests, a pool still serves ([ArenaBudget]), and that a table is created and
    filled without a refusal.  A chunk is only started when a request does not fit
    what is left of the current one, so twice the bytes asked for are enough, with
    one chunk and the headers on top. *)

From stdpp Require Import base gmap list numbers tactics.
From Stdlib Require Import ZArith Lia.
From S2P Require Import Prelude MemoryPool HashTable.
Open Scope Z_scope.

(** * Allocators *)

(** What malloc may take for itself with every region. *)
Definition malloc_overhead : Z := 16.

Class AllocatorBudget (A : Type) := { mem_budget : A → Z }.

(** A request within the budget is served, and the budget pays for it. *)
Class AllocatorBudgetLaws (A : Type) `{AL : Allocator A} `{ALS : AllocatorSpec A} `{AB : AllocatorBudget A} := {
  budget_range a : alloc_ok a → mem_budget a < 2 ^ 64;
  budget_malloc size a p a' :
    alloc_ok a → 0 < size → size + malloc_overhead ≤ mem_budget a → malloc_fn size a = (p, a') →
    p ≠ 0 ∧ mem_budget a - (size + malloc_overhead) ≤ mem_budget a'
}.

#[global] Instance bump_budget : AllocatorBudget bump := {| mem_budget a := 2 ^ 32 - b_next a |}.

#[global] Instance bump_budget_laws : AllocatorBudgetLaws bump.
Proof.
  split.
  - intros a Ha. pose proof (bo_next _ Ha). cbn. lia.
  - intros size a p a' Ha Hs Hb. pose proof (bo_next _ Ha). cbn in *. unfold bump_malloc, malloc_overhead in *.
    destruct (Z.ltb_spec (b_next a + size) (2 ^ 32)); [|lia]. intros [= <- <-]. cbn. split; [lia|]. zmod.
Qed.

(** * Arenas *)

(** [arena_room n r p]: [p] still serves [r] requests of [n] bytes in all, where a
    request counts with the seven bytes it may be rounded up by. *)
Class ArenaBudget (P : Type) := { arena_room : Z → Z → P → Prop }.

Class ArenaBudgetLaws (P : Type) `{AR : Arena P} `{ARS : ArenaSpec P} `{AB : ArenaBudget P} := {
  arena_room_ok n r p : arena_room n r p → arena_ok p ∧ 0 ≤ n < 2 ^ 63 ∧ 0 ≤ r;
  arena_room_alloc n r p size :
    arena_room n r p → 0 < size → size + 7 ≤ n → 1 ≤ r →
    ∃ a p', arena_alloc size p = Ok (a, p') ∧ a ≠ 0 ∧ arena_room (n - (size + 7)) (r - 1) p'
}.

(** ** Pools *)

(** What a new chunk costs besides its data. *)
Definition chunk_cost : Z := sizeof_chunk + 2 * malloc_overhead.

(** The budget for [n] bytes in [r] requests, with [room] bytes left in the current
    chunk. *)
Definition pool_need (chunk_size n r room : Z) : Z := 2 * n - room + chunk_size + chunk_cost * r.

(** What a pool takes from its creation on. *)
Definition pool_bytes (chunk_size n r : Z) : Z :=
  sizeof_pool + malloc_overhead + chunk_cost + pool_need chunk_size n r 0.

Section Pool.
Context {A : Type} {AL : Allocator A} {ALS : AllocatorSpec A} {ALL : AllocatorLaws A}.
Context {AB : AllocatorBudget A} {ABL : AllocatorBudgetLaws A}.
Abbreviation pool_t := (fsd_memory_pool_t * @world A)%type.

#[global] Instance pool_budget : ArenaBudget pool_t := {|
  arena_room n r p :=
    arena_ok p ∧ 0 ≤ n < 2 ^ 63 ∧ 0 ≤ r ∧ mp_max_memory p.1 = 0 ∧
    ∃ k, w_heap p.2 !! mp_current p.1 = Some k ∧
      pool_need (mp_chunk_size p.1) n r (ck_size k - ck_used k) ≤ mem_budget (w_alloc p.2)
|}.

Lemma deref_Ok_inv (w : @world A) p k : deref w p = Ok k → w_heap w !! p = Some k.
Proof. unfold deref. destruct (w_heap w !! p); [by intros [= ->]|done]. Qed.

(** A chunk within the budget. *)
Lemma create_chunk_room pool size (w : @world A) n pool' w' :
  alloc_ok (w_alloc w) → mp_max_memory pool = 0 → 0 < size → size + chunk_cost ≤ mem_budget (w_alloc w) →
  create_chunk pool size w = (n, pool', w') →
  n ≠ 0 ∧ mp_chunk_size pool' = mp_chunk_size pool ∧ mp_max_memory pool' = 0 ∧ mp_current pool' = mp_current pool ∧
  ∃ d, d ≠ 0 ∧ w_heap w' = <[n := mkChunk d size 0 0]> (w_heap w) ∧
    mem_budget (w_alloc w) - (size + chunk_cost) ≤ mem_budget (w_alloc w').
Proof.
  intros Ha Hmax Hs Hb. unfold create_chunk, chunk_cost, sizeof_chunk in *. rewrite Hmax. cbn [Z.ltb Z.compare andb].
  destruct (malloc_fn 32 _) as [c a1] eqn:M1.
  destruct (malloc_law 32 _ _ _ Ha ltac:(done) M1) as [Ha1 _].
  destruct (budget_malloc (AB := AB) 32 _ _ _ Ha ltac:(done) ltac:(unfold malloc_overhead in *; lia) M1) as [Hc B1].
  destruct (Z.eqb_spec c 0) as [|_]; [done|]. destruct (malloc_fn size a1) as [d a2] eqn:M2.
  destruct (budget_malloc (AB := AB) size _ _ _ Ha1 Hs ltac:(unfold malloc_overhead in *; lia) M2) as [Hd B2].
  destruct (Z.eqb_spec d 0) as [|_]; [done|]. intros [= <- <- <-]. cbn. split_and!; [done..|].
  exists d. split_and!; [done|done|lia].
Qed.

Lemma pool_create_room chunk n r (w : @world A) :
  alloc_ok (w_alloc w) → 0 < chunk < 2 ^ 63 → 0 ≤ n → 0 ≤ r →
  pool_bytes chunk n r ≤ mem_budget (w_alloc w) →
  ∃ self pool w', fsd_pool_create chunk 0 w = (Ok (self, pool), w') ∧ arena_room n r (pool, w').
Proof.
  intros Hw Hc Hn Hr Hb. pose proof (budget_range _ Hw) as Hmax.
  pose proof (fsd_pool_create_spec 8 chunk 0 w (or_intror eq_refl) Hw ltac:(lia)) as Hinv.
  unfold fsd_pool_create in *. destruct (Z.eqb_spec chunk 0) as [|_]; [lia|].
  unfold pool_bytes, pool_need, chunk_cost, sizeof_pool, sizeof_chunk, malloc_overhead in *.
  destruct (malloc_fn 72 _) as [p a1] eqn:M. destruct (malloc_law 72 _ _ _ Hw ltac:(lia) M) as [Ha1 _].
  destruct (budget_malloc (AB := AB) 72 _ _ _ Hw ltac:(lia) ltac:(unfold malloc_overhead; lia) M) as [Hp B].
  unfold malloc_overhead in B. destruct (Z.eqb_spec p 0) as [|_]; [done|].
  destruct (create_chunk _ _ _) as [[c pool] w1] eqn:E.
  apply create_chunk_room in E as (Hc0 & Hcs & Hm & _ & d & _ & Hh & B1); cbn [w_alloc w_heap mp_chunk_size] in *;
    [|done|done|lia|unfold chunk_cost, sizeof_chunk, malloc_overhead; lia].
  unfold chunk_cost, sizeof_chunk, malloc_overhead in B1.
  destruct (Z.eqb_spec c 0) as [|_]; [done|]. eexists _, _, _. split; [reflexivity|].
  split_and!; cbn [fst snd mp_max_memory mp_chunk_size mp_current]; [|lia|lia|lia|done|].
  - eexists _, _, _, _. apply Hinv.
  - eexists. split; [rewrite Hh; apply lookup_insert_eq|]. unfold pool_need, chunk_cost, sizeof_chunk, malloc_overhead.
    cbn [ck_size ck_used]. lia.
Qed.

(** The part of fsd_pool_alloc that starts a chunk of [m] bytes for [s] of them. *)
Lemma fresh_room pool (w : @world A) m s p pool' w' :
  alloc_ok (w_alloc w) → mp_max_memory pool = 0 → 0 < m → m + chunk_cost ≤ mem_budget (w_alloc w) →
  (let '(new_chunk, pool, w) := create_chunk pool m w in
   if new_chunk =? 0 then Ok (0, pool, w) else
   '(pool, w) ← link_chunk pool new_chunk w;
   k ← deref w new_chunk;
   Ok (ck_data k, pool, assign w new_chunk (set_used k s))) = Ok (p, pool', w') →
  p ≠ 0 ∧ mp_chunk_size pool' = mp_chunk_size pool ∧ mp_max_memory pool' = 0 ∧
  ∃ k, w_heap w' !! mp_current pool' = Some k ∧ ck_size k = m ∧ ck_used k = s ∧
    mem_budget (w_alloc w) - (m + chunk_cost) ≤ mem_budget (w_alloc w').
Proof.
  intros Ha Hmax Hm Hb. destruct (create_chunk pool m w) as [[n pool1] w1] eqn:E.
  apply create_chunk_room in E as (Hn & Hcs & Hm1 & _ & d & Hd & Hh & B); [|done..].
  destruct (Z.eqb_spec n 0) as [|_]; [done|]. intros ([pool2 w2] & Hl & H)%bind_Ok_inv.
  apply bind_Ok_inv in H as (k & Hk%deref_Ok_inv & [= <- <- <-]). unfold link_chunk in Hl.
  assert (Hk2 : ck_data k = d ∧ ck_size k = m ∧ mp_current pool2 = n ∧ mp_chunk_size pool2 = mp_chunk_size pool1 ∧
    mp_max_memory pool2 = mp_max_memory pool1 ∧ w_alloc w2 = w_alloc w1).
  { destruct (mp_current pool1 =? 0).
    - injection Hl as <- <-. rewrite Hh, lookup_insert_eq in Hk. by injection Hk as <-.
    - apply bind_Ok_inv in Hl as (k0 & Hk0%deref_Ok_inv & [= <- <-]). cbn in Hk. rewrite Hh in Hk, Hk0.
      destruct (decide (n = mp_current pool1)) as [->|Hne].
      + rewrite lookup_insert_eq in Hk, Hk0. injection Hk0 as <-. by injection Hk as <-.
      + rewrite lookup_insert_ne, lookup_insert_eq in Hk by done. by injection Hk as <-. }
  destruct Hk2 as (-> & Hsz & Hcur & Hc2 & Hx2 & Ha2). split_and!; [done|congruence|congruence|].
  exists (set_used k s). cbn. rewrite Hcur, lookup_insert_eq, Ha2. by split_and!.
Qed.

Lemma pool_alloc_room n r (p : pool_t) size :
  arena_room n r p → 0 < size → size + 7 ≤ n → 1 ≤ r →
  ∃ a p', arena_alloc size p = Ok (a, p') ∧ a ≠ 0 ∧ arena_room (n - (size + 7)) (r - 1) p'.
Proof.
  destruct p as [pool w]. intros ((self & base & clean & log & Hinv) & Hn & Hr & Hmax & k & Hk & Hb) Hs Hsn Hr1.
  cbn [fst snd] in *.
  destruct (fsd_pool_alloc_inv 8 self base pool w clean log size (or_intror eq_refl) Hinv ltac:(lia))
    as (a & pool' & w' & E & Hinv').
  cbn [arena_alloc pool_arena fst snd]. rewrite E. cbn [mbind outcome_bind]. eexists _, _. split; [reflexivity|].
  assert (Hout : a ≠ 0 ∧ mp_chunk_size pool' = mp_chunk_size pool ∧ mp_max_memory pool' = 0 ∧
    ∃ k', w_heap w' !! mp_current pool' = Some k' ∧
      pool_need (mp_chunk_size pool) (n - (size + 7)) (r - 1) (ck_size k' - ck_used k') ≤ mem_budget (w_alloc w')).
  2:{ destruct Hout as (Ha & Hcs & Hm & k' & Hk' & Hb'). split; [done|]. split_and!; cbn [fst snd]; [|lia|lia|lia|done|].
      - by eexists _, _, _, _.
      - exists k'. by rewrite Hcs. }
  destruct Hinv as (pre & [c k0] & post & lost & H & _).
  pose proof (po_alloc _ _ _ _ _ _ _ _ _ _ H) as Hal. pose proof (po_size _ _ _ _ _ _ _ _ _ _ H) as Hcs.
  destruct (seg_lookup _ _ _ _ (c, k0) (po_seg _ _ _ _ _ _ _ _ _ _ H)) as [Hck Hc0];
    [apply elem_of_app; right; left|].
  destruct (po_cell _ _ _ _ _ _ _ _ _ _ (c, k0) H) as (Hd & Hsz & Htop & _ & Hcu & _);
    [apply elem_of_app; right; left|].
  pose proof (po_current _ _ _ _ _ _ _ _ _ _ H) as Hcur. cbn [fst snd] in *.
  rewrite Hcur, Hck in Hk. injection Hk as <-.
  unfold fsd_pool_alloc in E. destruct (Z.eqb_spec size 0) as [|_]; [lia|].
  destruct (Z.ltb_spec (SIZE_MAX - 7) size) as [|_]; [unfold SIZE_MAX in *; lia|].
  pose proof (round8_spec size Hs ltac:(unfold SIZE_MAX; lia)) as Hro. cbn zeta in Hro. set (sz := Z.land _ _) in *.
  rewrite Hcur in E. destruct (Z.eqb_spec c 0) as [|_]; [done|]. rewrite (deref_some _ _ _ Hck) in E.
  cbn [mbind outcome_bind] in E. rewrite (wrap_small 64 (ck_size k0 - ck_used k0)) in E by lia.
  unfold pool_need, chunk_cost, sizeof_chunk, malloc_overhead in *.
  destruct (Z.leb_spec sz (ck_size k0 - ck_used k0)) as [Hfit|Hfit].
  - injection E as <- <- <-. split_and!; [lia|done|done|]. eexists. cbn. rewrite Hcur, lookup_insert_eq.
    split; [reflexivity|]. cbn. rewrite wrap_small by lia. lia.
  - set (m := if mp_chunk_size pool <? sz then sz else mp_chunk_size pool) in *.
    assert (Hm : 0 < m ∧ sz ≤ m ∧ (m = mp_chunk_size pool ∨ m = sz ∧ mp_chunk_size pool < sz))
      by (unfold m; destruct (Z.ltb_spec (mp_chunk_size pool) sz); lia).
    apply (fresh_room _ _ m sz) in E as (Ha & Hc' & Hm' & k' & Hk' & Ek1 & Ek2 & Hb'); try done; try lia;
      unfold chunk_cost, sizeof_chunk, malloc_overhead in *; [|lia].
    split_and!; [done..|]. exists k'. split; [done|]. rewrite Ek1, Ek2. lia.
Qed.

#[global] Instance pool_budget_laws : ArenaBudgetLaws pool_t.
Proof. split; [by intros n r p (? & ? & ? & _)|apply pool_alloc_room]. Qed.

End Pool.

(** * The hash table *)

(** The bytes of the bucket array for [n] expected entries. *)
Definition bucket_bytes (n : Z) : Z :=
  sizeof_ptr * next_power_of_2 (Z.max MIN_BUCKETS (n * LOAD_FACTOR_DENOM / LOAD_FACTOR_NUM)).

(** What creating a table takes, in two requests. *)
Definition table_bytes (n : Z) : Z := sizeof_table + 7 + (bucket_bytes n + 7).

Lemma bucket_bytes_range n : 0 ≤ n ≤ 2 ^ 58 → 0 < bucket_bytes n < 2 ^ 63.
Proof.
  intros Hn. unfold bucket_bytes, sizeof_ptr, MIN_BUCKETS, LOAD_FACTOR_DENOM, LOAD_FACTOR_NUM.
  destruct (next_power_of_2_spec (Z.max 1024 (n * 4 / 3))) as (k & _ & -> & Hk); [zmod|]. zmod.
Qed.

Section Table.
Context {P : Type} {AR : Arena P} {ARS : ArenaSpec P} {AB : ArenaBudget P} {ABL : ArenaBudgetLaws P}.

Lemma hash_table_create_room n r expected (p : P) :
  0 ≤ expected ≤ 2 ^ 58 → arena_room n r p → table_bytes expected ≤ n → 2 ≤ r →
  ∃ t p', fsd_hash_table_create expected p = (Ok t, p') ∧ arena_room (n - table_bytes expected) (r - 2) p'.
Proof.
  intros He Hp Hn Hr. pose proof (bucket_bytes_range expected He) as Hb. unfold table_bytes, sizeof_table in *.
  unfold fsd_hash_table_create.
  assert (Hbc : (if u64 (expected * LOAD_FACTOR_DENOM) / LOAD_FACTOR_NUM <? MIN_BUCKETS then MIN_BUCKETS
                 else u64 (expected * LOAD_FACTOR_DENOM) / LOAD_FACTOR_NUM) =
    Z.max MIN_BUCKETS (expected * LOAD_FACTOR_DENOM / LOAD_FACTOR_NUM)).
  { unfold LOAD_FACTOR_DENOM. rewrite wrap_small by lia. destruct (Z.ltb_spec (expected * 4 / LOAD_FACTOR_NUM) MIN_BUCKETS); lia. }
  cbv zeta. rewrite Hbc. rewrite (wrap_small 64 (_ * sizeof_ptr)) by (unfold bucket_bytes in Hb; lia).
  destruct (arena_room_alloc n r p sizeof_table Hp) as (a1 & p1 & -> & Ha1 & Hp1); [done|unfold sizeof_table; lia|lia|].
  destruct (Z.eqb_spec a1 0) as [|_]; [done|]. unfold sizeof_table in Hp1.
  replace (next_power_of_2 (Z.max MIN_BUCKETS (expected * LOAD_FACTOR_DENOM / LOAD_FACTOR_NUM)) * sizeof_ptr)
    with (bucket_bytes expected) by (unfold bucket_bytes; lia).
  destruct (arena_room_alloc _ _ p1 (bucket_bytes expected) Hp1) as (a2 & p2 & -> & Ha2 & Hp2); [lia|lia|lia|].
  destruct (Z.eqb_spec a2 0) as [|_]; [done|]. eexists _, _. split; [reflexivity|].
  by replace (n - _) with (n - (32 + 7) - (bucket_bytes expected + 7)) by lia; replace (r - 2) with (r - 1 - 1) by lia.
Qed.

(** An insertion that is not dropped. *)
Lemma hash_table_insert_room n r t crc idx (p : P) t' p' :
  arena_room n r p → sizeof_entry + 7 ≤ n → 1 ≤ r → fsd_hash_table_insert t crc idx p = Ok (t', p') →
  arena_room (n - (sizeof_entry + 7)) (r - 1) p'.
Proof.
  intros Hp Hn Hr. unfold fsd_hash_table_insert.
  destruct (arena_room_alloc n r p sizeof_entry Hp) as (a & p1 & -> & Ha & Hp1); [done|done|done|].
  cbn [mbind outcome_bind]. destruct (Z.eqb_spec a 0) as [|_]; [done|].
  intros (b & _ & H)%bind_Ok_inv. destruct (zget _ _); [|done]. by injection H as _ <-.
Qed.

End Table.
