(* ===== verification/Simd.v ===== *)
(** Byte scans and their dispatch (src/simd/simd_scalar.c, simd_avx2.c,
    simd_neon.c, simd_dispatch.c).

    Three routines (is a buffer all zeros, is it all 0xFF, how many bytes of two
    buffers agree) in a scalar version that works on 64-bit words, an AVX2 one on
    32-byte vectors and a NEON one on 16-byte vectors, chosen at start-up through
    a table of function pointers.  A pointer argument is an object and an offset
    in it; loads outside the object are undefined.

    The vector intrinsics and the CPU queries are not part of the program: they
    are the interfaces [Avx2] and [Neon] with their documented meaning as laws,
    and arguments of the dispatch.  Shown here: every version computes the
    specification ([all_eq], [count_eq]) without leaving its buffers, so that
    whatever the dispatch selects, its callers get the same answers. *)

From stdpp Require Import base list numbers tactics strings.
From Stdlib Require Import ZArith Lia.
From S2P Require Import Prelude.
Open Scope Z_scope.

(** * Specification *)

Definition all_eq (v : Z) (l : bytes) : bool := forallb (fun b => b =? v) l.

Definition b2z (b : bool) : Z := if b then 1 else 0.

(** The number of positions at which two buffers agree. *)
Fixpoint count_eq (a b : bytes) : Z :=
  match a, b with
  | x :: a, y :: b => b2z (x =? y) + count_eq a b
  | _, _ => 0
  end.

(** * The loops all versions share *)

(** [for (i = 0; i < n; i++) { load w bytes at i * w; if (!test) return false; }] *)
Fixpoint all_chunks (test : bytes → bool) (w : Z) (n : nat) (i : Z) (data : bytes) (off : Z) : outcome bool :=
  match n with
  | O => Ok true
  | S n =>
      c ← load (off + i * w) w data;
      if negb (test c) then Ok false else all_chunks test w n (i + 1) data off
  end.

(** [for (; i < len; i++) if (bytes[i] != v) return false;], [n] steps from [i]. *)
Fixpoint all_tail (v : Z) (n : nat) (i : Z) (data : bytes) (off : Z) : outcome bool :=
  match n with
  | O => Ok true
  | S n =>
      match zget data (off + i) with
      | Some b => if negb (b =? v) then Ok false else all_tail v n (i + 1) data off
      | None => UB
      end
  end.

Definition all_scan (test : bytes → bool) (w v : Z) (data : bytes) (off len : Z) : outcome bool :=
  let vec_count := len / w in
  r ← all_chunks test w (Z.to_nat vec_count) 0 data off;
  if negb r then Ok false
  else all_tail v (Z.to_nat (len - vec_count * w)) (vec_count * w) data off.

Fixpoint count_chunks (cnt : bytes → bytes → Z) (w : Z) (n : nat) (i count : Z)
    (a : bytes) (ao : Z) (b : bytes) (bo : Z) : outcome Z :=
  match n with
  | O => Ok count
  | S n =>
      x ← load (ao + i * w) w a;
      y ← load (bo + i * w) w b;
      count_chunks cnt w n (i + 1) (u64 (count + cnt x y)) a ao b bo
  end.

Fixpoint count_tail (n : nat) (i count : Z) (a : bytes) (ao : Z) (b : bytes) (bo : Z) : outcome Z :=
  match n with
  | O => Ok count
  | S n =>
      match zget a (ao + i), zget b (bo + i) with
      | Some x, Some y => count_tail n (i + 1) (if x =? y then u64 (count + 1) else count) a ao b bo
      | _, _ => UB
      end
  end.

Definition count_scan (cnt : bytes → bytes → Z) (w : Z) (a : bytes) (ao : Z) (b : bytes) (bo len : Z) : outcome Z :=
  let vec_count := len / w in
  count ← count_chunks cnt w (Z.to_nat vec_count) 0 0 a ao b bo;
  count_tail (Z.to_nat (len - vec_count * w)) (vec_count * w) count a ao b bo.

(** * Scalar versions (simd_scalar.c) *)

Definition fsd_scalar_is_zero (data : bytes) (off len : Z) : outcome bool :=
  all_scan (fun c => le_val c =? 0) 8 0 data off len.

Definition fsd_scalar_is_one (data : bytes) (off len : Z) : outcome bool :=
  all_scan (fun c => le_val c =? 0xFFFFFFFFFFFFFFFF) 8 0xFF data off len.

(** [for (j = 0; j < 8; j++) { if ((diff & 0xFF) == 0) count++; diff >>= 8; }] *)
Fixpoint zero_bytes (n : nat) (diff : Z) : Z :=
  match n with
  | O => 0
  | S n => b2z (Z.land diff 0xFF =? 0) + zero_bytes n (Z.shiftr diff 8)
  end.

Definition word_matches (x y : bytes) : Z :=
  let diff := Z.lxor (le_val x) (le_val y) in
  if diff =? 0 then 8 else zero_bytes 8 diff.

Definition fsd_scalar_count_matches (a : bytes) (ao : Z) (b : bytes) (bo len : Z) : outcome Z :=
  count_scan word_matches 8 a ao b bo len.

(** * AVX2 versions (simd_avx2.c) *)

(** The bits of a mask, least significant first. *)
Fixpoint bits_val (l : list bool) : Z :=
  match l with [] => 0 | b :: l => b2z b + 2 * bits_val l end.

(** A __m256i is its 32 bytes. *)
Class Avx2 := {
  mm256_set1_epi8 : Z → bytes;
  mm256_cmpeq_epi8 : bytes → bytes → bytes;
  mm256_movemask_epi8 : bytes → Z;      (** an int *)
  builtin_popcount : Z → Z
}.

Class Avx2Laws `{AV : Avx2} := {
  set1_law v : mm256_set1_epi8 v = replicate 32 v;
  cmpeq_law x y : length x = 32%nat → length y = 32%nat →
    mm256_cmpeq_epi8 x y = zip_with (fun a b => if a =? b then 255 else 0) x y;
  movemask_law x : length x = 32%nat →
    mm256_movemask_epi8 x = s32 (bits_val ((fun b => Z.testbit b 7) <$> x));
  popcount_law l : length l = 32%nat →
    builtin_popcount (bits_val l) = foldr (fun b n => b2z b + n) 0 l
}.

Section Avx2.
Context {AV : Avx2}.

Definition avx2_all (v : Z) (c : bytes) : bool :=
  mm256_movemask_epi8 (mm256_cmpeq_epi8 c (mm256_set1_epi8 v)) =? s32 0xFFFFFFFF.

(** [_mm256_setzero_si256] is the vector of zeros. *)
Definition fsd_avx2_is_zero (data : bytes) (off len : Z) : outcome bool :=
  all_scan (avx2_all 0) 32 0 data off len.

Definition fsd_avx2_is_one (data : bytes) (off len : Z) : outcome bool :=
  all_scan (avx2_all 0xFF) 32 0xFF data off len.

Definition avx2_matches (xa xb : bytes) : Z :=
  let mask := u32 (mm256_movemask_epi8 (mm256_cmpeq_epi8 xa xb)) in
  builtin_popcount mask.

Definition fsd_avx2_count_matches (a : bytes) (ao : Z) (b : bytes) (bo len : Z) : outcome Z :=
  count_scan avx2_matches 32 a ao b bo len.
End Avx2.

(** * NEON versions (simd_neon.c) *)

(** A vector is the list of its lanes. *)
Class Neon := {
  vdupq_n_u8 : Z → bytes;
  vceqq_u8 : bytes → bytes → bytes;
  vreinterpretq_u64_u8 : bytes → list Z;
  vgetq_lane_u64 : list Z → nat → Z;
  vshrq_n_u8 : bytes → Z → bytes;
  vpaddlq : list Z → list Z        (** the widening pairwise sum, at any width *)
}.

Fixpoint pair_sums (l : list Z) : list Z :=
  match l with x :: y :: l => (x + y) :: pair_sums l | _ => [] end.

Class NeonLaws `{NE : Neon} := {
  vdupq_law v : vdupq_n_u8 v = replicate 16 v;
  vceqq_law x y : length x = 16%nat → length y = 16%nat →
    vceqq_u8 x y = zip_with (fun a b => if a =? b then 255 else 0) x y;
  vreinterpret_law x : length x = 16%nat →
    vreinterpretq_u64_u8 x = [le_val (take 8 x); le_val (drop 8 x)];
  vgetq_lane_law l i x : l !! i = Some x → vgetq_lane_u64 l i = x;
  vshrq_law x n : vshrq_n_u8 x n = (fun b => Z.shiftr b n) <$> x;
  vpaddlq_law l : vpaddlq l = pair_sums l
}.

Section Neon.
Context {NE : Neon}.

Definition neon_all (v : Z) (c : bytes) : bool :=
  let as64 := vreinterpretq_u64_u8 (vceqq_u8 c (vdupq_n_u8 v)) in
  negb (negb (vgetq_lane_u64 as64 0 =? 0xFFFFFFFFFFFFFFFF) ||
        negb (vgetq_lane_u64 as64 1 =? 0xFFFFFFFFFFFFFFFF)).

Definition fsd_neon_is_zero (data : bytes) (off len : Z) : outcome bool :=
  all_scan (neon_all 0) 16 0 data off len.

Definition fsd_neon_is_one (data : bytes) (off len : Z) : outcome bool :=
  all_scan (neon_all 0xFF) 16 0xFF data off len.

Definition neon_matches (va vb : bytes) : Z :=
  let ones := vshrq_n_u8 (vceqq_u8 va vb) 7 in
  let sum64 := vpaddlq (vpaddlq (vpaddlq ones)) in
  vgetq_lane_u64 sum64 0 + vgetq_lane_u64 sum64 1.

Definition fsd_neon_count_matches (a : bytes) (ao : Z) (b : bytes) (bo len : Z) : outcome Z :=
  count_scan neon_matches 16 a ao b bo len.
End Neon.

(** * Dispatch (simd_dispatch.c) *)

Definition FSD_SIMD_NONE : Z := 0.
Definition FSD_SIMD_SSE2 : Z := Z.shiftl 1 0.
Definition FSD_SIMD_AVX : Z := Z.shiftl 1 1.
Definition FSD_SIMD_AVX2 : Z := Z.shiftl 1 2.
Definition FSD_SIMD_NEON : Z := Z.shiftl 1 3.

(** A null function pointer is [None]. *)
Record fsd_simd_dispatch_t := mkDispatch {
  sd_caps : Z;
  sd_name : option string;
  sd_is_zero : option (bytes → Z → Z → outcome bool);
  sd_is_one : option (bytes → Z → Z → outcome bool);
  sd_count_matches : option (bytes → Z → bytes → Z → Z → outcome Z)
}.

(** [g_fsd_simd] before fsd_simd_init. *)
Definition simd_uninitialized : fsd_simd_dispatch_t := mkDispatch 0 None None None None.

Definition setup_scalar_dispatch : fsd_simd_dispatch_t :=
  mkDispatch FSD_SIMD_NONE (Some "scalar"%string) (Some fsd_scalar_is_zero) (Some fsd_scalar_is_one) (Some fsd_scalar_count_matches).

Definition setup_avx2_dispatch `{Avx2} : fsd_simd_dispatch_t :=
  mkDispatch FSD_SIMD_AVX2 (Some "AVX2"%string) (Some fsd_avx2_is_zero) (Some fsd_avx2_is_one) (Some fsd_avx2_count_matches).

Definition setup_neon_dispatch `{Neon} : fsd_simd_dispatch_t :=
  mkDispatch FSD_SIMD_NEON (Some "NEON"%string) (Some fsd_neon_is_zero) (Some fsd_neon_is_one) (Some fsd_neon_count_matches).

(** What the processor and the system answer: the registers EAX, EBX, ECX, EDX
    of a cpuid leaf, and XCR0. *)
Record x86_cpu := mkX86 { cpuid : Z → Z * Z * Z * Z; xgetbv0 : Z }.

Definition detect_x86_caps (c : x86_cpu) : Z :=
  let caps := FSD_SIMD_NONE in
  let '(_, _, ecx, edx) := cpuid c 1 in
  let caps := if negb (Z.land edx (Z.shiftl 1 26) =? 0) then Z.lor caps FSD_SIMD_SSE2 else caps in
  let os_saves_ymm :=
    if negb (Z.land ecx (Z.shiftl 1 27) =? 0) then Z.land (xgetbv0 c) 0x6 =? 0x6 else false in
  let caps := if os_saves_ymm && negb (Z.land ecx (Z.shiftl 1 28) =? 0)
              then Z.lor caps FSD_SIMD_AVX else caps in
  if os_saves_ymm then
    let '(eax0, _, _, _) := cpuid c 0 in
    if 7 <=? s32 eax0 then
      let '(_, ebx7, _, _) := cpuid c 7 in
      if negb (Z.land ebx7 (Z.shiftl 1 5) =? 0) then Z.lor caps FSD_SIMD_AVX2 else caps
    else caps
  else caps.

(** The target a build is for, with the answers its detection reads. *)
Inductive target : Type :=
| X86 (cpu : x86_cpu)
| ARM64
| ARM32_LINUX (hwcap_neon : bool)
| ARM32_OTHER
| OTHER_TARGET.

Definition detect_arm_caps (t : target) : Z :=
  match t with
  | ARM32_LINUX neon => if neon then FSD_SIMD_NEON else FSD_SIMD_NONE
  | ARM64 | ARM32_OTHER => FSD_SIMD_NEON
  | _ => FSD_SIMD_NONE
  end.

Definition fsd_simd_init `{Avx2} `{Neon} (has_avx2 has_neon : bool) (t : target) : fsd_simd_dispatch_t :=
  match t with
  | X86 cpu =>
      let caps := detect_x86_caps cpu in
      if has_avx2 && negb (Z.land caps FSD_SIMD_AVX2 =? 0) then setup_avx2_dispatch else setup_scalar_dispatch
  | ARM64 | ARM32_LINUX _ | ARM32_OTHER =>
      let caps := detect_arm_caps t in
      if has_neon && negb (Z.land caps FSD_SIMD_NEON =? 0) then setup_neon_dispatch else setup_scalar_dispatch
  | OTHER_TARGET => setup_scalar_dispatch
  end.

Definition fsd_simd_force_scalar : fsd_simd_dispatch_t := setup_scalar_dispatch.

Definition fsd_simd_get_caps (g : fsd_simd_dispatch_t) : Z := sd_caps g.

Definition fsd_simd_get_name (g : fsd_simd_dispatch_t) : string :=
  match sd_name g with Some n => n | None => "uninitialized"%string end.

(** * The loops compute the specification *)

Lemma all_eq_app v l k : all_eq v (l ++ k) = all_eq v l && all_eq v k.
Proof. apply forallb_app. Qed.

Lemma count_eq_app a b a' b' :
  length a = length b → count_eq (a ++ a') (b ++ b') = count_eq a b + count_eq a' b'.
Proof.
  revert b. induction a as [|x a IH]; intros [|y b] Hl; try done.
  cbn [app count_eq]. rewrite IH by (cbn in Hl; lia). lia.
Qed.

Lemma count_eq_range a b : 0 ≤ count_eq a b ≤ zlen a.
Proof.
  revert b. induction a as [|x a IH]; intros b; cbn [count_eq]; [by unfold zlen|].
  rewrite zlen_cons. pose proof (zlen_nonneg a).
  destruct b as [|y b]; [lia|]. specialize (IH b). unfold b2z. destruct (x =? y); lia.
Qed.

Lemma all_chunks_spec test w v n i data off :
  0 < w → 0 ≤ off → 0 ≤ i → bytes_ok data → off + (i + Z.of_nat n) * w ≤ zlen data →
  (∀ c, zlen c = w → bytes_ok c → test c = all_eq v c) →
  all_chunks test w n i data off = Ok (all_eq v (slice (off + i * w) (Z.of_nat n * w) data)).
Proof.
  intros Hw Ho Hi Hok Hb Ht. revert i Hi Hb. induction n as [|n IH]; intros i Hi Hb; cbn [all_chunks].
  { by rewrite slice_nil. }
  assert (0 ≤ i * w) by nia. assert (0 ≤ Z.of_nat n * w) by nia.
  rewrite load_ok by lia. cbn [mbind outcome_bind].
  rewrite Ht by (rewrite ?zlen_slice by lia; try done; by apply bytes_ok_slice).
  replace (Z.of_nat (S n) * w) with (w + Z.of_nat n * w) by lia.
  rewrite slice_app_add, all_eq_app by lia.
  destruct (all_eq v (slice (off + i * w) w data)); cbn [negb andb]; [|done].
  rewrite IH by lia. do 3 f_equal. lia.
Qed.

Lemma all_tail_spec v n i data off :
  0 ≤ off → 0 ≤ i → off + i + Z.of_nat n ≤ zlen data →
  all_tail v n i data off = Ok (all_eq v (slice (off + i) (Z.of_nat n) data)).
Proof.
  intros Ho. revert i. induction n as [|n IH]; intros i Hi Hb; cbn [all_tail].
  { by rewrite slice_nil. }
  destruct (slice_cons (off + i) (Z.of_nat (S n)) data) as (b & -> & ->); [lia..|].
  cbn [all_eq forallb]. destruct (b =? v); cbn [negb andb]; [|done].
  rewrite IH by lia. unfold all_eq. do 3 f_equal; lia.
Qed.

Lemma all_scan_spec test w v data off len :
  0 < w → 0 ≤ off → 0 ≤ len → off + len ≤ zlen data → bytes_ok data →
  (∀ c, zlen c = w → bytes_ok c → test c = all_eq v c) →
  all_scan test w v data off len = Ok (all_eq v (slice off len data)).
Proof.
  intros Hw Ho Hl Hb Hok Ht. unfold all_scan.
  pose proof (Z.div_mod len w ltac:(lia)) as Hdm. pose proof (Z.mod_pos_bound len w Hw).
  assert (Hq : 0 ≤ len / w) by (apply Z.div_pos; lia).
  assert (0 ≤ len / w * w) by nia.
  rewrite (all_chunks_spec test w v) by (done || lia). cbn [mbind outcome_bind].
  rewrite Z2Nat.id by lia. replace (off + 0 * w) with off by lia.
  replace (slice off len data) with (slice off (len / w * w + (len - len / w * w)) data)
    by (f_equal; lia).
  rewrite slice_app_add, all_eq_app by lia.
  destruct (all_eq v (slice off (len / w * w) data)); cbn [negb andb]; [|done].
  rewrite all_tail_spec by lia. rewrite Z2Nat.id by lia. done.
Qed.

Lemma count_chunks_spec cnt w n i c a ao b bo :
  0 < w → 0 ≤ ao → 0 ≤ bo → 0 ≤ i → 0 ≤ c → c + Z.of_nat n * w < 2 ^ 64 →
  bytes_ok a → bytes_ok b →
  ao + (i + Z.of_nat n) * w ≤ zlen a → bo + (i + Z.of_nat n) * w ≤ zlen b →
  (∀ x y, zlen x = w → zlen y = w → bytes_ok x → bytes_ok y → cnt x y = count_eq x y) →
  count_chunks cnt w n i c a ao b bo =
    Ok (c + count_eq (slice (ao + i * w) (Z.of_nat n * w) a) (slice (bo + i * w) (Z.of_nat n * w) b)).
Proof.
  intros Hw Ha Hb Hi Hc Hm Hoka Hokb Hza Hzb Ht. revert i c Hi Hc Hm Hza Hzb.
  induction n as [|n IH]; intros i c Hi Hc Hm Hza Hzb; cbn [count_chunks].
  { rewrite !slice_nil. cbn. f_equal. lia. }
  assert (0 ≤ i * w) by nia. assert (0 ≤ Z.of_nat n * w) by nia.
  rewrite !load_ok by lia. cbn [mbind outcome_bind].
  rewrite Ht by (rewrite ?zlen_slice by lia; try done; by apply bytes_ok_slice).
  replace (Z.of_nat (S n) * w) with (w + Z.of_nat n * w) in * by lia.
  rewrite !slice_app_add by lia.
  assert (Hla : length (slice (ao + i * w) w a) = length (slice (bo + i * w) w b)).
  { apply Nat2Z.inj. change (zlen (slice (ao + i * w) w a) = zlen (slice (bo + i * w) w b)).
    rewrite !zlen_slice by lia. done. }
  rewrite count_eq_app by done.
  pose proof (count_eq_range (slice (ao + i * w) w a) (slice (bo + i * w) w b)) as Hr.
  rewrite zlen_slice in Hr by lia. rewrite wrap_small by lia.
  rewrite IH by lia. f_equal.
  replace (ao + (i + 1) * w) with (ao + i * w + w) by lia.
  replace (bo + (i + 1) * w) with (bo + i * w + w) by lia. lia.
Qed.

Lemma count_tail_spec n i c a ao b bo :
  0 ≤ ao → 0 ≤ bo → 0 ≤ i → 0 ≤ c → c + Z.of_nat n < 2 ^ 64 →
  ao + i + Z.of_nat n ≤ zlen a → bo + i + Z.of_nat n ≤ zlen b →
  count_tail n i c a ao b bo =
    Ok (c + count_eq (slice (ao + i) (Z.of_nat n) a) (slice (bo + i) (Z.of_nat n) b)).
Proof.
  intros Ha Hb. revert i c. induction n as [|n IH]; intros i c Hi Hc Hm Hza Hzb; cbn [count_tail].
  { rewrite !slice_nil. cbn. f_equal. lia. }
  destruct (slice_cons (ao + i) (Z.of_nat (S n)) a) as (x & -> & ->); [lia..|].
  destruct (slice_cons (bo + i) (Z.of_nat (S n)) b) as (y & -> & ->); [lia..|].
  cbn [count_eq b2z]. replace (Z.of_nat (S n) - 1) with (Z.of_nat n) by lia.
  destruct (x =? y); cbn [b2z]; rewrite ?(wrap_small 64 (c + 1)) by lia; rewrite IH by lia;
    rewrite !Z.add_assoc; f_equal; lia.
Qed.

Lemma count_scan_spec cnt w a ao b bo len :
  0 < w → 0 ≤ ao → 0 ≤ bo → 0 ≤ len < 2 ^ 64 → bytes_ok a → bytes_ok b →
  ao + len ≤ zlen a → bo + len ≤ zlen b →
  (∀ x y, zlen x = w → zlen y = w → bytes_ok x → bytes_ok y → cnt x y = count_eq x y) →
  count_scan cnt w a ao b bo len = Ok (count_eq (slice ao len a) (slice bo len b)).
Proof.
  intros Hw Ha Hb Hl Hoka Hokb Hza Hzb Ht. unfold count_scan.
  pose proof (Z.div_mod len w ltac:(lia)) as Hdm. pose proof (Z.mod_pos_bound len w Hw).
  assert (Hq : 0 ≤ len / w) by (apply Z.div_pos; lia).
  set (q := len / w) in *. assert (0 ≤ q * w) by nia.
  rewrite count_chunks_spec by (done || (rewrite ?Z2Nat.id by lia; lia)).
  cbn [mbind outcome_bind]. rewrite Z2Nat.id by lia.
  replace (ao + 0 * w) with ao by lia. replace (bo + 0 * w) with bo by lia.
  pose proof (count_eq_range (slice ao (q * w) a) (slice bo (q * w) b)) as Hr.
  rewrite zlen_slice in Hr by lia.
  rewrite count_tail_spec by (rewrite ?Z2Nat.id by lia; lia). rewrite Z2Nat.id by lia.
  replace (slice ao len a) with (slice ao (q * w + (len - q * w)) a) by (f_equal; lia).
  replace (slice bo len b) with (slice bo (q * w + (len - q * w)) b) by (f_equal; lia).
  rewrite !slice_app_add by lia. rewrite count_eq_app; [done|].
  apply Nat2Z.inj. change (zlen (slice ao (q * w) a) = zlen (slice bo (q * w) b)).
  rewrite !zlen_slice by lia. done.
Qed.

(** ** One word or vector *)

Lemma all_eq_true v c : all_eq v c = true ↔ c = replicate (length c) v.
Proof.
  unfold all_eq. induction c as [|b c IH]; cbn [forallb length replicate]; [done|].
  rewrite andb_true_iff, IH, Z.eqb_eq. split; [by intros [-> <-]|]. by intros [= -> <-].
Qed.

Lemma le_val_inj l k : bytes_ok l → bytes_ok k → length l = length k → le_val l = le_val k → l = k.
Proof.
  intros Hl Hk Hlen He.
  transitivity (le_bytes (length k) (le_val l)); [symmetry; by apply le_bytes_val|].
  rewrite He. by apply le_bytes_val.
Qed.

Lemma le_val_all v c :
  is_byte v → bytes_ok c → (le_val c =? le_val (replicate (length c) v)) = all_eq v c.
Proof.
  intros Hv Hc. apply eq_true_iff_eq. rewrite all_eq_true, Z.eqb_eq. split; [|by intros <-].
  intros He. apply le_val_inj; [done| |by rewrite length_replicate|done].
  by apply Forall_replicate.
Qed.

Lemma zlen_8 {A} (c : list A) n : zlen c = Z.of_nat n → length c = n.
Proof. unfold zlen. lia. Qed.

Lemma lxor_low_byte x y u v :
  is_byte x → is_byte y → 0 ≤ u → 0 ≤ v →
  Z.land (Z.lxor (x + 256 * u) (y + 256 * v)) 0xFF = Z.lxor x y ∧
  Z.shiftr (Z.lxor (x + 256 * u) (y + 256 * v)) 8 = Z.lxor u v.
Proof.
  intros Hx Hy Hu Hv. unfold is_byte in *.
  assert (Hs : ∀ a b, 0 ≤ a < 256 → Z.land (a + 256 * b) 0xFF = a ∧ Z.shiftr (a + 256 * b) 8 = b).
  { intros a b Ha. split.
    - change 0xFF with (Z.ones 8). rewrite Z.land_ones by lia. zmod.
    - rewrite Z.shiftr_div_pow2 by lia. zmod. }
  split.
  - apply Z.bits_inj'. intros n Hn. rewrite Z.land_spec, !Z.lxor_spec.
    rewrite <- (proj1 (Hs x u Hx)) at 2. rewrite <- (proj1 (Hs y v Hy)) at 2.
    rewrite !Z.land_spec. destruct (Z.testbit 255 n); rewrite ?andb_true_r, ?andb_false_r; done.
  - rewrite Z.shiftr_lxor. by rewrite (proj2 (Hs x u Hx)), (proj2 (Hs y v Hy)).
Qed.

Lemma lxor_byte_eq x y : is_byte x → is_byte y → (Z.lxor x y =? 0) = (x =? y).
Proof.
  intros _ _. apply eq_true_iff_eq. rewrite !Z.eqb_eq. apply Z.lxor_eq_0_iff.
Qed.

Lemma zero_bytes_spec x y :
  bytes_ok x → bytes_ok y → length x = length y →
  zero_bytes (length x) (Z.lxor (le_val x) (le_val y)) = count_eq x y.
Proof.
  revert y. induction x as [|a x IH]; intros [|b y] Hx Hy Hl; try done.
  apply bytes_ok_cons in Hx as [Ha Hx]. apply bytes_ok_cons in Hy as [Hb Hy].
  pose proof (le_val_range x Hx). pose proof (le_val_range y Hy).
  cbn [length le_val zero_bytes count_eq].
  destruct (lxor_low_byte a b (le_val x) (le_val y)) as [-> ->]; [done|done|lia|lia|].
  rewrite lxor_byte_eq by done. rewrite IH by (done || (cbn in Hl; lia)). done.
Qed.

Lemma word_matches_spec x y :
  zlen x = 8 → zlen y = 8 → bytes_ok x → bytes_ok y → word_matches x y = count_eq x y.
Proof.
  intros Hx Hy Hox Hoy. apply (zlen_8 x 8) in Hx. apply (zlen_8 y 8) in Hy.
  unfold word_matches. destruct (Z.eqb_spec (Z.lxor (le_val x) (le_val y)) 0) as [He|_].
  - apply Z.lxor_eq in He. apply le_val_inj in He; [subst y|done|done|congruence].
    clear -Hx. change 8 with (Z.of_nat 8). rewrite <- Hx. clear Hx.
    induction x as [|a x IH]; cbn [length count_eq]; [done|]. rewrite Z.eqb_refl. cbn [b2z]. lia.
  - rewrite <- Hx at 1. apply zero_bytes_spec; [done|done|congruence].
Qed.

Lemma bits_val_range l : 0 ≤ bits_val l < 2 ^ zlen l.
Proof.
  induction l as [|b l IH]; [done|]. cbn [bits_val]. rewrite zlen_cons.
  pose proof (zlen_nonneg l). rewrite Z.pow_add_r by lia. unfold b2z. destruct b; lia.
Qed.

Lemma bits_val_ones l : (bits_val l =? 2 ^ zlen l - 1) = forallb id l.
Proof.
  induction l as [|b l IH]; [done|]. cbn [bits_val forallb]. rewrite <- IH, zlen_cons.
  pose proof (zlen_nonneg l). rewrite Z.pow_add_r by lia.
  apply eq_true_iff_eq. rewrite andb_true_iff, !Z.eqb_eq.
  unfold b2z. pose proof (bits_val_range l). destruct b; cbn; intuition lia.
Qed.

Lemma sgn32_range x : 0 ≤ x < 2 ^ 32 → u32 (s32 x) = x ∧ (s32 x =? s32 0xFFFFFFFF) = (x =? 0xFFFFFFFF).
Proof.
  intros Hx. change (s32 0xFFFFFFFF) with (-1). unfold sgn, wrap. rewrite (Z.mod_small x) by lia.
  cbn zeta. change (2 ^ (32 - 1)) with 2147483648.
  destruct (Z.ltb_spec x 2147483648); (split; [zmod|]);
    apply eq_true_iff_eq; rewrite !Z.eqb_eq; lia.
Qed.

(** The comparison of a vector with itself shifted into a list of booleans. *)
Lemma cmp_top_bits x y :
  (fun b => Z.testbit b 7) <$> zip_with (fun a b => if a =? b then 255 else 0) x y =
  zip_with Z.eqb x y.
Proof.
  revert y. induction x as [|a x IH]; intros [|b y]; try done.
  cbn [zip_with fmap list_fmap]. rewrite <- (IH y). by destruct (a =? b).
Qed.

Lemma eqb_replicate v c : zip_with Z.eqb c (replicate (length c) v) = (fun b => b =? v) <$> c.
Proof. induction c as [|b c IH]; cbn [length replicate zip_with fmap list_fmap]; [done|]. by rewrite IH. Qed.

Lemma forallb_id_fmap v c : forallb id ((fun b => b =? v) <$> c) = all_eq v c.
Proof. unfold all_eq. induction c as [|b c IH]; cbn [fmap list_fmap forallb]; [done|]. by rewrite <- IH. Qed.

Lemma count_true_eq x y : foldr (fun b n => b2z b + n) 0 (zip_with Z.eqb x y) = count_eq x y.
Proof. revert y. induction x as [|a x IH]; intros [|b y]; cbn [zip_with foldr count_eq]; [done..|]. by rewrite IH. Qed.

Section Avx2Spec.
Context {AV : Avx2} {AVL : Avx2Laws}.

Lemma avx2_all_spec v c : zlen c = 32 → avx2_all v c = all_eq v c.
Proof.
  intros Hc. apply (zlen_8 c 32) in Hc. unfold avx2_all.
  rewrite set1_law, cmpeq_law by (try done; by rewrite length_replicate).
  rewrite movemask_law, cmp_top_bits by (rewrite length_zip_with, length_replicate; lia).
  replace (replicate 32 v) with (replicate (length c) v) by congruence. rewrite eqb_replicate.
  pose proof (bits_val_range ((fun b => b =? v) <$> c)) as Hr.
  assert (Hz : zlen ((fun b => b =? v) <$> c) = 32) by (unfold zlen; rewrite length_fmap; lia).
  rewrite Hz in Hr. rewrite (proj2 (sgn32_range _ Hr)).
  rewrite <- forallb_id_fmap, <- bits_val_ones, Hz. done.
Qed.

Lemma avx2_matches_spec x y : zlen x = 32 → zlen y = 32 → avx2_matches x y = count_eq x y.
Proof.
  intros Hx Hy. apply (zlen_8 x 32) in Hx. apply (zlen_8 y 32) in Hy. unfold avx2_matches.
  rewrite cmpeq_law by done. rewrite movemask_law, cmp_top_bits by (rewrite length_zip_with; lia).
  assert (Hl : length (zip_with Z.eqb x y) = 32%nat) by (rewrite length_zip_with; lia).
  pose proof (bits_val_range (zip_with Z.eqb x y)) as Hr. unfold zlen in Hr. rewrite Hl in Hr.
  rewrite (proj1 (sgn32_range _ Hr)), popcount_law by done. apply count_true_eq.
Qed.
End Avx2Spec.

Section NeonSpec.
Context {NE : Neon} {NEL : NeonLaws}.

Lemma neon_half v c :
  length c = 8%nat →
  (le_val (zip_with (fun a b => if a =? b then 255 else 0) c (replicate 8 v)) =? 0xFFFFFFFFFFFFFFFF) = all_eq v c.
Proof.
  intros Hc. set (m := zip_with _ _ _).
  assert (Hm : m = (fun b => if b =? v then 255 else 0) <$> c).
  { unfold m. replace (replicate 8 v) with (replicate (length c) v) by congruence. clear.
    induction c as [|b c IH]; cbn [length replicate zip_with fmap list_fmap]; [done|]. by rewrite IH. }
  assert (Hl : length m = 8%nat) by (rewrite Hm, length_fmap; done).
  change 0xFFFFFFFFFFFFFFFF with (le_val (replicate 8 255)). rewrite <- Hl.
  rewrite le_val_all; [|by unfold is_byte|].
  - rewrite Hm. clear. induction c as [|b c IH]; [done|]. cbn [fmap list_fmap all_eq forallb].
    unfold all_eq in IH. rewrite IH. by destruct (b =? v).
  - rewrite Hm. unfold bytes_ok. apply Forall_fmap, Forall_true. intros b. cbn. unfold is_byte.
    destruct (b =? v); lia.
Qed.

Lemma neon_all_spec v c : zlen c = 16 → neon_all v c = all_eq v c.
Proof.
  intros Hc. apply (zlen_8 c 16) in Hc. unfold neon_all.
  rewrite vdupq_law, vceqq_law by (try done; by rewrite length_replicate).
  rewrite vreinterpret_law by (rewrite length_zip_with, length_replicate; lia).
  erewrite (vgetq_lane_law _ 0) by reflexivity. erewrite (vgetq_lane_law _ 1) by reflexivity.
  rewrite negb_orb, !negb_involutive.
  rewrite zip_with_take, zip_with_drop. change (take 8 (replicate 16 v)) with (replicate 8 v).
  change (drop 8 (replicate 16 v)) with (replicate 8 v).
  rewrite !neon_half by (rewrite ?length_take, ?length_drop; lia).
  rewrite <- all_eq_app. by rewrite take_drop.
Qed.

Lemma neon_matches_spec x y : zlen x = 16 → zlen y = 16 → neon_matches x y = count_eq x y.
Proof.
  intros Hx Hy. apply (zlen_8 x 16) in Hx. apply (zlen_8 y 16) in Hy. unfold neon_matches.
  rewrite vceqq_law by done. rewrite vshrq_law, !vpaddlq_law.
  assert (Hs : (fun b => Z.shiftr b 7) <$> zip_with (fun a b => if a =? b then 255 else 0) x y =
               b2z <$> zip_with Z.eqb x y).
  { clear. revert y. induction x as [|a x IH]; intros [|b y]; try done.
    cbn [zip_with fmap list_fmap]. rewrite (IH y). by destruct (a =? b). }
  rewrite Hs. rewrite <- count_true_eq.
  assert (Hl : length (zip_with Z.eqb x y) = 16%nat) by (rewrite length_zip_with; lia).
  revert Hl. generalize (zip_with Z.eqb x y). clear -NEL. intros l Hl.
  do 16 (destruct l as [|? l]; [done|]). destruct l; [|done].
  cbn [fmap list_fmap pair_sums foldr].
  match goal with |- context [vgetq_lane_u64 ?l 0] =>
    rewrite (vgetq_lane_law l 0 (nth 0 l 0) eq_refl), (vgetq_lane_law l 1 (nth 1 l 0) eq_refl) end.
  cbn [nth]. lia.
Qed.
End NeonSpec.

(** * What the callers of the table rely on *)

Record simd_ok (g : fsd_simd_dispatch_t) : Prop := {
  so_zero f : sd_is_zero g = Some f → ∀ data off len,
    bytes_ok data → 0 ≤ off → 0 ≤ len → off + len ≤ zlen data →
    f data off len = Ok (all_eq 0 (slice off len data));
  so_one f : sd_is_one g = Some f → ∀ data off len,
    bytes_ok data → 0 ≤ off → 0 ≤ len → off + len ≤ zlen data →
    f data off len = Ok (all_eq 255 (slice off len data));
  so_count f : sd_count_matches g = Some f → ∀ a ao b bo len,
    bytes_ok a → bytes_ok b → 0 ≤ ao → 0 ≤ bo → 0 ≤ len < 2 ^ 64 → ao + len ≤ zlen a → bo + len ≤ zlen b →
    f a ao b bo len = Ok (count_eq (slice ao len a) (slice bo len b))
}.

Lemma simd_uninitialized_ok : simd_ok simd_uninitialized.
Proof. by constructor. Qed.

Lemma scalar_count_spec a ao b bo len :
  bytes_ok a → bytes_ok b → 0 ≤ ao → 0 ≤ bo → 0 ≤ len < 2 ^ 64 → ao + len ≤ zlen a → bo + len ≤ zlen b →
  fsd_scalar_count_matches a ao b bo len = Ok (count_eq (slice ao len a) (slice bo len b)).
Proof.
  intros. apply count_scan_spec; try done. intros x y ? ? ? ?. by apply word_matches_spec.
Qed.

Lemma word_all v c :
  is_byte v → zlen c = 8 → bytes_ok c → (le_val c =? le_val (replicate 8 v)) = all_eq v c.
Proof.
  intros Hv Hc Hok. rewrite <- le_val_all by done. apply (zlen_8 c 8) in Hc. by rewrite Hc.
Qed.

Lemma scalar_ok : simd_ok setup_scalar_dispatch.
Proof.
  constructor; cbn; intros f [= <-].
  - intros. apply all_scan_spec; try done. intros c Hc Hok. by apply (word_all 0).
  - intros. apply all_scan_spec; try done. intros c Hc Hok. by apply (word_all 255).
  - apply scalar_count_spec.
Qed.

Lemma avx2_ok `{AVL : Avx2Laws} : simd_ok setup_avx2_dispatch.
Proof.
  constructor; cbn; intros f [= <-]; intros.
  - apply all_scan_spec; try done. intros c ? _. by apply avx2_all_spec.
  - apply all_scan_spec; try done. intros c ? _. by apply avx2_all_spec.
  - apply count_scan_spec; try done. intros x y ? ? _ _. by apply avx2_matches_spec.
Qed.

Lemma neon_ok `{NEL : NeonLaws} : simd_ok setup_neon_dispatch.
Proof.
  constructor; cbn; intros f [= <-]; intros.
  - apply all_scan_spec; try done. intros c ? _. by apply neon_all_spec.
  - apply all_scan_spec; try done. intros c ? _. by apply neon_all_spec.
  - apply count_scan_spec; try done. intros x y ? ? _ _. by apply neon_matches_spec.
Qed.

Lemma simd_init_ok `{AVL : Avx2Laws} `{NEL : NeonLaws} has_avx2 has_neon t :
  simd_ok (fsd_simd_init has_avx2 has_neon t).
Proof.
  unfold fsd_simd_init. destruct t; [destruct (_ && _); [apply avx2_ok|apply scalar_ok]| | | |apply scalar_ok];
    (destruct (_ && _); [apply neon_ok|apply scalar_ok]).
Qed.

(** No entry of the table is a null pointer. *)
Definition simd_full (g : fsd_simd_dispatch_t) : Prop :=
  is_Some (sd_is_zero g) ∧ is_Some (sd_is_one g) ∧ is_Some (sd_count_matches g).

Lemma simd_init_full `{Avx2} `{Neon} has_avx2 has_neon t : simd_full (fsd_simd_init has_avx2 has_neon t).
Proof. unfold fsd_simd_init. destruct t; try destruct (_ && _); split_and!; by eexists. Qed.

(** * Properties *)

(** C37: whatever the build and the processor, the table that fsd_simd_init
    installs computes the specification: its zero and 0xFF tests and its match
    count return the same results as the plain byte-wise definitions, on buffers
    of any length and alignment, reading only the bytes asked for.  The scalar
    table, which fsd_simd_force_scalar installs, does too; neither table has a null
    entry. *)
Theorem simd_dispatch_correct `{AVL : Avx2Laws} `{NEL : NeonLaws} has_avx2 has_neon t :
  simd_ok (fsd_simd_init has_avx2 has_neon t) ∧ simd_ok fsd_simd_force_scalar ∧
  simd_full (fsd_simd_init has_avx2 has_neon t) ∧ simd_full fsd_simd_force_scalar.
Proof. split_and!; [apply simd_init_ok|apply scalar_ok|apply simd_init_full|by eexists..]. Qed.

(** AVX2 code is selected only on a processor that reports AVX2 (leaf 7,
    EBX bit 5) under a system that saves the vector registers (OSXSAVE set and
    the SSE and AVX bits of XCR0 set). *)
Theorem avx2_needs_os_support cpu :
  negb (Z.land (detect_x86_caps cpu) FSD_SIMD_AVX2 =? 0) = true →
  let '(_, _, ecx, _) := cpuid cpu 1 in
  let '(_, ebx7, _, _) := cpuid cpu 7 in
  Z.testbit ecx 27 = true ∧ Z.testbit (xgetbv0 cpu) 1 = true ∧ Z.testbit (xgetbv0 cpu) 2 = true ∧
  Z.testbit ebx7 5 = true.
Proof.
  unfold detect_x86_caps. destruct (cpuid cpu 1) as [[[eax ebx] ecx] edx].
  destruct (cpuid cpu 0) as [[[eax0 ?] ?] ?]. destruct (cpuid cpu 7) as [[[? ebx7] ?] ?].
  rewrite !land_bit by lia.
  destruct (Z.testbit ecx 27); [|by destruct (Z.testbit edx 26)].
  destruct (Z.eqb_spec (Z.land (xgetbv0 cpu) 6) 6) as [Hx|Hx];
    [|by destruct (Z.testbit edx 26)].
  assert (Z.testbit (xgetbv0 cpu) 1 = true ∧ Z.testbit (xgetbv0 cpu) 2 = true) as [H1 H2].
  { pose proof (f_equal (fun z => Z.testbit z 1) Hx) as B1. pose proof (f_equal (fun z => Z.testbit z 2) Hx) as B2.
    cbn beta in *. rewrite Z.land_spec in B1, B2. change (Z.testbit 6 1) with true in B1.
    change (Z.testbit 6 2) with true in B2. rewrite andb_true_r in *. done. }
  destruct (Z.testbit ebx7 5); [done|].
  destruct (7 <=? s32 eax0), (Z.testbit edx 26), (Z.testbit ecx 28); done.
Qed.

(** ** The intrinsics computed directly *)

Fixpoint popcount_bits (n : nat) (x : Z) : Z :=
  match n with O => 0 | S n => b2z (Z.odd x) + popcount_bits n (Z.div2 x) end.

#[global] Instance avx2_model : Avx2 := {|
  mm256_set1_epi8 v := replicate 32 v;
  mm256_cmpeq_epi8 x y := zip_with (fun a b => if a =? b then 255 else 0) x y;
  mm256_movemask_epi8 x := s32 (bits_val ((fun b => Z.testbit b 7) <$> x));
  builtin_popcount x := popcount_bits 32 x
|}.

Lemma popcount_bits_val l : popcount_bits (length l) (bits_val l) = foldr (fun b n => b2z b + n) 0 l.
Proof.
  induction l as [|b l IH]; [done|]. cbn [length popcount_bits bits_val foldr]. rewrite <- IH.
  f_equal; [f_equal|f_equal].
  - rewrite Z.odd_add, Z.odd_mul. by destruct b.
  - rewrite Z.div2_div. unfold b2z. destruct b; zmod.
Qed.

#[global] Instance avx2_model_laws : Avx2Laws.
Proof.
  split; [done..|]. intros l Hl. change (builtin_popcount (bits_val l)) with (popcount_bits 32 (bits_val l)).
  rewrite <- Hl. apply popcount_bits_val.
Qed.

#[global] Instance neon_model : Neon := {|
  vdupq_n_u8 v := replicate 16 v;
  vceqq_u8 x y := zip_with (fun a b => if a =? b then 255 else 0) x y;
  vreinterpretq_u64_u8 x := [le_val (take 8 x); le_val (drop 8 x)];
  vgetq_lane_u64 l i := nth i l 0;
  vshrq_n_u8 x n := (fun b => Z.shiftr b n) <$> x;
  vpaddlq := pair_sums
|}.

#[global] Instance neon_model_laws : NeonLaws.
Proof. split; try done. intros l i x. cbn. apply nth_lookup_Some. Qed.

(** An AVX2 machine: a buffer of 40 bytes goes through one vector and a tail. *)
Definition demo_cpu : x86_cpu :=
  mkX86 (fun leaf => if leaf =? 1 then (0, 0, Z.shiftl 3 27, Z.shiftl 1 26)
                     else if leaf =? 0 then (7, 0, 0, 0) else (0, Z.shiftl 1 5, 0, 0)) 7.

Lemma simd_dispatch_correct_witness :
  sd_caps (fsd_simd_init true false (X86 demo_cpu)) = FSD_SIMD_AVX2 ∧
  fsd_avx2_count_matches (fill 40 7) 0 (fill 39 7 ++ [8]) 0 40 = Ok 39.
Proof.
  split; [reflexivity|].
  destruct (simd_dispatch_correct true false (X86 demo_cpu)) as [H _].
  rewrite (so_count _ H fsd_avx2_count_matches eq_refl (fill 40 7) 0 (fill 39 7 ++ [8]) 0 40).
  - reflexivity.
  - by apply bytes_okb.
  - by apply bytes_okb.
  - lia.
  - lia.
  - lia.
  - vm_compute. discriminate.
  - vm_compute. discriminate.
Defined.

Lemma avx2_needs_os_support_witness :
  Z.testbit (Z.shiftl 3 27) 27 = true ∧ Z.testbit (xgetbv0 demo_cpu) 2 = true.
Proof.
  destruct (avx2_needs_os_support demo_cpu eq_refl) as (H1 & _ & H3 & _). split; [exact H1|exact H3].
Defined.
