(* ===== verification/Tracker.v ===== *)
(** The block tracker: src/src/core/block_tracker.c and block_tracker.h.

    One state per destination block, a bitmap of the blocks no stage has matched
    yet, and a counter per kind of match.  The invariant [tracker_ok] ties the
    three together; every operation keeps it, and the counts reported are the
    numbers of blocks of each kind. *)

From S2P Require Import Prelude.
From stdpp Require Import base list numbers tactics relations.
From Stdlib Require Import ZArith Lia.
Open Scope Z_scope.

(** * Data *)

Inductive fsd_match_type_t : Type :=
| FSD_MATCH_NONE
| FSD_MATCH_IDENTITY
| FSD_MATCH_RELOCATE
| FSD_MATCH_PARTIAL
| FSD_MATCH_ZERO
| FSD_MATCH_ONE.

#[global] Instance match_type_eq_dec : EqDecision fsd_match_type_t.
Proof. solve_decision. Defined.

Record fsd_block_state_t : Type := mkState {
  dest_index : Z;
  src_index : Z;
  byte_offset : Z;
  crc32 : Z;
  match_type : fsd_match_type_t;
  delta : option bytes;
  delta_size : Z
}.

Record fsd_block_tracker_t : Type := mkTracker {
  blocks : list fsd_block_state_t;
  count : Z;
  block_size : Z;
  unmatched_bitmap : list Z;
  bitmap_words : Z;
  identity_count : Z;
  relocate_count : Z;
  partial_count : Z;
  zero_count : Z;
  one_count : Z;
  literal_count : Z
}.

(** A zeroed state, as calloc leaves it. *)
Definition zero_state : fsd_block_state_t := mkState 0 0 0 0 FSD_MATCH_NONE None 0.

Definition set_dest_index (i : Z) (s : fsd_block_state_t) : fsd_block_state_t :=
  mkState i (src_index s) (byte_offset s) (crc32 s) (match_type s) (delta s) (delta_size s).
Definition set_mt_src (m : fsd_match_type_t) (src : Z) (s : fsd_block_state_t) : fsd_block_state_t :=
  mkState (dest_index s) src (byte_offset s) (crc32 s) m (delta s) (delta_size s).
Definition set_crc (c : Z) (s : fsd_block_state_t) : fsd_block_state_t :=
  mkState (dest_index s) (src_index s) (byte_offset s) c (match_type s) (delta s) (delta_size s).
Definition set_dlt (off : Z) (d : option bytes) (n : Z) (s : fsd_block_state_t) : fsd_block_state_t :=
  mkState (dest_index s) (src_index s) off (crc32 s) (match_type s) d n.

Definition upd_blocks (f : list fsd_block_state_t → list fsd_block_state_t)
    (t : fsd_block_tracker_t) : fsd_block_tracker_t :=
  mkTracker (f (blocks t)) (count t) (block_size t) (unmatched_bitmap t) (bitmap_words t)
    (identity_count t) (relocate_count t) (partial_count t) (zero_count t) (one_count t)
    (literal_count t).
Definition upd_bitmap (f : list Z → list Z) (t : fsd_block_tracker_t) : fsd_block_tracker_t :=
  mkTracker (blocks t) (count t) (block_size t) (f (unmatched_bitmap t)) (bitmap_words t)
    (identity_count t) (relocate_count t) (partial_count t) (zero_count t) (one_count t)
    (literal_count t).

Ltac tsimpl :=
  cbn [blocks count block_size unmatched_bitmap bitmap_words identity_count relocate_count
       partial_count zero_count one_count literal_count upd_blocks upd_bitmap] in *.

(** * Bitmap operations *)

Definition bitmap_set (bitmap : list Z) (index : Z) : list Z :=
  alter (fun w => Z.lor w (u64 (Z.shiftl 1 (index mod 64)))) (Z.to_nat (index / 64)) bitmap.

Definition bitmap_clear (bitmap : list Z) (index : Z) : list Z :=
  alter (fun w => Z.land w (u64 (Z.lnot (u64 (Z.shiftl 1 (index mod 64))))))
    (Z.to_nat (index / 64)) bitmap.

Definition bitmap_test (bitmap : list Z) (index : Z) : bool :=
  match zget bitmap (index / 64) with
  | Some w => negb (Z.land w (u64 (Z.shiftl 1 (index mod 64))) =? 0)
  | None => false
  end.

(** * Operations *)

Definition SIZEOF_TRACKER : Z := 88.
Definition SIZEOF_STATE : Z := 48.

(** for (i = 0; i < dest_blocks; i++) of fsd_block_tracker_create *)
Fixpoint create_loop (n : nat) (i : Z) (t : fsd_block_tracker_t) : fsd_block_tracker_t :=
  match n with
  | O => t
  | S n =>
      let t := upd_blocks (alter (fun s => set_mt_src FSD_MATCH_NONE (src_index s)
                                             (set_dest_index i s)) (Z.to_nat i)) t in
      let t := upd_bitmap (fun bm => bitmap_set bm i) t in
      create_loop n (i + 1) t
  end.

Definition fsd_block_tracker_create (malloc_ok : allocator) (dest_blocks block_size : Z)
    : outcome fsd_block_tracker_t :=
  if (dest_blocks =? 0) || (block_size =? 0) then Err FSD_ERR_INVALID_ARG else
  if negb (malloc_ok SIZEOF_TRACKER) then Err FSD_ERR_OUT_OF_MEMORY else
  if negb (malloc_ok (dest_blocks * SIZEOF_STATE)) then Err FSD_ERR_OUT_OF_MEMORY else
  let words := u64 (dest_blocks + 63) / 64 in
  if negb (malloc_ok (words * 8)) then Err FSD_ERR_OUT_OF_MEMORY else
  let t := mkTracker (replicate (Z.to_nat dest_blocks) zero_state) dest_blocks block_size
             (replicate (Z.to_nat words) 0) words 0 0 0 0 0 0 in
  Ok (create_loop (Z.to_nat dest_blocks) 0 t).

(** switch (match_type) of fsd_block_tracker_set_match *)
Definition bump_stat (m : fsd_match_type_t) (t : fsd_block_tracker_t) : fsd_block_tracker_t :=
  let inc (b : bool) (z : Z) := if b then u64 (z + 1) else z in
  mkTracker (blocks t) (count t) (block_size t) (unmatched_bitmap t) (bitmap_words t)
    (inc (bool_decide (m = FSD_MATCH_IDENTITY)) (identity_count t))
    (inc (bool_decide (m = FSD_MATCH_RELOCATE)) (relocate_count t))
    (inc (bool_decide (m = FSD_MATCH_PARTIAL)) (partial_count t))
    (inc (bool_decide (m = FSD_MATCH_ZERO)) (zero_count t))
    (inc (bool_decide (m = FSD_MATCH_ONE)) (one_count t))
    (literal_count t).

Definition fsd_block_tracker_set_match (t : fsd_block_tracker_t) (dest_index : Z)
    (mt : fsd_match_type_t) (src_index : Z) : fsd_block_tracker_t :=
  if count t <=? dest_index then t else
  match zget (blocks t) dest_index with
  | Some block =>
      if negb (bool_decide (match_type block = FSD_MATCH_NONE)) then t else
      let t := upd_blocks (fun bs => zput bs dest_index (set_mt_src mt src_index block)) t in
      let t := upd_bitmap (fun bm => bitmap_clear bm dest_index) t in
      bump_stat mt t
  | None => t
  end.

Definition fsd_block_tracker_set_crc32 (t : fsd_block_tracker_t) (dest_index crc : Z)
    : fsd_block_tracker_t :=
  if count t <=? dest_index then t
  else upd_blocks (alter (set_crc crc) (Z.to_nat dest_index)) t.

Definition fsd_block_tracker_set_delta (t : fsd_block_tracker_t) (dest_index byte_offset : Z)
    (d : bytes) (delta_size : Z) : fsd_block_tracker_t :=
  if count t <=? dest_index then t
  else upd_blocks (alter (set_dlt byte_offset (Some d) delta_size) (Z.to_nat dest_index)) t.

Definition fsd_block_tracker_is_unmatched (t : fsd_block_tracker_t) (dest_index : Z) : bool :=
  if count t <=? dest_index then false else bitmap_test (unmatched_bitmap t) dest_index.

Definition fsd_block_tracker_get (t : fsd_block_tracker_t) (dest_index : Z)
    : option fsd_block_state_t :=
  if count t <=? dest_index then None else zget (blocks t) dest_index.

(** Brian Kernighan's loop over one word; 64 iterations are enough. *)
Fixpoint kernighan (fuel : nat) (word cnt : Z) : Z :=
  match fuel with
  | O => cnt
  | S fuel => if word =? 0 then cnt else kernighan fuel (Z.land word (word - 1)) (cnt + 1)
  end.

Definition fsd_block_tracker_unmatched_count (t : fsd_block_tracker_t) : Z :=
  fold_left (fun cnt word => kernighan 64 word cnt) (unmatched_bitmap t) 0.

(** [callback] acts on the user data [a]. *)
Fixpoint foreach_loop {A} (t : fsd_block_tracker_t) (callback : Z → A → A)
    (n : nat) (i : Z) (a : A) : A :=
  match n with
  | O => a
  | S n =>
      let a := if bitmap_test (unmatched_bitmap t) i then callback i a else a in
      foreach_loop t callback n (i + 1) a
  end.

Definition fsd_block_tracker_foreach_unmatched {A} (t : fsd_block_tracker_t)
    (callback : Z → A → A) (user_data : A) : A :=
  foreach_loop t callback (Z.to_nat (count t)) 0 user_data.

Definition bump_literal (t : fsd_block_tracker_t) : fsd_block_tracker_t :=
  mkTracker (blocks t) (count t) (block_size t) (unmatched_bitmap t) (bitmap_words t)
    (identity_count t) (relocate_count t) (partial_count t) (zero_count t) (one_count t)
    (u64 (literal_count t + 1)).

Fixpoint finalize_loop (n : nat) (i : Z) (t : fsd_block_tracker_t) : fsd_block_tracker_t :=
  match n with
  | O => t
  | S n =>
      let t := if bitmap_test (unmatched_bitmap t) i
               then upd_bitmap (fun bm => bitmap_clear bm i) (bump_literal t) else t in
      finalize_loop n (i + 1) t
  end.

Definition fsd_block_tracker_finalize (t : fsd_block_tracker_t) : fsd_block_tracker_t :=
  finalize_loop (Z.to_nat (count t)) 0 t.

(** * The bitmap as a list of booleans *)

Definition word_bits (w : Z) : list bool := (fun i => Z.testbit w (Z.of_nat i)) <$> seq 0 64.
Definition bits_of (bm : list Z) : list bool := concat (word_bits <$> bm).

Definition count_true (l : list bool) : Z := zlen (filter (fun b => b = true) l).

Lemma length_word_bits w : length (word_bits w) = 64%nat.
Proof. done. Qed.

Lemma lookup_word_bits w i :
  (i < 64)%nat → word_bits w !! i = Some (Z.testbit w (Z.of_nat i)).
Proof. intros. unfold word_bits. rewrite list_lookup_fmap, lookup_seq_lt by done. done. Qed.

Lemma length_bits_of bm : length (bits_of bm) = (64 * length bm)%nat.
Proof.
  induction bm as [|w bm IH]; [done|]. unfold bits_of in *. rewrite fmap_cons. cbn [concat].
  rewrite length_app, length_word_bits, IH. simpl length. lia.
Qed.

Lemma lookup_bits_of bm i :
  bits_of bm !! i = (fun w => Z.testbit w (Z.of_nat (i mod 64))) <$> bm !! (i / 64)%nat.
Proof.
  revert i. induction bm as [|w bm IH]; intros i; [done|].
  unfold bits_of in *. rewrite fmap_cons. cbn [concat].
  destruct (decide (i < 64)%nat) as [Hi|Hi].
  - rewrite lookup_app_l by (rewrite length_word_bits; lia).
    rewrite lookup_word_bits, Nat.div_small, Nat.mod_small by lia. done.
  - rewrite lookup_app_r by (rewrite length_word_bits; lia).
    rewrite length_word_bits, IH.
    assert (i = (i - 64) + 1 * 64)%nat as E by lia.
    assert (i / 64 = S ((i - 64) / 64))%nat as ->.
    { rewrite E at 1. rewrite Nat.div_add; lia. }
    assert (i mod 64 = (i - 64) mod 64)%nat as ->.
    { rewrite E at 1. by rewrite Nat.Div0.mod_add. }
    done.
Qed.

Lemma div_mod_nat i :
  0 ≤ i → Z.to_nat (i / 64) = (Z.to_nat i / 64)%nat ∧ i mod 64 = Z.of_nat (Z.to_nat i mod 64).
Proof.
  intros. split; [rewrite Z2Nat.inj_div by lia; done|].
  rewrite Nat2Z.inj_mod, Z2Nat.id by lia. done.
Qed.

Lemma testbit_one_shift k j :
  0 ≤ k < 64 → 0 ≤ j → Z.testbit (u64 (Z.shiftl 1 k)) j = bool_decide (j = k).
Proof.
  intros Hk Hj. rewrite wrap_small.
  - rewrite Z.shiftl_1_l. case_bool_decide as E.
    + subst. by apply Z.pow2_bits_true.
    + apply Z.pow2_bits_false. lia.
  - rewrite Z.shiftl_1_l. split; [lia|]. apply Z.pow_lt_mono_r; lia.
Qed.

Lemma bitmap_test_spec bm i :
  0 ≤ i → bitmap_test bm i = default false (bits_of bm !! Z.to_nat i).
Proof.
  intros Hi. destruct (div_mod_nat i Hi) as [Hd Hm]. unfold bitmap_test, zget.
  assert (0 ≤ i / 64) by (apply Z.div_pos; lia).
  destruct (Z.leb_spec 0 (i / 64)); [|lia].
  rewrite lookup_bits_of, Hd, <- Hm.
  destruct (bm !! (Z.to_nat i / 64)%nat) as [w|] eqn:Ew; [|done].
  cbn [fmap option_fmap option_map default from_option]. pose proof (Z.mod_pos_bound i 64).
  destruct (Z.eqb_spec (Z.land w (u64 (1 ≪ (i mod 64)))) 0) as [E|E]; cbn [negb].
  - assert (Z.testbit (Z.land w (u64 (1 ≪ (i mod 64)))) (i mod 64) = false) as Ht
      by (rewrite E; apply Z.bits_0).
    rewrite Z.land_spec, testbit_one_shift, bool_decide_eq_true_2, andb_true_r in Ht by (done || lia).
    done.
  - destruct (Z.testbit w (i mod 64)) eqn:Et; [done|]. exfalso. apply E.
    apply Z.bits_inj'. intros j Hj.
    rewrite Z.land_spec, Z.bits_0, testbit_one_shift by lia.
    case_bool_decide; [subst; by rewrite Et | apply andb_false_r].
Qed.

Lemma bits_of_alter bm i f b :
  0 ≤ i →
  (∀ w j, 0 ≤ j < 64 → Z.testbit (f w) j = if bool_decide (j = i mod 64) then b else Z.testbit w j) →
  bits_of (alter f (Z.to_nat (i / 64)) bm) = <[Z.to_nat i := b]> (bits_of bm).
Proof.
  intros Hi Hf. destruct (div_mod_nat i Hi) as [Hd Hm]. apply list_eq. intros n.
  rewrite lookup_bits_of, Hd.
  assert (n mod 64 < 64)%nat by (apply Nat.mod_upper_bound; lia).
  destruct (decide (n = Z.to_nat i)) as [->|Hne].
  - rewrite list_lookup_alter. case_decide; [|done].
    destruct (bm !! (Z.to_nat i / 64)%nat) as [w|] eqn:Ew;
      cbn [fmap option_fmap option_map].
    + rewrite Hf by lia. rewrite bool_decide_eq_true_2 by (by rewrite Hm).
      rewrite list_lookup_insert_eq; [done|]. rewrite length_bits_of.
      apply lookup_lt_Some in Ew.
      pose proof (Nat.div_mod (Z.to_nat i) 64). lia.
    + symmetry. apply lookup_ge_None. rewrite length_insert, length_bits_of.
      apply lookup_ge_None in Ew.
      pose proof (Nat.div_mod (Z.to_nat i) 64). lia.
  - rewrite list_lookup_insert_ne by done. rewrite lookup_bits_of.
    rewrite list_lookup_alter. case_decide as E; [|done].
    rewrite <- E. destruct (bm !! (Z.to_nat i / 64)%nat) as [w|] eqn:Ew; [|done].
    cbn [fmap option_fmap option_map].
    rewrite Hf by lia. rewrite bool_decide_eq_false_2; [done|].
    intros Hmod. apply Hne. rewrite (Nat.div_mod n 64), (Nat.div_mod (Z.to_nat i) 64) by done. lia.
Qed.

Lemma bits_of_set bm i : 0 ≤ i → bits_of (bitmap_set bm i) = <[Z.to_nat i := true]> (bits_of bm).
Proof.
  intros Hi. apply bits_of_alter; [done|]. intros w j Hj.
  pose proof (Z.mod_pos_bound i 64).
  rewrite Z.lor_spec, testbit_one_shift by lia.
  case_bool_decide; [apply orb_true_r | apply orb_false_r].
Qed.

Lemma bits_of_clear bm i : 0 ≤ i → bits_of (bitmap_clear bm i) = <[Z.to_nat i := false]> (bits_of bm).
Proof.
  intros Hi. apply bits_of_alter; [done|]. intros w j Hj.
  pose proof (Z.mod_pos_bound i 64).
  unfold wrap at 1. rewrite Z.land_spec, Z.mod_pow2_bits_low, Z.lnot_spec, testbit_one_shift by lia.
  case_bool_decide; [apply andb_false_r | apply andb_true_r].
Qed.

(** * Counting set bits *)

Lemma count_true_app l k : count_true (l ++ k) = count_true l + count_true k.
Proof. unfold count_true. rewrite list.filter_app. apply zlen_app. Qed.

Lemma count_true_le l : 0 ≤ count_true l ≤ zlen l.
Proof. unfold count_true, zlen. pose proof (length_filter (fun b => b = true) l). lia. Qed.

Lemma count_true_replicate_false n : count_true (replicate n false) = 0.
Proof.
  unfold count_true. induction n; [done|]. cbn [replicate].
  rewrite filter_cons_False by done. done.
Qed.

Lemma count_true_clear l i :
  l !! i = Some true → count_true (<[i := false]> l) = count_true l - 1.
Proof.
  intros Hi. rewrite <- (take_drop_middle l i true Hi) at 2.
  rewrite insert_take_drop by (eapply lookup_lt_Some; done).
  rewrite !count_true_app. unfold count_true.
  rewrite filter_cons_False by done. rewrite filter_cons_True by done.
  rewrite zlen_cons. lia.
Qed.

Lemma odd_part p : ∃ k m, 0 ≤ k ∧ 0 ≤ m ∧ Z.pos p = 2 ^ k * (2 * m + 1).
Proof.
  induction p as [p IH|p IH|].
  - exists 0, (Z.pos p). lia.
  - destruct IH as (k & m & Hk & Hm & E). exists (k + 1), m.
    rewrite Z.pow_add_r by lia. split_and!; lia.
  - exists 0, 0. lia.
Qed.

(** [word & (word - 1)] drops the lowest set bit. *)
Lemma drop_lowest_bit w :
  0 < w → ∃ k, 0 ≤ k ∧ Z.testbit w k = true ∧
    ∀ j, 0 ≤ j → Z.testbit (Z.land w (w - 1)) j = if bool_decide (j = k) then false else Z.testbit w j.
Proof.
  intros Hw. destruct w as [|p|p]; try lia.
  destruct (odd_part p) as (k & m & Hk & Hm & E). exists k. split; [done|].
  assert (∀ j, k ≤ j → Z.testbit (Z.pos p) j = Z.testbit (2 * m + 1) (j - k)) as Hhi.
  { intros j Hj. rewrite E, Z.mul_comm. rewrite Z.mul_pow2_bits by lia. done. }
  split. { rewrite Hhi, Z.sub_diag by lia. apply Z.testbit_odd_0. }
  intros j Hj. rewrite Z.land_spec. destruct (decide (j < k)) as [Hlt|Hge].
  { rewrite bool_decide_eq_false_2 by lia.
    rewrite E, Z.mul_comm, Z.mul_pow2_bits_low by lia. done. }
  assert (Z.testbit (Z.pos p - 1) j = Z.testbit (2 * m) (j - k)) as ->.
  { replace j with ((j - k) + k) at 1 by lia. rewrite <- Z.div_pow2_bits by lia. f_equal.
    rewrite E. replace (2 ^ k * (2 * m + 1) - 1) with (2 ^ k - 1 + (2 * m) * 2 ^ k) by lia.
    rewrite Z.div_add by (apply Z.pow_nonzero; lia).
    rewrite Z.div_small; [lia|]. assert (0 < 2 ^ k) by (apply Z.pow_pos_nonneg; lia). lia. }
  case_bool_decide as Ejk.
  { subst j. rewrite Z.sub_diag, Z.testbit_even_0. apply andb_false_r. }
  rewrite Hhi by lia. replace (j - k) with (Z.succ (j - k - 1)) by lia.
  rewrite Z.testbit_odd_succ, Z.testbit_even_succ by lia. apply andb_diag.
Qed.

Definition word_ok (w : Z) : Prop := 0 ≤ w < 2 ^ 64.

Lemma word_bits_zero_count w : word_ok w → count_true (word_bits w) = 0 → w = 0.
Proof.
  intros [Hw1 Hw2] Hc. destruct (decide (w = 0)) as [|Hne]; [done|]. exfalso.
  destruct (drop_lowest_bit w) as (k & Hk & Ht & _); [lia|].
  destruct (decide (k < 64)) as [H64|H64].
  - assert (word_bits w !! Z.to_nat k = Some true) as Hl.
    { rewrite lookup_word_bits, Z2Nat.id by lia. by rewrite Ht. }
    apply count_true_clear in Hl.
    pose proof (count_true_le (<[Z.to_nat k:=false]> (word_bits w))). lia.
  - rewrite <- (Z.mod_small w (2 ^ 64)), Z.mod_pow2_bits_high in Ht by lia. done.
Qed.

Lemma kernighan_spec fuel w c :
  word_ok w → count_true (word_bits w) ≤ Z.of_nat fuel →
  kernighan fuel w c = c + count_true (word_bits w).
Proof.
  revert w c. induction fuel as [|fuel IH]; intros w c Hw Hf.
  { cbn [kernighan]. pose proof (count_true_le (word_bits w)). lia. }
  cbn [kernighan]. destruct (Z.eqb_spec w 0) as [->|Hne].
  { change (count_true (word_bits 0)) with 0. lia. }
  destruct Hw as [Hw1 Hw2].
  destruct (drop_lowest_bit w) as (k & Hk & Ht & Hb); [lia|].
  assert (k < 64).
  { destruct (decide (k < 64)); [done|].
    rewrite <- (Z.mod_small w (2 ^ 64)), Z.mod_pow2_bits_high in Ht by lia. done. }
  assert (word_bits (Z.land w (w - 1)) = <[Z.to_nat k := false]> (word_bits w)) as E.
  { apply list_eq. intros i. destruct (decide (i < 64)%nat) as [Hi|Hi].
    - rewrite lookup_word_bits, Hb by lia. case_bool_decide as Ek.
      + rewrite <- Ek, Nat2Z.id. rewrite list_lookup_insert_eq by (rewrite length_word_bits; lia). done.
      + rewrite list_lookup_insert_ne by lia. by rewrite lookup_word_bits by lia.
    - rewrite !(proj2 (lookup_ge_None _ _)); rewrite ?length_insert, ?length_word_bits; done || lia. }
  assert (word_bits w !! Z.to_nat k = Some true) as Hl.
  { rewrite lookup_word_bits, Z2Nat.id by lia. by rewrite Ht. }
  apply count_true_clear in Hl. rewrite <- E in Hl.
  rewrite IH; [lia | | lia].
  assert (0 ≤ Z.land w (w - 1)) by (apply Z.land_nonneg; lia).
  split; [done|]. destruct (decide (Z.land w (w - 1) = 0)) as [->|Hnz]; [lia|].
  apply Z.log2_lt_pow2; [lia|].
  pose proof (Z.log2_land w (w - 1)). apply Z.log2_lt_pow2 in Hw2; [|lia]. lia.
Qed.

Lemma kernighan_64 w c : word_ok w → kernighan 64 w c = c + count_true (word_bits w).
Proof.
  intros Hw. apply kernighan_spec; [done|].
  pose proof (count_true_le (word_bits w)) as H. unfold zlen in H.
  rewrite length_word_bits in H. lia.
Qed.

Lemma bits_of_cons w bm : bits_of (w :: bm) = word_bits w ++ bits_of bm.
Proof. done. Qed.

Lemma popcount_words (f : Z → Z → Z) bm c :
  (∀ w c, word_ok w → f c w = c + count_true (word_bits w)) →
  Forall word_ok bm → fold_left f bm c = c + count_true (bits_of bm).
Proof.
  intros Hf Hok. revert c. induction Hok as [|w bm Hw _ IH]; intros c; cbn [fold_left].
  { change (count_true (bits_of [])) with 0. lia. }
  rewrite IH, Hf, bits_of_cons, count_true_app by done. lia.
Qed.

(** * The invariant *)

Definition is_none (s : fsd_block_state_t) : bool := bool_decide (match_type s = FSD_MATCH_NONE).

(** The number of blocks of one kind. *)
Definition num (m : fsd_match_type_t) (bs : list fsd_block_state_t) : Z :=
  zlen (filter (fun s => match_type s = m) bs).

(** The bitmap has bit i set exactly when [f] holds of block i, and no bit set
    beyond the last block. *)
Definition bits_match (f : fsd_block_state_t → bool) (bs : list fsd_block_state_t)
    (bm : list Z) : Prop :=
  ∃ pad, bits_of bm = (f <$> bs) ++ replicate pad false.

Record tracker_ok (t : fsd_block_tracker_t) : Prop := {
  tok_count : 0 < count t < 2 ^ 64 - 64;
  tok_size : 0 < block_size t;
  tok_blocks : zlen (blocks t) = count t;
  tok_words : zlen (unmatched_bitmap t) = bitmap_words t;
  tok_word : Forall word_ok (unmatched_bitmap t);
  tok_bits : bits_match is_none (blocks t) (unmatched_bitmap t);
  tok_index i s : blocks t !! i = Some s → dest_index s = Z.of_nat i;
  tok_identity : identity_count t = num FSD_MATCH_IDENTITY (blocks t);
  tok_relocate : relocate_count t = num FSD_MATCH_RELOCATE (blocks t);
  tok_partial : partial_count t = num FSD_MATCH_PARTIAL (blocks t);
  tok_zero : zero_count t = num FSD_MATCH_ZERO (blocks t);
  tok_one : one_count t = num FSD_MATCH_ONE (blocks t);
  tok_literal : literal_count t = 0
}.

Lemma num_nonneg m bs : 0 ≤ num m bs ≤ zlen bs.
Proof.
  unfold num, zlen. pose proof (length_filter (fun s => match_type s = m) bs). lia.
Qed.

Lemma count_true_is_none bs : count_true (is_none <$> bs) = num FSD_MATCH_NONE bs.
Proof.
  unfold count_true, num. induction bs as [|s bs IH]; [done|].
  rewrite fmap_cons, !filter_cons.
  assert (is_none s = true ↔ match_type s = FSD_MATCH_NONE) by apply bool_decide_eq_true.
  repeat case_decide; try tauto; rewrite ?zlen_cons, ?IH; done.
Qed.

(** Every block is of exactly one kind. *)
Lemma num_partition bs :
  num FSD_MATCH_NONE bs + num FSD_MATCH_IDENTITY bs + num FSD_MATCH_RELOCATE bs +
  num FSD_MATCH_PARTIAL bs + num FSD_MATCH_ZERO bs + num FSD_MATCH_ONE bs = zlen bs.
Proof.
  unfold num. induction bs as [|s bs IH]; [done|].
  rewrite !filter_cons. destruct (match_type s) eqn:E;
  repeat (case_decide; simplify_eq); rewrite ?zlen_cons; lia.
Qed.

Lemma num_all_none bs m :
  Forall (fun s => match_type s = FSD_MATCH_NONE) bs → m ≠ FSD_MATCH_NONE → num m bs = 0.
Proof.
  intros Hall Hm. unfold num. induction Hall as [|s bs Hs _ IH]; [done|].
  rewrite filter_cons_False by congruence. done.
Qed.

Lemma num_insert m bs i s s' :
  bs !! i = Some s →
  num m (<[i := s']> bs) =
    num m bs - (if bool_decide (match_type s = m) then 1 else 0)
             + (if bool_decide (match_type s' = m) then 1 else 0).
Proof.
  intros Hi. rewrite <- (take_drop_middle bs i s Hi) at 2.
  rewrite insert_take_drop by (eapply lookup_lt_Some; done).
  unfold num. rewrite !list.filter_app, !zlen_app, !filter_cons.
  repeat case_decide; repeat case_bool_decide; simplify_eq; rewrite ?zlen_cons; lia.
Qed.

(** * What the operations read *)

Lemma bits_match_test f t i s :
  bits_match f (blocks t) (unmatched_bitmap t) → 0 ≤ i →
  zget (blocks t) i = Some s → bitmap_test (unmatched_bitmap t) i = f s.
Proof.
  intros [pad Hb] Hi Hs. rewrite bitmap_test_spec by done. unfold zget in Hs.
  destruct (Z.leb_spec 0 i); [|lia]. rewrite Hb, lookup_app_l.
  - by rewrite list_lookup_fmap, Hs.
  - rewrite length_fmap. by eapply lookup_lt_Some.
Qed.

Lemma tracker_get_some t i :
  zlen (blocks t) = count t → 0 ≤ i < count t →
  ∃ s, fsd_block_tracker_get t i = Some s ∧ blocks t !! Z.to_nat i = Some s.
Proof.
  intros Hl Hi. unfold fsd_block_tracker_get, zget.
  destruct (Z.leb_spec (count t) i); [lia|]. destruct (Z.leb_spec 0 i); [|lia].
  destruct (lookup_lt_is_Some_2 (blocks t) (Z.to_nat i)) as [s Hs]; [zl|].
  rewrite Hs. eauto.
Qed.

Lemma is_unmatched_spec t i s :
  tracker_ok t → fsd_block_tracker_get t i = Some s → 0 ≤ i →
  fsd_block_tracker_is_unmatched t i = is_none s.
Proof.
  intros Hok Hg Hi. unfold fsd_block_tracker_get, fsd_block_tracker_is_unmatched in *.
  destruct (Z.leb_spec (count t) i); [done|].
  eapply bits_match_test; [by destruct Hok | done | done].
Qed.

(** The population count of the bitmap is the number of unmatched blocks. *)
Lemma unmatched_count_spec t :
  tracker_ok t → fsd_block_tracker_unmatched_count t = num FSD_MATCH_NONE (blocks t).
Proof.
  intros Hok. unfold fsd_block_tracker_unmatched_count.
  rewrite (popcount_words _ _ 0 (fun w c => kernighan_64 w c)) by (by destruct Hok).
  destruct (tok_bits t Hok) as [pad ->].
  rewrite count_true_app, count_true_replicate_false, count_true_is_none. lia.
Qed.

(** * Preservation *)

Lemma alter_as_insert {A} (f : A → A) (l : list A) i x :
  l !! i = Some x → alter f i l = <[i := f x]> l.
Proof.
  intros Hx. apply list_eq. intros j. rewrite list_lookup_alter. case_decide as E.
  - subst j. by rewrite Hx, list_lookup_insert_eq by (by eapply lookup_lt_Some).
  - by rewrite list_lookup_insert_ne.
Qed.

Lemma alter_out {A} (f : A → A) (l : list A) i : l !! i = None → alter f i l = l.
Proof.
  intros Hx. apply list_eq. intros j. rewrite list_lookup_alter.
  case_decide; [subst; by rewrite Hx | done].
Qed.

(** Updating a block without touching its kind or index keeps the invariant. *)
Lemma tracker_ok_alter f t i :
  (∀ s, match_type (f s) = match_type s ∧ dest_index (f s) = dest_index s) →
  tracker_ok t → tracker_ok (upd_blocks (alter f i) t).
Proof.
  intros Hf Hok. destruct (blocks t !! i) as [s|] eqn:Hs.
  2: { unfold upd_blocks. rewrite alter_out by done. by destruct t. }
  destruct (Hf s) as [Hm Hd]. destruct Hok.
  constructor; cbn; rewrite ?(alter_as_insert _ _ _ _ Hs); try done.
  - zl.
  - destruct tok_bits0 as [pad E]. exists pad. rewrite E. f_equal.
    rewrite list_fmap_insert. symmetry. apply list_insert_id.
    rewrite list_lookup_fmap, Hs. cbn. unfold is_none. by rewrite Hm.
  - intros j s' Hj. destruct (decide (i = j)) as [<-|Hne].
    + rewrite list_lookup_insert_eq in Hj by (by eapply lookup_lt_Some).
      simplify_eq. rewrite Hd. auto.
    + rewrite list_lookup_insert_ne in Hj by done. auto.
  - rewrite tok_identity0, (num_insert _ _ _ _ _ Hs), Hm. lia.
  - rewrite tok_relocate0, (num_insert _ _ _ _ _ Hs), Hm. lia.
  - rewrite tok_partial0, (num_insert _ _ _ _ _ Hs), Hm. lia.
  - rewrite tok_zero0, (num_insert _ _ _ _ _ Hs), Hm. lia.
  - rewrite tok_one0, (num_insert _ _ _ _ _ Hs), Hm. lia.
Qed.

Lemma set_crc32_ok t i c : tracker_ok t → tracker_ok (fsd_block_tracker_set_crc32 t i c).
Proof.
  intros. unfold fsd_block_tracker_set_crc32. case_match; [done|]. by apply tracker_ok_alter.
Qed.

Lemma set_delta_ok t i o d n : tracker_ok t → tracker_ok (fsd_block_tracker_set_delta t i o d n).
Proof.
  intros. unfold fsd_block_tracker_set_delta. case_match; [done|]. by apply tracker_ok_alter.
Qed.

Lemma word_ok_clear bm i : Forall word_ok bm → Forall word_ok (bitmap_clear bm i).
Proof.
  intros H. apply Forall_alter; [done|]. intros w Hw [Hw1 Hw2].
  set (m := u64 _). assert (0 ≤ m) by (subst m; apply (wrap_range 64); lia).
  assert (0 ≤ Z.land w m) by (apply Z.land_nonneg; lia). split; [done|].
  destruct (decide (Z.land w m = 0)) as [->|Hnz]; [done|].
  apply Z.log2_lt_pow2; [lia|]. pose proof (Z.log2_land w m).
  destruct (decide (w = 0)) as [->|]; [by rewrite Z.land_0_l in Hnz|].
  apply Z.log2_lt_pow2 in Hw2; lia.
Qed.

Lemma zlen_bitmap_clear bm i : zlen (bitmap_clear bm i) = zlen bm.
Proof. unfold bitmap_clear. zl. Qed.

(** What fsd_block_tracker_set_match does to an unmatched block. *)
Lemma set_match_unmatched t i m src s :
  0 ≤ i < count t → blocks t !! Z.to_nat i = Some s → match_type s = FSD_MATCH_NONE →
  fsd_block_tracker_set_match t i m src =
  bump_stat m (upd_bitmap (fun bm => bitmap_clear bm i)
    (upd_blocks (insert (Z.to_nat i) (set_mt_src m src s)) t)).
Proof.
  intros Hi Hs Hm. unfold fsd_block_tracker_set_match, zget, zput, upd_blocks.
  destruct (Z.leb_spec (count t) i); [lia|]. destruct (Z.leb_spec 0 i); [|lia].
  by rewrite Hs, Hm.
Qed.

(** The first writer wins: a matched block never changes again. *)
Lemma set_match_matched t i m src s :
  0 ≤ i < count t → blocks t !! Z.to_nat i = Some s → match_type s ≠ FSD_MATCH_NONE →
  fsd_block_tracker_set_match t i m src = t.
Proof.
  intros Hi Hs Hm. unfold fsd_block_tracker_set_match, zget.
  destruct (Z.leb_spec (count t) i); [lia|]. destruct (Z.leb_spec 0 i); [|lia].
  rewrite Hs. by rewrite bool_decide_eq_false_2.
Qed.

Lemma bump_num m bs i s src m' :
  bs !! i = Some s → match_type s = FSD_MATCH_NONE → m' ≠ FSD_MATCH_NONE →
  zlen bs < 2 ^ 64 - 64 →
  (if bool_decide (m = m') then u64 (num m' bs + 1) else num m' bs) =
  num m' (<[i := set_mt_src m src s]> bs).
Proof.
  intros Hi Hs Hm Hlen. rewrite (num_insert _ _ _ _ _ Hi), Hs. cbn.
  rewrite (bool_decide_eq_false_2 (FSD_MATCH_NONE = m')) by congruence.
  pose proof (num_nonneg m' bs). case_bool_decide; [rewrite wrap_small|]; lia.
Qed.

Lemma set_match_ok t i m src :
  m ≠ FSD_MATCH_NONE → 0 ≤ i → tracker_ok t →
  tracker_ok (fsd_block_tracker_set_match t i m src).
Proof.
  intros Hm Hi Hok. destruct (decide (i < count t)) as [Hc|Hc].
  2: { unfold fsd_block_tracker_set_match. destruct (Z.leb_spec (count t) i); [done | lia]. }
  destruct (tracker_get_some t i) as (s & _ & Hs); [by destruct Hok | lia |].
  destruct (decide (match_type s = FSD_MATCH_NONE)) as [Hn|Hn].
  2: { by rewrite (set_match_matched t i m src s) by (done || lia). }
  rewrite (set_match_unmatched t i m src s) by (done || lia).
  assert (Z.to_nat i < length (blocks t))%nat by (by eapply lookup_lt_Some).
  destruct Hok. constructor; cbn; try done.
  - zl.
  - by rewrite zlen_bitmap_clear.
  - by apply word_ok_clear.
  - destruct tok_bits0 as [pad E]. exists pad. rewrite bits_of_clear, E by done.
    rewrite insert_app_l by (by rewrite length_fmap). f_equal. rewrite list_fmap_insert. f_equal.
    unfold is_none. cbn. by rewrite bool_decide_eq_false_2.
  - intros j s' Hj. destruct (decide (Z.to_nat i = j)) as [<-|Hne].
    + rewrite list_lookup_insert_eq in Hj by done. simplify_eq. cbn. auto.
    + rewrite list_lookup_insert_ne in Hj by done. auto.
  - rewrite tok_identity0. eapply bump_num; done || lia.
  - rewrite tok_relocate0. eapply bump_num; done || lia.
  - rewrite tok_partial0. eapply bump_num; done || lia.
  - rewrite tok_zero0. eapply bump_num; done || lia.
  - rewrite tok_one0. eapply bump_num; done || lia.
Qed.

(** ** Creation *)

Lemma word_ok_set bm i : Forall word_ok bm → Forall word_ok (bitmap_set bm i).
Proof.
  intros H. apply Forall_alter; [done|]. intros w Hw Hok.
  apply lor_range; [done|]. apply wrap_range. lia.
Qed.

(** The tracker after [i] iterations of the initialisation loop. *)
Record created (n bs words : Z) (i : nat) (t : fsd_block_tracker_t) : Prop := {
  cr_fields : count t = n ∧ block_size t = bs ∧ bitmap_words t = words;
  cr_len : zlen (blocks t) = n;
  cr_states j s : blocks t !! j = Some s →
    match_type s = FSD_MATCH_NONE ∧ ((j < i)%nat → dest_index s = Z.of_nat j);
  cr_words : zlen (unmatched_bitmap t) = words;
  cr_word : Forall word_ok (unmatched_bitmap t);
  cr_bits : bits_of (unmatched_bitmap t) =
    replicate i true ++ replicate (64 * Z.to_nat words - i) false;
  cr_stats : identity_count t = 0 ∧ relocate_count t = 0 ∧ partial_count t = 0 ∧
    zero_count t = 0 ∧ one_count t = 0 ∧ literal_count t = 0
}.

Lemma create_loop_created n bs words k i t :
  (i + k ≤ 64 * Z.to_nat words)%nat → created n bs words i t →
  created n bs words (i + k) (create_loop k (Z.of_nat i) t).
Proof.
  revert i t. induction k as [|k IH]; intros i t Hle Hc; [by rewrite Nat.add_0_r|].
  cbn [create_loop]. replace (Z.of_nat i + 1) with (Z.of_nat (S i)) by lia.
  replace (i + S k)%nat with (S i + k)%nat by lia. apply IH; [lia|].
  destruct Hc. rewrite Nat2Z.id. constructor; tsimpl; try done.
  - zl.
  - intros j s Hj. rewrite list_lookup_alter in Hj. case_decide as E.
    + subst j. destruct (blocks t !! i) as [s0|] eqn:Es; [|done]. cbn in Hj. simplify_eq.
      split; done.
    + destruct (cr_states0 j s Hj) as [? Hd]. split; [done|]. intros. apply Hd. lia.
  - unfold bitmap_set. zl.
  - by apply word_ok_set.
  - rewrite bits_of_set, Nat2Z.id, cr_bits0 by lia.
    replace (64 * Z.to_nat words - i)%nat with (S (64 * Z.to_nat words - S i)) by lia.
    rewrite insert_app_r_alt by zl. rewrite length_replicate, Nat.sub_diag.
    rewrite (replicate_S_end i), <- app_assoc. done.
Qed.

Lemma bits_of_zero n : bits_of (replicate n 0) = replicate (64 * n) false.
Proof.
  apply list_eq. intros i. rewrite lookup_bits_of.
  destruct (decide (i < 64 * n)%nat) as [Hi|Hi].
  - rewrite !lookup_replicate_2; [|done|apply Nat.Div0.div_lt_upper_bound; lia].
    cbn. by rewrite Z.testbit_0_l.
  - rewrite !(proj2 (lookup_ge_None _ _)); rewrite ?length_replicate; try done; try lia.
    apply Nat.div_le_lower_bound; lia.
Qed.

Lemma tracker_create_ok malloc_ok n bs t :
  0 ≤ n < 2 ^ 64 - 64 → 0 ≤ bs →
  fsd_block_tracker_create malloc_ok n bs = Ok t →
  tracker_ok t ∧ count t = n ∧ block_size t = bs ∧
  Forall (fun s => match_type s = FSD_MATCH_NONE) (blocks t).
Proof.
  intros Hn Hbs. unfold fsd_block_tracker_create.
  destruct (Z.eqb_spec n 0); [done|]. destruct (Z.eqb_spec bs 0); [done|].
  cbn [orb]. repeat (case_match; [done|]). intros Ht. injection Ht as <-.
  rewrite (wrap_small 64) by lia. set (words := (n + 63) / 64).
  assert (n ≤ 64 * words ∧ 0 ≤ words) as [Hw Hw0].
  { subst words. pose proof (Z.div_mod (n + 63) 64). pose proof (Z.mod_pos_bound (n + 63) 64). lia. }
  set (t0 := mkTracker _ _ _ _ _ _ _ _ _ _ _).
  assert (created n bs words 0 t0) as Hc0.
  { constructor; unfold t0; tsimpl; try done.
    - zl.
    - intros j s Hj. apply lookup_replicate in Hj as [-> _]. split; [done | lia].
    - zl.
    - apply Forall_replicate. done.
    - rewrite bits_of_zero, Nat.sub_0_r. done. }
  apply (create_loop_created _ _ _ (Z.to_nat n)) in Hc0; [|lia].
  cbn [Nat.add Z.of_nat] in Hc0.
  change (Z.of_nat 0) with 0 in Hc0. revert Hc0.
  generalize (create_loop (Z.to_nat n) 0 t0) as t. clear t0. intros t [].
  assert (Forall (fun s => match_type s = FSD_MATCH_NONE) (blocks t)) as Hall.
  { apply Forall_lookup. intros j s Hj. apply (cr_states0 j s Hj). }
  destruct cr_fields0 as (Hcn & Hcb & Hcw). split_and!; [|done..].
  pose proof (fun m => num_all_none _ m Hall) as Hnum.
  destruct cr_stats0 as (? & ? & ? & ? & ? & ?).
  constructor; try (rewrite Hnum by done; done); try done; try lia.
  - exists (64 * Z.to_nat words - Z.to_nat n)%nat. rewrite cr_bits0. f_equal.
    rewrite <- cr_len0. unfold zlen. rewrite Nat2Z.id. clear -Hall.
    induction Hall as [|s l Hs _ IH]; [done|]. cbn. rewrite IH. f_equal.
    unfold is_none. by rewrite bool_decide_eq_true_2.
  - intros j s Hj. apply (cr_states0 j s Hj). apply lookup_lt_Some in Hj. zl.
Qed.

(** ** Finalisation *)

(** After [i] iterations of the finalisation loop the first [i] bits are clear
    and the literal counter counts the unmatched blocks seen. *)
Lemma finalize_loop_spec k t i bits0 pad :
  (i + k = length bits0)%nat → count_true bits0 < 2 ^ 64 →
  Forall word_ok (unmatched_bitmap t) →
  bits_of (unmatched_bitmap t) =
    replicate i false ++ drop i bits0 ++ replicate pad false →
  literal_count t = count_true (take i bits0) →
  let t' := finalize_loop k (Z.of_nat i) t in
  bits_of (unmatched_bitmap t') = replicate (length bits0 + pad) false ∧
  literal_count t' = count_true bits0 ∧ blocks t' = blocks t ∧ count t' = count t ∧
  block_size t' = block_size t ∧
  Forall word_ok (unmatched_bitmap t').
Proof.
  revert t i. induction k as [|k IH]; intros t i Hk Hlt Hw Hb Hl; cbn [finalize_loop].
  { assert (i = length bits0) as -> by lia. rewrite drop_all in Hb. cbn in Hb.
    rewrite firstn_all in Hl. rewrite replicate_add. done. }
  destruct (lookup_lt_is_Some_2 bits0 i) as [b Hbi]; [lia|].
  assert (bitmap_test (unmatched_bitmap t) (Z.of_nat i) = b) as Ht.
  { rewrite bitmap_test_spec, Nat2Z.id, Hb by lia.
    rewrite lookup_app_r, length_replicate, Nat.sub_diag by zl.
    rewrite lookup_app_l by (rewrite length_drop; lia).
    rewrite lookup_drop, Nat.add_0_r, Hbi. done. }
  replace (Z.of_nat i + 1) with (Z.of_nat (S i)) by lia.
  rewrite Ht. set (t1 := if b then _ else t).
  assert (blocks t1 = blocks t ∧ count t1 = count t ∧ block_size t1 = block_size t)
    as (<- & <- & <-) by (by destruct b).
  pose proof (take_S_r bits0 i b Hbi) as Htk.
  assert (count_true (take (S i) bits0) ≤ count_true bits0) as Hcle.
  { rewrite <- (take_drop (S i) bits0) at 2. rewrite count_true_app.
    pose proof (count_true_le (drop (S i) bits0)). lia. }
  apply IH; [lia | done | | |].
  - destruct b; [by apply word_ok_clear | done].
  - transitivity (<[i := false]> (bits_of (unmatched_bitmap t))).
    { destruct b; subst t1; tsimpl.
      - rewrite bits_of_clear, Nat2Z.id by lia. done.
      - symmetry. apply list_insert_id. rewrite Hb.
        rewrite lookup_app_r, length_replicate, Nat.sub_diag by zl.
        rewrite lookup_app_l by (rewrite length_drop; lia).
        by rewrite lookup_drop, Nat.add_0_r. }
    rewrite Hb, (drop_S _ _ _ Hbi). rewrite insert_app_r_alt by zl.
    rewrite length_replicate, Nat.sub_diag, (replicate_S_end i), <- app_assoc. done.
  - rewrite Htk, count_true_app in Hcle. rewrite Htk, count_true_app.
    pose proof (count_true_le (take i bits0)).
    destruct b; subst t1; cbn [literal_count upd_bitmap bump_literal]; rewrite Hl.
    + change (count_true [true]) with 1 in *. rewrite wrap_small; lia.
    + change (count_true [false]) with 0 in *. lia.
Qed.

(** * Theorems *)

(** ** Matching as a sequence of steps *)

(** One call a matching stage can make. *)
Inductive tracker_step : fsd_block_tracker_t → fsd_block_tracker_t → Prop :=
| step_match t i m src :
    0 ≤ i → m ≠ FSD_MATCH_NONE → tracker_step t (fsd_block_tracker_set_match t i m src)
| step_crc t i c : 0 ≤ i → tracker_step t (fsd_block_tracker_set_crc32 t i c)
| step_delta t i off d n :
    0 ≤ i → tracker_step t (fsd_block_tracker_set_delta t i off d n).

Lemma tracker_step_ok t t' : tracker_step t t' → tracker_ok t → tracker_ok t'.
Proof. destruct 1; auto using set_match_ok, set_crc32_ok, set_delta_ok. Qed.

Lemma tracker_steps_ok t t' : rtc tracker_step t t' → tracker_ok t → tracker_ok t'.
Proof. induction 1; eauto using tracker_step_ok. Qed.

(** What a step does to a block that is already matched: its kind and its source
    stay. *)
Definition same_match (s s' : fsd_block_state_t) : Prop :=
  match_type s' = match_type s ∧ src_index s' = src_index s ∧ dest_index s' = dest_index s.

Lemma alter_same_match f t i j s :
  (∀ s, same_match s (f s)) → blocks t !! j = Some s →
  ∃ s', blocks (upd_blocks (alter f i) t) !! j = Some s' ∧ same_match s s'.
Proof.
  intros Hf Hs. cbn. destruct (decide (i = j)) as [->|Hne].
  - rewrite list_lookup_alter_eq, Hs. cbn. eauto.
  - rewrite list_lookup_alter_ne by done. exists s. split; [done|]. by split_and!.
Qed.

Lemma tracker_step_matched t t' j s :
  tracker_step t t' → tracker_ok t → blocks t !! j = Some s → match_type s ≠ FSD_MATCH_NONE →
  ∃ s', blocks t' !! j = Some s' ∧ same_match s s'.
Proof.
  assert (∀ s, same_match s s) as Hrefl by done.
  destruct 1 as [t i m src Hi Hm|t i c Hi|t i off d n Hi]; intros Hok Hs Hn.
  - destruct (decide (i < count t)) as [Hc|Hc].
    2:{ unfold fsd_block_tracker_set_match. destruct (Z.leb_spec (count t) i); [eauto | lia]. }
    destruct (tracker_get_some t i) as (si & _ & Hsi); [by destruct Hok | lia |].
    destruct (decide (match_type si = FSD_MATCH_NONE)) as [Hni|Hni].
    2:{ rewrite (set_match_matched t i m src si) by (done || lia). eauto. }
    rewrite (set_match_unmatched t i m src si) by (done || lia). cbn.
    rewrite list_lookup_insert_ne by congruence. eauto.
  - unfold fsd_block_tracker_set_crc32. case_match; [eauto|]. by apply alter_same_match.
  - unfold fsd_block_tracker_set_delta. case_match; [eauto|]. by apply alter_same_match.
Qed.

(** C33: from creation through any sequence of matches, checksums and deltas, the
    tracker is consistent: a bitmap bit is set exactly for the unmatched blocks,
    every counter counts its kind, every block keeps its index; and the population
    count of the bitmap is the number of unmatched blocks. *)
Theorem tracker_reachable_ok malloc_ok n bs t0 t :
  0 ≤ n < 2 ^ 64 - 64 → 0 ≤ bs → fsd_block_tracker_create malloc_ok n bs = Ok t0 →
  rtc tracker_step t0 t →
  tracker_ok t ∧ fsd_block_tracker_unmatched_count t = num FSD_MATCH_NONE (blocks t).
Proof.
  intros Hn Hbs Hc Hr. destruct (tracker_create_ok malloc_ok n bs t0) as [Hok _]; try done.
  assert (tracker_ok t) by eauto using tracker_steps_ok.
  split; [done | by apply unmatched_count_spec].
Qed.

Definition demo_tracker0 : fsd_block_tracker_t :=
  match fsd_block_tracker_create (fun _ => true) 2 32 with Ok t => t | _ => mkTracker [] 0 0 [] 0 0 0 0 0 0 0 end.
Definition demo_tracker1 : fsd_block_tracker_t :=
  fsd_block_tracker_set_match demo_tracker0 1 FSD_MATCH_ZERO 0.

Lemma tracker_reachable_ok_witness :
  tracker_ok demo_tracker1 ∧
  fsd_block_tracker_unmatched_count demo_tracker1 = num FSD_MATCH_NONE (blocks demo_tracker1).
Proof.
  apply (tracker_reachable_ok (fun _ => true) 2 32 demo_tracker0 demo_tracker1); try done.
  apply rtc_once. by apply step_match.
Defined.

(** The first stage to match a block decides: whatever is called later, the
    block keeps its kind and its source block. *)
Theorem tracker_match_stable t t' j s :
  tracker_ok t → rtc tracker_step t t' → blocks t !! j = Some s → match_type s ≠ FSD_MATCH_NONE →
  ∃ s', blocks t' !! j = Some s' ∧ same_match s s'.
Proof.
  intros Hok Hr. revert s Hok. induction Hr as [t|t1 t2 t3 Hst _ IH]; intros s Hok Hs Hm.
  { exists s. split; [done | by split_and!]. }
  destruct (tracker_step_matched t1 t2 j s) as (s2 & Hs2 & Hm2 & Hi2 & Hd2); try done.
  destruct (IH s2) as (s3 & Hs3 & Hm3 & Hi3 & Hd3); [by eapply tracker_step_ok | done | congruence |].
  exists s3. split; [done|]. split_and!; congruence.
Qed.

Lemma demo_tracker1_ok : tracker_ok demo_tracker1.
Proof.
  destruct (tracker_create_ok (fun _ => true) 2 32 demo_tracker0) as [Hok _]; try done.
  by apply set_match_ok.
Qed.

Lemma tracker_match_stable_witness :
  ∃ s', blocks (fsd_block_tracker_set_match demo_tracker1 1 FSD_MATCH_ONE 5) !! 1%nat = Some s' ∧
    same_match (mkState 1 0 0 0 FSD_MATCH_ZERO None 0) s'.
Proof.
  apply (tracker_match_stable demo_tracker1
           (fsd_block_tracker_set_match demo_tracker1 1 FSD_MATCH_ONE 5) 1%nat).
  - apply demo_tracker1_ok.
  - apply rtc_once. by apply step_match.
  - reflexivity.
  - done.
Defined.

(** The other counters stay. *)
Lemma finalize_loop_stats k i t :
  let t' := finalize_loop k i t in
  identity_count t' = identity_count t ∧ relocate_count t' = relocate_count t ∧
  partial_count t' = partial_count t ∧ zero_count t' = zero_count t ∧ one_count t' = one_count t.
Proof.
  revert i t. induction k as [|k IH]; intros i t; cbn [finalize_loop]; [done|].
  destruct (IH (i + 1) (if bitmap_test (unmatched_bitmap t) i
                        then upd_bitmap (fun bm => bitmap_clear bm i) (bump_literal t) else t))
    as (-> & -> & -> & -> & ->). by destruct (bitmap_test _ _).
Qed.

Lemma finalize_spec t :
  tracker_ok t →
  let t' := fsd_block_tracker_finalize t in
  fsd_block_tracker_unmatched_count t' = 0 ∧
  literal_count t' = num FSD_MATCH_NONE (blocks t) ∧
  blocks t' = blocks t ∧ count t' = count t ∧ block_size t' = block_size t.
Proof.
  intros Hok t'. pose proof Hok as []. destruct tok_bits0 as [pad Hb].
  destruct (finalize_loop_spec (Z.to_nat (count t)) t 0 (is_none <$> blocks t) pad)
    as (Hbits & Hlit & Hbl & Hct & Hbs & Hwok).
  - rewrite length_fmap. zl.
  - rewrite count_true_is_none. pose proof (num_nonneg FSD_MATCH_NONE (blocks t)). lia.
  - done.
  - done.
  - done.
  - change (finalize_loop _ _ t) with t' in *. rewrite count_true_is_none in Hlit.
    split_and!; try done. unfold fsd_block_tracker_unmatched_count.
    rewrite (popcount_words _ _ 0 (fun w c => kernighan_64 w c)) by done.
    rewrite Hbits, count_true_replicate_false. done.
Qed.

(** Finalisation turns every unmatched block into a literal: afterwards no block
    is unmatched, the counters of the six kinds add up to the number of blocks,
    and the block states are untouched. *)
Theorem finalize_accounts t :
  tracker_ok t →
  let t' := fsd_block_tracker_finalize t in
  fsd_block_tracker_unmatched_count t' = 0 ∧
  literal_count t' = fsd_block_tracker_unmatched_count t ∧
  identity_count t + relocate_count t + partial_count t + zero_count t + one_count t +
    literal_count t' = count t ∧
  blocks t' = blocks t ∧ count t' = count t ∧ block_size t' = block_size t.
Proof.
  intros Hok t'. rewrite (unmatched_count_spec t Hok).
  destruct (finalize_spec t Hok) as (Hun & Hlit & Hbl & Hct & Hbs). fold t' in Hun, Hlit, Hbl, Hct, Hbs.
  pose proof Hok as []. split_and!; try done. rewrite Hlit, <- tok_blocks0, <- (num_partition (blocks t)). lia.
Qed.

Lemma finalize_accounts_witness :
  let t' := fsd_block_tracker_finalize demo_tracker1 in
  fsd_block_tracker_unmatched_count t' = 0 ∧
  literal_count t' = fsd_block_tracker_unmatched_count demo_tracker1 ∧
  identity_count demo_tracker1 + relocate_count demo_tracker1 + partial_count demo_tracker1 +
    zero_count demo_tracker1 + one_count demo_tracker1 + literal_count t' = count demo_tracker1 ∧
  blocks t' = blocks demo_tracker1 ∧ count t' = count demo_tracker1 ∧
  block_size t' = block_size demo_tracker1.
Proof. exact (finalize_accounts demo_tracker1 demo_tracker1_ok). Defined.

Lemma foreach_loop_spec {A} t (cb : Z → A → A) k i a :
  foreach_loop t cb k (Z.of_nat i) a =
  foldl (fun a j => cb (Z.of_nat j) a) a
    (filter (fun j => bitmap_test (unmatched_bitmap t) (Z.of_nat j) = true) (seq i k)).
Proof.
  revert i a. induction k as [|k IH]; intros i a; [done|].
  cbn [foreach_loop seq]. replace (Z.of_nat i + 1) with (Z.of_nat (S i)) by lia.
  rewrite IH. destruct (bitmap_test _ (Z.of_nat i)) eqn:E.
  - by rewrite filter_cons_True.
  - rewrite filter_cons_False by (rewrite E; done). done.
Qed.

(** The iteration visits exactly the unmatched blocks, in increasing order. *)
Theorem foreach_visits_unmatched t :
  tracker_ok t →
  fsd_block_tracker_foreach_unmatched t (fun i l => l ++ [i]) [] =
  dest_index <$> filter (fun s => match_type s = FSD_MATCH_NONE) (blocks t).
Proof.
  intros Hok. unfold fsd_block_tracker_foreach_unmatched.
  rewrite (foreach_loop_spec t (fun i l => l ++ [i]) _ 0 []).
  pose proof (tok_blocks t Hok) as Hl. rewrite <- Hl. unfold zlen. rewrite Nat2Z.id.
  assert (∀ (js : list nat) acc, foldl (fun a j => a ++ [Z.of_nat j]) acc js =
            acc ++ (Z.of_nat <$> js)) as Hf.
  { intros js. induction js as [|j js IH]; intros acc; cbn; [by rewrite app_nil_r|].
    rewrite IH, <- app_assoc. done. }
  rewrite Hf. cbn [app].
  assert (∀ k i, (i + k)%nat = length (blocks t) →
    Z.of_nat <$> filter (fun j => bitmap_test (unmatched_bitmap t) (Z.of_nat j) = true) (seq i k) =
    dest_index <$> filter (fun s => match_type s = FSD_MATCH_NONE) (drop i (blocks t))) as Hk.
  { induction k as [|k IH]; intros i Hi.
    - rewrite drop_ge by lia. done.
    - destruct (lookup_lt_is_Some_2 (blocks t) i) as [s Hs]; [lia|].
      rewrite (drop_S _ _ _ Hs). cbn [seq].
      assert (bitmap_test (unmatched_bitmap t) (Z.of_nat i) = is_none s) as Ht.
      { eapply bits_match_test; [by destruct Hok | lia |]. unfold zget.
        destruct (Z.leb_spec 0 (Z.of_nat i)); [|lia]. by rewrite Nat2Z.id. }
      assert (is_none s = true ↔ match_type s = FSD_MATCH_NONE) by apply bool_decide_eq_true.
      rewrite !filter_cons, Ht. specialize (IH (S i) ltac:(lia)).
      repeat case_decide; try tauto. rewrite !fmap_cons, IH. f_equal.
      symmetry. by apply (tok_index t Hok). }
  by rewrite Hk.
Qed.

Lemma foreach_visits_unmatched_witness :
  fsd_block_tracker_foreach_unmatched demo_tracker1 (fun i l => l ++ [i]) [] =
  dest_index <$> filter (fun s => match_type s = FSD_MATCH_NONE) (blocks demo_tracker1).
Proof. exact (foreach_visits_unmatched demo_tracker1 demo_tracker1_ok). Defined.
