(* ===== verification/Source.v ===== *)
(** The source image: src/src/io/source_reader.c and the part of
    src/src/io/mmap_reader.c it stands on.

    The patcher only relies on the class [SourceReader] and its laws; the reader
    of the program, with its mmap and O_DIRECT backends, is an instance. *)

From S2P Require Import Prelude.
From stdpp Require Import base list numbers tactics.
From Stdlib Require Import ZArith Lia.
Open Scope Z_scope.

(** * The interface: the source image as the patcher sees it *)

Class SourceReader (R : Type) : Type := {
  sr_size : R → Z;
  sr_read_at : Z → Z → ST R bytes
}.

Class SourceReaderSpec (R : Type) : Type := {
  sr_ok : R → Prop;
  sr_contents : R → bytes;
  sr_reliable : R → Prop
}.

(** What a reader promises: reads never change the contents; a read that
    succeeds was inside the source and returns the bytes there; on a reliable
    device every read inside the source succeeds. *)
Record read_spec {R} `{SourceReaderSpec R} (r : R) (off len : Z) (o : outcome bytes * R) : Prop := {
  rs_ok : sr_ok (snd o);
  rs_contents : sr_contents (snd o) = sr_contents r;
  rs_reliable : sr_reliable r → sr_reliable (snd o);
  rs_defined : defined (fst o);
  rs_value d : fst o = Ok d →
    off + len ≤ zlen (sr_contents r) ∧ d = slice off len (sr_contents r);
  rs_success : sr_reliable r → off + len ≤ zlen (sr_contents r) → ∃ d, fst o = Ok d
}.

Class SourceReaderLaws (R : Type) `{SourceReader R, SourceReaderSpec R} : Prop := {
  sr_size_law r : sr_ok r → sr_size r = zlen (sr_contents r) ∧ sr_size r < 2 ^ 63;
  sr_bytes_law r : sr_ok r → bytes_ok (sr_contents r);
  sr_read_law r off len : sr_ok r → 0 ≤ off → 0 < len → read_spec r off len (sr_read_at off len r)
}.

(** * The operating system *)

(** What pread(2) does on its next calls: it may be interrupted, fail, or return
    fewer bytes than asked for (but at least one, before the end of the file).
    Once the schedule is used up every call returns all it can. *)
Inductive pread_answer : Type := PIntr | PErr | PShort (n : positive).

Record device : Type := mkDevice {
  dev_data : bytes;
  dev_sched : list pread_answer
}.

Inductive pread_result : Type := RIntr | RErr | RGot (d : bytes).

Definition pread (n off : Z) (dev : device) : pread_result * device :=
  let all := slice off n (dev_data dev) in
  match dev_sched dev with
  | [] => (RGot all, dev)
  | PIntr :: sch => (RIntr, mkDevice (dev_data dev) sch)
  | PErr :: sch => (RErr, mkDevice (dev_data dev) sch)
  | PShort k :: sch => (RGot (take (Pos.to_nat k) all), mkDevice (dev_data dev) sch)
  end.

(** * The reader *)

Definition FSD_DIO_DEFAULT_ALIGN : Z := 4096.
Definition FSD_DIO_SCRATCH_SIZE : Z := 1 * 1024 * 1024.

Inductive fsd_backend_t : Type := FSD_BACKEND_MMAP | FSD_BACKEND_DIRECT.

(** [mapping] is what the mmap backend has mapped ([None] for an empty file);
    [dev] is the open descriptor of the direct backend. *)
Record fsd_source_reader : Type := mkReader {
  backend : fsd_backend_t;
  file_size : Z;
  mapping : option bytes;
  dev : device;
  alignment : Z;
  scratch : bytes;
  scratch_size : Z;
  scratch_off : Z;
  scratch_valid : Z;
  slurp : option bytes
}.

Definition set_cache (d : device) (b : bytes) (off valid : Z) (r : fsd_source_reader) :=
  mkReader (backend r) (file_size r) (mapping r) d (alignment r) b (scratch_size r) off valid (slurp r).

Definition set_slurp (d : device) (b : option bytes) (r : fsd_source_reader) :=
  mkReader (backend r) (file_size r) (mapping r) d (alignment r) (scratch r) (scratch_size r)
    (scratch_off r) (scratch_valid r) b.

Definition round_up_pow2 (v align : Z) : Z :=
  Z.land (u64 (v + align - 1)) (u64 (Z.lnot (align - 1))).

(** [buf] is the destination and [total] how much of it is filled.  A call that
    returns data fills at least one byte, one that does not uses up the schedule. *)
Fixpoint pread_full_loop (fuel : nat) (total len offset file_size : Z) : ST (bytes * device) unit :=
  fun '(buf, d) =>
  match fuel with
  | O => (NoFuel, (buf, d))
  | S fuel =>
      if len <=? total then (Ok tt, (buf, d)) else
      match pread (len - total) (offset + total) d with
      | (RIntr, d) => pread_full_loop fuel total len offset file_size (buf, d)
      | (RErr, d) => (Err FSD_ERR_IO, (buf, d))
      | (RGot [], d) =>
          if file_size <=? offset + total
          then match store total (fill (len - total) 0) buf with
               | Ok b => (Ok tt, (b, d))
               | _ => (UB, (buf, d)) end
          else (Err FSD_ERR_IO, (buf, d))
      | (RGot bs, d) =>
          match store total bs buf with
          | Ok b => pread_full_loop fuel (total + zlen bs) len offset file_size (b, d)
          | _ => (UB, (buf, d))
          end
      end
  end.

Definition pread_full (len offset file_size : Z) : ST (bytes * device) unit := fun bd =>
  pread_full_loop (S (length (dev_sched (snd bd)) + Z.to_nat len)) 0 len offset file_size bd.

(** The while loop of direct_read_at; [out] is what has been copied so far.  A
    pass either copies a byte or refills the cache so that the next one does. *)
Fixpoint direct_read_loop (fuel : nat) (offset len : Z) (out : bytes) : ST fsd_source_reader bytes :=
  fun r =>
  match fuel with
  | O => (NoFuel, r)
  | S fuel =>
      if len <=? 0 then (Ok out, r) else
      if (0 <? scratch_valid r) && (scratch_off r <=? offset) &&
         (offset <? u64 (scratch_off r + scratch_valid r)) then
        let cached_off := offset - scratch_off r in
        let available := scratch_valid r - cached_off in
        let copy := if len <? available then len else available in
        match load cached_off copy (scratch r) with
        | Ok d => direct_read_loop fuel (offset + copy) (len - copy) (out ++ d) r
        | _ => (UB, r)
        end
      else
        let align_mask := alignment r - 1 in
        let aligned_off := Z.land offset (u64 (Z.lnot align_mask)) in
        let max_aligned := round_up_pow2 (file_size r) (alignment r) in
        let chunk := if max_aligned <? u64 (aligned_off + scratch_size r)
                     then max_aligned - aligned_off else scratch_size r in
        let r := set_cache (dev r) (scratch r) (scratch_off r) 0 r in
        let '(o, (b, d)) := pread_full chunk aligned_off (file_size r) (scratch r, dev r) in
        match o with
        | Ok _ => direct_read_loop fuel offset len out (set_cache d b aligned_off chunk r)
        | Err e => (Err e, set_cache d b (scratch_off r) 0 r)
        | UB => (UB, r)
        | NoFuel => (NoFuel, r)
        end
  end.

Definition direct_read_at (offset len : Z) : ST fsd_source_reader bytes := fun r =>
  if len =? 0 then (Ok [], r) else
  if (file_size r <? offset) || (file_size r - offset <? len) then (Err FSD_ERR_TRUNCATED, r) else
  direct_read_loop (S (S (2 * Z.to_nat len))) offset len [] r.

Definition fsd_source_reader_read_at (offset len : Z) : ST fsd_source_reader bytes := fun r =>
  if len =? 0 then (Ok [], r) else
  if (file_size r <? offset) || (file_size r - offset <? len) then (Err FSD_ERR_TRUNCATED, r) else
  match backend r with
  | FSD_BACKEND_MMAP =>
      match mapping r with
      | Some base => (load offset len base, r)
      | None => (UB, r)
      end
  | FSD_BACKEND_DIRECT => direct_read_at offset len r
  end.

(** [malloc_ok] answers posix_memalign.  The dummy byte of the empty source is
    never read. *)
Definition direct_materialize (malloc_ok : allocator) : ST fsd_source_reader unit := fun r =>
  match slurp r with
  | Some _ => (Ok tt, r)
  | None =>
      if file_size r =? 0 then (Ok tt, set_slurp (dev r) (Some []) r) else
      let alloc_size := round_up_pow2 (file_size r) (alignment r) in
      if negb (malloc_ok alloc_size) then (Err FSD_ERR_OUT_OF_MEMORY, r) else
      let '(o, (b, d)) := pread_full alloc_size 0 (file_size r) (fill alloc_size 0, dev r) in
      (o, set_slurp d (match o with Ok _ => Some b | _ => None end) r)
  end.

(** The base pointer of the source: [None] is NULL. *)
Definition fsd_source_reader_data (malloc_ok : allocator) : ST fsd_source_reader (option bytes) :=
  fun r =>
  match backend r with
  | FSD_BACKEND_MMAP => (Ok (mapping r), r)
  | FSD_BACKEND_DIRECT => (direct_materialize malloc_ok;; r ← st_get; mret (slurp r)) r
  end.

Definition fsd_source_reader_size (r : fsd_source_reader) : Z := file_size r.

(** * Opening *)

Inductive errno : Type := ENOENT | EACCES | EPERM | EOTHER.
Inductive file_kind : Type := S_ISREG | S_ISBLK | S_OTHER.
Record file_stat : Type := mkStat { st_kind : file_kind; st_size : Z }.

(** What the system calls answer for one path.  [pv_open] is the descriptor,
    opened with O_DIRECT when its argument is true; [pv_mmap n] maps [n] bytes. *)
Record path_env : Type := mkPath {
  pv_malloc : allocator;
  pv_stat : errno + file_stat;
  pv_open : bool → errno + device;
  pv_fstat : errno + file_stat;
  pv_blkgetsize64 : option Z;
  pv_lseek_end : option Z;
  pv_blksszget : option Z;
  pv_mmap : Z → option bytes
}.

Definition errno_to_fsd (e : errno) : fsd_error_t :=
  match e with
  | ENOENT => FSD_ERR_FILE_NOT_FOUND
  | EACCES | EPERM => FSD_ERR_PERMISSION
  | EOTHER => FSD_ERR_IO
  end.

Definition query_size (env : path_env) (st : file_stat) : option Z :=
  let have := match st_kind st with
              | S_ISREG => if st_size st <? 0 then Some None else Some (Some (st_size st))
              | S_ISBLK => Some <$> pv_blkgetsize64 env
              | S_OTHER => None
              end in
  let raw := match have with Some r => r | None => pv_lseek_end env end in
  match raw with
  | Some raw => if SIZE_MAX <? raw then None else Some raw
  | None => None
  end.

Definition query_alignment (env : path_env) (st : file_stat) : Z :=
  match st_kind st, pv_blksszget env with
  | S_ISBLK, Some sector => if 0 <? sector then sector else FSD_DIO_DEFAULT_ALIGN
  | _, _ => FSD_DIO_DEFAULT_ALIGN
  end.

(** fsd_mmap_open on a Unix host: the mapping, [None] when the file is empty, and
    its size. *)
Definition SIZEOF_MMAP_READER : Z := 24.

Definition fsd_mmap_open (env : path_env) : outcome (option bytes * Z) :=
  if negb (pv_malloc env SIZEOF_MMAP_READER) then Err FSD_ERR_OUT_OF_MEMORY else
  match pv_open env false with
  | inl e => Err (errno_to_fsd e)
  | inr _ =>
      match pv_fstat env with
      | inl _ => Err FSD_ERR_IO
      | inr st =>
          if st_size st <? 0 then Err FSD_ERR_IO else
          let raw_size := st_size st in
          let raw_size :=
            match st_kind st with
            | S_ISBLK =>
                if raw_size =? 0 then
                  let raw_size := default raw_size (pv_blkgetsize64 env) in
                  if raw_size =? 0 then
                    match pv_lseek_end env with
                    | Some e => if 0 <? e then e else raw_size
                    | None => raw_size
                    end
                  else raw_size
                else raw_size
            | _ => raw_size
            end in
          if SIZE_MAX <? raw_size then Err FSD_ERR_IO else
          if raw_size =? 0 then Ok (None, 0) else
          match pv_mmap env raw_size with
          | None => Err FSD_ERR_MMAP_FAILED
          | Some m => Ok (Some m, raw_size)
          end
      end
  end.

Definition no_device : device := mkDevice [] [].

Definition open_mmap (env : path_env) : outcome fsd_source_reader :=
  '(m, n) ← fsd_mmap_open env;
  Ok (mkReader FSD_BACKEND_MMAP n m no_device 0 [] 0 0 0 None).

Definition open_direct (env : path_env) : outcome fsd_source_reader :=
  match pv_open env true with
  | inl e => Err (errno_to_fsd e)
  | inr fd =>
      match pv_fstat env with
      | inl e => Err (errno_to_fsd e)
      | inr st =>
          match query_size env st with
          | None => Err FSD_ERR_IO
          | Some size =>
              let align := query_alignment env st in
              let align := if (align =? 0) || negb (Z.land align (align - 1) =? 0)
                           then FSD_DIO_DEFAULT_ALIGN else align in
              let scratch_size := FSD_DIO_SCRATCH_SIZE in
              let scratch_size := if scratch_size <? align then align else scratch_size in
              let scratch_size := round_up_pow2 scratch_size align in
              if negb (pv_malloc env scratch_size) then Err FSD_ERR_OUT_OF_MEMORY else
              Ok (mkReader FSD_BACKEND_DIRECT size None fd align (fill scratch_size 0)
                    scratch_size 0 0 None)
          end
      end
  end.

Inductive fsd_source_mode_t : Type := FSD_SOURCE_AUTO | FSD_SOURCE_MMAP | FSD_SOURCE_DIRECT.

Definition SIZEOF_SOURCE_READER : Z := 80.

Definition fsd_source_reader_open (env : path_env) (mode : fsd_source_mode_t)
    : outcome fsd_source_reader :=
  if negb (pv_malloc env SIZEOF_SOURCE_READER) then Err FSD_ERR_OUT_OF_MEMORY else
  resolved ←
    match mode with
    | FSD_SOURCE_AUTO =>
        match pv_stat env with
        | inl e => Err (errno_to_fsd e)
        | inr st => Ok (match st_kind st with S_ISBLK => FSD_SOURCE_DIRECT | _ => FSD_SOURCE_MMAP end)
        end
    | m => Ok m
    end;
  match resolved with
  | FSD_SOURCE_DIRECT => open_direct env
  | _ => open_mmap env
  end.

(** * Proofs *)

Lemma round_up_pow2_spec v k :
  0 ≤ k → 0 ≤ v → v + 2 ^ k - 1 < 2 ^ 64 →
  v ≤ round_up_pow2 v (2 ^ k) < v + 2 ^ k ∧ ∃ q, round_up_pow2 v (2 ^ k) = q * 2 ^ k.
Proof.
  intros Hk Hv Hb. assert (0 < 2 ^ k) by (apply Z.pow_pos_nonneg; lia).
  unfold round_up_pow2. rewrite (wrap_small 64 (v + _ - 1)) by lia. rewrite land_align by lia.
  pose proof (align_down_bounds (v + 2 ^ k - 1) (2 ^ k)). split; [lia | by eexists].
Qed.

(** [len] bytes of the source from [off] on, zero-padded past its end. *)
Definition padded (off len : Z) (l : bytes) : bytes :=
  slice off len (l ++ fill (off + len) 0).

Lemma zlen_padded off len l : 0 ≤ off → 0 ≤ len → zlen (padded off len l) = len.
Proof. intros. apply zlen_slice; try lia. rewrite zlen_app, zlen_fill; pose proof (zlen_nonneg l); lia. Qed.

Lemma padded_inside off len l :
  0 ≤ off → 0 ≤ len → off + len ≤ zlen l → padded off len l = slice off len l.
Proof. intros. apply slice_app_l; lia. Qed.

Definition io_error (sch : list pread_answer) : Prop := PErr ∈ sch.

Lemma slice_fill off n m b :
  0 ≤ off → 0 ≤ n → off + n ≤ m → slice off n (fill m b) = fill n b.
Proof.
  intros. unfold slice, fill. rewrite drop_replicate, take_replicate. f_equal. lia.
Qed.

Lemma padded_split off a b l :
  0 ≤ off → 0 ≤ a → 0 ≤ b → padded off (a + b) l = padded off a l ++ padded (off + a) b l.
Proof.
  intros. unfold padded.
  assert (∀ n m, 0 ≤ n → n ≤ m → slice off n (l ++ fill (off + m) 0) = slice off n (l ++ fill (off + n) 0)) as Hp.
  { intros n m Hn Hm. replace (fill (off + m) 0) with (fill (off + n) 0 ++ fill (m - n) 0).
    - rewrite app_assoc. apply slice_app_l; try lia. rewrite zlen_app, zlen_fill; pose proof (zlen_nonneg l); lia.
    - unfold fill. rewrite <- replicate_add. f_equal. lia. }
  rewrite slice_app_add by lia. f_equal.
  - by apply Hp; lia.
  - do 3 f_equal. lia.
Qed.

Lemma padded_past off len l : 0 ≤ len → zlen l ≤ off → padded off len l = fill len 0.
Proof.
  intros. unfold padded, slice. pose proof (zlen_nonneg l).
  rewrite drop_app_ge by zl. fold (slice (off - zlen l) len (fill (off + len) 0)).
  rewrite <- (slice_fill (off - zlen l) len (off + len) 0) by lia.
  unfold slice. do 2 f_equal. zl.
Qed.

(** What a pread answers on a device of the given contents. *)
Lemma pread_spec n off d res d' :
  0 ≤ off → 0 < n → pread n off d = (res, d') →
  dev_data d' = dev_data d ∧ dev_sched d' `suffix_of` dev_sched d ∧
  match res with
  | RIntr => (length (dev_sched d') < length (dev_sched d))%nat
  | RErr => io_error (dev_sched d)
  | RGot [] => zlen (dev_data d) ≤ off
  | RGot bs => zlen bs ≤ n ∧ off + zlen bs ≤ zlen (dev_data d) ∧
               bs = slice off (zlen bs) (dev_data d)
  end.
Proof.
  intros Ho Hn. unfold pread.
  assert (∀ m, (0 < m)%nat → ∀ bs, bs = take m (slice off n (dev_data d)) →
    match bs with [] => zlen (dev_data d) ≤ off
    | _ => zlen bs ≤ n ∧ off + zlen bs ≤ zlen (dev_data d) ∧ bs = slice off (zlen bs) (dev_data d) end) as Hgot.
  { intros m Hm bs Hbs.
    assert (zlen bs = Z.min (Z.of_nat m) (Z.max 0 (Z.min n (zlen (dev_data d) - off)))) as Hz.
    { subst bs. zl. }
    assert (bs = slice off (zlen bs) (dev_data d)) as Heq.
    { rewrite Hz. subst bs. unfold slice. rewrite take_take.
      destruct (decide (zlen (dev_data d) ≤ off)).
      - rewrite drop_ge by zl. by rewrite !take_nil.
      - apply list_eq. intros i. rewrite !lookup_take, lookup_drop.
        destruct (decide (i < m `min` Z.to_nat n)%nat); destruct (decide (i < _)%nat); try done; try lia.
        apply lookup_ge_None_2. zl. }
    destruct bs as [|b bs]; [change (zlen []) with 0 in Hz; lia|].
    pose proof (zlen_nonneg bs). rewrite zlen_cons in *. split; [lia|]. split; [lia | done]. }
  destruct (dev_sched d) as [|[| |k] sch] eqn:Es; intros [= <- <-]; cbn.
  - rewrite Es. split_and!; try done.
    apply (Hgot (length (slice off n (dev_data d)) + 1)%nat); [lia|].
    rewrite take_ge by lia. done.
  - split_and!; [done | by apply suffix_cons_r | lia].
  - split_and!; [done | by apply suffix_cons_r | by constructor].
  - split_and!; [done | by apply suffix_cons_r |]. apply (Hgot (Pos.to_nat k)); [lia | done].
Qed.

Lemma io_error_suffix s1 s2 : s1 `suffix_of` s2 → io_error s1 → io_error s2.
Proof. intros [k ->] He. apply elem_of_app. by right. Qed.

(** pread_full fills the buffer with the source, zero-padded past its end; it
    fails only on a device error. *)
Lemma pread_full_loop_spec fuel : ∀ total len off buf d o buf' d',
  0 ≤ off → 0 ≤ total ≤ len → len ≤ zlen buf →
  slice 0 total buf = padded off total (dev_data d) →
  (length (dev_sched d) + Z.to_nat (len - total) < fuel)%nat →
  pread_full_loop fuel total len off (zlen (dev_data d)) (buf, d) = (o, (buf', d')) →
  dev_data d' = dev_data d ∧ dev_sched d' `suffix_of` dev_sched d ∧ zlen buf' = zlen buf ∧
  (o = Ok tt ∧ slice 0 len buf' = padded off len (dev_data d) ∨
   o = Err FSD_ERR_IO ∧ io_error (dev_sched d)).
Proof.
  induction fuel as [|fuel IH]; intros total len off buf d o buf' d' Ho Ht Hb Hs Hf Hr; [lia|].
  cbn [pread_full_loop] in Hr. destruct (Z.leb_spec len total).
  { injection Hr as <- <- <-. assert (total = len) by lia. subst. split_and!; auto. }
  destruct (pread (len - total) (off + total) d) as [res d1] eqn:Ep.
  destruct (pread_spec (len - total) (off + total) d res d1) as (Hd1 & Hsuf & Hres);
    [lia | lia | done |].
  pose proof (suffix_length _ _ Hsuf).
  assert (∀ total1 buf1, total ≤ total1 ≤ len → zlen buf1 = zlen buf →
    slice 0 total1 buf1 = padded off total1 (dev_data d) →
    (length (dev_sched d1) + Z.to_nat (len - total1) < fuel)%nat →
    pread_full_loop fuel total1 len off (zlen (dev_data d)) (buf1, d1) = (o, (buf', d')) →
    dev_data d' = dev_data d ∧ dev_sched d' `suffix_of` dev_sched d ∧ zlen buf' = zlen buf ∧
    (o = Ok tt ∧ slice 0 len buf' = padded off len (dev_data d) ∨
     o = Err FSD_ERR_IO ∧ io_error (dev_sched d))) as Hrec.
  { intros total1 buf1 Ht1 Hz1 Hs1 Hf1 Hr1. rewrite <- Hd1 in Hs1, Hr1 |- *.
    destruct (IH total1 len off buf1 d1 o buf' d') as (? & ? & ? & Hcase); try done; try lia.
    rewrite <- Hz1. split_and!; try done; [by etrans|].
    destruct Hcase as [?|[? ?]]; [by left | right; eauto using io_error_suffix]. }
  destruct res as [| |[|b bs]].
  - apply (Hrec total buf); try done; lia.
  - injection Hr as <- <- <-. split_and!; try done. by right.
  - destruct (Z.leb_spec (zlen (dev_data d)) (off + total)); [|lia].
    rewrite store_ok in Hr by (rewrite ?zlen_fill; lia). injection Hr as <- <- <-.
    split_and!; try done; [apply zlen_blit; rewrite ?zlen_fill; lia|].
    left. split; [done|].
    pose proof (slice_blit total (fill (len - total) 0) buf) as Hsb.
    rewrite zlen_fill in Hsb by lia. replace (total + (len - total)) with len in Hsb by lia.
    rewrite Hsb, Hs by lia. replace len with (total + (len - total)) at 2 by lia.
    rewrite padded_split by lia. by rewrite (padded_past (off + total)) by lia.
  - set (bs' := b :: bs) in *. destruct Hres as (Hz & Hin & Hbs).
    assert (1 ≤ zlen bs') by (subst bs'; rewrite zlen_cons; pose proof (zlen_nonneg bs); lia).
    rewrite store_ok in Hr by lia.
    apply (Hrec (total + zlen bs') (blit total bs' buf)); [lia | apply zlen_blit; lia | | lia | done].
    rewrite slice_blit, Hs, padded_split, (padded_inside (off + total)) by lia. by rewrite <- Hbs.
Qed.

Lemma pread_full_spec len off buf d o buf' d' :
  0 ≤ off → 0 ≤ len → len ≤ zlen buf →
  pread_full len off (zlen (dev_data d)) (buf, d) = (o, (buf', d')) →
  dev_data d' = dev_data d ∧ dev_sched d' `suffix_of` dev_sched d ∧ zlen buf' = zlen buf ∧
  (o = Ok tt ∧ slice 0 len buf' = padded off len (dev_data d) ∨
   o = Err FSD_ERR_IO ∧ io_error (dev_sched d)).
Proof.
  intros. eapply pread_full_loop_spec with (total := 0); try done; try lia. cbn. lia.
Qed.

(** * Invariant *)

Record direct_ok (r : fsd_source_reader) : Prop := {
  dk_size : file_size r = zlen (dev_data (dev r));
  dk_align : ∃ k, 0 ≤ k ≤ 32 ∧ alignment r = 2 ^ k;
  dk_scratch : alignment r ≤ scratch_size r ≤ 2 ^ 33;
  dk_mult : ∃ q, scratch_size r = q * alignment r;
  dk_buffer : zlen (scratch r) = scratch_size r;
  dk_valid : 0 ≤ scratch_valid r ≤ scratch_size r;
  dk_off : 0 ≤ scratch_off r ≤ 2 ^ 62;
  dk_cache : slice 0 (scratch_valid r) (scratch r) =
             padded (scratch_off r) (scratch_valid r) (dev_data (dev r));
  dk_slurp b : slurp r = Some b → slice 0 (file_size r) b = dev_data (dev r)
}.

Definition reader_contents (r : fsd_source_reader) : bytes :=
  match backend r with
  | FSD_BACKEND_MMAP => default [] (mapping r)
  | FSD_BACKEND_DIRECT => dev_data (dev r)
  end.

Record reader_ok (r : fsd_source_reader) : Prop := {
  rk_size : file_size r = zlen (reader_contents r);
  rk_max : file_size r ≤ 2 ^ 62;
  rk_bytes : bytes_ok (reader_contents r);
  rk_direct : backend r = FSD_BACKEND_DIRECT → direct_ok r
}.

(** The device of a direct reader does not fail. *)
Definition reader_reliable (r : fsd_source_reader) : Prop :=
  backend r = FSD_BACKEND_DIRECT → ¬ io_error (dev_sched (dev r)).

#[export] Instance reader_source : SourceReader fsd_source_reader := {
  sr_size := fsd_source_reader_size;
  sr_read_at := fsd_source_reader_read_at
}.

#[export] Instance reader_source_spec : SourceReaderSpec fsd_source_reader := {
  sr_ok := reader_ok;
  sr_contents := reader_contents;
  sr_reliable := reader_reliable
}.

Lemma slice_prefix {A} a c n (l : list A) :
  0 ≤ a → 0 ≤ c → a + c ≤ n → slice a c (slice 0 n l) = slice a c l.
Proof.
  intros. unfold slice. rewrite drop_0, skipn_firstn_comm, take_take. f_equal. lia.
Qed.

Lemma slice_padded a c off n l :
  0 ≤ off → 0 ≤ a → 0 ≤ c → a + c ≤ n → slice a c (padded off n l) = padded (off + a) c l.
Proof.
  intros. replace n with (a + (c + (n - a - c))) by lia. rewrite !padded_split by lia.
  unfold slice. rewrite drop_app_length' by (pose proof (zlen_padded off a l); zl).
  apply take_app_length'. pose proof (zlen_padded (off + a) c l). zl.
Qed.

Definition cache_hit (offset : Z) (r : fsd_source_reader) : bool :=
  (0 <? scratch_valid r) && (scratch_off r <=? offset) &&
  (offset <? u64 (scratch_off r + scratch_valid r)).

(** From [r] to [r'] only the cache and the device's schedule changed. *)
Definition reader_step (r r' : fsd_source_reader) : Prop :=
  reader_ok r' ∧ backend r' = backend r ∧ reader_contents r' = reader_contents r ∧
  dev_sched (dev r') `suffix_of` dev_sched (dev r).

Lemma reader_step_refl r : reader_ok r → reader_step r r.
Proof. done. Qed.

Lemma reader_step_trans r1 r2 r3 : reader_step r1 r2 → reader_step r2 r3 → reader_step r1 r3.
Proof. intros (?&?&?&?) (?&?&?&?). split_and!; [done | congruence | congruence | by etrans]. Qed.

(** A hit serves bytes of the source. *)
Lemma cache_hit_load offset len r :
  direct_ok r → cache_hit offset r = true → 0 < len → offset + len ≤ file_size r →
  let cached_off := offset - scratch_off r in
  let available := scratch_valid r - cached_off in
  let copy := if len <? available then len else available in
  0 < copy ≤ len ∧
  load cached_off copy (scratch r) = Ok (slice offset copy (dev_data (dev r))).
Proof.
  intros [] Hhit Hlen Hin. unfold cache_hit in Hhit.
  rewrite wrap_small in Hhit by lia. apply andb_prop in Hhit as [Hhit Hh3].
  apply andb_prop in Hhit as [Hh1 Hh2]. cbv zeta.
  set (copy := if len <? _ then _ else _).
  assert (0 < copy ≤ len ∧ offset - scratch_off r + copy ≤ scratch_valid r) as [Hc Hv].
  { subst copy. case_bool; lia. }
  split; [done|]. rewrite load_ok by lia. f_equal.
  rewrite <- (slice_prefix _ _ (scratch_valid r)) by lia.
  rewrite dk_cache0, slice_padded by lia.
  replace (scratch_off r + (offset - scratch_off r)) with offset by lia.
  apply padded_inside; lia.
Qed.

(** A miss refills the cache around [offset], or the device failed. *)
Lemma cache_refill offset r :
  reader_ok r → backend r = FSD_BACKEND_DIRECT → 0 ≤ offset < file_size r →
  let aligned_off := Z.land offset (u64 (Z.lnot (alignment r - 1))) in
  let max_aligned := round_up_pow2 (file_size r) (alignment r) in
  let chunk := if max_aligned <? u64 (aligned_off + scratch_size r)
               then max_aligned - aligned_off else scratch_size r in
  let r0 := set_cache (dev r) (scratch r) (scratch_off r) 0 r in
  let '(o, (b, d)) := pread_full chunk aligned_off (file_size r) (scratch r, dev r) in
  (o = Ok tt ∧ reader_step r (set_cache d b aligned_off chunk r0) ∧
   cache_hit offset (set_cache d b aligned_off chunk r0) = true) ∨
  (o = Err FSD_ERR_IO ∧ io_error (dev_sched (dev r)) ∧
   reader_step r (set_cache d b (scratch_off r) 0 r0)).
Proof.
  intros Hok Hb Hoff. destruct Hok as [Hsz Hmax Hby Hdir]. specialize (Hdir Hb).
  pose proof Hdir as [Hfs (k & Hk & Ha) Hsc (q & Hq) Hbuf Hv Ho Hc Hsl].
  assert (1 ≤ 2 ^ k ≤ 2 ^ 32) as Hp.
  { split; [apply (Z.pow_le_mono_r 2 0); lia | apply Z.pow_le_mono_r; lia]. }
  cbv zeta. rewrite Ha, land_align by lia.
  destruct (round_up_pow2_spec (file_size r) k) as [Hr (m & Hm)]; [lia..|].
  set (al := offset / 2 ^ k * 2 ^ k) in *.
  pose proof (align_down_bounds offset (2 ^ k) ltac:(lia)) as Hal. fold al in Hal.
  assert (0 ≤ al) by (subst al; apply Z.mul_nonneg_nonneg; [apply Z.div_pos; lia | lia]).
  set (mx := round_up_pow2 (file_size r) (2 ^ k)) in *.
  rewrite (wrap_small 64) by lia.
  set (chunk := if mx <? _ then _ else _).
  assert (0 < chunk ≤ scratch_size r ∧ offset < al + chunk) as [Hch Hin].
  { subst chunk. case_bool; lia. }
  destruct (pread_full chunk al (file_size r) (scratch r, dev r)) as [o [b d]] eqn:Ep.
  rewrite Hfs in Ep.
  destruct (pread_full_spec chunk al (scratch r) (dev r) o b d) as (Hd & Hsuf & Hzb & Hcase);
    [lia.. | done |].
  assert (∀ off valid, 0 ≤ valid ≤ scratch_size r → 0 ≤ off ≤ 2 ^ 62 →
    slice 0 valid b = padded off valid (dev_data (dev r)) →
    reader_step r (set_cache d b off valid (set_cache (dev r) (scratch r) (scratch_off r) 0 r))) as Hstep.
  { intros off valid Hva Hof Hsl'.
    unfold reader_step. cbn. split_and!; [|done| |done]; unfold reader_contents in *;
      cbn; rewrite Hb in *; [|done].
    split; unfold reader_contents; cbn; rewrite ?Hb, ?Hd; try done.
    intros _. split; cbn; rewrite ?Hd; try done; try lia; eauto. }
  destruct Hcase as [[-> Hs]|[-> He]]; [left | right].
  - split; [done|]. split; [apply Hstep; lia || done|].
    unfold cache_hit. cbn. rewrite wrap_small by lia.
    repeat (apply andb_true_intro; split); lia.
  - split; [done|]. split; [done|]. apply Hstep; lia || done.
Qed.

Lemma direct_read_loop_spec fuel : ∀ offset len out r o r',
  reader_ok r → backend r = FSD_BACKEND_DIRECT → 0 ≤ offset → 0 ≤ len →
  offset + len ≤ file_size r →
  (2 * Z.to_nat len + (if cache_hit offset r then 0 else if (len =? 0)%Z then 0 else 1) < fuel)%nat →
  direct_read_loop fuel offset len out r = (o, r') →
  reader_step r r' ∧
  (o = Ok (out ++ slice offset len (reader_contents r)) ∨
   o = Err FSD_ERR_IO ∧ io_error (dev_sched (dev r))).
Proof.
  induction fuel as [|fuel IH]; intros offset len out r o r' Hok Hb Ho Hl Hin Hf Hr; [lia|].
  cbn [direct_read_loop] in Hr. destruct (Z.leb_spec len 0).
  { injection Hr as <- <-. replace len with 0 by lia. rewrite slice_nil, app_nil_r. by split; [|left]. }
  fold (cache_hit offset r) in Hr. destruct (cache_hit offset r) eqn:Eh; try rewrite Eh in Hf.
  - pose proof (cache_hit_load offset len r (rk_direct r Hok Hb) Eh ltac:(lia) Hin) as Hload.
    cbv zeta in Hload. destruct Hload as [Hc Hload].
    set (copy := if len <? _ then _ else _) in *. rewrite Hload in Hr.
    apply IH in Hr; try done; try lia.
    + destruct Hr as [Hst [->|He]]; (split; [done|]); [left | by right].
      rewrite <- app_assoc. do 2 f_equal. unfold reader_contents. rewrite Hb.
      rewrite <- slice_app_add by lia. f_equal. lia.
    + clearbody copy. destruct (cache_hit (offset + copy) r), (len - copy =? 0); lia.
  - pose proof (cache_refill offset r Hok Hb ltac:(lia)) as Href. cbv zeta in Href, Hr.
    cbn [scratch file_size dev scratch_off set_cache] in Href, Hr.
    destruct (pread_full _ _ _ _) as [u [b d]].
    destruct Href as [(-> & Hst & Hhit) | (-> & He & Hst)].
    + pose proof Hst as (Hok1 & Hb1 & Hc1 & Hs1).
      apply IH in Hr; try done; try congruence.
      * destruct Hr as [Hst2 Hcase]. split; [by eapply reader_step_trans|].
        rewrite Hc1 in Hcase. destruct Hcase as [?|[? ?]]; [by left | right].
        split; [done|]. eauto using io_error_suffix.
      * rewrite Hhit. destruct (Z.eqb_spec len 0); lia.
    + injection Hr as <- <-. split; [done|]. by right.
Qed.

Lemma reader_read_spec r off len :
  reader_ok r → 0 ≤ off → 0 < len →
  read_spec r off len (fsd_source_reader_read_at off len r).
Proof.
  intros Hok Ho Hl. unfold fsd_source_reader_read_at. pose proof (rk_size r Hok) as Hsz.
  destruct (Z.eqb_spec len 0) as [|Hne]; [lia|].
  destruct (_ || _) eqn:Ebad.
  { split; cbn; try done. intros _ Hin. lia. }
  destruct (backend r) eqn:Eb.
  - unfold reader_contents in Hsz. rewrite Eb in Hsz.
    destruct (mapping r) as [m|] eqn:Em; cbn in Hsz; [|change (zlen []) with 0 in Hsz; lia].
    rewrite load_ok by lia.
    split; cbn; unfold reader_contents; rewrite ?Eb, ?Em; cbn; try done; [|eauto].
    intros d [= <-]. split; [lia | done].
  - unfold direct_read_at. rewrite Ebad. destruct (Z.eqb_spec len 0); [done|].
    destruct (direct_read_loop _ _ _ _ _) as [o r'] eqn:Er.
    apply direct_read_loop_spec in Er as [(Hok' & Hb' & Hc' & Hs') Hcase]; try done; try lia;
      [|destruct (cache_hit off r), (len =? 0); lia].
    split; cbn; try done.
    + intros Hrel _ He. apply (Hrel Eb). eauto using io_error_suffix.
    + by destruct Hcase as [->|[-> _]].
    + destruct Hcase as [->|[-> _]]; [|done]. intros d [= <-]. split; [lia | done].
    + intros Hrel _. destruct Hcase as [->|[_ He]]; [eauto|]. by destruct (Hrel Eb).
Qed.

#[export] Instance reader_source_laws : SourceReaderLaws fsd_source_reader.
Proof.
  split.
  - intros r Hok. pose proof (rk_max r Hok). split; [apply (rk_size r Hok)|].
    cbn. unfold fsd_source_reader_size. lia.
  - intros r Hok. apply (rk_bytes r Hok).
  - apply reader_read_spec.
Qed.

(** * Theorems *)

(** The system calls agree on the contents [data] of a regular file or block
    device. *)
Record path_ok (env : path_env) (data : bytes) : Prop := {
  po_bytes : bytes_ok data;
  po_max : zlen data ≤ 2 ^ 62;
  po_open d : pv_open env true = inr d → dev_data d = data;
  po_mmap m : pv_mmap env (zlen data) = Some m → m = data;
  po_stat st : pv_fstat env = inr st →
    (st_kind st = S_ISREG ∧ st_size st = zlen data) ∨ (st_kind st = S_ISBLK ∧ st_size st = 0);
  po_blk n : pv_blkgetsize64 env = Some n → n = zlen data;
  po_seek : pv_lseek_end env = Some (zlen data);
  po_sector n : pv_blksszget env = Some n → n < 2 ^ 31
}.

Lemma query_size_ok env data st n :
  path_ok env data → pv_fstat env = inr st → query_size env st = Some n → n = zlen data.
Proof.
  intros [] Hst. unfold query_size. rewrite po_seek0.
  destruct (po_stat0 st Hst) as [[-> ->]|[-> _]].
  - destruct (zlen data <? 0); [done|]. destruct (SIZE_MAX <? zlen data); naive_solver.
  - destruct (pv_blkgetsize64 env) as [m|] eqn:E; cbn; repeat case_match; naive_solver.
Qed.

Lemma open_mmap_ok env data r :
  path_ok env data → open_mmap env = Ok r → reader_ok r ∧ reader_contents r = data.
Proof.
  intros Hok. pose proof Hok as []. unfold open_mmap, fsd_mmap_open.
  destruct (negb _); [done|]. destruct (pv_open env false); [done|].
  destruct (pv_fstat env) as [|st] eqn:Est; [done|].
  destruct (st_size st <? 0); [done|]. cbv zeta.
  assert (∀ raw, raw = zlen data →
    mbind (M := outcome) (fun '(m, n) => Ok (mkReader FSD_BACKEND_MMAP n m no_device 0 [] 0 0 0 None))
      (if SIZE_MAX <? raw then Err FSD_ERR_IO else if raw =? 0 then Ok (None, 0) else
       match pv_mmap env raw with None => Err FSD_ERR_MMAP_FAILED | Some m => Ok (Some m, raw) end)
    = Ok r → reader_ok r ∧ reader_contents r = data) as Hgo.
  { intros raw ->. destruct (_ <? _); [done|]. destruct (Z.eqb_spec (zlen data) 0) as [E0|E0].
    - intros [= <-]. destruct data; [|rewrite zlen_cons in E0; pose proof (zlen_nonneg data); lia].
      split; [|done]. by split.
    - destruct (pv_mmap env (zlen data)) as [m|] eqn:Em; [|done]. rewrite (po_mmap0 m eq_refl).
      intros [= <-]. split; [|done]. by split. }
  apply Hgo. destruct (po_stat0 st eq_refl) as [[-> ->]|[-> ->]]; [done|]. cbn [Z.eqb].
  rewrite po_seek0. pose proof (zlen_nonneg data).
  destruct (pv_blkgetsize64 env) as [m|] eqn:Eb; cbn; [rewrite (po_blk0 m eq_refl)|];
    repeat case_bool; try lia; done.
Qed.

Lemma open_direct_ok env data r :
  path_ok env data → open_direct env = Ok r → reader_ok r ∧ reader_contents r = data.
Proof.
  intros Hok. pose proof Hok as []. unfold open_direct.
  destruct (pv_open env true) as [|fd] eqn:Eo; [done|]. specialize (po_open0 fd eq_refl). clear Eo.
  rename po_open0 into Eo.
  destruct (pv_fstat env) as [|st] eqn:Est; [done|].
  destruct (query_size env st) as [n|] eqn:Eq; [|done].
  apply (query_size_ok env data st n Hok Est) in Eq as ->.
  assert (0 < query_alignment env st < 2 ^ 31) as Hqa.
  { unfold query_alignment, FSD_DIO_DEFAULT_ALIGN.
    repeat case_match; try (by split). pose proof (po_sector0 _ eq_refl). lia. }
  cbv zeta. set (al := if _ || _ then _ else _).
  assert (∃ k, 0 ≤ k ≤ 32 ∧ al = 2 ^ k) as (k & Hk & Hal).
  { subst al. destruct (_ || _) eqn:E; [by exists 12|].
    exists (Z.log2 (query_alignment env st)). split.
    - split; [apply Z.log2_nonneg|]. apply Z.lt_le_incl, Z.log2_lt_pow2; lia.
    - apply land_pred_pow2; lia. }
  clearbody al. subst al.
  assert (1 ≤ 2 ^ k ≤ 2 ^ 32) as Hp.
  { split; [apply (Z.pow_le_mono_r 2 0); lia | apply Z.pow_le_mono_r; lia]. }
  set (sz := if FSD_DIO_SCRATCH_SIZE <? 2 ^ k then _ else _).
  assert (2 ^ k ≤ sz ≤ 2 ^ 32) as Hsz.
  { subst sz. unfold FSD_DIO_SCRATCH_SIZE. case_bool; lia. }
  destruct (round_up_pow2_spec sz k) as [Hr (q & Hq)]; [lia..|].
  destruct (negb _); [done|]. intros [= <-].
  split; [|done]. split; cbn; rewrite ?Eo; try done. intros _.
  split; cbn; rewrite ?Eo; try done; try lia.
  - by exists k.
  - by exists q.
  - apply zlen_fill. lia.
Qed.

(** A sequence of reads. *)
Fixpoint read_seq {R} `{SourceReader R} (qs : list (Z * Z)) : ST R (list bytes) :=
  match qs with
  | [] => mret []
  | (off, len) :: qs => d ← sr_read_at off len; ds ← read_seq qs; mret (d :: ds)
  end.

Lemma read_seq_spec {R} `{SourceReaderLaws R} qs : ∀ r : R,
  sr_ok r → sr_reliable r →
  Forall (fun '(off, len) => 0 ≤ off ∧ 0 < len ∧ off + len ≤ zlen (sr_contents r)) qs →
  fst (read_seq qs r) = Ok ((fun '(off, len) => slice off len (sr_contents r)) <$> qs).
Proof.
  induction qs as [|[off len] qs IH]; intros r Hok Hrel Hqs; [done|].
  apply Forall_cons_iff in Hqs as [(Ho & Hl & Hin) Hrest]. cbn.
  pose proof (sr_read_law r off len Hok Ho Hl) as [Hok' Hc Hr' _ Hv Hs].
  unfold mbind, ST_bind. destruct (sr_read_at off len r) as [o r']. cbn in *.
  destruct (Hs Hrel Hin) as [d ->]. destruct (Hv d eq_refl) as [_ ->].
  rewrite <- Hc in Hrest. specialize (IH r' Hok' (Hr' Hrel) Hrest).
  destruct (read_seq qs r') as [o2 r2]. cbn in IH. subst o2. cbn. by rewrite Hc.
Qed.

(** C31: whatever the backend, a source opened on a file or block device returns,
    for any sequence of reads inside it, exactly the bytes of the device at the
    offsets asked for, across short and interrupted preads and whatever the
    aligned cache already holds. *)
Theorem source_reads_contents env data mode r qs :
  path_ok env data → fsd_source_reader_open env mode = Ok r → reader_reliable r →
  Forall (fun '(off, len) => 0 ≤ off ∧ 0 < len ∧ off + len ≤ zlen data) qs →
  fsd_source_reader_size r = zlen data ∧
  fst (read_seq qs r) = Ok ((fun '(off, len) => slice off len data) <$> qs).
Proof.
  intros Hp Ho Hrel Hqs.
  assert (reader_ok r ∧ reader_contents r = data) as [Hok Hc].
  { unfold fsd_source_reader_open in Ho. destruct (negb _); [done|].
    apply bind_Ok_inv in Ho as (m & _ & Ho).
    destruct m; eauto using open_mmap_ok, open_direct_ok. }
  subst data. split; [apply (rk_size r Hok)|]. exact (read_seq_spec qs r Hok Hrel Hqs).
Qed.

Definition demo_path : path_env :=
  mkPath (fun _ => true) (inr (mkStat S_ISBLK 0))
    (fun _ => inr (mkDevice [1; 2; 3; 4; 5] [PShort 2; PIntr; PShort 1]))
    (inr (mkStat S_ISBLK 0)) (Some 5) (Some 5) (Some 2) (fun n => Some [1; 2; 3; 4; 5]).

Definition demo_reader : fsd_source_reader :=
  mkReader FSD_BACKEND_DIRECT 5 None (mkDevice [1; 2; 3; 4; 5] [PShort 2; PIntr; PShort 1])
    2 (fill FSD_DIO_SCRATCH_SIZE 0) FSD_DIO_SCRATCH_SIZE 0 0 None.

Lemma source_reads_contents_witness :
  fsd_source_reader_size demo_reader = 5 ∧
  fst (read_seq [(1, 3); (0, 5)] demo_reader) = Ok [[2; 3; 4]; [1; 2; 3; 4; 5]].
Proof.
  apply (source_reads_contents demo_path [1; 2; 3; 4; 5] FSD_SOURCE_AUTO demo_reader [(1, 3); (0, 5)]).
  - split; try done.
    + repeat constructor; lia.
    + by intros d [= <-].
    + by intros m [= <-].
    + intros st [= <-]. by right.
    + by intros n [= <-].
    + by intros n [= <-].
  - reflexivity.
  - intros _ He. unfold io_error in He. cbn in He.
    repeat (apply elem_of_cons in He as [?|He]; [done|]). by apply elem_of_nil in He.
  - repeat first [apply List.Forall_nil | apply List.Forall_cons]; split_and!; done.
Defined.

Lemma source_data_spec malloc_ok r :
  reader_ok r →
  match fsd_source_reader_data malloc_ok r with
  | (Ok p, r') =>
      slice 0 (fsd_source_reader_size r) (default [] p) = reader_contents r ∧
      reader_ok r' ∧ reader_contents r' = reader_contents r
  | (Err _, _) => ¬ ((∀ z, malloc_ok z = true) ∧ reader_reliable r)
  | _ => False
  end.
Proof.
  intros Hok. unfold fsd_source_reader_data. pose proof (rk_size r Hok) as Hsz.
  unfold fsd_source_reader_size.
  destruct (backend r) eqn:Eb.
  { unfold reader_contents in *. rewrite Eb in *. split; [|done]. by apply slice_full. }
  pose proof (rk_direct r Hok Eb) as Hdir.
  assert (∀ d b, dev_data d = dev_data (dev r) → slice 0 (file_size r) b = dev_data (dev r) →
    reader_ok (set_slurp d (Some b) r) ∧ reader_contents (set_slurp d (Some b) r) = reader_contents r)
    as Hset.
  { intros d b Hd Hb. destruct Hok, Hdir. unfold reader_contents in *. cbn. rewrite Eb in *.
    rewrite Hd. split; [|done]. split; unfold reader_contents; cbn; rewrite ?Eb, ?Hd; try done.
    intros _. split; cbn; rewrite ?Hd; try done. by intros b' [= <-]. }
  assert (reader_contents r = dev_data (dev r)) as Hrc by (unfold reader_contents; by rewrite Eb).
  rewrite Hrc in Hsz |- *.
  unfold mbind, ST_bind, st_get, direct_materialize.
  destruct (slurp r) as [b|] eqn:Es.
  { cbn. rewrite Es. cbn. by rewrite (dk_slurp r Hdir b Es). }
  destruct (Z.eqb_spec (file_size r) 0) as [E0|E0].
  { cbn. rewrite E0 in *.
    assert (dev_data (dev r) = []) as Hnil.
    { destruct (dev_data (dev r)) as [|x l]; [done|]. rewrite zlen_cons in Hsz.
      pose proof (zlen_nonneg l). lia. }
    rewrite Hnil in *. split; [done|]. rewrite <- Hrc. by apply Hset. }
  destruct Hdir as [_ (k & Hk & Ha) _ _ _ _ _ _ _].
  assert (1 ≤ 2 ^ k ≤ 2 ^ 32) as Hp.
  { split; [apply (Z.pow_le_mono_r 2 0); lia | apply Z.pow_le_mono_r; lia]. }
  pose proof (rk_max r Hok). pose proof (zlen_nonneg (dev_data (dev r))). rewrite Ha.
  destruct (round_up_pow2_spec (file_size r) k) as [Hr _]; [lia..|].
  set (n := round_up_pow2 _ _) in *.
  destruct (malloc_ok n) eqn:Em; cbn [negb]; [|intros [Hm _]; by rewrite Hm in Em].
  rewrite Hsz. destruct (pread_full _ _ _ _) as [o [b d]] eqn:Ep.
  apply pread_full_spec in Ep as (Hd & _ & _ & [[-> Hs]|[-> Hio]]); rewrite ?zlen_fill; try lia.
  2:{ intros [_ Hrel]. by apply (Hrel Eb). }
  cbn. rewrite <- Hsz, <- Hrc.
  assert (slice 0 (file_size r) b = dev_data (dev r)) as Hb.
  { rewrite <- (slice_prefix 0 _ n), Hs, slice_padded by lia.
    rewrite padded_inside by lia. by apply slice_full. }
  rewrite Hrc. split; [done|]. rewrite <- Hrc. by apply Hset.
Qed.

(** The whole-image buffer handed to the matching stages holds the source in
    its first [file_size] bytes, and making it does not disturb later reads. *)
Theorem source_data_contents malloc_ok r p r' :
  reader_ok r → fsd_source_reader_data malloc_ok r = (Ok p, r') →
  slice 0 (fsd_source_reader_size r) (default [] p) = reader_contents r ∧
  reader_ok r' ∧ reader_contents r' = reader_contents r.
Proof.
  intros Hok Hd. pose proof (source_data_spec malloc_ok r Hok) as H. by rewrite Hd in H.
Qed.

Definition small_reader : fsd_source_reader :=
  mkReader FSD_BACKEND_DIRECT 5 None (mkDevice [1; 2; 3; 4; 5] [PIntr; PShort 2]) 2 [0; 0] 2 0 0 None.

Lemma small_reader_ok : reader_ok small_reader.
Proof.
  split; try done; [repeat constructor; lia|]. intros _. split; try done; cbn; try lia.
  - by exists 1.
  - by exists 1.
Qed.

Lemma source_data_contents_witness :
  slice 0 5 [1; 2; 3; 4; 5; 0] = reader_contents small_reader ∧
  reader_ok (snd (fsd_source_reader_data (fun _ => true) small_reader)) ∧
  reader_contents (snd (fsd_source_reader_data (fun _ => true) small_reader)) =
    reader_contents small_reader.
Proof.
  exact (source_data_contents (fun _ => true) small_reader (Some [1; 2; 3; 4; 5; 0])
           (snd (fsd_source_reader_data (fun _ => true) small_reader)) small_reader_ok eq_refl).
Defined.
