(* ===== verification/Ledger.v ===== *)
(** What a function acquires and releases, and the two file readers.

    C code that owns memory, descriptors and streams gives them back by hand on
    every path.  Here such a function is written as [traced]: its result together
    with the list of the resources it acquired and released, in order.  A ledger
    reads that list: acquiring a resource that is held or releasing one that is
    not is an error, what is held at the end has leaked.

    The functions with their resources are those of the other files: their results
    are shown to be the same.  This file does it for io/mmap_reader.c, whose
    Windows branch is modelled here, and io/source_reader.c; Resources.v for the
    stage controller, the diff and the patcher.

    Shown here: opening a reader either fails and holds nothing, or succeeds and
    closing it, however often its contents were asked for in between, gives
    everything back once. *)

From stdpp Require Import base list numbers tactics.
From Stdlib Require Import ZArith Lia.
From S2P Require Import Prelude Source.
Open Scope Z_scope.

(** * Ledgers *)

Inductive event (R : Type) : Type :=
| Acquire (r : R)
| Release (r : R).
Arguments Acquire {R}.
Arguments Release {R}.

Definition traced (R A : Type) : Type := list (event R) * A.

#[global] Instance traced_ret {R} : MRet (traced R) := fun A a => ([], a).

#[global] Instance traced_bind {R} : MBind (traced R) := fun A B f m => (fst m ++ fst (f (snd m)), snd (f (snd m))).

Definition acquire {R} (r : R) : traced R unit := ([Acquire r], tt).
Definition release {R} (r : R) : traced R unit := ([Release r], tt).
Definition release_all {R} (l : list R) : traced R unit := (Release <$> l, tt).

Lemma snd_bind {R A B} (m : traced R A) (f : A → traced R B) : snd (m ≫= f) = snd (f (snd m)).
Proof. done. Qed.

Lemma snd_ret {R A} (a : A) : snd (mret a : traced R A) = a.
Proof. done. Qed.

Section Ledger.
Context {R : Type} `{EqDecision R}.

Definition entry (held : list R) (e : event R) : option (list R) :=
  match e with
  | Acquire r => if decide (r ∈ held) then None else Some (r :: held)
  | Release r => if decide (r ∈ held) then Some (filter (fun x => x ≠ r) held) else None
  end.

(** What is held after the events, if all of them were legal. *)
Fixpoint account (held : list R) (evs : list (event R)) : option (list R) :=
  match evs with
  | [] => Some held
  | e :: evs => held ← entry held e; account held evs
  end.

Lemma account_app held evs evs' : account held (evs ++ evs') = held ← account held evs; account held evs'.
Proof.
  revert held. induction evs as [|e evs IH]; intros held; [done|]. cbn. destruct (entry held e); cbn; [apply IH|done].
Qed.

(** From [held], [m] is legal and leaves [held']. *)
Definition books {A} (held : list R) (m : traced R A) (held' : list R) : Prop := account held (fst m) = Some held'.

Lemma books_ret {A} held (a : A) : books held (mret a) held.
Proof. done. Qed.

Lemma books_bind {A B} held (m : traced R A) held' (f : A → traced R B) held'' :
  books held m held' → books held' (f (snd m)) held'' → books held (m ≫= f) held''.
Proof.
  unfold books. intros Hm Hf. change (account held (fst m ++ fst (f (snd m))) = Some held'').
  rewrite account_app, Hm. exact Hf.
Qed.

Lemma filter_absent (r : R) (l : list R) : r ∉ l → filter (fun x => x ≠ r) l = l.
Proof.
  induction l as [|y l IH]; [done|]. intros [Hy Hl]%not_elem_of_cons.
  rewrite filter_cons_True by congruence. f_equal. by apply IH.
Qed.

Lemma books_acquire (r : R) held : r ∉ held → books held (acquire r) (r :: held).
Proof. intros Hr. unfold books. cbn. by rewrite decide_False. Qed.

Lemma books_release (r : R) held : r ∉ held → books (r :: held) (release r) held.
Proof.
  intros Hr. unfold books, release. cbn [fst account entry]. rewrite decide_True by left. cbn [mbind option_bind].
  rewrite filter_cons_False by auto. by rewrite filter_absent.
Qed.

End Ledger.

(** The resources of a component as part of its user's. *)
Definition via {R S A} (f : R → S) (m : traced R A) : traced S A :=
  ((fun e => match e with Acquire r => Acquire (f r) | Release r => Release (f r) end) <$> fst m, snd m).

Lemma books_via {R S A} `{EqDecision R, EqDecision S} (f : R → S) `{!Inj (=) (=) f} rest held (m : traced R A) held' :
  (∀ r, f r ∉ rest) → books held m held' → books ((f <$> held) ++ rest) (via f m) ((f <$> held') ++ rest).
Proof.
  intros Hf. unfold books, via. cbn [fst]. generalize (fst m) as evs. clear m. intros evs. revert held.
  assert (Hin : ∀ r (l : list R), f r ∈ (f <$> l) ++ rest ↔ r ∈ l).
  { intros r l. rewrite elem_of_app, list_elem_of_fmap. split; [|by left; exists r].
    intros [(x & Hx & ?)|?]; [by apply (inj f) in Hx as ->|by destruct (Hf r)]. }
  assert (Hrest : ∀ r, filter (fun x => x ≠ f r) rest = rest).
  { intros r. by apply filter_absent. }
  assert (Hfil : ∀ r (l : list R), filter (fun x => x ≠ f r) (f <$> l) = f <$> filter (fun x => x ≠ r) l).
  { intros r l. induction l as [|y l IH]; [done|]. cbn [fmap list_fmap]. destruct (decide (y = r)) as [->|Hy].
    - rewrite !filter_cons_False by auto. done.
    - rewrite !filter_cons_True; [cbn; by f_equal|done|]. intros E. by apply (inj f) in E. }
  induction evs as [|[r|r] evs IH]; intros held; cbn [account fmap list_fmap]; [by intros [= ->]| |].
  - unfold entry. destruct (decide (r ∈ held)) as [|Hn]; [done|]. intros H.
    rewrite decide_False by (by rewrite Hin). cbn. exact (IH (r :: held) H).
  - unfold entry. destruct (decide (r ∈ held)) as [Hy|]; [|done]. intros H.
    rewrite decide_True by (by rewrite Hin). cbn. rewrite list.filter_app, Hrest, Hfil. exact (IH _ H).
Qed.

(** Evaluate a ledger whose events are known. *)
Ltac settle := first [reflexivity | vm_compute; reflexivity].

(** * The mapped file *)

(** A Windows host: what the system calls answer for one path. *)
Record windows_env : Type := mkWindows {
  wv_malloc : allocator;
  wv_create_file : option Z;                (** [Some e]: fails with the error code [e] *)
  wv_get_file_size : option Z;              (** a LARGE_INTEGER *)
  wv_create_mapping : bool;
  wv_map_view : option bytes
}.

Definition ERROR_FILE_NOT_FOUND : Z := 2.
Definition ERROR_PATH_NOT_FOUND : Z := 3.
Definition ERROR_ACCESS_DENIED : Z := 5.

(** What an open reader owns. *)
Inductive map_resource : Type := MapStruct | MapFile | MapHandle | MapView.

#[global] Instance map_resource_eq_dec : EqDecision map_resource.
Proof. solve_decision. Defined.

(** The reader as closing it sees it: is there a view, is there a mapping handle. *)
Record map_state : Type := mkMapState { ms_view : bool; ms_handle : bool }.

(** fsd_mmap_open on Windows. *)
Definition fsd_mmap_open_windows (env : windows_env) : traced map_resource (outcome (option bytes * Z)) :=
  if negb (wv_malloc env 32) then mret (Err FSD_ERR_OUT_OF_MEMORY) else
  acquire MapStruct;;
  match wv_create_file env with
  | Some err =>
      release MapStruct;;
      mret (if (err =? ERROR_FILE_NOT_FOUND) || (err =? ERROR_PATH_NOT_FOUND) then Err FSD_ERR_FILE_NOT_FOUND
            else if err =? ERROR_ACCESS_DENIED then Err FSD_ERR_PERMISSION else Err FSD_ERR_IO)
  | None =>
      acquire MapFile;;
      match wv_get_file_size env with
      | None => release_all [MapFile; MapStruct];; mret (Err FSD_ERR_IO)
      | Some size =>
          if (size <? 0) || (SIZE_MAX <? u64 size)
          then release_all [MapFile; MapStruct];; mret (Err FSD_ERR_IO) else
          let file_size := u64 size in
          if file_size =? 0 then mret (Ok (None, 0)) else
          if negb (wv_create_mapping env)
          then release_all [MapFile; MapStruct];; mret (Err FSD_ERR_MMAP_FAILED) else
          acquire MapHandle;;
          match wv_map_view env with
          | None => release_all [MapHandle; MapFile; MapStruct];; mret (Err FSD_ERR_MMAP_FAILED)
          | Some base => acquire MapView;; mret (Ok (Some base, file_size))
          end
      end
  end.

(** fsd_mmap_close on Windows; the handle was made if the file has bytes. *)
Definition fsd_mmap_close_windows (m : option bytes * Z) : traced map_resource unit :=
  (match fst m with Some _ => release MapView | None => mret tt end);;
  (if snd m =? 0 then mret tt else release MapHandle);;
  release MapFile;;
  release MapStruct.

(** fsd_mmap_open and fsd_mmap_close on a Unix host. *)
Definition mmap_open_traced (env : path_env) : traced map_resource (outcome (option bytes * Z)) :=
  if negb (pv_malloc env SIZEOF_MMAP_READER) then mret (Err FSD_ERR_OUT_OF_MEMORY) else
  acquire MapStruct;;
  match pv_open env false with
  | inl e => release MapStruct;; mret (Err (errno_to_fsd e))
  | inr _ =>
      acquire MapFile;;
      match pv_fstat env with
      | inl _ => release_all [MapFile; MapStruct];; mret (Err FSD_ERR_IO)
      | inr st =>
          if st_size st <? 0 then release_all [MapFile; MapStruct];; mret (Err FSD_ERR_IO) else
          let raw_size := st_size st in
          let raw_size :=
            match st_kind st with
            | S_ISBLK =>
                if raw_size =? 0 then
                  let raw_size := default raw_size (pv_blkgetsize64 env) in
                  if raw_size =? 0 then
                    match pv_lseek_end env with
                    | Some e => if 0 <? e then e else raw_size
                    | None => raw_size
                    end
                  else raw_size
                else raw_size
            | _ => raw_size
            end in
          if SIZE_MAX <? raw_size then release_all [MapFile; MapStruct];; mret (Err FSD_ERR_IO) else
          if raw_size =? 0 then mret (Ok (None, 0)) else
          match pv_mmap env raw_size with
          | None => release_all [MapFile; MapStruct];; mret (Err FSD_ERR_MMAP_FAILED)
          | Some m => acquire MapView;; mret (Ok (Some m, raw_size))
          end
      end
  end.

Definition fsd_mmap_close (m : option bytes * Z) : traced map_resource unit :=
  (match fst m with Some _ => if snd m =? 0 then mret tt else release MapView | None => mret tt end);;
  release MapFile;;
  release MapStruct.

(** An open reader holds what closing it releases. *)
Definition map_holds (windows : bool) (m : option bytes * Z) : list map_resource :=
  match fst m with
  | Some _ => MapView :: (if windows then [MapHandle] else []) ++ [MapFile; MapStruct]
  | None => [MapFile; MapStruct]
  end.

Lemma mmap_open_windows_books env :
  match snd (fsd_mmap_open_windows env) with
  | Ok m => books [] (fsd_mmap_open_windows env) (map_holds true m) ∧ (is_Some (fst m) ↔ snd m ≠ 0)
  | _ => books [] (fsd_mmap_open_windows env) []
  end.
Proof.
  unfold fsd_mmap_open_windows. destruct (wv_malloc env 32); [|done]. cbn [negb].
  destruct (wv_create_file env); [cbn; by repeat case_match|]. destruct (wv_get_file_size env) as [size|]; [|done].
  cbv zeta. destruct (_ || _) eqn:E; [done|]. destruct (Z.eqb_spec (u64 size) 0); [by split; cbn; [settle|]|].
  destruct (wv_create_mapping env); [|done]. cbn [negb]. destruct (wv_map_view env); [|done]. by split; [settle|].
Qed.

Lemma mmap_close_windows_books m : (is_Some (fst m) ↔ snd m ≠ 0) →
  books (map_holds true m) (fsd_mmap_close_windows m) [].
Proof.
  destruct m as [[base|] n]; cbn; intros H; unfold fsd_mmap_close_windows; cbn.
  - destruct (Z.eqb_spec n 0); [|settle]. by destruct (proj1 H).
  - destruct (Z.eqb_spec n 0); [settle|]. by destruct (proj2 H n0).
Qed.

Lemma mmap_open_result env : snd (mmap_open_traced env) = Source.fsd_mmap_open env.
Proof.
  unfold mmap_open_traced, Source.fsd_mmap_open. destruct (pv_malloc env _); [|done]. cbn [negb].
  destruct (pv_open env false); [done|]. destruct (pv_fstat env) as [|st]; [done|]. destruct (st_size st <? 0); [done|].
  cbv zeta. match goal with |- context[SIZE_MAX <? ?n] => generalize n end. intros raw.
  destruct (SIZE_MAX <? raw); [done|]. destruct (raw =? 0); [done|]. by destruct (pv_mmap env raw).
Qed.

Lemma mmap_open_books env :
  match snd (mmap_open_traced env) with
  | Ok m => books [] (mmap_open_traced env) (map_holds false m) ∧ (is_Some (fst m) → snd m ≠ 0)
  | _ => books [] (mmap_open_traced env) []
  end.
Proof.
  unfold mmap_open_traced. destruct (pv_malloc env _); [|done]. cbn [negb].
  destruct (pv_open env false); [done|]. destruct (pv_fstat env) as [|st]; [done|]. destruct (st_size st <? 0); [done|].
  cbv zeta. match goal with |- context[SIZE_MAX <? ?n] => generalize n end. intros raw.
  destruct (SIZE_MAX <? raw); [done|]. destruct (Z.eqb_spec raw 0); [by split; [settle|intros []]|].
  destruct (pv_mmap env raw); [|done]. by split; [settle|].
Qed.

Lemma mmap_close_books m : (is_Some (fst m) → snd m ≠ 0) → books (map_holds false m) (fsd_mmap_close m) [].
Proof.
  destruct m as [[base|] n]; cbn; intros H; unfold fsd_mmap_close; cbn; [|settle].
  destruct (Z.eqb_spec n 0); [|settle]. by destruct H.
Qed.

(** * The source reader *)

Inductive source_resource : Type := SrcStruct | SrcMap (r : map_resource) | SrcFd | SrcScratch | SrcSlurp.

#[global] Instance source_resource_eq_dec : EqDecision source_resource.
Proof. solve_decision. Defined.

#[global] Instance SrcMap_inj : Inj (=) (=) SrcMap.
Proof. by intros x y [=]. Qed.

Definition open_direct_traced (env : path_env) : traced source_resource (outcome fsd_source_reader) :=
  match pv_open env true with
  | inl e => mret (Err (errno_to_fsd e))
  | inr fd =>
      acquire SrcFd;;
      match pv_fstat env with
      | inl e => release SrcFd;; mret (Err (errno_to_fsd e))
      | inr st =>
          match query_size env st with
          | None => release SrcFd;; mret (Err FSD_ERR_IO)
          | Some size =>
              let align := query_alignment env st in
              let align := if (align =? 0) || negb (Z.land align (align - 1) =? 0)
                           then FSD_DIO_DEFAULT_ALIGN else align in
              let scratch_size := FSD_DIO_SCRATCH_SIZE in
              let scratch_size := if scratch_size <? align then align else scratch_size in
              let scratch_size := round_up_pow2 scratch_size align in
              if negb (pv_malloc env scratch_size) then release SrcFd;; mret (Err FSD_ERR_OUT_OF_MEMORY) else
              acquire SrcScratch;;
              mret (Ok (mkReader FSD_BACKEND_DIRECT size None fd align (fill scratch_size 0) scratch_size 0 0 None))
          end
      end
  end.

Definition open_mmap_traced (env : path_env) : traced source_resource (outcome fsd_source_reader) :=
  o ← via SrcMap (mmap_open_traced env);
  mret ('(m, n) ← o; Ok (mkReader FSD_BACKEND_MMAP n m no_device 0 [] 0 0 0 None)).

Definition source_open_traced (env : path_env) (mode : fsd_source_mode_t)
    : traced source_resource (outcome fsd_source_reader) :=
  if negb (pv_malloc env SIZEOF_SOURCE_READER) then mret (Err FSD_ERR_OUT_OF_MEMORY) else
  acquire SrcStruct;;
  match match mode with
        | FSD_SOURCE_AUTO =>
            match pv_stat env with
            | inl e => Err (errno_to_fsd e)
            | inr st => Ok (match st_kind st with S_ISBLK => FSD_SOURCE_DIRECT | _ => FSD_SOURCE_MMAP end)
            end
        | m => Ok m
        end with
  | Ok resolved =>
      r ← match resolved with FSD_SOURCE_DIRECT => open_direct_traced env | _ => open_mmap_traced env end;
      match r with
      | Ok r => mret (Ok r)
      | e => release SrcStruct;; mret e
      end
  | Err e => release SrcStruct;; mret (Err e)
  | UB => release SrcStruct;; mret UB
  | NoFuel => release SrcStruct;; mret NoFuel
  end.

(** fsd_source_reader_data; the dummy byte of an empty source is not allocated. *)
Definition source_data_traced (malloc_ok : allocator) (r : fsd_source_reader)
    : traced source_resource (outcome (option bytes) * fsd_source_reader) :=
  match backend r with
  | FSD_BACKEND_MMAP => mret (Ok (mapping r), r)
  | FSD_BACKEND_DIRECT =>
      '(o, r) ← match slurp r with
                | Some _ => mret (Ok tt, r)
                | None =>
                    if file_size r =? 0 then mret (Ok tt, set_slurp (dev r) (Some []) r) else
                    let alloc_size := round_up_pow2 (file_size r) (alignment r) in
                    if negb (malloc_ok alloc_size) then mret (Err FSD_ERR_OUT_OF_MEMORY, r) else
                    acquire SrcSlurp;;
                    let '(o, (b, d)) := pread_full alloc_size 0 (file_size r) (fill alloc_size 0, dev r) in
                    match o with
                    | Ok _ => mret (o, set_slurp d (Some b) r)
                    | _ => release SrcSlurp;; mret (o, set_slurp d None r)
                    end
                end;
      mret (match o with Ok _ => Ok (slurp r) | Err e => Err e | UB => UB | NoFuel => NoFuel end, r)
  end.

Definition fsd_source_reader_close (r : fsd_source_reader) : traced source_resource unit :=
  match backend r with
  | FSD_BACKEND_MMAP => via SrcMap (fsd_mmap_close (mapping r, file_size r))
  | FSD_BACKEND_DIRECT =>
      release SrcScratch;;
      (match slurp r with Some _ => if file_size r =? 0 then mret tt else release SrcSlurp | None => mret tt end);;
      release SrcFd
  end;;
  release SrcStruct.

(** An open reader holds what closing it releases. *)
Definition source_holds (r : fsd_source_reader) : list source_resource :=
  match backend r with
  | FSD_BACKEND_MMAP => (SrcMap <$> map_holds false (mapping r, file_size r)) ++ [SrcStruct]
  | FSD_BACKEND_DIRECT =>
      match slurp r with Some _ => if file_size r =? 0 then [] else [SrcSlurp] | None => [] end ++
      [SrcScratch; SrcFd; SrcStruct]
  end.

(** A mapping has a size; a direct reader is not yet materialised. *)
Definition source_mapped (r : fsd_source_reader) : Prop :=
  match backend r with FSD_BACKEND_MMAP => is_Some (mapping r) → file_size r ≠ 0 | FSD_BACKEND_DIRECT => True end.

Lemma struct_not_map r : SrcMap r ∉ [SrcStruct].
Proof. by intros ?%list_elem_of_singleton. Qed.

Lemma open_direct_result env : snd (open_direct_traced env) = open_direct env.
Proof.
  unfold open_direct_traced, open_direct. destruct (pv_open env true); [done|]. destruct (pv_fstat env); [done|].
  destruct (query_size env _); [|done]. cbv zeta. destruct (pv_malloc env _); done.
Qed.

Lemma open_direct_books env :
  match snd (open_direct_traced env) with
  | Ok r => books [SrcStruct] (open_direct_traced env) (source_holds r) ∧ source_mapped r
  | _ => books [SrcStruct] (open_direct_traced env) [SrcStruct]
  end.
Proof.
  unfold open_direct_traced. destruct (pv_open env true); [done|]. destruct (pv_fstat env); [done|].
  destruct (query_size env _); [|done]. cbv zeta. by destruct (pv_malloc env _).
Qed.

Lemma open_mmap_result env : snd (open_mmap_traced env) = open_mmap env.
Proof. unfold open_mmap, open_mmap_traced. by rewrite <- mmap_open_result. Qed.

Lemma open_mmap_books env :
  match snd (open_mmap_traced env) with
  | Ok r => books [SrcStruct] (open_mmap_traced env) (source_holds r) ∧ source_mapped r
  | _ => books [SrcStruct] (open_mmap_traced env) [SrcStruct]
  end.
Proof.
  pose proof (mmap_open_books env) as H. unfold open_mmap_traced.
  assert (Hv : ∀ held', books [] (mmap_open_traced env) held' →
    books [SrcStruct] (via SrcMap (mmap_open_traced env)) ((SrcMap <$> held') ++ [SrcStruct]))
    by (intros held' Hh; exact (books_via SrcMap [SrcStruct] [] _ held' struct_not_map Hh)).
  rewrite snd_bind. change (snd (via SrcMap ?m)) with (snd m). destruct (mmap_open_traced env) as [evs o]. cbn [snd] in *.
  destruct o as [[m n]|e| |]; cbn [mret traced_ret snd]; [destruct H as [H Hm]; split; [|done]|..];
    (eapply books_bind; [exact (Hv _ H)|apply books_ret]).
Qed.

Lemma source_open_result env mode : snd (source_open_traced env mode) = fsd_source_reader_open env mode.
Proof.
  unfold source_open_traced, fsd_source_reader_open. destruct (pv_malloc env _); [|done]. cbn [negb].
  destruct (match mode with FSD_SOURCE_AUTO => _ | _ => _ end) as [resolved|e| |]; [|done..]. cbn [mbind outcome_bind].
  destruct resolved; rewrite <- ?open_mmap_result, <- ?open_direct_result;
    [destruct (open_mmap_traced env) as [evs o]|destruct (open_mmap_traced env) as [evs o]|
     destruct (open_direct_traced env) as [evs o]]; by destruct o.
Qed.

Lemma source_open_books env mode :
  match snd (source_open_traced env mode) with
  | Ok r => books [] (source_open_traced env mode) (source_holds r) ∧ source_mapped r
  | _ => books [] (source_open_traced env mode) []
  end.
Proof.
  unfold source_open_traced. destruct (pv_malloc env _); [|done]. cbn [negb].
  destruct (match mode with FSD_SOURCE_AUTO => _ | _ => _ end) as [resolved|e| |]; [|done..].
  set (open := match resolved with FSD_SOURCE_DIRECT => _ | _ => _ end).
  assert (H : match snd open with
              | Ok r => books [SrcStruct] open (source_holds r) ∧ source_mapped r
              | _ => books [SrcStruct] open [SrcStruct]
              end) by (subst open; destruct resolved; [apply open_mmap_books|apply open_mmap_books|apply open_direct_books]).
  clearbody open. rewrite !snd_bind. destruct open as [evs [r|e| |]]; cbn [snd] in *.
  1: destruct H as [H Hm]; split; [|done].
  all: eapply books_bind; [settle|]; eapply books_bind; [exact H|]; settle.
Qed.

Lemma source_data_result malloc_ok r : snd (source_data_traced malloc_ok r) = fsd_source_reader_data malloc_ok r.
Proof.
  unfold source_data_traced, fsd_source_reader_data, direct_materialize. destruct (backend r); [done|].
  unfold mbind, ST_bind. destruct (slurp r) as [b|] eqn:Es; [cbn; by rewrite Es|].
  destruct (file_size r =? 0); [done|]. cbv zeta. destruct (malloc_ok _); [|done]. cbn [negb].
  destruct (pread_full _ _ _ _) as [[[]|e| |] [b d]]; done.
Qed.

Lemma source_data_books malloc_ok r :
  let '(o, r') := snd (source_data_traced malloc_ok r) in
  books (source_holds r) (source_data_traced malloc_ok r) (source_holds r') ∧ (source_mapped r → source_mapped r').
Proof.
  unfold source_data_traced, source_holds, source_mapped. destruct (backend r) eqn:Eb; [cbn; by rewrite Eb|].
  destruct (slurp r) as [b|] eqn:Es; [cbn; by rewrite Eb, Es|].
  destruct (file_size r =? 0) eqn:E0; [cbn; by rewrite E0, Eb|]. cbv zeta.
  destruct (malloc_ok _); [|cbn; by rewrite Eb, Es]. cbn [negb].
  destruct (pread_full _ _ _ _) as [[[]|e| |] [b d]]; cbn; rewrite ?Eb, ?E0; (split; [settle|done]).
Qed.

Lemma source_close_books r : source_mapped r → books (source_holds r) (fsd_source_reader_close r) [].
Proof.
  unfold source_holds, source_mapped, fsd_source_reader_close. destruct (backend r).
  - intros Hm. assert (Hs : books ((SrcMap <$> []) ++ [SrcStruct]) (release SrcStruct) []) by settle.
    eapply books_bind; [|exact Hs].
    exact (books_via SrcMap [SrcStruct] _ _ [] struct_not_map (mmap_close_books (mapping r, file_size r) Hm)).
  - intros _. destruct (slurp r); [destruct (file_size r =? 0)|]; settle.
Qed.

(** * Properties *)

(** A use of the reader: open, ask for the contents with these allocators, close. *)
Fixpoint source_data_all (mallocs : list allocator) (r : fsd_source_reader) : traced source_resource fsd_source_reader :=
  match mallocs with
  | [] => mret r
  | malloc_ok :: mallocs => '(_, r) ← source_data_traced malloc_ok r; source_data_all mallocs r
  end.

Definition source_session (env : path_env) (mode : fsd_source_mode_t) (mallocs : list allocator)
    : traced source_resource unit :=
  o ← source_open_traced env mode;
  match o with
  | Ok r => r ← source_data_all mallocs r; fsd_source_reader_close r
  | _ => mret tt
  end.

Definition windows_session (env : windows_env) : traced map_resource unit :=
  o ← fsd_mmap_open_windows env;
  match o with Ok m => fsd_mmap_close_windows m | _ => mret tt end.

Lemma source_data_all_books mallocs r : source_mapped r →
  let r' := snd (source_data_all mallocs r) in
  books (source_holds r) (source_data_all mallocs r) (source_holds r') ∧ source_mapped r'.
Proof.
  revert r. induction mallocs as [|malloc_ok mallocs IH]; intros r Hm; [done|]. cbn [source_data_all].
  rewrite snd_bind. pose proof (source_data_books malloc_ok r) as Hd.
  destruct (source_data_traced malloc_ok r) as [evs [o r1]]. cbn [snd] in *. destruct Hd as [Hd Hm1].
  destruct (IH r1 (Hm1 Hm)) as [Hb Hm']. split; [|done]. eapply books_bind; [exact Hd|exact Hb].
Qed.

(** C32: the readers give back what they take: whatever the system answers, opening
    one and then, if that succeeds, asking for its contents any number of times and
    closing it acquires nothing twice, releases only what it holds and leaves
    nothing: descriptors, mappings and buffers of the mapped file on both systems
    and of the source reader with either backend. *)
Theorem reader_sessions_balanced env mode mallocs wenv :
  snd (source_open_traced env mode) = fsd_source_reader_open env mode ∧
  books [] (source_session env mode mallocs) [] ∧ books [] (windows_session wenv) [].
Proof.
  split; [apply source_open_result|]. split.
  - pose proof (source_open_books env mode) as Ho. unfold source_session.
    destruct (snd (source_open_traced env mode)) as [r|e| |] eqn:E;
      [|eapply books_bind; [exact Ho|rewrite E; settle]..].
    destruct Ho as [Ho Hm]. eapply books_bind; [exact Ho|]. rewrite E.
    destruct (source_data_all_books mallocs r Hm) as [Hd Hm']. eapply books_bind; [exact Hd|]. by apply source_close_books.
  - pose proof (mmap_open_windows_books wenv) as Ho. unfold windows_session.
    destruct (snd (fsd_mmap_open_windows wenv)) as [m|e| |] eqn:E;
      [|eapply books_bind; [exact Ho|rewrite E; settle]..].
    destruct Ho as [Ho Hm]. eapply books_bind; [exact Ho|]. rewrite E. by apply mmap_close_windows_books.
Qed.
