(* ===== verification/Patch.v ===== *)
(** Patch application: src/src/patch.c.

    A C stream pointer together with its end is the list of bytes left to read,
    so [*ptr + n > end] is a test on the length of that list, and a read that the
    code does not guard is [UB].  The source image is reached through the class
    [SourceReader] of Source.v; the output is a stdio stream whose device may fill up. *)

From S2P Require Import Prelude Stdio Header Varint Source.
From stdpp Require Import base list numbers tactics.
From Stdlib Require Import ZArith Lia.
Open Scope Z_scope.

(** * Operation codes (include/fsdiff/types.h) *)

Definition FSD_OP_COPY_IDENTITY : Z := 0.
Definition FSD_OP_COPY_RELOCATE : Z := 1.
Definition FSD_OP_ZERO : Z := 2.
Definition FSD_OP_ONE : Z := 3.
Definition FSD_OP_COPY_ADD : Z := 4.
Definition FSD_OP_LITERAL : Z := 5.

(** * Pure readers of the operation stream *)

Definition ld16 (p0 p1 : Z) : Z := Z.lor p0 (Z.shiftl p1 8).
Definition ld24 (p0 p1 p2 : Z) : Z := Z.lor (Z.lor p0 (Z.shiftl p1 8)) (Z.shiftl p2 16).
Definition ld32 (p0 p1 p2 p3 : Z) : Z :=
  Z.lor (Z.lor (Z.lor p0 (Z.shiftl p1 8)) (Z.shiftl p2 16)) (Z.shiftl p3 24).

Definition read_count (ptr : bytes) (first_byte : Z) : outcome (Z * bytes) :=
  let count_enc := Z.land (Z.shiftr first_byte 3) 3 in
  if count_enc =? 0 then
    match ptr with p0 :: ptr => Ok (p0 + 1, ptr) | _ => Err FSD_ERR_TRUNCATED end
  else if count_enc =? 1 then
    match ptr with p0 :: p1 :: ptr => Ok (ld16 p0 p1 + 1, ptr) | _ => Err FSD_ERR_TRUNCATED end
  else if count_enc =? 2 then
    match ptr with
    | p0 :: p1 :: p2 :: p3 :: ptr => Ok (ld32 p0 p1 p2 p3, ptr)
    | _ => Err FSD_ERR_TRUNCATED
    end
  else Ok (Z.land first_byte 7 + 1, ptr).

(** The unsigned block offset of OP_COPY_RELOCATE, before the sign is applied. *)
Definition read_reloc_offset (ptr : bytes) (offset_enc : Z) : outcome (Z * bytes) :=
  if offset_enc =? 0 then
    match ptr with p0 :: ptr => Ok (p0, ptr) | _ => Err FSD_ERR_TRUNCATED end
  else if offset_enc =? 1 then
    match ptr with p0 :: p1 :: ptr => Ok (ld16 p0 p1, ptr) | _ => Err FSD_ERR_TRUNCATED end
  else if offset_enc =? 2 then
    match ptr with
    | p0 :: p1 :: p2 :: p3 :: ptr => Ok (ld32 p0 p1 p2 p3, ptr)
    | _ => Err FSD_ERR_TRUNCATED
    end
  else Ok (0, ptr).

(** The signed byte offset of OP_COPY_ADD. *)
Definition read_byte_offset (ptr : bytes) (offset_enc : Z) : outcome (Z * bytes) :=
  if offset_enc =? 0 then
    match ptr with
    | p0 :: p1 :: ptr => Ok (s16 (ld16 p0 p1), ptr)
    | _ => Err FSD_ERR_TRUNCATED
    end
  else if offset_enc =? 1 then
    match ptr with
    | p0 :: p1 :: p2 :: ptr =>
        let raw := ld24 p0 p1 p2 in
        Ok (if negb (Z.land raw 8388608 =? 0) then Z.lor raw (-16777216) else raw, ptr)
    | _ => Err FSD_ERR_TRUNCATED
    end
  else if offset_enc =? 2 then
    match ptr with
    | p0 :: p1 :: p2 :: p3 :: ptr => Ok (s32 (ld32 p0 p1 p2 p3), ptr)
    | _ => Err FSD_ERR_TRUNCATED
    end
  else Ok (0, ptr).

(** The count of OP_COPY_ADD; an inline count has been rejected before. *)
Definition read_add_count (ptr : bytes) (count_enc : Z) : outcome (Z * bytes) :=
  if count_enc =? 0 then
    match ptr with p0 :: ptr => Ok (p0 + 1, ptr) | _ => Err FSD_ERR_TRUNCATED end
  else if count_enc =? 1 then
    match ptr with p0 :: p1 :: ptr => Ok (ld16 p0 p1 + 1, ptr) | _ => Err FSD_ERR_TRUNCATED end
  else if count_enc =? 2 then
    match ptr with
    | p0 :: p1 :: p2 :: p3 :: ptr => Ok (ld32 p0 p1 p2 p3, ptr)
    | _ => Err FSD_ERR_TRUNCATED
    end
  else Ok (1, ptr).

Definition read_diff_len (ptr : bytes) : outcome (Z * bytes) :=
  match ptr with
  | p0 :: p1 :: p2 :: p3 :: ptr => Ok (ld32 p0 p1 p2 p3, ptr)
  | _ => Err FSD_ERR_TRUNCATED
  end.

(** * Applying a diff to a source block *)

(** block_buf[k] += d[k], for every k *)
Definition add_bytes (buf d : bytes) : bytes := zip_with (fun a b => u8 (a + b)) buf d.

(** The dense format: block [blk] of the region. *)
Definition dense_block (block_size diff_len blk : Z) (region buf : bytes) : outcome bytes :=
  let blk_offset := u64 (blk * block_size) in
  if (diff_len <? blk_offset) || (diff_len - blk_offset <? block_size)
  then Err FSD_ERR_TRUNCATED
  else d ← load blk_offset block_size region; Ok (add_bytes buf d).

(** for (k = 0; k < add_len; k++) of the sparse format: [n] values are consumed,
    and those beyond the end of the block are dropped. *)
Fixpoint sparse_add (block_size : Z) (n : nat) (cursor : bytes) (out_pos : Z) (buf : bytes)
    : outcome (bytes * Z * bytes) :=
  match n with
  | O => Ok (cursor, out_pos, buf)
  | S n =>
      match cursor with
      | [] => UB
      | diff_val :: cursor =>
          if out_pos <? block_size then
            match zget buf out_pos with
            | Some b => sparse_add block_size n cursor (out_pos + 1)
                          (zput buf out_pos (u8 (b + diff_val)))
            | None => UB
            end
          else sparse_add block_size n cursor out_pos buf
      end
  end.

(** while (out_pos < block_size) of the sparse format; every iteration reads at
    least one byte of the region. *)
Fixpoint sparse_block (fuel : nat) (block_size : Z) (cursor : bytes) (out_pos : Z) (buf : bytes)
    : outcome (bytes * bytes) :=
  match fuel with
  | O => NoFuel
  | S fuel =>
      if block_size <=? out_pos then Ok (cursor, buf) else
      '(add_len, cursor) ← read_varint cursor;
      if zlen cursor <? add_len then Err FSD_ERR_TRUNCATED else
      '(cursor, out_pos, buf) ← sparse_add block_size (Z.to_nat add_len) cursor out_pos buf;
      if block_size <=? out_pos then Ok (cursor, buf) else
      '(copy_len, cursor) ← read_varint cursor;
      if block_size - out_pos <? copy_len then Err FSD_ERR_CORRUPT_DATA else
      let out_pos := out_pos + copy_len in
      if (add_len =? 0) && (copy_len =? 0) && (out_pos <? block_size)
      then Err FSD_ERR_CORRUPT_DATA
      else sparse_block fuel block_size cursor out_pos buf
  end.

Section Apply.
Context {R : Type} `{SourceReader R}.

(** * The state of the operation loop *)

Record pstate : Type := mkP {
  op_ptr : bytes;
  diff_ptr : bytes;
  lit_ptr : bytes;
  dest_block : Z;
  src_reader : R;
  output : FILE;
  progress : list (Z * Z)       (* calls of the progress callback *)
}.

Definition set_op (p : bytes) : ST pstate unit := fun s =>
  (Ok tt, mkP p (diff_ptr s) (lit_ptr s) (dest_block s) (src_reader s) (output s) (progress s)).
Definition set_diff (p : bytes) : ST pstate unit := fun s =>
  (Ok tt, mkP (op_ptr s) p (lit_ptr s) (dest_block s) (src_reader s) (output s) (progress s)).
Definition set_lit (p : bytes) : ST pstate unit := fun s =>
  (Ok tt, mkP (op_ptr s) (diff_ptr s) p (dest_block s) (src_reader s) (output s) (progress s)).

(** Read from the operation stream with one of the readers above. *)
Definition from_ops {A} (rd : bytes → outcome (A * bytes)) : ST pstate A := fun s =>
  match rd (op_ptr s) with
  | Ok (a, p) => (set_op p ≫= fun _ => mret a) s
  | Err e => (Err e, s)
  | UB => (UB, s)
  | NoFuel => (NoFuel, s)
  end.

Definition read_src (off len : Z) : ST pstate bytes := fun s =>
  let '(o, r) := sr_read_at off len (src_reader s) in
  (o, mkP (op_ptr s) (diff_ptr s) (lit_ptr s) (dest_block s) r (output s) (progress s)).

(** if (fwrite(buf, 1, block_size, output) != block_size) ... *)
Definition write_out (block_size : Z) (buf : bytes) : ST pstate unit := fun s =>
  let '(n, f) := fwrite buf (output s) in
  let s := mkP (op_ptr s) (diff_ptr s) (lit_ptr s) (dest_block s) (src_reader s) f (progress s) in
  if negb (n =? block_size) then (Err FSD_ERR_IO, s) else (Ok tt, s).

Section Ops.
Context (block_size dest_blocks : Z) (has_progress : bool).

Definition when_err (b : bool) (e : fsd_error_t) : ST pstate unit :=
  if b then st_fail e else mret tt.

(** case FSD_OP_COPY_IDENTITY *)
Fixpoint copy_identity (n : nat) (i : Z) : ST pstate unit :=
  match n with
  | O => mret tt
  | S n =>
      s ← st_get;
      let src_offset := u64 ((dest_block s + i) * block_size) in
      when_err (sr_size (src_reader s) <? u64 (src_offset + block_size)) FSD_ERR_CORRUPT_DATA;;
      buf ← read_src src_offset block_size;
      write_out block_size buf;;
      copy_identity n (i + 1)
  end.

(** case FSD_OP_COPY_RELOCATE, after the offset has been read *)
Fixpoint copy_relocate (n : nat) (i offset : Z) : ST pstate unit :=
  match n with
  | O => mret tt
  | S n =>
      s ← st_get;
      src_block ← st_lift (chk64 (s64 (dest_block s + i) + offset));
      when_err (src_block <? 0) FSD_ERR_CORRUPT_DATA;;
      let src_offset := u64 (src_block * block_size) in
      when_err (sr_size (src_reader s) <? u64 (src_offset + block_size)) FSD_ERR_CORRUPT_DATA;;
      buf ← read_src src_offset block_size;
      write_out block_size buf;;
      copy_relocate n (i + 1) offset
  end.

(** case FSD_OP_ZERO and case FSD_OP_ONE: the same buffer, [n] times *)
Fixpoint write_filled (n : nat) (buf : bytes) : ST pstate unit :=
  match n with
  | O => mret tt
  | S n => write_out block_size buf;; write_filled n buf
  end.

(** case FSD_OP_LITERAL *)
Fixpoint write_literals (n : nat) : ST pstate unit :=
  match n with
  | O => mret tt
  | S n =>
      s ← st_get;
      when_err (zlen (lit_ptr s) <? block_size) FSD_ERR_TRUNCATED;;
      buf ← st_lift (load 0 block_size (lit_ptr s));
      write_out block_size buf;;
      set_lit (drop (Z.to_nat block_size) (lit_ptr s));;
      write_literals n
  end.

(** The block loop of case FSD_OP_COPY_ADD. *)
Fixpoint copy_add (n : nat) (blk byte_offset diff_fmt diff_len : Z) (region cursor : bytes)
    : ST pstate unit :=
  match n with
  | O => mret tt
  | S n =>
      s ← st_get;
      src_byte_pos ← st_lift (chk64 (s64 (u64 ((dest_block s + blk) * block_size)) + byte_offset));
      when_err (src_byte_pos <? 0) FSD_ERR_CORRUPT_DATA;;
      when_err (sr_size (src_reader s) <? u64 (src_byte_pos + block_size)) FSD_ERR_CORRUPT_DATA;;
      buf ← read_src src_byte_pos block_size;
      '(cursor, buf) ← st_lift
         (if diff_fmt =? 0
          then b ← dense_block block_size diff_len blk region buf; Ok (cursor, b)
          else sparse_block (S (length cursor)) block_size cursor 0 buf);
      write_out block_size buf;;
      copy_add n (blk + 1) byte_offset diff_fmt diff_len region cursor
  end.

(** case FSD_OP_COPY_ADD; gives back the block count. *)
Definition op_copy_add (first_byte : Z) : ST pstate Z :=
  let count_enc := Z.land (Z.shiftr first_byte 3) 3 in
  let offset_enc := Z.land (Z.shiftr first_byte 1) 3 in
  let diff_fmt := Z.land first_byte 1 in
  when_err (count_enc =? 3) FSD_ERR_CORRUPT_DATA;;
  byte_offset ← from_ops (fun p => read_byte_offset p offset_enc);
  count ← from_ops (fun p => read_add_count p count_enc);
  s ← st_get;
  when_err (u64 (dest_blocks - dest_block s) <? count) FSD_ERR_CORRUPT_DATA;;
  diff_len ← from_ops read_diff_len;
  s ← st_get;
  when_err (zlen (diff_ptr s) <? diff_len) FSD_ERR_TRUNCATED;;
  region ← st_lift (load 0 diff_len (diff_ptr s));
  set_diff (drop (Z.to_nat diff_len) (diff_ptr s));;
  copy_add (Z.to_nat count) 0 byte_offset diff_fmt diff_len region region;;
  mret count.

(** switch (op_type) for the operations whose count has been read *)
Definition op_other (op_type first_byte count : Z) : ST pstate unit :=
  if op_type =? FSD_OP_COPY_IDENTITY then copy_identity (Z.to_nat count) 0
  else if op_type =? FSD_OP_COPY_RELOCATE then
    let offset_enc := Z.land (Z.shiftr first_byte 1) 3 in
    let sign := Z.land first_byte 1 in
    offset ← from_ops (fun p => read_reloc_offset p offset_enc);
    let offset := if negb (sign =? 0) then - offset else offset in
    copy_relocate (Z.to_nat count) 0 offset
  else if op_type =? FSD_OP_ZERO then write_filled (Z.to_nat count) (fill block_size 0)
  else if op_type =? FSD_OP_ONE then write_filled (Z.to_nat count) (fill block_size 255)
  else if op_type =? FSD_OP_LITERAL then write_literals (Z.to_nat count)
  else st_fail FSD_ERR_BAD_OPERATION.

(** dest_block += count, and the progress report *)
Definition advance (count : Z) : ST pstate unit := fun s =>
  let db := u64 (dest_block s + count) in
  (Ok tt, mkP (op_ptr s) (diff_ptr s) (lit_ptr s) db (src_reader s) (output s)
            (if has_progress then progress s ++ [(db, dest_blocks)] else progress s)).

(** One iteration of the operation loop, after [first_byte] has been read. *)
Definition process_op (first_byte : Z) : ST pstate unit :=
  let op_type := Z.land (Z.shiftr first_byte 5) 7 in
  count ←
    (if negb (op_type =? FSD_OP_COPY_ADD) then
       count ← from_ops (fun p => read_count p first_byte);
       s ← st_get;
       when_err (u64 (dest_blocks - dest_block s) <? count) FSD_ERR_CORRUPT_DATA;;
       op_other op_type first_byte count;;
       mret count
     else op_copy_add first_byte);
  advance count.

(** while (dest_block < header.dest_blocks && op_ptr < op_end): every iteration
    consumes the first byte of an operation. *)
Fixpoint op_loop (fuel : nat) : ST pstate unit := fun s =>
  match fuel with
  | O => (NoFuel, s)
  | S fuel =>
      if dest_blocks <=? dest_block s then (Ok tt, s) else
      match op_ptr s with
      | [] => (Ok tt, s)
      | first_byte :: p =>
          (set_op p;; process_op first_byte;; op_loop fuel) s
      end
  end.

(** The operation loop and the completeness check after it. *)
Definition apply_ops : ST pstate unit :=
  s ← st_get;
  op_loop (S (length (op_ptr s)));;
  s ← st_get;
  when_err (negb (dest_block s =? dest_blocks)) FSD_ERR_TRUNCATED.

End Ops.
End Apply.
Arguments pstate R : clear implicits.

(** * fsd_patch_apply *)

(** What the surroundings answer: the open source, the mapped patch file ([None]
    is the NULL data pointer of an empty file), the kind of the output path, the
    stream fopen gives for it, and the allocator. *)
Record patch_env (R : Type) : Type := mkEnv {
  pe_source : outcome R;
  pe_patch : outcome (option bytes);
  pe_output_regular : bool;
  pe_fopen : option FILE;
  pe_malloc : allocator;
  pe_has_progress : bool
}.
Arguments mkEnv {R}.
Arguments pe_source {R}.
Arguments pe_patch {R}.
Arguments pe_output_regular {R}.
Arguments pe_fopen {R}.
Arguments pe_malloc {R}.
Arguments pe_has_progress {R}.

(** The error code, the output stream if it was created, whether the output path
    was unlinked, and the progress reports. *)
Record patch_result : Type := mkResult {
  pr_status : outcome unit;
  pr_output : option FILE;
  pr_unlinked : bool;
  pr_progress : list (Z * Z)
}.

(** The output file when fsd_patch_apply has returned.  It closes the stream and does
    not look at the answer. *)
Definition pr_file (r : patch_result) : option bytes := pr_output r ≫= file_left.

Definition early {A} (o : outcome A) : patch_result :=
  mkResult (match o with Ok _ => Ok tt | Err e => Err e | UB => UB | NoFuel => NoFuel end)
    None false [].

(** The checks on the header and the stream lengths: block size, and the three
    streams. *)
Definition open_streams (patch_data : option bytes)
    : outcome (fsd_header_t * Z * bytes * bytes * bytes) :=
  let patch := default [] patch_data in
  let patch_size := zlen patch in
  header ← fsd_header_read_memory patch_data patch_size;
  let block_size := Z.shiftl 1 (block_size_log2 header) in
  if INT64_MAX / block_size <? dest_blocks header then Err FSD_ERR_CORRUPT_DATA else
  if patch_size <? FSD_HEADER_SIZE then Err FSD_ERR_TRUNCATED else
  if patch_size - FSD_HEADER_SIZE <? op_stream_len header then Err FSD_ERR_CORRUPT_DATA else
  if patch_size - FSD_HEADER_SIZE - op_stream_len header <? diff_stream_len header
  then Err FSD_ERR_CORRUPT_DATA else
  let op_stream := drop (Z.to_nat FSD_HEADER_SIZE) patch in
  let diff_stream := drop (Z.to_nat (op_stream_len header)) op_stream in
  let lit_stream := drop (Z.to_nat (diff_stream_len header)) diff_stream in
  Ok (header, block_size, take (Z.to_nat (op_stream_len header)) op_stream,
      take (Z.to_nat (diff_stream_len header)) diff_stream, lit_stream).

Definition fsd_patch_apply {R} `{SourceReader R} (env : patch_env R) : patch_result :=
  match pe_source env with
  | Ok src_reader =>
      match pe_patch env with
      | Ok patch_data =>
          match open_streams patch_data with
          | Ok (header, block_size, ops, diffs, lits) =>
              match pe_fopen env with
              | None => mkResult (Err FSD_ERR_IO) None false []
              | Some out =>
                  if negb (pe_malloc env block_size)
                  then mkResult (Err FSD_ERR_OUT_OF_MEMORY) (Some out) false [] else
                  let s := mkP ops diffs lits 0 src_reader out [] in
                  let '(r, s) := apply_ops block_size (dest_blocks header) (pe_has_progress env) s in
                  mkResult r (Some (output s))
                    (match r with Ok _ => false | _ => pe_output_regular env end) (progress s)
              end
          | e => early e
          end
      | e => early e
      end
  | e => early e
  end.

(** * fsd_patch_read_header and fsd_patch_output_size *)

(** [fopen] is the stream for the path in mode "rb". *)
Definition fsd_patch_read_header (fopen : option FILE) : outcome fsd_header_t :=
  match fopen with
  | None => Err FSD_ERR_FILE_NOT_FOUND
  | Some f => fst (fsd_header_read (Some f))
  end.

Definition fsd_patch_output_size (fopen : option FILE) : outcome Z :=
  header ← fsd_patch_read_header fopen;
  let block_size := Z.shiftl 1 (block_size_log2 header) in
  if UINT64_MAX / block_size <? dest_blocks header then Err FSD_ERR_CORRUPT_DATA
  else Ok (u64 (dest_blocks header * block_size)).
