(* ===== verification/Matches.v ===== *)
(** What the matching stages owe the encoder.

    [block_sound] says that the record of a destination block tells the truth
    about the source image, [tracker_sound] that every record does.  The stages
    (identity, relocation, partial) only change the tracker by the calls treated
    here, each of which keeps it truthful when the match it records is real; the
    encoder's theorems start from [tracker_sound]. *)

From S2P Require Import Prelude Tracker Patch.
From stdpp Require Import base list numbers tactics.
From Stdlib Require Import ZArith Lia.
Open Scope Z_scope.

(** * What the tracker claims about the images *)

Definition block_sound (bs : Z) (src dest : bytes) (j : Z) (st : fsd_block_state_t) : Prop :=
  let blk := slice (j * bs) bs dest in
  match match_type st with
  | FSD_MATCH_NONE => True
  | FSD_MATCH_IDENTITY => (j + 1) * bs ≤ zlen src ∧ blk = slice (j * bs) bs src
  | FSD_MATCH_RELOCATE =>
      0 ≤ src_index st ∧ (src_index st + 1) * bs ≤ zlen src ∧
      blk = slice (src_index st * bs) bs src
  | FSD_MATCH_ZERO => blk = fill bs 0
  | FSD_MATCH_ONE => blk = fill bs 255
  | FSD_MATCH_PARTIAL =>
      let p := src_index st * bs + byte_offset st in
      0 ≤ p ∧ p + bs ≤ zlen src ∧
      ∃ d, delta st = Some d ∧ delta_size st = bs ∧ zlen d = bs ∧ bytes_ok d ∧
           blk = add_bytes (slice p bs src) d
  end.

(** The tracker describes [dest], an image of [dbs] blocks, relative to [src]. *)
Record tracker_sound (bs dbs : Z) (src dest : bytes) (t : fsd_block_tracker_t) : Prop := {
  ts_size : 32 ≤ bs ≤ 2 ^ 24;
  ts_count : count t = dbs;
  ts_blocks : zlen (blocks t) = dbs;
  ts_max : dbs < 2 ^ 32;
  ts_dest : zlen dest = dbs * bs;
  ts_dest_ok : bytes_ok dest;
  ts_src : zlen src ≤ 2 ^ 62;
  ts_src_ok : bytes_ok src;
  ts_sound j st : 0 ≤ j → blocks t !! Z.to_nat j = Some st → block_sound bs src dest j st
}.

(** * The calls a stage makes *)

(** A tracker and the two images it is about. *)
Definition matching (bs dbs : Z) (src dest : bytes) (t : fsd_block_tracker_t) : Prop :=
  tracker_ok t ∧ tracker_sound bs dbs src dest t.

(** Nothing that was matched before is touched. *)
Definition keeps_matches (t t' : fsd_block_tracker_t) : Prop :=
  ∀ j s, blocks t !! j = Some s → match_type s ≠ FSD_MATCH_NONE → blocks t' !! j = Some s.

Lemma keeps_matches_refl t : keeps_matches t t.
Proof. by intros j s H _. Qed.

Lemma keeps_matches_trans t1 t2 t3 : keeps_matches t1 t2 → keeps_matches t2 t3 → keeps_matches t1 t3.
Proof. intros H1 H2 j s Hj Hs. apply H2; [|done]. by apply H1. Qed.

Section Calls.
Context {bs dbs : Z} {src dest : bytes}.

(** The effect of a call on one unmatched block: only its record changes. *)
Record one_block (t t' : fsd_block_tracker_t) (i : Z) (s' : fsd_block_state_t) : Prop := {
  ob_blocks : blocks t' = <[Z.to_nat i := s']> (blocks t);
  ob_count : count t' = count t;
  ob_ok : tracker_ok t'
}.

Lemma one_block_matching t t' i s s' :
  matching bs dbs src dest t → 0 ≤ i → blocks t !! Z.to_nat i = Some s → match_type s = FSD_MATCH_NONE →
  one_block t t' i s' → block_sound bs src dest i s' →
  matching bs dbs src dest t' ∧ keeps_matches t t'.
Proof.
  intros [Hok Hs] Hi Hsi Hn [Hb Hc Hok'] Hsound.
  assert (Hlt : (Z.to_nat i < length (blocks t))%nat) by (by eapply lookup_lt_Some).
  split; [split; [done|]|].
  - destruct Hs. constructor; try done.
    + by rewrite Hc.
    + rewrite Hb. zl.
    + intros j st Hj. rewrite Hb. destruct (decide (i = j)) as [<-|Hne].
      * rewrite list_lookup_insert_eq by done. by intros [= <-].
      * rewrite list_lookup_insert_ne by lia. auto.
  - intros j st Hj Hm. rewrite Hb, list_lookup_insert_ne; [done|]. intros <-. congruence.
Qed.

Lemma set_match_one_block t i m sidx s :
  tracker_ok t → 0 ≤ i < count t → blocks t !! Z.to_nat i = Some s → match_type s = FSD_MATCH_NONE →
  m ≠ FSD_MATCH_NONE →
  one_block t (fsd_block_tracker_set_match t i m sidx) i (set_mt_src m sidx s).
Proof.
  intros Hok Hi Hs Hn Hm. constructor.
  - by rewrite (set_match_unmatched t i m sidx s) by done.
  - by rewrite (set_match_unmatched t i m sidx s) by done.
  - apply set_match_ok; [done|lia|done].
Qed.

Lemma set_crc32_one_block t i c s :
  tracker_ok t → 0 ≤ i < count t → blocks t !! Z.to_nat i = Some s →
  one_block t (fsd_block_tracker_set_crc32 t i c) i (set_crc c s).
Proof.
  intros Hok Hi Hs. constructor; [| |by apply set_crc32_ok];
    unfold fsd_block_tracker_set_crc32; destruct (Z.leb_spec (count t) i); try lia; [|done].
  cbn. by apply alter_as_insert.
Qed.

(** A partial match is recorded by two calls. *)
Lemma set_partial_one_block t i sidx off d n s :
  tracker_ok t → 0 ≤ i < count t → blocks t !! Z.to_nat i = Some s → match_type s = FSD_MATCH_NONE →
  one_block t (fsd_block_tracker_set_delta
                 (fsd_block_tracker_set_match t i FSD_MATCH_PARTIAL sidx) i off d n) i
    (set_dlt off (Some d) n (set_mt_src FSD_MATCH_PARTIAL sidx s)).
Proof.
  intros Hok Hi Hs Hn.
  destruct (set_match_one_block t i FSD_MATCH_PARTIAL sidx s Hok Hi Hs Hn) as [Hb Hc Hok1]; [done|].
  assert (Hlt : (Z.to_nat i < length (blocks t))%nat) by (by eapply lookup_lt_Some).
  constructor; [| |by apply set_delta_ok];
    unfold fsd_block_tracker_set_delta; rewrite Hc; destruct (Z.leb_spec (count t) i); try lia; [|done].
  cbn [blocks upd_blocks]. rewrite Hb.
  rewrite (alter_as_insert _ _ _ (set_mt_src FSD_MATCH_PARTIAL sidx s)) by (by rewrite list_lookup_insert_eq).
  by rewrite list_insert_insert_eq.
Qed.

(** What a stage sees of an unmatched block. *)
Lemma matching_get t i :
  matching bs dbs src dest t → 0 ≤ i < dbs →
  ∃ s, fsd_block_tracker_get t i = Some s ∧ blocks t !! Z.to_nat i = Some s ∧
    fsd_block_tracker_is_unmatched t i = is_none s.
Proof.
  intros [Hok Hs] Hi. destruct (tracker_get_some t i) as (s & Hg & Hb).
  - apply Hok.
  - rewrite (ts_count _ _ _ _ _ Hs). done.
  - exists s. split_and!; [done|done|]. by apply is_unmatched_spec; [| |lia].
Qed.

(** Block [i] of the destination. *)
Lemma matching_block t i :
  matching bs dbs src dest t → 0 ≤ i < dbs →
  0 ≤ i * bs ∧ i * bs + bs ≤ zlen dest ∧ zlen (slice (i * bs) bs dest) = bs.
Proof.
  intros [_ Hs] Hi. pose proof (ts_dest _ _ _ _ _ Hs). pose proof (ts_size _ _ _ _ _ Hs).
  assert (i * bs + bs ≤ dbs * bs) by nia. assert (0 ≤ i * bs) by nia.
  split_and!; [lia|lia|]. rewrite zlen_slice; lia.
Qed.

End Calls.

(** * The start of a diff *)

(** The images of a diff: whole blocks of [dest], sizes within the format's
    limits. *)
Record images (bs dbs : Z) (src dest : bytes) : Prop := {
  im_size : 32 ≤ bs ≤ 2 ^ 24;
  im_blocks : 0 < dbs < 2 ^ 32;
  im_dest : zlen dest = dbs * bs;
  im_dest_ok : bytes_ok dest;
  im_src : zlen src ≤ 2 ^ 62;
  im_src_ok : bytes_ok src
}.

Definition all_unmatched (t : fsd_block_tracker_t) : Prop :=
  Forall (fun s => match_type s = FSD_MATCH_NONE) (blocks t).

(** A new tracker is truthful: it claims nothing. *)
Lemma created_matching malloc_ok bs dbs src dest t :
  images bs dbs src dest → fsd_block_tracker_create malloc_ok dbs bs = Ok t →
  matching bs dbs src dest t ∧ all_unmatched t ∧ block_size t = bs.
Proof.
  intros [] Hc. destruct (tracker_create_ok malloc_ok dbs bs t) as (Hok & Hcount & Hbs & Hall); [lia|lia|done|].
  split_and!; [|done|done]. split; [done|]. constructor; try done; try lia.
  - rewrite <- Hcount. apply Hok.
  - intros j st Hj Hst. rewrite Forall_lookup in Hall. unfold block_sound. by rewrite (Hall _ _ Hst).
Qed.

(** ** A small pair of images: three blocks of 32 bytes against two *)

Definition demo_src : bytes := fill 32 7 ++ fill 32 9.
Definition demo_dest : bytes := fill 32 0 ++ fill 32 7 ++ ([10; 11] ++ fill 30 9).

Lemma demo_images : images 32 3 demo_src demo_dest.
Proof. constructor; try lia; try (by apply bytes_okb); vm_compute; congruence. Qed.

Definition fresh_tracker : fsd_block_tracker_t :=
  match fsd_block_tracker_create (fun _ => true) 3 32 with
  | Ok t => t
  | _ => mkTracker [] 0 0 [] 0 0 0 0 0 0 0
  end.

Lemma fresh_tracker_matching :
  matching 32 3 demo_src demo_dest fresh_tracker ∧ all_unmatched fresh_tracker ∧ block_size fresh_tracker = 32.
Proof. by apply (created_matching (fun _ => true)), (eq_refl : _ = Ok fresh_tracker); apply demo_images. Qed.
