(* ===== verification/StageIdentity.v ===== *)
(** The identity stage (src/stages/stage_identity.c).

    The first pass over the destination: blocks that are all zeros or all 0xFF
    are recorded as such, blocks equal to the source block at the same position
    as identities, and the checksum of every other block is kept for the
    relocation stage.  Shown here: the stage never reads outside the images and
    classifies every block exactly.  The progress lines it prints when verbose
    are not modelled. *)

From stdpp Require Import base list numbers tactics.
From Stdlib Require Import ZArith Lia.
From S2P Require Import Prelude Crc32 Simd Tracker Patch Matches.
Open Scope Z_scope.

(** * The program *)

(** A block is a pointer [off] into an image.  The fallback walks [uint64_t]
    words, then the remaining bytes. *)
Definition is_zero_block (g : fsd_simd_dispatch_t) (image : bytes) (off size : Z) : outcome bool :=
  match sd_is_zero g with
  | Some f => f image off size
  | None => all_scan (fun word => le_val word =? 0) 8 0 image off size
  end.

Definition is_one_block (g : fsd_simd_dispatch_t) (image : bytes) (off size : Z) : outcome bool :=
  match sd_is_one g with
  | Some f => f image off size
  | None => all_scan (fun word => le_val word =? u64 (Z.lnot 0)) 8 0xFF image off size
  end.

Record fsd_identity_stage_t := mkIdentity { is_block_size : Z }.

Definition fsd_identity_stage_create (malloc_ok : allocator) (block_size : Z) : outcome fsd_identity_stage_t :=
  if block_size =? 0 then Err FSD_ERR_INVALID_ARG else
  if negb (malloc_ok 16) then Err FSD_ERR_OUT_OF_MEMORY else
  Ok (mkIdentity block_size).

(** [memcmp(a + ao, b + bo, n) == 0]. *)
Definition mem_equal (a : bytes) (ao : Z) (b : bytes) (bo n : Z) : outcome bool :=
  x ← load ao n a;
  y ← load bo n b;
  Ok (bool_decide (x = y)).

(** The pointer [image + off]. *)
Definition from (image : bytes) (off : Z) : bytes := drop (Z.to_nat off) image.

Section Run.
Context (g : fsd_simd_dispatch_t) (block_size : Z) (src dest : bytes).

(** The loop over the blocks that exist in both images, from [i], [n] of them. *)
Fixpoint common_loop (n : nat) (i : Z) (tracker : fsd_block_tracker_t) : outcome fsd_block_tracker_t :=
  match n with
  | O => Ok tracker
  | S n =>
      let block := u64 (i * block_size) in
      zero ← is_zero_block g dest block block_size;
      if (zero : bool) then common_loop n (i + 1) (fsd_block_tracker_set_match tracker i FSD_MATCH_ZERO 0) else
      one ← is_one_block g dest block block_size;
      if (one : bool) then common_loop n (i + 1) (fsd_block_tracker_set_match tracker i FSD_MATCH_ONE 0) else
      same ← mem_equal src block dest block block_size;
      if (same : bool) then common_loop n (i + 1) (fsd_block_tracker_set_match tracker i FSD_MATCH_IDENTITY i) else
      crc ← fsd_crc32 (from dest block) block_size;
      common_loop n (i + 1) (fsd_block_tracker_set_crc32 tracker i crc)
  end.

(** The loop over the blocks beyond the end of the source. *)
Fixpoint dest_only_loop (n : nat) (i : Z) (tracker : fsd_block_tracker_t) : outcome fsd_block_tracker_t :=
  match n with
  | O => Ok tracker
  | S n =>
      let block := u64 (i * block_size) in
      zero ← is_zero_block g dest block block_size;
      if (zero : bool) then dest_only_loop n (i + 1) (fsd_block_tracker_set_match tracker i FSD_MATCH_ZERO 0) else
      one ← is_one_block g dest block block_size;
      if (one : bool) then dest_only_loop n (i + 1) (fsd_block_tracker_set_match tracker i FSD_MATCH_ONE 0) else
      crc ← fsd_crc32 (from dest block) block_size;
      dest_only_loop n (i + 1) (fsd_block_tracker_set_crc32 tracker i crc)
  end.
End Run.

Definition fsd_identity_stage_run (g : fsd_simd_dispatch_t) (stage : fsd_identity_stage_t)
    (tracker : fsd_block_tracker_t) (src : bytes) (src_blocks : Z) (dest : bytes) (dest_blocks : Z)
  : outcome fsd_block_tracker_t :=
  let block_size := is_block_size stage in
  let common_blocks := if src_blocks <? dest_blocks then src_blocks else dest_blocks in
  tracker ← common_loop g block_size src dest (Z.to_nat common_blocks) 0 tracker;
  dest_only_loop g block_size dest (Z.to_nat (dest_blocks - common_blocks)) common_blocks tracker.

(** * Specification *)

(** The checksum of a block. *)
Definition crc_of (blk : bytes) : Z := fsd_crc32_final (crc_bits (u32 (Z.lnot 0)) blk).

(** What the stage makes of the record [s] of block [i]. *)
Definition identity_record (bs : Z) (src : bytes) (src_blocks : Z) (dest : bytes) (i : Z)
    (s : fsd_block_state_t) : fsd_block_state_t :=
  let blk := slice (i * bs) bs dest in
  if all_eq 0 blk then set_mt_src FSD_MATCH_ZERO 0 s
  else if all_eq 255 blk then set_mt_src FSD_MATCH_ONE 0 s
  else if (i <? src_blocks) && bool_decide (slice (i * bs) bs src = blk)
  then set_mt_src FSD_MATCH_IDENTITY i s
  else set_crc (crc_of blk) s.

(** * Proofs *)

Lemma all_eq_fill v blk n : 0 ≤ n → zlen blk = n → all_eq v blk = true → blk = fill n v.
Proof.
  intros Hn Hl H. apply all_eq_true in H. rewrite H. unfold fill. f_equal. unfold zlen in Hl. lia.
Qed.

Section Proofs.
Context {g : fsd_simd_dispatch_t} (Hg : simd_ok g).

Lemma is_zero_block_spec image off size :
  bytes_ok image → 0 ≤ off → 0 ≤ size → off + size ≤ zlen image →
  is_zero_block g image off size = Ok (all_eq 0 (slice off size image)).
Proof.
  intros. unfold is_zero_block. destruct (sd_is_zero g) as [f|] eqn:E.
  - by apply (so_zero g Hg).
  - by apply (so_zero _ scalar_ok fsd_scalar_is_zero eq_refl).
Qed.

Lemma is_one_block_spec image off size :
  bytes_ok image → 0 ≤ off → 0 ≤ size → off + size ≤ zlen image →
  is_one_block g image off size = Ok (all_eq 255 (slice off size image)).
Proof.
  intros. unfold is_one_block. destruct (sd_is_one g) as [f|] eqn:E.
  - by apply (so_one g Hg).
  - by apply (so_one _ scalar_ok fsd_scalar_is_one eq_refl).
Qed.

Lemma mem_equal_spec a ao b bo n :
  0 ≤ ao → 0 ≤ bo → 0 ≤ n → ao + n ≤ zlen a → bo + n ≤ zlen b →
  mem_equal a ao b bo n = Ok (bool_decide (slice ao n a = slice bo n b)).
Proof. intros. unfold mem_equal. by rewrite !load_ok by lia. Qed.

Lemma crc_from_spec image off size :
  bytes_ok image → 0 ≤ off → 0 ≤ size → off + size ≤ zlen image →
  fsd_crc32 (from image off) size = Ok (crc_of (slice off size image)).
Proof.
  intros Hok Ho Hs Hl. unfold from. rewrite fsd_crc32_eq.
  - done.
  - unfold bytes_ok in *. by apply Forall_drop.
  - unfold zlen in *. rewrite length_drop. lia.
Qed.

Context {bs dbs : Z} {src dest : bytes} {src_blocks : Z}.
Context (Hsb : 0 ≤ src_blocks) (Hsrc : src_blocks * bs ≤ zlen src).

Abbreviation record i s := (identity_record bs src src_blocks dest i s).

(** The record is truthful. *)
Lemma identity_record_sound t i s :
  matching bs dbs src dest t → 0 ≤ i < dbs → match_type s = FSD_MATCH_NONE →
  block_sound bs src dest i (record i s).
Proof.
  intros Hm Hi Hn. destruct (matching_block _ _ Hm Hi) as (H0 & H1 & Hz). destruct Hm as [_ Hts].
  pose proof (ts_size _ _ _ _ _ Hts). unfold identity_record.
  destruct (all_eq 0 _) eqn:E0; [cbn; apply all_eq_fill; [lia|done..]|].
  destruct (all_eq 255 _) eqn:E1; [cbn; apply all_eq_fill; [lia|done..]|].
  destruct (Z.ltb_spec i src_blocks); cbn [andb]; [|by unfold block_sound; cbn; rewrite Hn].
  case_bool_decide as E; [|by unfold block_sound; cbn; rewrite Hn].
  unfold block_sound. cbn. split; [|done]. nia.
Qed.

(** The tracker after [i] blocks, started from [t0]. *)
Definition processed (t0 : fsd_block_tracker_t) (i : Z) (t : fsd_block_tracker_t) : Prop :=
  matching bs dbs src dest t ∧
  ∀ j s, blocks t0 !! j = Some s → blocks t !! j = Some (if Z.of_nat j <? i then record (Z.of_nat j) s else s).

Lemma processed_step t0 t t' i s :
  processed t0 i t → 0 ≤ i < dbs → blocks t0 !! Z.to_nat i = Some s → match_type s = FSD_MATCH_NONE →
  one_block t t' i (record i s) → processed t0 (i + 1) t'.
Proof.
  intros [Hm Hp] Hi Hs Hn Hob.
  assert (Hti : blocks t !! Z.to_nat i = Some s).
  { rewrite (Hp _ _ Hs). destruct (Z.ltb_spec (Z.of_nat (Z.to_nat i)) i); [lia|done]. }
  destruct (one_block_matching (bs := bs) (dbs := dbs) (src := src) (dest := dest) t t' i s (record i s)) as [Hm' _]; [done|lia|done|done|done| |].
  { by eapply identity_record_sound. }
  split; [done|]. intros j s' Hj. rewrite (ob_blocks _ _ _ _ Hob).
  destruct (decide (j = Z.to_nat i)) as [->|Hne].
  - rewrite list_lookup_insert_eq by (by eapply lookup_lt_Some).
    destruct (Z.ltb_spec (Z.of_nat (Z.to_nat i)) (i + 1)); [|lia].
    rewrite Z2Nat.id by lia. congruence.
  - rewrite list_lookup_insert_ne by done. rewrite (Hp _ _ Hj).
    destruct (Z.ltb_spec (Z.of_nat j) i), (Z.ltb_spec (Z.of_nat j) (i + 1)); try done; lia.
Qed.

(** The block at [i] during the loops. *)
Lemma processed_block t0 t i :
  Forall (fun s => match_type s = FSD_MATCH_NONE) (blocks t0) → processed t0 i t → 0 ≤ i < dbs →
  zlen (blocks t0) = dbs →
  u64 (i * bs) = i * bs ∧ ∃ s, blocks t0 !! Z.to_nat i = Some s ∧ match_type s = FSD_MATCH_NONE ∧
    blocks t !! Z.to_nat i = Some s ∧ tracker_ok t ∧ 0 ≤ i < count t.
Proof.
  intros Hf [Hm Hp] Hi Hl. destruct (matching_block _ _ Hm Hi) as (H0 & H1 & Hz).
  pose proof Hm as [Hok Hts]. split.
  { apply wrap_small. pose proof (ts_dest _ _ _ _ _ Hts). pose proof (ts_size _ _ _ _ _ Hts).
    pose proof (ts_max _ _ _ _ _ Hts). nia. }
  destruct (lookup_lt_is_Some_2 (blocks t0) (Z.to_nat i)) as [s Hs]; [unfold zlen in Hl; lia|].
  exists s. rewrite Forall_lookup in Hf. split_and!; [done|by eapply Hf| |done|lia|].
  - rewrite (Hp _ _ Hs). destruct (Z.ltb_spec (Z.of_nat (Z.to_nat i)) i); [lia|done].
  - rewrite (ts_count _ _ _ _ _ Hts). lia.
Qed.

Context {t0 : fsd_block_tracker_t} (Hfresh : Forall (fun s => match_type s = FSD_MATCH_NONE) (blocks t0)).
Context (Ht0 : zlen (blocks t0) = dbs).

Lemma common_loop_spec n i t :
  processed t0 i t → 0 ≤ i → i + Z.of_nat n ≤ dbs → i + Z.of_nat n ≤ src_blocks →
  ∃ t', common_loop g bs src dest n i t = Ok t' ∧ processed t0 (i + Z.of_nat n) t'.
Proof.
  revert i t. induction n as [|n IH]; intros i t Hp Hi Hd Hs; cbn [common_loop].
  { exists t. split; [done|]. by rewrite Z.add_0_r. }
  destruct (processed_block t0 t i Hfresh Hp ltac:(lia) Ht0) as (-> & s & Hs0 & Hn & Hsi & Hok & Hc).
  destruct (matching_block _ i (proj1 Hp) ltac:(lia)) as (H0 & H1 & Hz).
  pose proof (ts_dest_ok _ _ _ _ _ (proj2 (proj1 Hp))) as Hdok.
  pose proof (ts_size _ _ _ _ _ (proj2 (proj1 Hp))) as Hbs.
  assert (Hib : i * bs + bs ≤ zlen src) by nia.
  assert (Hnext : ∀ t', one_block t t' i (record i s) →
    ∃ t'', common_loop g bs src dest n (i + 1) t' = Ok t'' ∧ processed t0 (i + Z.of_nat (S n)) t'').
  { intros t' Hob. replace (i + Z.of_nat (S n)) with (i + 1 + Z.of_nat n) by lia.
    apply IH; [|lia..]. eapply processed_step; eauto. lia. }
  clear IH. unfold identity_record in Hnext.
  rewrite is_zero_block_spec by (done || lia). cbn [mbind outcome_bind].
  destruct (all_eq 0 _); [by apply Hnext, set_match_one_block|].
  rewrite is_one_block_spec by (done || lia). cbn [mbind outcome_bind].
  destruct (all_eq 255 _); [by apply Hnext, set_match_one_block|].
  rewrite mem_equal_spec by lia. cbn [mbind outcome_bind].
  destruct (Z.ltb_spec i src_blocks); [|lia]. cbn [andb] in Hnext.
  destruct (bool_decide _); [by apply Hnext, set_match_one_block|].
  rewrite crc_from_spec by (done || lia). cbn [mbind outcome_bind].
  by apply Hnext, set_crc32_one_block.
Qed.

Lemma dest_only_loop_spec n i t :
  processed t0 i t → 0 ≤ i → i + Z.of_nat n ≤ dbs → src_blocks ≤ i →
  ∃ t', dest_only_loop g bs dest n i t = Ok t' ∧ processed t0 (i + Z.of_nat n) t'.
Proof.
  revert i t. induction n as [|n IH]; intros i t Hp Hi Hd Hs; cbn [dest_only_loop].
  { exists t. split; [done|]. by rewrite Z.add_0_r. }
  destruct (processed_block t0 t i Hfresh Hp ltac:(lia) Ht0) as (-> & s & Hs0 & Hn & Hsi & Hok & Hc).
  destruct (matching_block _ i (proj1 Hp) ltac:(lia)) as (H0 & H1 & Hz).
  pose proof (ts_dest_ok _ _ _ _ _ (proj2 (proj1 Hp))) as Hdok.
  pose proof (ts_size _ _ _ _ _ (proj2 (proj1 Hp))) as Hbs.
  assert (Hnext : ∀ t', one_block t t' i (record i s) →
    ∃ t'', dest_only_loop g bs dest n (i + 1) t' = Ok t'' ∧ processed t0 (i + Z.of_nat (S n)) t'').
  { intros t' Hob. replace (i + Z.of_nat (S n)) with (i + 1 + Z.of_nat n) by lia.
    apply IH; [|lia..]. eapply processed_step; eauto. lia. }
  clear IH. unfold identity_record in Hnext.
  rewrite is_zero_block_spec by (done || lia). cbn [mbind outcome_bind].
  destruct (all_eq 0 _); [by apply Hnext, set_match_one_block|].
  rewrite is_one_block_spec by (done || lia). cbn [mbind outcome_bind].
  destruct (all_eq 255 _); [by apply Hnext, set_match_one_block|].
  destruct (Z.ltb_spec i src_blocks); [lia|]. cbn [andb] in Hnext.
  rewrite crc_from_spec by (done || lia). cbn [mbind outcome_bind].
  by apply Hnext, set_crc32_one_block.
Qed.

End Proofs.

Lemma identity_run_spec g bs dbs src src_blocks dest t0 :
  simd_ok g → matching bs dbs src dest t0 → all_unmatched t0 →
  0 ≤ src_blocks → src_blocks * bs ≤ zlen src →
  ∃ t, fsd_identity_stage_run g (mkIdentity bs) t0 src src_blocks dest dbs = Ok t ∧
    matching bs dbs src dest t ∧
    ∀ j s, blocks t0 !! j = Some s → blocks t !! j = Some (identity_record bs src src_blocks dest (Z.of_nat j) s).
Proof.
  intros Hg Hm Hf Hsb Hsrc. unfold fsd_identity_stage_run. cbn [is_block_size].
  pose proof (ts_blocks _ _ _ _ _ (proj2 Hm)) as Hl. pose proof (zlen_nonneg (blocks t0)).
  set (common := if src_blocks <? dbs then src_blocks else dbs).
  assert (Hc : 0 ≤ common ≤ dbs ∧ common ≤ src_blocks ∧ (common < dbs → common = src_blocks))
    by (unfold common; destruct (Z.ltb_spec src_blocks dbs); lia).
  clearbody common.
  assert (Hp0 : processed (bs := bs) (dbs := dbs) (src := src) (dest := dest) (src_blocks := src_blocks) t0 0 t0).
  { split; [done|]. intros j s Hj. rewrite Hj. destruct (Z.ltb_spec (Z.of_nat j) 0); [lia|done]. }
  destruct (common_loop_spec Hg Hsrc Hf Hl (Z.to_nat common) 0 t0 Hp0) as (t1 & -> & Hp1); [lia..|].
  cbn [mbind outcome_bind]. rewrite Z2Nat.id, Z.add_0_l in Hp1 by lia.
  assert (∃ t, dest_only_loop g bs dest (Z.to_nat (dbs - common)) common t1 = Ok t ∧
    processed (bs := bs) (dbs := dbs) (src := src) (dest := dest) (src_blocks := src_blocks) t0 dbs t)
    as (t & Hr & Hm' & Hp).
  { destruct (decide (common = dbs)) as [->|Hne].
    - rewrite Z.sub_diag. by exists t1.
    - destruct (dest_only_loop_spec Hg Hsrc Hf Hl (Z.to_nat (dbs - common)) common t1 Hp1)
        as (t & ? & Hp); [lia..|].
      exists t. split; [done|]. rewrite Z2Nat.id in Hp by lia.
      by replace (common + (dbs - common)) with dbs in Hp by lia. }
  exists t. split_and!; [done|done|]. intros j s Hj. rewrite (Hp _ _ Hj).
  apply lookup_lt_Some in Hj. destruct (Z.ltb_spec (Z.of_nat j) dbs); [done|unfold zlen in Hl; lia].
Qed.

(** * Properties *)

(** C15: the identity stage, run on a new tracker with any dispatch table that
    computes its specification, reads nothing outside the images and classifies
    every destination block exactly: as zero iff it is all zeros, as one iff it
    is all 0xFF, as an identity iff it is neither, the source has a block at that
    position and the two are equal; any other block stays unmatched and its
    CRC-32 is recorded.  The tracker stays consistent and truthful. *)
Theorem identity_stage_exact g bs dbs src src_blocks dest t0 :
  simd_ok g → matching bs dbs src dest t0 → all_unmatched t0 →
  0 ≤ src_blocks → src_blocks * bs ≤ zlen src →
  ∃ t, fsd_identity_stage_run g (mkIdentity bs) t0 src src_blocks dest dbs = Ok t ∧
    matching bs dbs src dest t ∧
    ∀ i, 0 ≤ i < dbs →
      let blk := slice (i * bs) bs dest in
      ∃ s, fsd_block_tracker_get t i = Some s ∧
        (match_type s = FSD_MATCH_ZERO ↔ blk = fill bs 0) ∧
        (match_type s = FSD_MATCH_ONE ↔ blk = fill bs 255) ∧
        (match_type s = FSD_MATCH_IDENTITY ↔
           blk ≠ fill bs 0 ∧ blk ≠ fill bs 255 ∧ i < src_blocks ∧ slice (i * bs) bs src = blk) ∧
        (match_type s = FSD_MATCH_NONE → crc32 s = crc_of blk) ∧
        (match_type s = FSD_MATCH_ZERO ∨ match_type s = FSD_MATCH_ONE ∨ match_type s = FSD_MATCH_IDENTITY ∨
         match_type s = FSD_MATCH_NONE).
Proof.
  intros Hg Hm Hf Hsb Hsrc.
  destruct (identity_run_spec g bs dbs src src_blocks dest t0 Hg Hm Hf Hsb Hsrc) as (t & Hr & Hm' & Hrec).
  exists t. split_and!; [done|done|]. intros i Hi blk.
  destruct (matching_get t i Hm' Hi) as (s' & Hget & Hs' & _).
  destruct (matching_get t0 i Hm Hi) as (s & _ & Hs & _).
  specialize (Hrec _ _ Hs). rewrite Z2Nat.id in Hrec by lia. rewrite Hs' in Hrec.
  injection Hrec as ->. eexists. split; [done|].
  assert (Hn : match_type s = FSD_MATCH_NONE) by (unfold all_unmatched in Hf; rewrite Forall_lookup in Hf; eauto).
  destruct (matching_block t i Hm' Hi) as (_ & _ & Hz). pose proof (ts_size _ _ _ _ _ (proj2 Hm)) as Hbs.
  assert (Hall : ∀ v, all_eq v blk = true ↔ blk = fill bs v).
  { intros v. split; [apply all_eq_fill; [lia|done]|]. intros ->. apply all_eq_true.
    unfold fill. by rewrite length_replicate. }
  assert (Hne : fill bs 0 ≠ fill bs 255).
  { intros He. apply (f_equal (fun l => l !! 0%nat)) in He. unfold fill in He.
    rewrite !lookup_replicate_2 in He by lia. done. }
  unfold identity_record. change (slice (i * bs) bs dest) with blk.
  assert (Hcase : ∀ v, if all_eq v blk then blk = fill bs v else blk ≠ fill bs v).
  { intros v. specialize (Hall v). destruct (all_eq v blk); [by apply Hall|]. intros Hv. by apply Hall in Hv. }
  pose proof (Hcase 0) as H0. pose proof (Hcase 255) as H1. clear Hall Hcase.
  destruct (all_eq 0 blk); [cbn; intuition congruence|].
  destruct (all_eq 255 blk); [cbn; intuition congruence|].
  destruct (Z.ltb_spec i src_blocks); cbn [andb]; [|cbn; rewrite Hn; intuition (congruence || lia)].
  case_bool_decide; cbn; rewrite ?Hn; intuition congruence.
Qed.

Lemma identity_stage_exact_witness :
  ∃ t, fsd_identity_stage_run setup_scalar_dispatch (mkIdentity 32) fresh_tracker demo_src 2 demo_dest 3 = Ok t ∧
    matching 32 3 demo_src demo_dest t.
Proof.
  destruct fresh_tracker_matching as (Hm & Hf & _).
  destruct (identity_stage_exact setup_scalar_dispatch 32 3 demo_src 2 demo_dest fresh_tracker) as (t & Hr & Hm' & _).
  - apply scalar_ok.
  - exact Hm.
  - exact Hf.
  - lia.
  - vm_compute. discriminate.
  - exists t. split; [exact Hr|exact Hm'].
Defined.
