(* ===== verification/StageRelocation.v ===== *)
(** The relocation stage (src/stages/stage_relocation.c).

    An index from CRC-32 to source blocks, kept in a hash table in a memory pool,
    and a pass over the unmatched destination blocks that looks up each block's
    checksum and confirms a candidate by comparing the bytes.  The pool is used
    through the [Arena] interface of HashTable.v.  Shown here: the stage never
    reads outside the images, records only real copies, and, when no allocation
    of the index failed, finds one for every block that has one.  The progress
    lines it prints when verbose are not modelled. *)

From stdpp Require Import base list numbers tactics.
From Stdlib Require Import ZArith Lia.
From S2P Require Import Prelude Crc32 MemoryPool HashTable Simd Tracker Patch Matches StageIdentity.
Open Scope Z_scope.

(** * The program *)

Definition is_zero_block_quick (image : bytes) (off size : Z) : outcome bool :=
  let full := all_chunks (fun word => le_val word =? 0) 8 (Z.to_nat (size / 8)) 0 image off in
  if 16 <=? size then
    first ← load off 8 image;
    if negb (le_val first =? 0) then Ok false else
    last ← load (off + (size / 8 - 1) * 8) 8 image;
    if negb (le_val last =? 0) then Ok false else full
  else full.

Record fsd_relocation_stage_t (P : Type) := mkReloc {
  rl_block_size : Z;
  rl_src_blocks : Z;
  rl_src_hash : option fsd_hash_table_t;
  rl_pool : P
}.
Arguments mkReloc {P}.
Arguments rl_block_size {P}.
Arguments rl_src_blocks {P}.
Arguments rl_src_hash {P}.
Arguments rl_pool {P}.

Definition sizeof_reloc_stage : Z := 40.

(** The address of the pool structure, needed to destroy it, and the stage. *)
Definition fsd_relocation_stage_create {A} `{Allocator A} (malloc_ok : allocator) (block_size src_blocks : Z)
    (w : @world A) : outcome (Z * fsd_relocation_stage_t (fsd_memory_pool_t * @world A)) :=
  if block_size =? 0 then Err FSD_ERR_INVALID_ARG else
  if negb (malloc_ok sizeof_reloc_stage) then Err FSD_ERR_OUT_OF_MEMORY else
  match fsd_pool_create (1024 * 1024) 0 w with
  | (Ok (self, pool), w) => Ok (self, mkReloc block_size src_blocks None (pool, w))
  | (Err e, _) => Err e
  | (UB, _) => UB
  | (NoFuel, _) => NoFuel
  end.

Section Stage.
Context {P : Type} {AR : Arena P}.

(** The loop of fsd_relocation_stage_build_index over the source blocks. *)
Fixpoint index_loop (block_size : Z) (src : bytes) (n : nat) (i : Z) (src_hash : fsd_hash_table_t) (pool : P)
  : outcome (fsd_hash_table_t * P) :=
  match n with
  | O => Ok (src_hash, pool)
  | S n =>
      let block := u64 (i * block_size) in
      zero ← is_zero_block_quick src block block_size;
      if (zero : bool) then index_loop block_size src n (i + 1) src_hash pool else
      crc ← fsd_crc32 (from src block) block_size;
      '(src_hash, pool) ← fsd_hash_table_insert src_hash crc i pool;
      index_loop block_size src n (i + 1) src_hash pool
  end.

Definition fsd_relocation_stage_build_index (stage : fsd_relocation_stage_t P) (src : bytes)
  : outcome unit * fsd_relocation_stage_t P :=
  match fsd_hash_table_create (rl_src_blocks stage) (rl_pool stage) with
  | (Ok src_hash, pool) =>
      match index_loop (rl_block_size stage) src (Z.to_nat (rl_src_blocks stage)) 0 src_hash pool with
      | Ok (src_hash, pool) => (Ok tt, mkReloc (rl_block_size stage) (rl_src_blocks stage) (Some src_hash) pool)
      | Err e => (Err e, stage) | UB => (UB, stage) | NoFuel => (NoFuel, stage)
      end
  | (Err e, pool) => (Err e, mkReloc (rl_block_size stage) (rl_src_blocks stage) (rl_src_hash stage) pool)
  | (UB, _) => (UB, stage)
  | (NoFuel, _) => (NoFuel, stage)
  end.
End Stage.

(** The [while (entry)] loop: the chain from [entry] on. *)
Fixpoint candidate_loop (block_size : Z) (src dest : bytes) (dest_idx : Z) (entry : list fsd_hash_entry_t)
    (tracker : fsd_block_tracker_t) : outcome fsd_block_tracker_t :=
  match entry with
  | [] => Ok tracker
  | e :: next =>
      let src_idx := he_block_index e in
      if src_idx =? dest_idx then candidate_loop block_size src dest dest_idx next tracker else
      same ← mem_equal src (u64 (src_idx * block_size)) dest (u64 (dest_idx * block_size)) block_size;
      if (same : bool) then Ok (fsd_block_tracker_set_match tracker dest_idx FSD_MATCH_RELOCATE src_idx)
      else candidate_loop block_size src dest dest_idx next tracker
  end.

Fixpoint relocate_loop (block_size : Z) (src_hash : fsd_hash_table_t) (src dest : bytes) (n : nat) (dest_idx : Z)
    (tracker : fsd_block_tracker_t) : outcome fsd_block_tracker_t :=
  match n with
  | O => Ok tracker
  | S n =>
      if negb (fsd_block_tracker_is_unmatched tracker dest_idx)
      then relocate_loop block_size src_hash src dest n (dest_idx + 1) tracker
      else match fsd_block_tracker_get tracker dest_idx with
           | None => UB
           | Some state =>
               entry ← fsd_hash_table_lookup src_hash (crc32 state);
               tracker ← candidate_loop block_size src dest dest_idx entry tracker;
               relocate_loop block_size src_hash src dest n (dest_idx + 1) tracker
           end
  end.

Definition fsd_relocation_stage_run {P} (stage : fsd_relocation_stage_t P) (tracker : fsd_block_tracker_t)
    (src dest : bytes) : outcome fsd_block_tracker_t :=
  match rl_src_hash stage with
  | None => Err FSD_ERR_NOT_INITIALIZED
  | Some src_hash =>
      relocate_loop (rl_block_size stage) src_hash src dest (Z.to_nat (count tracker)) 0 tracker
  end.

(** * The index *)

(** Words that the quick test sees as zero: all of them, the last [size mod 8]
    bytes aside. *)
Definition zero_words (blk : bytes) : bool := all_eq 0 (slice 0 (zlen blk / 8 * 8) blk).

Lemma all_eq_slice v off n l : all_eq v l = true → all_eq v (slice off n l) = true.
Proof.
  rewrite <- (take_drop (Z.to_nat off) l), all_eq_app.
  rewrite <- (take_drop (Z.to_nat n) (drop (Z.to_nat off) l)), all_eq_app at 1.
  intros [_ [H _]%andb_prop]%andb_prop.
  rewrite !take_drop. exact H.
Qed.

Lemma le_val_zero_slice off image :
  bytes_ok image → 0 ≤ off → off + 8 ≤ zlen image →
  (le_val (slice off 8 image) =? 0) = all_eq 0 (slice off 8 image).
Proof.
  intros Hok H0 H1. apply (word_all 0); [by unfold is_byte|rewrite zlen_slice by lia; done|by apply bytes_ok_slice].
Qed.

Lemma is_zero_block_quick_spec image off size :
  bytes_ok image → 0 ≤ off → 0 ≤ size → off + size ≤ zlen image →
  is_zero_block_quick image off size = Ok (zero_words (slice off size image)).
Proof.
  intros Hok Ho Hs Hl. unfold is_zero_block_quick, zero_words.
  assert (Hq : 0 ≤ size / 8 * 8 ≤ size ∧ 0 ≤ size / 8) by zmod.
  rewrite zlen_slice by lia.
  rewrite slice_slice, Z.add_0_r by lia. rewrite (all_chunks_spec _ 8 0).
  2-5: lia || done.
  2: rewrite Z2Nat.id by lia; lia.
  2: { intros c Hc Hcok. by apply (word_all 0). }
  rewrite Z2Nat.id by lia. replace (off + 0 * 8) with off by lia.
  destruct (Z.leb_spec 16 size); [|done].
  assert (2 ≤ size / 8) by zmod.
  rewrite (load_ok off 8) by lia. cbn [mbind outcome_bind]. rewrite le_val_zero_slice by (done || lia).
  assert (Hpart : ∀ o, 0 ≤ o → o + 8 ≤ size / 8 * 8 →
    all_eq 0 (slice (off + o) 8 image) = false → all_eq 0 (slice off (size / 8 * 8) image) = false).
  { intros o Ho0 Ho1 Hf. apply not_true_is_false. intros Ht. apply (all_eq_slice 0 o 8) in Ht.
    rewrite slice_slice in Ht by lia. congruence. }
  destruct (all_eq 0 (slice off 8 image)) eqn:E0; cbn [negb].
  2:{ rewrite (Hpart 0); [done|lia|lia|]. by rewrite Z.add_0_r. }
  rewrite load_ok by lia. cbn [mbind outcome_bind]. rewrite le_val_zero_slice by (done || lia).
  destruct (all_eq 0 (slice (off + (size / 8 - 1) * 8) 8 image)) eqn:E1; cbn [negb]; [done|].
  rewrite (Hpart ((size / 8 - 1) * 8)); [done|lia|lia|done].
Qed.

(** The entries the index is built from, in the order of insertion. *)
Fixpoint index_entries (bs : Z) (src : bytes) (n : nat) (i : Z) : list fsd_hash_entry_t :=
  match n with
  | O => []
  | S n =>
      let blk := slice (i * bs) bs src in
      if zero_words blk then index_entries bs src n (i + 1)
      else mkEntry (crc_of blk) i :: index_entries bs src n (i + 1)
  end.

Lemma elem_of_index_entries bs src n i e :
  e ∈ index_entries bs src n i ↔
  ∃ k, i ≤ k < i + Z.of_nat n ∧ zero_words (slice (k * bs) bs src) = false ∧
       e = mkEntry (crc_of (slice (k * bs) bs src)) k.
Proof.
  revert i. induction n as [|n IH]; intros i; cbn [index_entries].
  { split; [by intros ?%elem_of_nil|]. intros (k & ? & _). lia. }
  assert (Hstep : (∃ k, i ≤ k < i + Z.of_nat (S n) ∧ zero_words (slice (k * bs) bs src) = false ∧
                        e = mkEntry (crc_of (slice (k * bs) bs src)) k) ↔
    (zero_words (slice (i * bs) bs src) = false ∧ e = mkEntry (crc_of (slice (i * bs) bs src)) i) ∨
    e ∈ index_entries bs src n (i + 1)).
  { rewrite IH. split.
    - intros (k & Hk & Hz & ->). destruct (decide (k = i)) as [->|]; [by left|right].
      exists k. split_and!; [lia|lia|done|done].
    - intros [[Hz ->]|(k & Hk & Hz & ->)]; [exists i|exists k]; (split; [lia|done]). }
  rewrite Hstep. destruct (zero_words (slice (i * bs) bs src)); [naive_solver|].
  rewrite elem_of_cons. naive_solver.
Qed.

Section Index.
Context {P : Type} {AR : Arena P} {ARS : ArenaSpec P} {ARL : ArenaLaws P}.

(** Building the index is inserting those entries. *)
Lemma index_loop_insert_all bs src n i h (p : P) :
  bytes_ok src → 0 ≤ bs → 0 ≤ i → (i + Z.of_nat n) * bs ≤ zlen src → zlen src < 2 ^ 64 →
  index_loop bs src n i h p = insert_all (index_entries bs src n i) h p.
Proof.
  intros Hok Hbs. revert i h p. induction n as [|n IH]; intros i h p Hi Hl Hm; [done|].
  cbn [index_loop index_entries].
  assert (0 ≤ i * bs) by nia. assert (0 ≤ Z.of_nat n * bs) by nia.
  assert (Hib : i * bs + bs ≤ zlen src) by lia.
  rewrite wrap_small by lia.
  rewrite is_zero_block_quick_spec by (done || lia). cbn [mbind outcome_bind].
  destruct (zero_words _); [apply IH; lia|].
  rewrite crc_from_spec by (done || lia). cbn [mbind outcome_bind insert_all he_crc32 he_block_index].
  destruct (fsd_hash_table_insert h _ i p) as [[h' p']| | |]; cbn [mbind outcome_bind]; try done.
  apply IH; lia.
Qed.

(** [h] indexes the accepted entries [l] of the source's blocks. *)
Record index_ok (bs : Z) (src : bytes) (src_blocks : Z) (h : fsd_hash_table_t) (l : list fsd_hash_entry_t) : Prop := {
  ix_table : table_ok h l;
  ix_entries : sublist l (rev (index_entries bs src (Z.to_nat src_blocks) 0))
}.

Lemma build_index_spec bs src src_blocks p :
  bytes_ok src → 0 ≤ bs → 0 ≤ src_blocks < 2 ^ 64 → src_blocks * bs ≤ zlen src → zlen src < 2 ^ 64 → arena_ok p →
  ∃ stage', fsd_relocation_stage_build_index (mkReloc bs src_blocks None p) src =
      ((match rl_src_hash stage' with Some _ => Ok tt | None => Err FSD_ERR_OUT_OF_MEMORY end), stage') ∧
    rl_block_size stage' = bs ∧ rl_src_blocks stage' = src_blocks ∧ arena_ok (rl_pool stage') ∧
    ∀ h, rl_src_hash stage' = Some h → ∃ l, index_ok bs src src_blocks h l.
Proof.
  intros Hok Hbs Hsb Hl Hm Hp. unfold fsd_relocation_stage_build_index. cbn [rl_src_blocks rl_block_size rl_src_hash rl_pool].
  destruct (fsd_hash_table_create_spec src_blocks p Hsb Hp) as (p1 & Hp1 & [->|(h0 & k & -> & Hh0 & _)]).
  { exists (mkReloc bs src_blocks None p1). split; [reflexivity|]. by split_and!. }
  rewrite index_loop_insert_all by (done || lia).
  destruct (insert_all_spec (index_entries bs src (Z.to_nat src_blocks) 0) h0 p1 [] Hh0 Hp1)
    as (h & p' & l & -> & Hp' & Hh & Hs).
  exists (mkReloc bs src_blocks (Some h) p'). split; [reflexivity|]. cbn. split_and!; try done.
  intros h' [= <-]. exists l. rewrite app_nil_r in Hh. by constructor.
Qed.

(** Nothing but the creation of the table fails. *)
Lemma build_index_created bs src src_blocks p :
  bytes_ok src → 0 ≤ bs → 0 ≤ src_blocks < 2 ^ 64 → src_blocks * bs ≤ zlen src → zlen src < 2 ^ 64 → arena_ok p →
  is_ok (fst (fsd_hash_table_create src_blocks p)) = true →
  fst (fsd_relocation_stage_build_index (mkReloc bs src_blocks None p) src) = Ok tt.
Proof.
  intros Hok Hbs Hsb Hl Hm Hp Hc. unfold fsd_relocation_stage_build_index. cbn [rl_src_blocks rl_block_size rl_src_hash rl_pool].
  destruct (fsd_hash_table_create_spec src_blocks p Hsb Hp) as (p1 & Hp1 & [E|(h0 & k & E & Hh0 & _)]);
    rewrite E in Hc |- *; [done|].
  rewrite index_loop_insert_all by (done || lia).
  by destruct (insert_all_spec (index_entries bs src (Z.to_nat src_blocks) 0) h0 p1 [] Hh0 Hp1)
    as (h & p' & l & -> & _).
Qed.

End Index.

(** * The search *)

Section Search.
Context {bs dbs : Z} {src dest : bytes} {src_blocks : Z}.
Context (Hsb : 0 ≤ src_blocks) (Hsrc : src_blocks * bs ≤ zlen src).

(** Source block [k] is a copy of destination block [i] from another place. *)
Definition copy_at (i k : Z) : Prop :=
  0 ≤ k < src_blocks ∧ k ≠ i ∧ slice (k * bs) bs src = slice (i * bs) bs dest.

Lemma candidate_loop_spec t i chain :
  matching bs dbs src dest t → 0 ≤ i < dbs → Forall (fun e => 0 ≤ he_block_index e < src_blocks) chain →
  (candidate_loop bs src dest i chain t = Ok t ∧ Forall (fun e => ¬ copy_at i (he_block_index e)) chain) ∨
  (∃ e, e ∈ chain ∧ copy_at i (he_block_index e) ∧
     candidate_loop bs src dest i chain t =
       Ok (fsd_block_tracker_set_match t i FSD_MATCH_RELOCATE (he_block_index e))).
Proof.
  intros Hm Hi. destruct (matching_block t i Hm Hi) as (H0 & H1 & Hz).
  pose proof (ts_size _ _ _ _ _ (proj2 Hm)). pose proof (ts_src _ _ _ _ _ (proj2 Hm)).
  pose proof (ts_dest _ _ _ _ _ (proj2 Hm)). pose proof (ts_max _ _ _ _ _ (proj2 Hm)).
  assert (dbs * bs ≤ 2 ^ 32 * 2 ^ 24) by nia.
  induction chain as [|e chain IH]; intros Hf; cbn [candidate_loop]; [left; split; [done|constructor]|].
  apply Forall_cons_iff in Hf as [He Hf]. specialize (IH Hf).
  assert (Hskip : ¬ copy_at i (he_block_index e) →
    (candidate_loop bs src dest i chain t = Ok t ∧ Forall (fun e => ¬ copy_at i (he_block_index e)) (e :: chain)) ∨
    (∃ e0, e0 ∈ e :: chain ∧ copy_at i (he_block_index e0) ∧ candidate_loop bs src dest i chain t =
       Ok (fsd_block_tracker_set_match t i FSD_MATCH_RELOCATE (he_block_index e0)))).
  { intros Hn. destruct IH as [[-> Hall]|(e0 & He0 & Hc & ->)].
    - left. split; [done|]. by apply Forall_cons_iff.
    - right. exists e0. split_and!; [by right|done|done]. }
  destruct (Z.eqb_spec (he_block_index e) i) as [Heq|Hne].
  { apply Hskip. intros (_ & ? & _). done. }
  assert (0 ≤ he_block_index e * bs ∧ he_block_index e * bs + bs ≤ zlen src) by nia.
  rewrite !wrap_small by lia. rewrite mem_equal_spec by lia. cbn [mbind outcome_bind].
  case_bool_decide as Heq; [|apply Hskip; by intros (_ & _ & ?)].
  right. exists e. split_and!; [left|split_and!; [lia|lia|done|done]|done].
Qed.

(** What the stage makes of the record [s] of an unmatched block [i]. *)
Definition relocated (l : list fsd_hash_entry_t) (i : Z) (s s' : fsd_block_state_t) : Prop :=
  (s' = s ∧ ∀ k, copy_at i k → mkEntry (crc32 s) k ∉ l) ∨
  (∃ k, copy_at i k ∧ s' = set_mt_src FSD_MATCH_RELOCATE k s).

Lemma relocated_sound t i l s s' :
  matching bs dbs src dest t → 0 ≤ i < dbs → match_type s = FSD_MATCH_NONE →
  relocated l i s s' → block_sound bs src dest i s'.
Proof.
  intros [_ Hts] Hi Hn [[-> _]|(k & (Hk & _ & Heq) & ->)]; unfold block_sound; [by rewrite Hn|].
  cbn. pose proof (ts_size _ _ _ _ _ Hts). split_and!; [lia|nia|done].
Qed.

Context {h : fsd_hash_table_t} {l : list fsd_hash_entry_t} (Hix : index_ok bs src src_blocks h l).

Lemma index_lookup crc :
  ∃ chain, fsd_hash_table_lookup h crc = Ok chain ∧
    Forall (fun e => 0 ≤ he_block_index e < src_blocks) chain ∧
    ∀ k, mkEntry crc k ∈ l → mkEntry crc k ∈ chain.
Proof.
  destruct (fsd_hash_table_lookup_spec h l crc (ix_table _ _ _ _ _ Hix)) as (chain & Hc & Hs & Hfil & _).
  exists chain. split; [done|]. split.
  - apply list.Forall_forall. intros e He.
    assert (Hin : e ∈ rev (index_entries bs src (Z.to_nat src_blocks) 0)).
    { eapply elem_of_sublist; [exact He|]. etrans; [exact Hs|apply (ix_entries _ _ _ _ _ Hix)]. }
    apply list_elem_of_In, in_rev, list_elem_of_In, elem_of_index_entries in Hin as (k & Hk & _ & ->).
    cbn. lia.
  - intros k Hk.
    assert (Hin : mkEntry crc k ∈ filter (fun e => he_crc32 e = crc) l) by (by apply list_elem_of_filter).
    rewrite <- Hfil in Hin. by apply list_elem_of_filter in Hin as [_ ?].
Qed.

(** The tracker when the loop, started on [t0], has come to block [i]. *)
Definition relocating (t0 : fsd_block_tracker_t) (i : Z) (t : fsd_block_tracker_t) : Prop :=
  matching bs dbs src dest t ∧
  ∀ j s, blocks t0 !! j = Some s → ∃ s', blocks t !! j = Some s' ∧
    if (Z.of_nat j <? i) && is_none s then relocated l (Z.of_nat j) s s' else s' = s.

Lemma relocating_same t0 t i :
  relocating t0 i t → 0 ≤ i → (∀ s, blocks t0 !! Z.to_nat i = Some s → is_none s = false) →
  relocating t0 (i + 1) t.
Proof.
  intros [Hm Hr] Hi Hn. split; [done|]. intros j s Hj. destruct (Hr j s Hj) as (s' & Hs' & Hrel).
  exists s'. split; [done|]. destruct (decide (j = Z.to_nat i)) as [->|Hne].
  - rewrite (Hn _ Hj), andb_false_r in *. done.
  - destruct (Z.ltb_spec (Z.of_nat j) i), (Z.ltb_spec (Z.of_nat j) (i + 1)); try done; lia.
Qed.

Lemma relocating_step t0 t t' i s s' :
  relocating t0 i t → 0 ≤ i < dbs → blocks t0 !! Z.to_nat i = Some s → match_type s = FSD_MATCH_NONE →
  blocks t !! Z.to_nat i = Some s → one_block t t' i s' → relocated l i s s' →
  relocating t0 (i + 1) t'.
Proof.
  intros [Hm Hr] Hi Hs Hn Hti Hob Hrel.
  destruct (one_block_matching (bs := bs) (dbs := dbs) (src := src) (dest := dest) t t' i s s')
    as [Hm' _]; [done|lia|done|done|done|by eapply relocated_sound|].
  split; [done|]. intros j sj Hj. rewrite (ob_blocks _ _ _ _ Hob).
  destruct (decide (j = Z.to_nat i)) as [->|Hne].
  - exists s'. rewrite list_lookup_insert_eq by (by eapply lookup_lt_Some). split; [done|].
    rewrite Hj in Hs. injection Hs as ->. unfold is_none. rewrite Hn, Z2Nat.id by lia.
    destruct (Z.ltb_spec i (i + 1)); [done|lia].
  - rewrite list_lookup_insert_ne by done. destruct (Hr j sj Hj) as (s1 & Hs1 & Hrel1).
    exists s1. split; [done|].
    destruct (Z.ltb_spec (Z.of_nat j) i), (Z.ltb_spec (Z.of_nat j) (i + 1)); try done; lia.
Qed.

Lemma relocate_loop_spec t0 n i t :
  tracker_ok t0 → zlen (blocks t0) = dbs → relocating t0 i t → 0 ≤ i → i + Z.of_nat n ≤ dbs →
  ∃ t', relocate_loop bs h src dest n i t = Ok t' ∧ relocating t0 (i + Z.of_nat n) t'.
Proof.
  intros Hok0 Hl0. revert i t. induction n as [|n IH]; intros i t Hp Hi Hd; cbn [relocate_loop].
  { exists t. split; [done|]. by rewrite Z.add_0_r. }
  replace (i + Z.of_nat (S n)) with (i + 1 + Z.of_nat n) in * by lia.
  pose proof Hp as [Hm Hr].
  destruct (matching_get t i Hm ltac:(lia)) as (s' & Hget & Hs' & ->).
  destruct (lookup_lt_is_Some_2 (blocks t0) (Z.to_nat i)) as [s Hs]; [unfold zlen in Hl0; lia|].
  assert (s' = s) as ->.
  { destruct (Hr _ _ Hs) as (s1 & Hs1 & Hrel). rewrite Hs' in Hs1. injection Hs1 as <-.
    destruct (Z.ltb_spec (Z.of_nat (Z.to_nat i)) i); [lia|done]. }
  destruct (is_none s) eqn:En; cbn [negb].
  2:{ apply IH; [|lia..]. apply relocating_same; [done|lia|]. intros s2 Hs2. congruence. }
  unfold is_none in En. apply bool_decide_eq_true in En. rewrite Hget.
  destruct (index_lookup (crc32 s)) as (chain & -> & Hrange & Hin). cbn [mbind outcome_bind].
  destruct (candidate_loop_spec t i chain Hm ltac:(lia) Hrange) as [[-> Hall]|(e & He & Hc & ->)];
    cbn [mbind outcome_bind]; (apply IH; [|lia..]).
  - eapply (relocating_step t0 t t i s s); try done; [lia| |].
    + constructor; [|done|apply Hm]. symmetry. by apply list_insert_id.
    + left. split; [done|]. intros k Hk Hkl. apply Hin in Hkl.
      rewrite list.Forall_forall in Hall. by apply (Hall _ Hkl).
  - eapply (relocating_step t0 t _ i s); try done; [lia| |right; by exists (he_block_index e)].
    apply set_match_one_block; [apply Hm| |done|done|done].
    rewrite (ts_count _ _ _ _ _ (proj2 Hm)). lia.
Qed.

End Search.

Lemma relocation_run_spec {P} bs dbs src src_blocks dest h l (p : P) t0 :
  0 ≤ src_blocks → src_blocks * bs ≤ zlen src → index_ok bs src src_blocks h l →
  matching bs dbs src dest t0 →
  ∃ t, fsd_relocation_stage_run (mkReloc bs src_blocks (Some h) p) t0 src dest = Ok t ∧
    matching bs dbs src dest t ∧ keeps_matches t0 t ∧
    ∀ i s, 0 ≤ i → blocks t0 !! Z.to_nat i = Some s → match_type s = FSD_MATCH_NONE →
      ∃ s', blocks t !! Z.to_nat i = Some s' ∧
        relocated (bs := bs) (src := src) (dest := dest) (src_blocks := src_blocks) l i s s'.
Proof.
  intros Hsb Hsrc Hix Hm. unfold fsd_relocation_stage_run. cbn [rl_src_hash rl_block_size].
  pose proof (ts_blocks _ _ _ _ _ (proj2 Hm)) as Hl. pose proof (zlen_nonneg (blocks t0)).
  rewrite (ts_count _ _ _ _ _ (proj2 Hm)).
  destruct (relocate_loop_spec (dbs := dbs) (dest := dest) Hsrc Hix t0 (Z.to_nat dbs) 0 t0) as (t & -> & Hm' & Hr);
    [apply Hm|done| |lia|lia|].
  { split; [done|]. intros j s Hj. exists s. split; [done|].
    destruct (Z.ltb_spec (Z.of_nat j) 0); [lia|done]. }
  exists t. split_and!; [done|done| |].
  - intros j s Hj Hn. destruct (Hr j s Hj) as (s' & Hs' & Hrel). unfold is_none in Hrel.
    rewrite bool_decide_eq_false_2, andb_false_r in Hrel by done. congruence.
  - intros i s Hi Hs Hn. destruct (Hr _ _ Hs) as (s' & Hs' & Hrel). exists s'. split; [done|].
    apply lookup_lt_Some in Hs. unfold is_none in Hrel. rewrite bool_decide_eq_true_2 in Hrel by done.
    rewrite !Z2Nat.id in Hrel by lia. destruct (Z.ltb_spec i (0 + dbs)); [done|unfold zlen in Hl; lia].
Qed.

Lemma length_index_entries bs src n i : (length (index_entries bs src n i) ≤ n)%nat.
Proof.
  revert i. induction n as [|n IH]; intros i; cbn [index_entries]; [done|].
  specialize (IH (i + 1)). destruct (zero_words _); cbn [length]; lia.
Qed.

(** When the table counts all entries, none was dropped. *)
Lemma index_complete bs src src_blocks h l k :
  index_ok bs src src_blocks h l → 0 ≤ src_blocks < 2 ^ 64 →
  fsd_hash_table_count h = zlen (index_entries bs src (Z.to_nat src_blocks) 0) →
  0 ≤ k < src_blocks → zero_words (slice (k * bs) bs src) = false →
  mkEntry (crc_of (slice (k * bs) bs src)) k ∈ l.
Proof.
  intros [Ht Hs] Hsb Hc Hk Hz. pose proof (length_index_entries bs src (Z.to_nat src_blocks) 0) as Hle.
  pose proof (sublist_length _ _ Hs) as Hlen. rewrite length_rev in Hlen.
  unfold fsd_hash_table_count in Hc. rewrite (to_count _ _ Ht), wrap_small in Hc by (unfold zlen; lia).
  rewrite (sublist_same_length _ _ Hs) by (rewrite length_rev; unfold zlen in Hc; lia).
  apply list_elem_of_In, in_rev. rewrite rev_involutive. apply list_elem_of_In, elem_of_index_entries.
  exists k. split_and!; [lia|lia|done|done].
Qed.

(** * Properties *)

(** C16: the relocation stage.  Building the index either runs out of memory or
    succeeds; the stage then runs to the end on any truthful tracker without
    reading outside the images, leaves the matched blocks alone and keeps the
    tracker truthful: an unmatched block is either left as it was or recorded as
    a copy of an equal source block at another position.  If the index dropped
    no entry, then every unmatched block whose recorded checksum is right and
    whose words are not all zero is matched as soon as the source has a copy of
    it at another position. *)
Theorem relocation_stage_exact {P} `{ARL : ArenaLaws P} bs dbs src src_blocks dest (p : P) t0 :
  matching bs dbs src dest t0 → 0 ≤ src_blocks → src_blocks * bs ≤ zlen src → arena_ok p →
  match fsd_relocation_stage_build_index (mkReloc bs src_blocks None p) src with
  | (Ok _, stage) =>
      ∃ h t, rl_src_hash stage = Some h ∧
        fsd_relocation_stage_run stage t0 src dest = Ok t ∧
        matching bs dbs src dest t ∧ keeps_matches t0 t ∧
        ∀ i s, 0 ≤ i < dbs → fsd_block_tracker_get t0 i = Some s → match_type s = FSD_MATCH_NONE →
          let blk := slice (i * bs) bs dest in
          ∃ s', fsd_block_tracker_get t i = Some s' ∧
            (s' = s ∨ ∃ k, 0 ≤ k < src_blocks ∧ k ≠ i ∧ slice (k * bs) bs src = blk ∧
                           s' = set_mt_src FSD_MATCH_RELOCATE k s) ∧
            (fsd_hash_table_count h = zlen (index_entries bs src (Z.to_nat src_blocks) 0) →
             crc32 s = crc_of blk → zero_words blk = false →
             (∃ k, 0 ≤ k < src_blocks ∧ k ≠ i ∧ slice (k * bs) bs src = blk) →
             match_type s' = FSD_MATCH_RELOCATE)
  | (Err e, _) => e = FSD_ERR_OUT_OF_MEMORY
  | _ => False
  end.
Proof.
  intros Hm Hsb Hsrc Hp. pose proof Hm as [_ Hts].
  pose proof (ts_size _ _ _ _ _ Hts). pose proof (ts_src _ _ _ _ _ Hts).
  assert (Hsb' : 0 ≤ src_blocks < 2 ^ 64) by nia.
  destruct (build_index_spec bs src src_blocks p) as (stage & -> & Hbs & Hblk & _ & Hix);
    [apply Hts|lia|done|done|lia|done|].
  destruct stage as [bs' sb' [h|] p']; cbn in *; [|done]. subst bs' sb'.
  destruct (Hix h eq_refl) as (l & Hl).
  destruct (relocation_run_spec bs dbs src src_blocks dest h l p' t0 Hsb Hsrc Hl Hm) as (t & Hr & Hm' & Hk & Hrel).
  exists h, t. split_and!; [done|done|done|done|]. intros i s Hi Hget Hn.
  destruct (matching_get t0 i Hm Hi) as (s0 & Hget0 & Hs0 & _). rewrite Hget in Hget0. injection Hget0 as <-.
  destruct (matching_get t i Hm' Hi) as (s1 & Hget1 & Hs1 & _).
  destruct (Hrel i s ltac:(lia) Hs0 Hn) as (s' & Hs' & Hcase). rewrite Hs1 in Hs'. injection Hs' as ->.
  exists s'. split; [done|]. destruct Hcase as [[-> Hno]|(k & (Hk1 & Hk2 & Hk3) & ->)].
  - split; [by left|]. intros Hc Hcrc Hz (k & Hk1 & Hk2 & Hk3). exfalso.
    apply (Hno k); [unfold copy_at; done|]. rewrite Hcrc, <- Hk3.
    eapply index_complete; try done. by rewrite Hk3.
  - split; [|done]. right. exists k. done.
Qed.

(** Destination block 1 of the small images is source block 0. *)
Definition demo_identity : fsd_block_tracker_t :=
  match fsd_identity_stage_run setup_scalar_dispatch (mkIdentity 32) fresh_tracker demo_src 2 demo_dest 3 with
  | Ok t => t
  | _ => fresh_tracker
  end.

Lemma demo_identity_matching : matching 32 3 demo_src demo_dest demo_identity.
Proof.
  destruct fresh_tracker_matching as (Hm & Hf & _).
  destruct (identity_run_spec setup_scalar_dispatch 32 3 demo_src 2 demo_dest fresh_tracker) as (t & Hr & Hm' & _);
    [apply scalar_ok|exact Hm|exact Hf|lia|vm_compute; discriminate|].
  unfold demo_identity. by rewrite Hr.
Qed.

Lemma relocation_stage_exact_witness :
  ∃ h t, rl_src_hash (snd (fsd_relocation_stage_build_index (mkReloc 32 2 None demo_pool) demo_src)) = Some h ∧
    fsd_relocation_stage_run (snd (fsd_relocation_stage_build_index (mkReloc 32 2 None demo_pool) demo_src))
      demo_identity demo_src demo_dest = Ok t ∧ matching 32 3 demo_src demo_dest t.
Proof.
  pose proof (relocation_stage_exact 32 3 demo_src 2 demo_dest demo_pool demo_identity
    demo_identity_matching ltac:(lia) ltac:(vm_compute; discriminate) demo_pool_ok) as H.
  destruct (fsd_relocation_stage_build_index (mkReloc 32 2 None demo_pool) demo_src) as [[u|e| |] stage] eqn:E.
  - destruct H as (h & t & Hh & Hr & Hm & _). exists h, t. split_and!; [exact Hh|exact Hr|exact Hm].
  - exfalso. apply (f_equal (fun x => match fst x with Ok _ => true | _ => false end)) in E.
    vm_compute in E. discriminate E.
  - destruct H.
  - destruct H.
Defined.
