(* ===== verification/BlockSearch.v ===== *)
(** The byte-granular block search (src/stages/block_search.c), shared by the
    partial and the filesystem stages.

    A window of byte offsets around a position of the source is swept for the
    offset at which most bytes of a destination block agree; large blocks are
    prescreened with two samples.  Shown here: the search never reads outside the
    source nor overflows, what it reports is a real position with that number of
    matching bytes, at least the threshold, and no offset that passes the
    prescreen matches more bytes. *)

From stdpp Require Import base list numbers tactics.
From Stdlib Require Import ZArith Lia.
From S2P Require Import Prelude Simd.
Open Scope Z_scope.

(** * The program *)

Definition count_matches_fn : Type := bytes → Z → bytes → Z → Z → outcome Z.

Definition fsd_block_search_count_fn (g : fsd_simd_dispatch_t) : count_matches_fn :=
  match sd_count_matches g with
  | Some f => f
  | None => fsd_scalar_count_matches
  end.

(** [prescreen_len], [prescreen_min] and [prescreen_mid]. *)
Definition prescreen (block_size threshold_count : Z) : Z * Z * Z :=
  if 1024 <=? block_size then
    let prescreen_len := 128 in
    let prescreen_mid := block_size / 2 in
    let prescreen_min := u64 (threshold_count * prescreen_len) / block_size in
    (if prescreen_min =? 0 then 0 else prescreen_len, prescreen_min, prescreen_mid)
  else (0, 0, 0).

Section Search.
Context (src : bytes) (src_size : Z) (dest : bytes) (dest_block block_size : Z).
Context (center_pos : Z) (screen : Z * Z * Z) (count_fn : count_matches_fn).

(** The sampling of one candidate: does it reach [prescreen_min]? *)
Definition sample_ok (src_pos : Z) : outcome bool :=
  let '(prescreen_len, prescreen_min, prescreen_mid) := screen in
  if prescreen_len =? 0 then Ok true else
  s1 ← count_fn src src_pos dest dest_block prescreen_len;
  s2 ← count_fn src (src_pos + prescreen_mid) dest (dest_block + prescreen_mid) prescreen_len;
  Ok (negb (u64 (s1 + s2) <? prescreen_min)).

(** [for (offset = min_offset; offset <= max_offset; offset++)], [n] offsets
    left; the result is the pair of best offset and best count. *)
Fixpoint search_loop (n : nat) (offset best_offset best_count : Z) : outcome (Z * Z) :=
  match n with
  | O => Ok (best_offset, best_count)
  | S n =>
      src_pos ← chk64 (center_pos + offset);
      if (src_pos <? 0) || (src_size <? u64 (src_pos + block_size))
      then search_loop n (offset + 1) best_offset best_count
      else
        pass ← sample_ok src_pos;
        if negb pass then search_loop n (offset + 1) best_offset best_count
        else
          match_count ← count_fn src src_pos dest dest_block block_size;
          if best_count <? match_count then
            if match_count =? block_size then Ok (offset, match_count)
            else search_loop n (offset + 1) offset match_count
          else search_loop n (offset + 1) best_offset best_count
  end.
End Search.

(** [dest_block] is the offset of the block in the destination image. *)
Definition fsd_block_search_best (src : bytes) (src_size : Z) (dest : bytes) (dest_block block_size : Z)
    (center_pos min_offset max_offset threshold_count : Z) (count_fn : count_matches_fn) : outcome (Z * Z) :=
  let best_count := if 0 <? threshold_count then threshold_count - 1 else 0 in
  search_loop src src_size dest dest_block block_size center_pos (prescreen block_size threshold_count) count_fn
    (Z.to_nat (max_offset - min_offset + 1)) min_offset (-1) best_count.

(** * Specification *)

(** A counting routine that agrees with [count_eq]. *)
Definition count_fn_ok (f : count_matches_fn) : Prop :=
  ∀ a ao b bo len, bytes_ok a → bytes_ok b → 0 ≤ ao → 0 ≤ bo → 0 ≤ len < 2 ^ 64 →
    ao + len ≤ zlen a → bo + len ≤ zlen b →
    f a ao b bo len = Ok (count_eq (slice ao len a) (slice bo len b)).

Lemma search_count_fn_ok g : simd_ok g → count_fn_ok (fsd_block_search_count_fn g).
Proof.
  intros Hg. unfold fsd_block_search_count_fn. destruct (sd_count_matches g) as [f|] eqn:E.
  - exact (so_count g Hg f E).
  - intros a ao b bo len. apply scalar_count_spec.
Qed.

(** The sampled bytes of a candidate. *)
Definition sampled (bs threshold : Z) (src : bytes) (pos : Z) (blk : bytes) : bool :=
  let '(len, min, mid) := prescreen bs threshold in
  (len =? 0) ||
  negb (count_eq (slice pos len src) (slice 0 len blk) +
        count_eq (slice (pos + mid) len src) (slice mid len blk) <? min).

Section Proofs.
Context {src : bytes} {src_size : Z} {dest : bytes} {dpos bs center threshold : Z} {f : count_matches_fn}.
Context (Hf : count_fn_ok f) (Hsrc : bytes_ok src) (Hdest : bytes_ok dest).
Context (Hbs : 0 < bs ≤ 2 ^ 24) (Hd : 0 ≤ dpos) (Hdl : dpos + bs ≤ zlen dest).
Context (Hss : 0 ≤ src_size ≤ zlen src) (Hsl : zlen src ≤ 2 ^ 62).

Abbreviation blk := (slice dpos bs dest).

(** The number of bytes that agree at a position of the source. *)
Definition score (pos : Z) : Z := count_eq (slice pos bs src) blk.

Definition in_source (pos : Z) : Prop := 0 ≤ pos ∧ pos + bs ≤ src_size.

Lemma score_range pos : in_source pos → 0 ≤ score pos ≤ bs.
Proof.
  intros [? ?]. unfold score. pose proof (count_eq_range (slice pos bs src) blk) as Hr.
  rewrite zlen_slice in Hr by lia. lia.
Qed.

Lemma prescreen_len_ok len min mid :
  prescreen bs threshold = (len, min, mid) → 0 ≤ len ∧ 0 ≤ mid ∧ mid + len ≤ bs ∧ len ≤ 128.
Proof.
  unfold prescreen. destruct (Z.leb_spec 1024 bs); intros [= <- <- <-]; [|lia].
  destruct (_ =? 0); zmod.
Qed.

Lemma sample_ok_spec pos :
  in_source pos →
  sample_ok src dest dpos (prescreen bs threshold) f pos = Ok (sampled bs threshold src pos blk).
Proof.
  intros [H0 H1]. unfold sample_ok, sampled.
  destruct (prescreen bs threshold) as [[len min] mid] eqn:E.
  destruct (prescreen_len_ok _ _ _ E) as (Hl & Hm & Hml & Hl128).
  destruct (Z.eqb_spec len 0); [done|]. cbn [orb].
  rewrite !Hf by (done || lia). cbn [mbind outcome_bind].
  rewrite !slice_slice by lia. rewrite Z.add_0_r.
  pose proof (count_eq_range (slice pos len src) (slice dpos len dest)) as R1.
  pose proof (count_eq_range (slice (pos + mid) len src) (slice (dpos + mid) len dest)) as R2.
  rewrite zlen_slice in R1, R2 by lia. by rewrite wrap_small by lia.
Qed.

(** What is known when the offsets below [o] have been tried. *)
Record best_so_far (lo o best_offset best_count : Z) : Prop := {
  bf_found : (best_offset = -1 ∧ best_count = threshold - 1) ∨
    (lo ≤ best_offset < o ∧ in_source (center + best_offset) ∧
     best_count = score (center + best_offset) ∧ threshold ≤ best_count);
  bf_best q : lo ≤ q < o → in_source (center + q) → sampled bs threshold src (center + q) blk = true →
    score (center + q) ≤ best_count
}.

Lemma best_so_far_skip lo o bo bc :
  best_so_far lo o bo bc →
  (in_source (center + o) → sampled bs threshold src (center + o) blk = true → score (center + o) ≤ bc) →
  best_so_far lo (o + 1) bo bc.
Proof.
  intros [Hfound Hbest] Hs. constructor.
  - destruct Hfound as [?|(? & ? & ? & ?)]; [by left|]. right. split_and!; [lia|lia|done|done|done].
  - intros q Hq Hin Hsam. destruct (decide (q = o)) as [->|]; [by apply Hs|]. apply Hbest; [lia|done|done].
Qed.

Lemma search_loop_spec lo n o bo bc :
  0 < threshold → best_so_far lo o bo bc → lo ≤ o →
  INT64_MIN ≤ center + o → center + o + Z.of_nat n ≤ INT64_MAX →
  ∃ bo' bc', search_loop src src_size dest dpos bs center (prescreen bs threshold) f n o bo bc = Ok (bo', bc') ∧
    best_so_far lo (o + Z.of_nat n) bo' bc'.
Proof.
  intros Ht. revert o bo bc. induction n as [|n IH]; intros o bo bc Hb Ho Hmin Hmax; cbn [search_loop].
  { exists bo, bc. split; [done|]. by rewrite Z.add_0_r. }
  replace (o + Z.of_nat (S n)) with (o + 1 + Z.of_nat n) in * by lia.
  rewrite chk64_ok by lia. cbn [mbind outcome_bind].
  assert (Hskip : (in_source (center + o) → sampled bs threshold src (center + o) blk = true → score (center + o) ≤ bc) →
    ∃ bo' bc', search_loop src src_size dest dpos bs center (prescreen bs threshold) f n (o + 1) bo bc = Ok (bo', bc') ∧
      best_so_far lo (o + 1 + Z.of_nat n) bo' bc').
  { intros Hs. apply IH; [by apply best_so_far_skip|lia|lia|lia]. }
  destruct (_ || _) eqn:Hout.
  { apply Hskip. intros [? ?]. apply orb_prop in Hout as [?|?]; [lia|]. rewrite wrap_small in * by lia. lia. }
  apply orb_false_iff in Hout as [H0%Z.ltb_ge H1%Z.ltb_ge].
  unfold INT64_MAX in *. rewrite wrap_small in H1 by lia.
  assert (Hin : in_source (center + o)) by (split; lia).
  rewrite sample_ok_spec by done. cbn [mbind outcome_bind].
  destruct (sampled _ _ _ _ _) eqn:Esam; cbn [negb]; [|by apply Hskip].
  rewrite Hf by (done || lia). cbn [mbind outcome_bind].
  change (count_eq (slice (center + o) bs src) blk) with (score (center + o)).
  destruct (Z.ltb_spec bc (score (center + o))) as [Hlt|Hge]; [|by apply Hskip].
  pose proof (score_range _ Hin).
  assert (Hnew : best_so_far lo (o + 1) o (score (center + o))).
  { destruct Hb as [Hfound Hbest]. constructor.
    - right. split_and!; [lia|lia|done|done|]. destruct Hfound as [[_ ?]|(_ & _ & _ & ?)]; lia.
    - intros q Hq Hqin Hqs. destruct (decide (q = o)) as [->|]; [done|].
      assert (score (center + q) ≤ bc) by (apply Hbest; [lia|done|done]). lia. }
  destruct (Z.eqb_spec (score (center + o)) bs) as [He|_].
  - exists o, (score (center + o)). split; [done|]. destruct Hnew as [Hfound _]. constructor.
    + destruct Hfound as [?|(? & ? & ? & ?)]; [by left|]. right. split_and!; [lia|lia|done|done|done].
    + intros q _ Hqin _. pose proof (score_range _ Hqin). lia.
  - apply IH; [done|lia|lia|lia].
Qed.

Lemma fsd_block_search_best_spec lo hi :
  0 < threshold ≤ bs → lo ≤ hi + 1 → INT64_MIN ≤ center + lo → center + hi + 1 ≤ INT64_MAX →
  ∃ bo bc, fsd_block_search_best src src_size dest dpos bs center lo hi threshold f = Ok (bo, bc) ∧
    best_so_far lo (hi + 1) bo bc.
Proof.
  intros Ht Hlo Hmin Hmax. unfold fsd_block_search_best. destruct (Z.ltb_spec 0 threshold); [|lia].
  destruct (search_loop_spec lo (Z.to_nat (hi - lo + 1)) lo (-1) (threshold - 1)) as (bo & bc & Hr & Hb).
  - lia.
  - constructor; [by left|]. intros q Hq. lia.
  - lia.
  - lia.
  - lia.
  - exists bo, bc. split; [done|]. by replace (hi + 1) with (lo + Z.of_nat (Z.to_nat (hi - lo + 1))) by lia.
Qed.
End Proofs.

(** * Properties *)

(** C18: the block search over any window of offsets, with any routine that
    counts matching bytes, terminates without reading outside the source or the
    block and without signed overflow.  Either it reports no match (offset -1 and
    a count below the threshold), or it reports an offset of the window whose
    position lies in the source, with the exact number of bytes that agree there,
    at least the threshold.  In both cases no offset of the window that passes
    the prescreen has more matching bytes than reported; below 1024 bytes per
    block there is no prescreen and the result is the maximum over the window. *)
Theorem block_search_correct src src_size dest dpos bs center threshold f lo hi :
  count_fn_ok f → bytes_ok src → bytes_ok dest → 0 < bs ≤ 2 ^ 24 → 0 ≤ dpos → dpos + bs ≤ zlen dest →
  0 ≤ src_size ≤ zlen src → zlen src ≤ 2 ^ 62 → 0 < threshold ≤ bs →
  lo ≤ hi + 1 → INT64_MIN ≤ center + lo → center + hi + 1 ≤ INT64_MAX →
  ∃ off cnt, fsd_block_search_best src src_size dest dpos bs center lo hi threshold f = Ok (off, cnt) ∧
    ((off = -1 ∧ cnt < threshold) ∨
     (lo ≤ off ≤ hi ∧ 0 ≤ center + off ∧ center + off + bs ≤ src_size ∧ threshold ≤ cnt ∧
      cnt = count_eq (slice (center + off) bs src) (slice dpos bs dest))) ∧
    ∀ q, lo ≤ q ≤ hi → 0 ≤ center + q → center + q + bs ≤ src_size →
      (1024 ≤ bs → sampled bs threshold src (center + q) (slice dpos bs dest) = true) →
      count_eq (slice (center + q) bs src) (slice dpos bs dest) ≤ cnt.
Proof.
  intros Hf Hs Hd Hbs Hdp Hdl Hss Hsl Ht Hlo Hmin Hmax.
  destruct (fsd_block_search_best_spec (src := src) (src_size := src_size) (dest := dest) (dpos := dpos) (bs := bs)
    (center := center) (threshold := threshold) (f := f) Hf Hs Hd Hbs Hdp Hdl Hss Hsl lo hi Ht Hlo Hmin Hmax)
    as (off & cnt & -> & [Hfound Hbest]).
  exists off, cnt. split; [done|]. split.
  - destruct Hfound as [[-> ->]|(Hr & [H0 H1] & -> & Hth)]; [left; split; [done|lia]|].
    right. split_and!; [lia|lia|done|done|done|done].
  - intros q Hq H0 H1 Hsam. apply Hbest; [lia|done|].
    destruct (decide (1024 ≤ bs)); [auto|]. unfold sampled, prescreen.
    destruct (Z.leb_spec 1024 bs); [lia|done].
Qed.

(** A shifted copy is found at its shift. *)
Lemma block_search_correct_witness :
  ∃ off cnt, fsd_block_search_best (fill 5 1 ++ fill 32 7) 37 (fill 32 7) 0 32 0 (-8) 8 16 fsd_scalar_count_matches
    = Ok (off, cnt) ∧ (off = -1 ∧ cnt < 16 ∨ -8 ≤ off ≤ 8).
Proof.
  destruct (block_search_correct (fill 5 1 ++ fill 32 7) 37 (fill 32 7) 0 32 0 16 fsd_scalar_count_matches (-8) 8)
    as (off & cnt & Hr & Hc & _).
  - exact (search_count_fn_ok setup_scalar_dispatch scalar_ok).
  - by apply bytes_okb.
  - by apply bytes_okb.
  - lia.
  - lia.
  - vm_compute. discriminate.
  - vm_compute. split; discriminate.
  - vm_compute. discriminate.
  - lia.
  - lia.
  - vm_compute. discriminate.
  - vm_compute. discriminate.
  - exists off, cnt. split; [exact Hr|]. destruct Hc as [Hc|(Hc & _)]; [left; exact Hc|right; exact Hc].
Defined.
