(* ===== verification/StagePartial.v ===== *)
(** The partial matching stage (src/stages/stage_partial.c).

    For every block that is still unmatched the stage looks for a place of the
    source, at byte granularity, that shares at least a threshold of its bytes:
    first at the continuation of the previous match and at the block's own
    position, then in a window around it, then in a window after the previous
    match.  The difference is stored in memory from a pool and the match is
    extended over the following unmatched blocks.

    The threshold is a float.  It is modelled by the dyadic number it stands for,
    and its product with the block size by the exact product: block sizes are
    powers of two (the patch header stores their logarithm), and multiplying a
    float by a power of two is exact.  Progress output is not modelled.

    Shown here: the stage runs to the end without reading outside the images and
    without signed overflow, leaves earlier matches alone, keeps the tracker
    truthful, and matches a block only where at least the threshold of its bytes
    agree. *)

From stdpp Require Import base list numbers tactics.
From Stdlib Require Import ZArith Lia.
From S2P Require Import Prelude MemoryPool HashTable Simd Tracker Patch Matches StageIdentity BlockSearch.
Open Scope Z_scope.

(** * The program *)

(** The float [fl_mant / 2 ^ fl_exp]. *)
Record dyadic := mkDyadic { fl_mant : Z; fl_exp : Z }.

Definition half : dyadic := mkDyadic 1 1.

(** [(size_t)(x * n)] for a positive [x]: the product, truncated. *)
Definition scale (x : dyadic) (n : Z) : Z := fl_mant x * n / 2 ^ fl_exp x.

Definition DEFAULT_SEARCH_RADIUS_BLOCKS : Z := 8.

Record fsd_partial_stage := mkPartial {
  ps_block_size : Z;
  ps_threshold : dyadic;
  ps_search_range : Z;
  ps_src_blocks : Z;
  ps_src_size : Z
}.

Definition fsd_partial_stage_create (malloc_ok : allocator) (block_size : Z) (threshold : dyadic)
    (search_radius_blocks : Z) : outcome fsd_partial_stage :=
  if block_size =? 0 then Err FSD_ERR_INVALID_ARG else
  if negb (malloc_ok 48) then Err FSD_ERR_OUT_OF_MEMORY else
  let threshold := if (0 <? fl_mant threshold) && (fl_mant threshold <? 2 ^ fl_exp threshold)
                   then threshold else half in
  let search_radius_blocks := if search_radius_blocks <=? 0 then DEFAULT_SEARCH_RADIUS_BLOCKS
                              else search_radius_blocks in
  Ok (mkPartial block_size threshold (u64 (search_radius_blocks * block_size)) 0 0).

Definition fsd_partial_stage_build_index (stage : fsd_partial_stage) (src_blocks : Z) : fsd_partial_stage :=
  mkPartial (ps_block_size stage) (ps_threshold stage) (ps_search_range stage)
    src_blocks (u64 (src_blocks * ps_block_size stage)).

(** [delta[i] = dest_block[i] - src_block[i]] for a whole block. *)
Definition sub_bytes (d s : bytes) : bytes := zip_with (fun a b => u8 (a - b)) d s.

Section Run.
Context {P : Type} {AR : Arena P}.
Context (block_size src_size : Z) (src dest : bytes) (threshold_count quick_accept search_range : Z).
Context (count_fn : count_matches_fn).

(** [pos < 0 || (size_t)(pos + block_size) > src_size]. *)
Definition outside (pos : Z) : bool := (pos <? 0) || (src_size <? u64 (pos + block_size)).

(** Allocating the delta of block [idx] against [src_pos], filling it, and the
    two tracker calls; [None] when the allocation fails. *)
Definition record_match (idx src_pos : Z) (tracker : fsd_block_tracker_t) (delta_pool : P)
  : outcome (option fsd_block_tracker_t * P) :=
  '(delta, delta_pool) ← arena_alloc block_size delta_pool;
  if delta =? 0 then Ok (None, delta_pool) else
  d ← load (u64 (idx * block_size)) block_size dest;
  s ← load src_pos block_size src;
  let tracker := fsd_block_tracker_set_match tracker idx FSD_MATCH_PARTIAL (src_pos / block_size) in
  let tracker := fsd_block_tracker_set_delta tracker idx (src_pos mod block_size) (sub_bytes d s) block_size in
  Ok (Some tracker, delta_pool).

(** The extension of a match to the following blocks, [n] of them left. *)
Fixpoint extend_loop (n : nat) (ext_idx best_offset : Z) (tracker : fsd_block_tracker_t) (delta_pool : P)
  : outcome (fsd_block_tracker_t * P) :=
  match n with
  | O => Ok (tracker, delta_pool)
  | S n =>
      if negb (fsd_block_tracker_is_unmatched tracker ext_idx) then Ok (tracker, delta_pool) else
      let ext_src_pos := s64 (u64 (ext_idx * block_size + best_offset)) in
      if outside ext_src_pos then Ok (tracker, delta_pool) else
      ext_count ← count_fn src ext_src_pos dest (u64 (ext_idx * block_size)) block_size;
      if ext_count <? threshold_count then Ok (tracker, delta_pool) else
      '(recorded, delta_pool) ← record_match ext_idx ext_src_pos tracker delta_pool;
      match recorded with
      | None => Ok (tracker, delta_pool)
      | Some tracker => extend_loop n (ext_idx + 1) best_offset tracker delta_pool
      end
  end.

(** What the previous block says about where to look: [prev_was_relocated] and
    [prev_src_pos]. *)
Definition prev_info (tracker : fsd_block_tracker_t) (dest_idx : Z) (prev : bool * Z) : outcome (bool * Z) :=
  if dest_idx =? 0 then Ok prev else
  match fsd_block_tracker_get tracker (dest_idx - 1) with
  | None => UB
  | Some p =>
      match match_type p with
      | FSD_MATCH_RELOCATE | FSD_MATCH_PARTIAL =>
          Ok (true, s64 (u64 (src_index p * block_size + byte_offset p)))
      | _ => Ok (false, snd prev)
      end
  end.

(** The probes of stage 0, in turn: the offset and count of the first that
    reaches [quick_accept]. *)
Fixpoint probe_loop (dest_block dest_pos : Z) (probes : list Z) : outcome (option (Z * Z)) :=
  match probes with
  | [] => Ok None
  | pos :: probes =>
      if outside pos then probe_loop dest_block dest_pos probes else
      c ← count_fn src pos dest dest_block block_size;
      if quick_accept <=? c then off ← chk64 (pos - dest_pos); Ok (Some (off, c))
      else probe_loop dest_block dest_pos probes
  end.

(** Stages 0 to 2 for one block: best offset from [dest_pos] and best count. *)
Definition find_match (dest_block dest_pos : Z) (prev : bool * Z) : outcome (Z * Z) :=
  let '(prev_was_relocated, prev_src_pos) := prev in
  probes ← (if (prev_was_relocated : bool) then p ← chk64 (prev_src_pos + block_size); Ok [p; dest_pos] else Ok [dest_pos]);
  quick ← probe_loop dest_block dest_pos probes;
  '(best_offset, best_count) ←
    match quick with
    | Some r => Ok r
    | None => fsd_block_search_best src src_size dest dest_block block_size dest_pos
                (- search_range) search_range threshold_count count_fn
    end;
  if (best_count <? threshold_count) && prev_was_relocated then
    let reloc_base := s64 (u64 (prev_src_pos + block_size)) in
    '(reloc_offset, reloc_count) ← fsd_block_search_best src src_size dest dest_block block_size reloc_base
                                     0 search_range threshold_count count_fn;
    if (threshold_count <=? reloc_count) && (best_count <? reloc_count) then
      p ← chk64 (reloc_base + reloc_offset);
      off ← chk64 (p - dest_pos);
      Ok (off, reloc_count)
    else Ok (best_offset, best_count)
  else Ok (best_offset, best_count).

(** The loop over the destination blocks, [n] of them left from [dest_idx]. *)
Fixpoint partial_loop (n : nat) (dest_idx : Z) (prev : bool * Z) (tracker : fsd_block_tracker_t) (delta_pool : P)
  : outcome (fsd_block_tracker_t * P) :=
  match n with
  | O => Ok (tracker, delta_pool)
  | S n =>
      prev ← prev_info tracker dest_idx prev;
      if negb (fsd_block_tracker_is_unmatched tracker dest_idx)
      then partial_loop n (dest_idx + 1) prev tracker delta_pool
      else
        let dest_block := u64 (dest_idx * block_size) in
        let dest_pos := s64 dest_block in
        '(best_offset, best_count) ← find_match dest_block dest_pos prev;
        if best_count <? threshold_count
        then partial_loop n (dest_idx + 1) prev tracker delta_pool
        else
          src_pos ← chk64 (dest_pos + best_offset);
          if outside src_pos then partial_loop n (dest_idx + 1) prev tracker delta_pool else
          '(recorded, delta_pool) ← record_match dest_idx src_pos tracker delta_pool;
          match recorded with
          | None => partial_loop n (dest_idx + 1) prev tracker delta_pool
          | Some tracker =>
              '(tracker, delta_pool) ← extend_loop n (dest_idx + 1) best_offset tracker delta_pool;
              partial_loop n (dest_idx + 1) prev tracker delta_pool
          end
  end.
End Run.

(** [threshold_count] of a run: never zero. *)
Definition run_threshold (stage : fsd_partial_stage) : Z :=
  let threshold_count := scale (ps_threshold stage) (ps_block_size stage) in
  if threshold_count =? 0 then 1 else threshold_count.

Definition run_quick_accept (stage : fsd_partial_stage) : Z :=
  let quick_accept := u64 (ps_block_size stage * 9 + 9) / 10 in
  if quick_accept <? run_threshold stage then run_threshold stage else quick_accept.

Definition fsd_partial_stage_run {P} `{Arena P} (g : fsd_simd_dispatch_t) (stage : fsd_partial_stage)
    (tracker : fsd_block_tracker_t) (src dest : bytes) (delta_pool : P) : outcome (fsd_block_tracker_t * P) :=
  partial_loop (ps_block_size stage) (ps_src_size stage) src dest (run_threshold stage) (run_quick_accept stage)
    (s64 (ps_search_range stage)) (fsd_block_search_count_fn g)
    (Z.to_nat (count tracker)) 0 (false, 0) tracker delta_pool.

(** * Proofs *)

Lemma add_sub_bytes d s :
  bytes_ok d → zlen d = zlen s → add_bytes s (sub_bytes d s) = d.
Proof.
  unfold zlen, add_bytes, sub_bytes. revert s. induction d as [|a d IH]; intros [|b s] Hok Hl; try done.
  apply bytes_ok_cons in Hok as [Ha Hok]. cbn [zip_with]. f_equal; [|apply IH; [done|cbn in Hl; lia]].
  unfold wrap. rewrite Zplus_mod_idemp_r. replace (b + (a - b)) with a by lia. apply Z.mod_small. apply Ha.
Qed.

Lemma sub_bytes_ok d s : bytes_ok (sub_bytes d s).
Proof.
  unfold sub_bytes. revert s. induction d as [|a d IH]; intros [|b s]; cbn [zip_with]; try by apply List.Forall_nil.
  apply bytes_ok_cons. split; [apply is_byte_wrap|apply IH].
Qed.

Lemma zlen_sub_bytes d s : zlen d = zlen s → zlen (sub_bytes d s) = zlen d.
Proof. unfold zlen, sub_bytes. rewrite length_zip_with. lia. Qed.

(** The source reference of block [j] is normal: an identity match names its own
    block, a partial match is a block and an offset in it, and the others carry no
    byte offset. *)
Definition offset_ok (bs : Z) (j : nat) (s : fsd_block_state_t) : Prop :=
  match match_type s with
  | FSD_MATCH_IDENTITY => src_index s = Z.of_nat j ∧ byte_offset s = 0
  | FSD_MATCH_PARTIAL => 0 ≤ src_index s ∧ 0 ≤ byte_offset s < bs
  | _ => byte_offset s = 0
  end.

Definition offsets_ok (bs : Z) (t : fsd_block_tracker_t) : Prop :=
  ∀ j s, blocks t !! j = Some s → offset_ok bs j s.

Section Proofs.
Context {P : Type} {AR : Arena P} {ARS : ArenaSpec P} {ARL : ArenaLaws P}.
Context {bs dbs src_size : Z} {src dest : bytes} {thr quick range : Z} {f : count_matches_fn}.
Context (Hf : count_fn_ok f) (Him : images bs dbs src dest).
Context (Hss : 0 ≤ src_size ≤ zlen src) (Hthr : 0 < thr ≤ bs) (Hrange : 0 ≤ range ≤ 2 ^ 56).

Abbreviation blk i := (slice (i * bs) bs dest).
Abbreviation in_src pos := (0 ≤ pos ∧ pos + bs ≤ src_size).

Lemma outside_spec pos : INT64_MIN ≤ pos ≤ INT64_MAX → if outside bs src_size pos then ¬ in_src pos else in_src pos.
Proof.
  unfold INT64_MIN, INT64_MAX. intros Hp. pose proof (im_size _ _ _ _ Him). unfold outside.
  destruct (Z.ltb_spec pos 0); cbn [orb]; [lia|]. rewrite wrap_small by lia.
  destruct (Z.ltb_spec src_size (pos + bs)); lia.
Qed.

Lemma dest_block_range i : 0 ≤ i < dbs → 0 ≤ i * bs ∧ i * bs + bs ≤ zlen dest ∧ i * bs ≤ 2 ^ 56.
Proof.
  intros Hi. destruct Him as [Hs Hb Hd _ _ _]. rewrite Hd. assert (i * bs ≤ 2 ^ 32 * 2 ^ 24) by nia. nia.
Qed.

(** A previous match to look after. *)
Definition prev_ok (prev : bool * Z) : Prop := fst prev = true → 0 ≤ snd prev ∧ snd prev + bs ≤ zlen src.

Lemma prev_info_spec t i prev :
  matching bs dbs src dest t → offsets_ok bs t → 0 ≤ i < dbs → prev_ok prev →
  ∃ prev', prev_info bs t i prev = Ok prev' ∧ prev_ok prev'.
Proof.
  intros Hm Ho Hi Hp. unfold prev_info. destruct (Z.eqb_spec i 0); [by exists prev|].
  destruct (matching_get t (i - 1) Hm ltac:(lia)) as (s & -> & Hs & _).
  pose proof (ts_sound _ _ _ _ _ (proj2 Hm) (i - 1) s ltac:(lia) Hs) as Hsound. unfold block_sound in Hsound.
  pose proof (im_size _ _ _ _ Him). pose proof (im_src _ _ _ _ Him).
  assert (Hpos : ∀ q, 0 ≤ q ∧ q + bs ≤ zlen src → prev_ok (true, s64 (u64 q))).
  { intros q Hq _. cbn. rewrite sgn_wrap, sgn_small by lia. lia. }
  destruct (match_type s) eqn:E; try by (eexists; split; [reflexivity|]; intros ?).
  - eexists. split; [reflexivity|]. apply Hpos. specialize (Ho _ _ Hs). unfold offset_ok in Ho. rewrite E in Ho. rewrite Ho. nia.
  - eexists. split; [reflexivity|]. apply Hpos. destruct Hsound as (? & ? & _). lia.
Qed.

(** A reported match is a place of the source with that many bytes in common. *)
Definition found (i off cnt : Z) : Prop :=
  thr ≤ cnt → in_src (i * bs + off) ∧ cnt = count_eq (slice (i * bs + off) bs src) (blk i).

Lemma probe_loop_spec i probes :
  0 ≤ i < dbs → Forall (fun p => 0 ≤ p ≤ 2 ^ 62) probes →
  ∃ r, probe_loop bs src_size src dest quick f (i * bs) (i * bs) probes = Ok r ∧
    match r with Some (off, cnt) => found i off cnt | None => True end.
Proof.
  intros Hi Hf0. destruct (dest_block_range i Hi) as (H0 & H1 & H2). pose proof (im_size _ _ _ _ Him).
  induction Hf0 as [|p probes Hp _ IH]; cbn [probe_loop]; [by exists None|].
  pose proof (outside_spec p) as Ho. unfold INT64_MIN, INT64_MAX in Ho. specialize (Ho ltac:(lia)).
  destruct (outside bs src_size p); [done|].
  rewrite Hf by (try apply Him; lia). cbn [mbind outcome_bind].
  destruct (quick <=? _); [|done].
  rewrite chk64_ok by (unfold INT64_MIN, INT64_MAX; lia). cbn [mbind outcome_bind].
  eexists. split; [reflexivity|]. intros _. replace (i * bs + (p - i * bs)) with p by lia. done.
Qed.

Lemma search_found i center lo :
  0 ≤ i < dbs → 0 ≤ center ≤ 2 ^ 62 + 2 ^ 24 → - 2 ^ 56 ≤ lo ≤ 0 →
  ∃ off cnt, fsd_block_search_best src src_size dest (i * bs) bs center lo range thr f = Ok (off, cnt) ∧
    (thr ≤ cnt → in_src (center + off) ∧ cnt = count_eq (slice (center + off) bs src) (blk i) ∧ lo ≤ off ≤ range).
Proof.
  intros Hi Hc Hlo. destruct (dest_block_range i Hi) as (H0 & H1 & H2). pose proof (im_size _ _ _ _ Him).
  destruct (fsd_block_search_best_spec (src := src) (src_size := src_size) (dest := dest) (dpos := i * bs) (bs := bs)
    (center := center) (threshold := thr) (f := f) Hf (im_src_ok _ _ _ _ Him) (im_dest_ok _ _ _ _ Him)
    ltac:(lia) H0 H1 Hss (im_src _ _ _ _ Him) lo range Hthr) as (off & cnt & -> & [Hfound _]).
  1-3: unfold INT64_MIN, INT64_MAX; lia.
  exists off, cnt. split; [done|]. intros Hth.
  destruct Hfound as [[_ ->]|(Hr & [? ?] & -> & _)]; [lia|]. split_and!; [lia|lia|done|lia|lia].
Qed.

Lemma find_match_spec i prev :
  0 ≤ i < dbs → prev_ok prev →
  ∃ off cnt, find_match bs src_size src dest thr quick range f (i * bs) (i * bs) prev = Ok (off, cnt) ∧ found i off cnt.
Proof.
  intros Hi Hp. destruct (dest_block_range i Hi) as (H0 & H1 & H2).
  pose proof (im_size _ _ _ _ Him). pose proof (im_src _ _ _ _ Him).
  destruct prev as [b q]. unfold find_match. unfold prev_ok in Hp. cbn [fst snd] in Hp.
  assert (∃ probes, (if b then p ← chk64 (q + bs); Ok [p; i * bs] else Ok [i * bs]) = Ok probes ∧
            Forall (fun p => 0 ≤ p ≤ 2 ^ 62) probes) as (probes & -> & Hpr).
  { destruct b; [|eexists; split; [done|]; repeat constructor; lia].
    destruct (Hp eq_refl). rewrite chk64_ok by (unfold INT64_MIN, INT64_MAX; lia). cbn [mbind outcome_bind].
    eexists. split; [done|]. repeat constructor; lia. }
  cbn [mbind outcome_bind].
  destruct (probe_loop_spec i probes Hi Hpr) as (r & -> & Hr). cbn [mbind outcome_bind].
  assert (∃ off cnt, match r with Some x => Ok x | None => fsd_block_search_best src src_size dest (i * bs) bs (i * bs)
            (- range) range thr f end = Ok (off, cnt) ∧ found i off cnt) as (off & cnt & -> & Hfound).
  { destruct r as [[off cnt]|]; [by exists off, cnt|].
    destruct (search_found i (i * bs) (- range) Hi) as (off & cnt & -> & Hfd); [lia|lia|].
    exists off, cnt. split; [done|]. intros Hth. by destruct (Hfd Hth) as (? & ? & _). }
  cbn [mbind outcome_bind].
  destruct (_ && b) eqn:Eb; [|by exists off, cnt].
  apply andb_prop in Eb as [_ ->]. destruct (Hp eq_refl) as [Hq0 Hq1].
  rewrite sgn_wrap, sgn_small by lia.
  destruct (search_found i (q + bs) 0 Hi) as (off' & cnt' & -> & Hfd); [lia|lia|]. cbn [mbind outcome_bind].
  destruct (_ && _) eqn:Eb; [|by exists off, cnt].
  apply andb_prop in Eb as [Hge%Z.leb_le _]. destruct (Hfd Hge) as ((? & ?) & Hcnt & Hoff).
  rewrite !chk64_ok by (unfold INT64_MIN, INT64_MAX; lia). cbn [mbind outcome_bind].
  rewrite chk64_ok by (unfold INT64_MIN, INT64_MAX; lia). cbn [mbind outcome_bind].
  eexists _, _. split; [reflexivity|]. intros _.
  replace (i * bs + (q + bs + off' - i * bs)) with (q + bs + off') by lia. done.
Qed.

(** ** Recording a match *)

Definition partial_record (i pos : Z) (s : fsd_block_state_t) : fsd_block_state_t :=
  set_dlt (pos mod bs) (Some (sub_bytes (blk i) (slice pos bs src))) bs (set_mt_src FSD_MATCH_PARTIAL (pos / bs) s).

Lemma partial_record_sound i pos s : 0 ≤ i < dbs → in_src pos → block_sound bs src dest i (partial_record i pos s).
Proof.
  intros Hi Hp. destruct (dest_block_range i Hi) as (H0 & H1 & _). pose proof (im_size _ _ _ _ Him).
  unfold block_sound, partial_record. cbn.
  replace (pos / bs * bs + pos mod bs) with pos by (pose proof (Z.div_mod pos bs ltac:(lia)); lia).
  assert (zlen (blk i) = zlen (slice pos bs src)) as Hz by (rewrite !zlen_slice; lia).
  split_and!; [lia|lia|]. eexists. split_and!; [reflexivity|done| |apply sub_bytes_ok|].
  - rewrite zlen_sub_bytes by done. rewrite zlen_slice; lia.
  - rewrite add_sub_bytes; [done| |done]. apply bytes_ok_slice, Him.
Qed.

Lemma record_match_spec t i pos s (p : P) :
  matching bs dbs src dest t → 0 ≤ i < dbs → in_src pos → arena_ok p →
  blocks t !! Z.to_nat i = Some s → match_type s = FSD_MATCH_NONE →
  ∃ r p', record_match bs src dest i pos t p = Ok (r, p') ∧ arena_ok p' ∧
    match r with None => True | Some t' => one_block t t' i (partial_record i pos s) end.
Proof.
  intros Hm Hi Hpos Hp Hs Hn. destruct (dest_block_range i Hi) as (H0 & H1 & H2).
  pose proof (im_size _ _ _ _ Him). unfold record_match.
  destruct (arena_alloc_ok bs p Hp ltac:(lia)) as (a & p' & -> & Hp'). cbn [mbind outcome_bind].
  destruct (a =? 0); [by exists None, p'|].
  rewrite wrap_small by lia. rewrite !load_ok by lia. cbn [mbind outcome_bind].
  eexists _, p'. split; [reflexivity|]. split; [done|].
  apply set_partial_one_block; [apply Hm| |done|done]. rewrite (ts_count _ _ _ _ _ (proj2 Hm)). lia.
Qed.

(** ** The loops *)

(** A new match shares at least the threshold of its bytes with its source. *)
Definition close_match (i : Z) (s : fsd_block_state_t) : Prop :=
  match_type s = FSD_MATCH_PARTIAL ∧ (0 ≤ src_index s ∧ 0 ≤ byte_offset s < bs) ∧
  thr ≤ count_eq (slice (src_index s * bs + byte_offset s) bs src) (blk i).

Record partialing (t0 t : fsd_block_tracker_t) : Prop := {
  pg_matching : matching bs dbs src dest t;
  pg_blocks j s : blocks t0 !! j = Some s → ∃ s', blocks t !! j = Some s' ∧
    (s' = s ∨ match_type s = FSD_MATCH_NONE ∧ close_match (Z.of_nat j) s')
}.

Lemma partialing_offsets t0 t :
  offsets_ok bs t0 → zlen (blocks t0) = dbs → partialing t0 t → offsets_ok bs t.
Proof.
  intros Ho Hl [Hm Hb] j s Hj.
  pose proof (ts_blocks _ _ _ _ _ (proj2 Hm)) as Hl'. pose proof (lookup_lt_Some _ _ _ Hj) as Hlt.
  destruct (lookup_lt_is_Some_2 (blocks t0) j) as [s0 Hs0]; [unfold zlen in *; lia|].
  destruct (Hb _ _ Hs0) as (s' & Hs' & Hc). rewrite Hj in Hs'. injection Hs' as <-.
  destruct Hc as [->|(_ & Hc & Hr & _)]; [by apply Ho|]. unfold offset_ok. by rewrite Hc.
Qed.

Lemma partialing_step t0 t t' i pos s :
  partialing t0 t → 0 ≤ i < dbs → in_src pos → thr ≤ count_eq (slice pos bs src) (blk i) →
  blocks t !! Z.to_nat i = Some s → match_type s = FSD_MATCH_NONE →
  one_block t t' i (partial_record i pos s) → partialing t0 t'.
Proof.
  intros [Hm Hb] Hi Hpos Hcnt Hs Hn Hob. pose proof (im_size _ _ _ _ Him).
  destruct (one_block_matching (bs := bs) (dbs := dbs) (src := src) (dest := dest) t t' i s (partial_record i pos s))
    as [Hm' _]; [done|lia|done|done|done|by apply partial_record_sound|].
  constructor; [done|]. intros j s0 Hj. rewrite (ob_blocks _ _ _ _ Hob).
  destruct (Hb j s0 Hj) as (s' & Hs' & Hcase).
  destruct (decide (j = Z.to_nat i)) as [->|Hne].
  - exists (partial_record i pos s). rewrite list_lookup_insert_eq by (by eapply lookup_lt_Some).
    split; [done|]. right. rewrite Hs in Hs'. injection Hs' as <-. split.
    + destruct Hcase as [->|(_ & ? & _)]; congruence.
    + split; [done|]. cbn. pose proof (Z.mod_pos_bound pos bs ltac:(lia)).
      pose proof (Z.div_pos pos bs ltac:(lia) ltac:(lia)). split; [lia|]. rewrite Z2Nat.id by lia.
      by replace (pos / bs * bs + pos mod bs) with pos by (pose proof (Z.div_mod pos bs ltac:(lia)); lia).
  - exists s'. by rewrite list_lookup_insert_ne by done.
Qed.

Lemma extend_loop_spec t0 n i off t p :
  partialing t0 t → arena_ok p → 0 ≤ i → i + Z.of_nat n ≤ dbs → - 2 ^ 56 ≤ off ≤ 2 ^ 62 →
  ∃ t' p', extend_loop bs src_size src dest thr f n i off t p = Ok (t', p') ∧ partialing t0 t' ∧ arena_ok p'.
Proof.
  revert i t p. induction n as [|n IH]; intros i t p Hp Ha Hi Hd Hoff; cbn [extend_loop]; [by exists t, p|].
  destruct (dest_block_range i ltac:(lia)) as (H0 & H1 & H2). pose proof (im_size _ _ _ _ Him).
  destruct (matching_get t i (pg_matching _ _ Hp) ltac:(lia)) as (s & _ & Hs & ->).
  destruct (is_none s) eqn:En; cbn [negb]; [|by exists t, p].
  unfold is_none in En. apply bool_decide_eq_true in En.
  rewrite sgn_wrap, sgn_small by lia.
  pose proof (outside_spec (i * bs + off)) as Ho. unfold INT64_MIN, INT64_MAX in Ho. specialize (Ho ltac:(lia)).
  destruct (outside bs src_size (i * bs + off)); [by exists t, p|].
  rewrite (wrap_small 64 (i * bs)) by lia.
  rewrite Hf by (try apply Him; lia). cbn [mbind outcome_bind].
  destruct (Z.ltb_spec (count_eq (slice (i * bs + off) bs src) (blk i)) thr); [by exists t, p|].
  destruct (record_match_spec t i (i * bs + off) s p (pg_matching _ _ Hp) ltac:(lia) Ho Ha Hs En)
    as (r & p' & -> & Hp' & Hr). cbn [mbind outcome_bind].
  destruct r as [t'|]; [|by exists t, p'].
  apply IH; [|done|lia|lia|lia]. eapply partialing_step; eauto. lia.
Qed.

Lemma partial_loop_spec t0 n i prev t p :
  offsets_ok bs t0 → zlen (blocks t0) = dbs →
  partialing t0 t → prev_ok prev → arena_ok p → 0 ≤ i → i + Z.of_nat n ≤ dbs →
  ∃ t' p', partial_loop bs src_size src dest thr quick range f n i prev t p = Ok (t', p') ∧
    partialing t0 t' ∧ arena_ok p'.
Proof.
  intros Ho0 Hl0. revert i prev t p.
  induction n as [|n IH]; intros i prev t p Hp Hprev Ha Hi Hd; cbn [partial_loop]; [by exists t, p|].
  destruct (dest_block_range i ltac:(lia)) as (H0 & H1 & H2).
  pose proof (im_size _ _ _ _ Him). pose proof (im_src _ _ _ _ Him).
  pose proof (pg_matching _ _ Hp) as Hm.
  destruct (prev_info_spec t i prev Hm (partialing_offsets _ _ Ho0 Hl0 Hp) ltac:(lia) Hprev) as (prev' & -> & Hprev').
  cbn [mbind outcome_bind].
  destruct (matching_get t i Hm ltac:(lia)) as (s & _ & Hs & ->).
  destruct (is_none s) eqn:En; cbn [negb]; [|apply IH; try done; lia].
  unfold is_none in En. apply bool_decide_eq_true in En.
  rewrite wrap_small by lia. rewrite sgn_small by lia.
  destruct (find_match_spec i prev' ltac:(lia) Hprev') as (off & cnt & -> & Hfd). cbn [mbind outcome_bind].
  destruct (Z.ltb_spec cnt thr); [apply IH; try done; lia|].
  destruct (Hfd ltac:(lia)) as [Hin Hcnt].
  rewrite chk64_ok by (unfold INT64_MIN, INT64_MAX; lia). cbn [mbind outcome_bind].
  destruct (outside bs src_size (i * bs + off)); [apply IH; try done; lia|].
  destruct (record_match_spec t i (i * bs + off) s p Hm ltac:(lia) Hin Ha Hs En) as (r & p' & -> & Hp' & Hr).
  cbn [mbind outcome_bind]. destruct r as [t'|]; [|apply IH; try done; lia].
  destruct (extend_loop_spec t0 n (i + 1) off t' p') as (t'' & p'' & -> & Hp'' & Ha''); [|done|lia|lia|lia|].
  { eapply partialing_step; eauto; lia. }
  cbn [mbind outcome_bind]. apply IH; try done; lia.
Qed.

End Proofs.

Lemma scale_lt th bs : 0 < fl_mant th < 2 ^ fl_exp th → 0 < bs → 0 ≤ scale th bs < bs.
Proof. intros Hth Hbs. unfold scale. split; [apply Z.div_pos; nia|]. apply Z.div_lt_upper_bound; nia. Qed.

(** The stage as the controller makes it. *)
Lemma partial_stage_ready malloc_ok bs thr radius src_blocks st :
  0 < bs ≤ 2 ^ 24 → radius < 2 ^ 31 → 0 ≤ src_blocks → src_blocks * bs < 2 ^ 64 →
  fsd_partial_stage_create malloc_ok bs thr radius = Ok st →
  let st' := fsd_partial_stage_build_index st src_blocks in
  ps_block_size st' = bs ∧ ps_src_size st' = src_blocks * bs ∧
  0 < run_threshold st' ≤ bs ∧ run_threshold st' ≤ run_quick_accept st' ∧
  0 ≤ s64 (ps_search_range st') ≤ 2 ^ 56.
Proof.
  intros Hbs Hrad Hsb Hmul. unfold fsd_partial_stage_create.
  destruct (bs =? 0); [done|]. destruct (negb _); [done|].
  set (th := if _ && _ then thr else half). set (rad := if radius <=? 0 then _ else radius).
  assert (Hrad' : 0 < rad < 2 ^ 31).
  { unfold rad, DEFAULT_SEARCH_RADIUS_BLOCKS. destruct (Z.leb_spec radius 0); lia. }
  assert (Hth : 0 < fl_mant th < 2 ^ fl_exp th).
  { unfold th. destruct (_ && _) eqn:E; [|done]. apply andb_prop in E as [?%Z.ltb_lt ?%Z.ltb_lt]. lia. }
  intros [= <-]. cbn zeta. unfold fsd_partial_stage_build_index. cbn [ps_block_size ps_threshold ps_search_range ps_src_size].
  assert (Hrange : 0 ≤ rad * bs ≤ 2 ^ 56) by nia.
  rewrite (wrap_small 64 (rad * bs)), (wrap_small 64 (src_blocks * bs)) by nia.
  unfold run_quick_accept, run_threshold. cbn [ps_block_size ps_threshold].
  pose proof (scale_lt th bs Hth ltac:(lia)) as Hsc.
  destruct (Z.eqb_spec (scale th bs) 0); (split_and!; [done|done|lia|lia| |rewrite sgn_small; lia|rewrite sgn_small; lia]);
    match goal with |- context [if ?b then _ else _] => destruct b eqn:E; [lia|apply Z.ltb_ge in E; lia] end.
Qed.

Lemma partial_stage_run_spec {P} `{ARL : ArenaLaws P} g malloc_ok bs dbs src src_blocks dest thr radius st t0 (p : P) :
  simd_ok g → images bs dbs src dest → radius < 2 ^ 31 → 0 ≤ src_blocks → src_blocks * bs ≤ zlen src →
  fsd_partial_stage_create malloc_ok bs thr radius = Ok st →
  matching bs dbs src dest t0 → offsets_ok bs t0 → arena_ok p →
  let st' := fsd_partial_stage_build_index st src_blocks in
  ∃ t p', fsd_partial_stage_run g st' t0 src dest p = Ok (t, p') ∧ arena_ok p' ∧
    partialing (bs := bs) (dbs := dbs) (src := src) (dest := dest) (thr := run_threshold st') t0 t.
Proof.
  intros Hg Him Hrad Hsb Hsrc Hst Hm Ho Hp st'.
  pose proof (im_size _ _ _ _ Him). pose proof (im_src _ _ _ _ Him). pose proof (im_blocks _ _ _ _ Him).
  destruct (partial_stage_ready malloc_ok bs thr radius src_blocks st) as (Hbs & Hss & Hth & Hq & Hr);
    [lia|done|done|lia|done|]. fold st' in Hbs, Hss, Hth, Hq, Hr.
  unfold fsd_partial_stage_run. rewrite Hbs, Hss.
  pose proof (ts_blocks _ _ _ _ _ (proj2 Hm)) as Hl. rewrite (ts_count _ _ _ _ _ (proj2 Hm)).
  destruct (partial_loop_spec (search_count_fn_ok g Hg) Him (src_size := src_blocks * bs) (quick := run_quick_accept st')
    ltac:(nia) Hth Hr
    t0 (Z.to_nat dbs) 0 (false, 0) t0 p Ho Hl) as (t & p' & -> & Hpg & Hp').
  - constructor; [done|]. intros j s Hj. exists s. split; [done|by left].
  - by intros ?.
  - done.
  - lia.
  - lia.
  - by exists t, p'.
Qed.

(** * Properties *)

(** C17: the partial stage, created with any threshold and radius and run on a
    truthful tracker, finishes without an out-of-bounds access or signed
    overflow even when allocations fail.  It changes no block that was matched
    before, keeps the tracker truthful (so source position plus delta is the
    destination block), and an unmatched block is either left as it was or
    matched to a place of the source, at any byte position, that shares at least
    the threshold number of bytes with it, which is at least one. *)
Theorem partial_stage_sound {P} `{ARL : ArenaLaws P} g malloc_ok bs dbs src src_blocks dest thr radius st t0 (p : P) :
  simd_ok g → images bs dbs src dest → radius < 2 ^ 31 → 0 ≤ src_blocks → src_blocks * bs ≤ zlen src →
  fsd_partial_stage_create malloc_ok bs thr radius = Ok st →
  matching bs dbs src dest t0 → offsets_ok bs t0 → arena_ok p →
  let st' := fsd_partial_stage_build_index st src_blocks in
  ∃ t p', fsd_partial_stage_run g st' t0 src dest p = Ok (t, p') ∧
    matching bs dbs src dest t ∧ keeps_matches t0 t ∧ 1 ≤ run_threshold st' ≤ bs ∧
    ∀ i s, 0 ≤ i < dbs → fsd_block_tracker_get t0 i = Some s → match_type s = FSD_MATCH_NONE →
      ∃ s', fsd_block_tracker_get t i = Some s' ∧
        (s' = s ∨ match_type s' = FSD_MATCH_PARTIAL ∧
         run_threshold st' ≤ count_eq (slice (src_index s' * bs + byte_offset s') bs src) (slice (i * bs) bs dest)).
Proof.
  intros Hg Him Hrad Hsb Hsrc Hst Hm Ho Hp st'.
  pose proof (im_size _ _ _ _ Him). pose proof (im_src _ _ _ _ Him).
  destruct (partial_stage_ready malloc_ok bs thr radius src_blocks st) as (_ & _ & Hth & _);
    [lia|done|done|lia|done|]. fold st' in Hth.
  destruct (partial_stage_run_spec g malloc_ok bs dbs src src_blocks dest thr radius st t0 p
    Hg Him Hrad Hsb Hsrc Hst Hm Ho Hp) as (t & p' & Hr & _ & [Hm' Hb]).
  exists t, p'. split_and!; [done|done| |lia|lia|].
  - intros j s Hj Hn. destruct (Hb j s Hj) as (s' & Hs' & [->|[? _]]); [done|congruence].
  - intros i s Hi Hget Hn.
    destruct (matching_get t0 i Hm Hi) as (s0 & Hget0 & Hs0 & _). rewrite Hget in Hget0. injection Hget0 as <-.
    destruct (matching_get t i Hm' Hi) as (s1 & Hget1 & Hs1 & _).
    destruct (Hb _ _ Hs0) as (s' & Hs' & Hcase). rewrite Hs1 in Hs'. injection Hs' as ->.
    exists s'. split; [done|]. destruct Hcase as [->|(_ & Hc & _ & Hcnt)]; [by left|right].
    by rewrite Z2Nat.id in Hcnt by lia.
Qed.

Lemma fresh_offsets : offsets_ok 32 fresh_tracker.
Proof.
  assert (H : Forall (fun s => match_type s = FSD_MATCH_NONE ∧ byte_offset s = 0) (blocks fresh_tracker))
    by (vm_compute; repeat constructor).
  intros j s Hj. rewrite Forall_lookup in H. destruct (H _ _ Hj) as [Hn Ho]. unfold offset_ok. by rewrite Hn.
Qed.

Lemma partial_stage_sound_witness :
  ∃ t p', fsd_partial_stage_run setup_scalar_dispatch
      (fsd_partial_stage_build_index (mkPartial 32 half 256 0 0) 2) fresh_tracker demo_src demo_dest demo_pool = Ok (t, p') ∧
    matching 32 3 demo_src demo_dest t.
Proof.
  destruct fresh_tracker_matching as (Hm & _ & _).
  destruct (partial_stage_sound setup_scalar_dispatch (fun _ => true) 32 3 demo_src 2 demo_dest half 8
    (mkPartial 32 half 256 0 0) fresh_tracker demo_pool scalar_ok demo_images ltac:(lia) ltac:(lia)
    ltac:(vm_compute; discriminate) eq_refl Hm fresh_offsets demo_pool_ok) as (t & p & Hr & Hm' & _).
  exists t, p. split; [exact Hr|exact Hm'].
Defined.
