(* ===== verification/ExtReader.v ===== *)
(** The ext2/3/4 walker (src/fs/ext_reader.c).

    A read-only reader of a filesystem image in memory: the superblock, inodes,
    extent trees and legacy block maps, and the walk over the directory tree that
    reports every regular file with its extents to a callback.  A pointer into the
    image is an offset, the null pointer [None]; reads are [load]s and undefined
    outside the image.  The image is arbitrary: it is the untrusted input here.

    Shown here: whatever the image holds, opening and walking it reads only inside
    the image, writes only inside the path buffer and the bitmap, terminates, and
    every file reported has extents that lie inside the filesystem.  The reason
    strings of a failed probe are not modelled. *)

From stdpp Require Import base list numbers tactics.
From Stdlib Require Import ZArith Lia.
From S2P Require Import Prelude.
Open Scope Z_scope.

(** * The program *)

Definition rd16 (image : bytes) (p : Z) : outcome Z :=
  b ← load p 2 image;
  match b with
  | [p0; p1] => Ok (u16 (Z.lor p0 (Z.shiftl p1 8)))
  | _ => UB
  end.

Definition rd32 (image : bytes) (p : Z) : outcome Z :=
  b ← load p 4 image;
  match b with
  | [p0; p1; p2; p3] =>
      Ok (Z.lor (Z.lor (Z.lor p0 (Z.shiftl p1 8)) (Z.shiftl p2 16)) (Z.shiftl p3 24))
  | _ => UB
  end.

(** [p[i]]. *)
Definition rd8 (image : bytes) (p : Z) : outcome Z :=
  match zget image p with Some b => Ok b | None => UB end.

(** ** Layout constants *)

Definition EXT_SB_OFFSET : Z := 1024.
Definition SB_INODES_COUNT : Z := 0x00.
Definition SB_BLOCKS_COUNT_LO : Z := 0x04.
Definition SB_FIRST_DATA_BLOCK : Z := 0x14.
Definition SB_LOG_BLOCK_SIZE : Z := 0x18.
Definition SB_BLOCKS_PER_GROUP : Z := 0x20.
Definition SB_INODES_PER_GROUP : Z := 0x28.
Definition SB_MAGIC : Z := 0x38.
Definition SB_STATE : Z := 0x3A.
Definition SB_REV_LEVEL : Z := 0x4C.
Definition SB_INODE_SIZE : Z := 0x58.
Definition SB_FEATURE_INCOMPAT : Z := 0x60.
Definition SB_DESC_SIZE : Z := 0xFE.
Definition SB_BLOCKS_COUNT_HI : Z := 0x150.
Definition EXT_SUPER_MAGIC : Z := 0xEF53.
Definition EXT_STATE_CLEAN : Z := 0x0001.
Definition INCOMPAT_FILETYPE : Z := 0x00002.
Definition INCOMPAT_RECOVER : Z := 0x00004.
Definition INCOMPAT_EXTENTS : Z := 0x00040.
Definition INCOMPAT_64BIT : Z := 0x00080.
Definition INCOMPAT_FLEX_BG : Z := 0x00200.
Definition INCOMPAT_CSUM_SEED : Z := 0x02000.
Definition INCOMPAT_INLINE_DATA : Z := 0x08000.
Definition INCOMPAT_ALLOWED : Z :=
  Z.lor (Z.lor (Z.lor (Z.lor (Z.lor INCOMPAT_FILETYPE INCOMPAT_EXTENTS) INCOMPAT_64BIT) INCOMPAT_FLEX_BG)
    INCOMPAT_CSUM_SEED) INCOMPAT_INLINE_DATA.
Definition GD_INODE_TABLE_LO : Z := 0x08.
Definition GD_INODE_TABLE_HI : Z := 0x28.
Definition GD_SIZE_32 : Z := 32.
Definition INO_MODE : Z := 0x00.
Definition INO_SIZE_LO : Z := 0x04.
Definition INO_FLAGS : Z := 0x20.
Definition INO_BLOCK : Z := 0x28.
Definition INO_SIZE_HIGH : Z := 0x6C.
Definition INO_BLOCK_LEN : Z := 60.
Definition INO_MIN_SIZE : Z := 128.
Definition MODE_FMT_MASK : Z := 0xF000.
Definition MODE_REGULAR : Z := 0x8000.
Definition MODE_DIRECTORY : Z := 0x4000.
Definition IFLAG_EXTENTS : Z := 0x00080000.
Definition IFLAG_INLINE_DATA : Z := 0x10000000.
Definition EH_MAGIC_OFF : Z := 0.
Definition EH_ENTRIES_OFF : Z := 2.
Definition EH_DEPTH_OFF : Z := 6.
Definition EH_SIZE : Z := 12.
Definition EXT_ENTRY_SIZE : Z := 12.
Definition EXTENT_HEADER_MAGIC : Z := 0xF30A.
Definition EXTENT_MAX_DEPTH : Z := 5.
Definition EXT_INIT_MAX_LEN : Z := 32768.
Definition EE_BLOCK_OFF : Z := 0.
Definition EE_LEN_OFF : Z := 4.
Definition EE_START_HI_OFF : Z := 6.
Definition EE_START_LO_OFF : Z := 8.
Definition EI_LEAF_LO_OFF : Z := 4.
Definition EI_LEAF_HI_OFF : Z := 8.
Definition DE_INODE_OFF : Z := 0.
Definition DE_REC_LEN_OFF : Z := 4.
Definition DE_NAME_LEN_OFF : Z := 6.
Definition DE_FILE_TYPE_OFF : Z := 7.
Definition DE_NAME_OFF : Z := 8.
Definition DE_FT_UNKNOWN : Z := 0.
Definition DE_FT_REGULAR : Z := 1.
Definition DE_FT_DIRECTORY : Z := 2.
Definition EXT_ROOT_INODE : Z := 2.
Definition MAX_PATH_LEN : Z := 4096.
Definition MAX_DIR_DEPTH : Z := 128.
Definition MAX_EXTENTS_PER_FILE : Z := 65536.
Definition MAX_FILE_BLOCKS : Z := Z.shiftl 1 32.

(** ** The handle *)

Record fsd_extfs := mkExtfs {
  fx_image : bytes;
  fx_image_size : Z;
  fx_block_size : Z;
  fx_block_count : Z;
  fx_inodes_count : Z;
  fx_inodes_per_group : Z;
  fx_blocks_per_group : Z;
  fx_inode_size : Z;
  fx_desc_size : Z;
  fx_first_data_block : Z;
  fx_gdt_start : Z;
  fx_group_count : Z;
  fx_has_filetype : bool
}.

Definition sizeof_extfs : Z := 72.

(** Pointer to filesystem block [b]. *)
Definition fs_block (fs : fsd_extfs) (b : Z) : option Z :=
  if (b =? 0) || (fx_block_count fs <=? b) then None else
  let off := u64 (b * fx_block_size fs) in
  if fx_image_size fs <? u64 (off + fx_block_size fs) then None else Some off.

(** The checks of fsd_extfs_open on the superblock proper; the logarithm of the
    block size, the incompatible features and the revision. *)
Definition probe (image : bytes) (image_size : Z) : outcome (Z * Z * Z) :=
  if image_size <? EXT_SB_OFFSET + 1024 then Err FSD_ERR_BAD_MAGIC else
  let sb := EXT_SB_OFFSET in
  magic ← rd16 image (sb + SB_MAGIC);
  if negb (magic =? EXT_SUPER_MAGIC) then Err FSD_ERR_BAD_MAGIC else
  log_bs ← rd32 image (sb + SB_LOG_BLOCK_SIZE);
  incompat ← rd32 image (sb + SB_FEATURE_INCOMPAT);
  rev ← rd32 image (sb + SB_REV_LEVEL);
  if 2 <? log_bs then Err FSD_ERR_BAD_MAGIC else
  if negb (Z.land incompat INCOMPAT_RECOVER =? 0) then Err FSD_ERR_BAD_MAGIC else
  if negb (Z.land incompat (u32 (Z.lnot INCOMPAT_ALLOWED)) =? 0) then Err FSD_ERR_BAD_MAGIC else
  state ← rd16 image (sb + SB_STATE);
  if Z.land state EXT_STATE_CLEAN =? 0 then Err FSD_ERR_BAD_MAGIC else
  Ok (log_bs, incompat, rev).

(** The fields it fills from the superblock. *)
Definition read_fields (image : bytes) (image_size log_bs incompat rev : Z) : outcome fsd_extfs :=
  let sb := EXT_SB_OFFSET in
  let is64 := negb (Z.land incompat INCOMPAT_64BIT =? 0) in
  blocks_lo ← rd32 image (sb + SB_BLOCKS_COUNT_LO);
  block_count ← (if is64 then hi ← rd32 image (sb + SB_BLOCKS_COUNT_HI); Ok (Z.lor blocks_lo (Z.shiftl hi 32))
                 else Ok blocks_lo);
  inodes_count ← rd32 image (sb + SB_INODES_COUNT);
  inodes_per_group ← rd32 image (sb + SB_INODES_PER_GROUP);
  blocks_per_group ← rd32 image (sb + SB_BLOCKS_PER_GROUP);
  first_data_block ← rd32 image (sb + SB_FIRST_DATA_BLOCK);
  inode_size ← (if 1 <=? rev then rd16 image (sb + SB_INODE_SIZE) else Ok INO_MIN_SIZE);
  desc_size ← (if is64 then rd16 image (sb + SB_DESC_SIZE) else Ok GD_SIZE_32);
  Ok (mkExtfs image image_size (u32 (Z.shiftl 1024 log_bs)) block_count inodes_count inodes_per_group
        blocks_per_group inode_size desc_size first_data_block 0 0
        (negb (Z.land incompat INCOMPAT_FILETYPE =? 0))).

(** Its checks of the geometry, with the two derived fields. *)
Definition check_geometry (fs : fsd_extfs) : outcome fsd_extfs :=
  let corrupt := Err FSD_ERR_CORRUPT_DATA in
  if (fx_inodes_per_group fs =? 0) || (fx_blocks_per_group fs =? 0) || (fx_inodes_count fs =? 0) ||
     (fx_block_count fs =? 0) then corrupt else
  if (fx_inode_size fs <? INO_MIN_SIZE) || (fx_block_size fs <? fx_inode_size fs) ||
     negb (Z.land (fx_inode_size fs) (fx_inode_size fs - 1) =? 0) then corrupt else
  if (fx_desc_size fs <? GD_SIZE_32) || (fx_block_size fs <? fx_desc_size fs) then corrupt else
  if negb (fx_first_data_block fs =? (if fx_block_size fs =? 1024 then 1 else 0)) then corrupt else
  if fx_image_size fs / fx_block_size fs <? fx_block_count fs then corrupt else
  let group_count := u32 (u64 (fx_block_count fs - fx_first_data_block fs + fx_blocks_per_group fs - 1)
                            / fx_blocks_per_group fs) in
  if u64 (group_count * fx_inodes_per_group fs) <? fx_inodes_count fs then corrupt else
  let gdt_start := u64 (u32 (fx_first_data_block fs + 1) * fx_block_size fs) in
  if fx_image_size fs <? u64 (gdt_start + u64 (group_count * fx_desc_size fs)) then corrupt else
  Ok (mkExtfs (fx_image fs) (fx_image_size fs) (fx_block_size fs) (fx_block_count fs) (fx_inodes_count fs)
        (fx_inodes_per_group fs) (fx_blocks_per_group fs) (fx_inode_size fs) (fx_desc_size fs)
        (fx_first_data_block fs) gdt_start group_count (fx_has_filetype fs)).

Definition fsd_extfs_open (malloc_ok : allocator) (image : bytes) (image_size : Z) : outcome fsd_extfs :=
  '(log_bs, incompat, rev) ← probe image image_size;
  if negb (malloc_ok sizeof_extfs) then Err FSD_ERR_OUT_OF_MEMORY else
  fs ← read_fields image image_size log_bs incompat rev;
  check_geometry fs.

Definition fsd_extfs_block_size (fs : option fsd_extfs) : Z :=
  match fs with Some fs => fx_block_size fs | None => 0 end.

Definition fsd_extfs_block_count (fs : option fsd_extfs) : Z :=
  match fs with Some fs => fx_block_count fs | None => 0 end.

(** ** Inodes *)

Definition inode_ptr (fs : fsd_extfs) (ino : Z) : outcome (option Z) :=
  if (ino =? 0) || (fx_inodes_count fs <? ino) then Ok None else
  let index := ino - 1 in
  let group := index / fx_inodes_per_group fs in
  let within := index mod fx_inodes_per_group fs in
  let gd := fx_gdt_start fs + u64 (group * fx_desc_size fs) in
  lo ← rd32 (fx_image fs) (gd + GD_INODE_TABLE_LO);
  table ← (if GD_INODE_TABLE_HI + 4 <=? fx_desc_size fs
           then hi ← rd32 (fx_image fs) (gd + GD_INODE_TABLE_HI); Ok (Z.lor lo (Z.shiftl hi 32))
           else Ok lo);
  let byte := u64 (u64 (table * fx_block_size fs) + u64 (within * fx_inode_size fs)) in
  if (table =? 0) || (fx_block_count fs <=? table) || (fx_image_size fs <? u64 (byte + fx_inode_size fs))
  then Ok None else Ok (Some byte).

Definition inode_file_size (fs : fsd_extfs) (ino mode : Z) : outcome Z :=
  size ← rd32 (fx_image fs) (ino + INO_SIZE_LO);
  if Z.land mode MODE_FMT_MASK =? MODE_REGULAR
  then hi ← rd32 (fx_image fs) (ino + INO_SIZE_HIGH); Ok (Z.lor size (Z.shiftl hi 32))
  else Ok size.

(** ** Extents *)

Record fsd_ext_extent_t := mkExtent { ex_logical : Z; ex_physical : Z; ex_count : Z }.

#[global] Instance fsd_ext_extent_eq_dec : EqDecision fsd_ext_extent_t.
Proof. solve_decision. Defined.

(** The elements in use and the capacity. *)
Record extent_list_t := mkExtents { el_v : list fsd_ext_extent_t; el_cap : Z }.

Definition sizeof_extent : Z := 24.

(** The last element separated from the ones before it. *)
Definition split_last {A} (l : list A) : option (list A * A) :=
  match rev l with [] => None | x :: r => Some (rev r, x) end.

Section Extents.
Context (malloc_ok : allocator).

(** [true] is the return value 0. *)
Definition extent_append (l : extent_list_t) (logical physical count : Z) : bool * extent_list_t :=
  let fresh :=
    if MAX_EXTENTS_PER_FILE <=? zlen (el_v l) then (false, l) else
    let new := el_v l ++ [mkExtent logical physical count] in
    if zlen (el_v l) =? el_cap l then
      let cap := if el_cap l =? 0 then 16 else u64 (el_cap l * 2) in
      if negb (malloc_ok (u64 (cap * sizeof_extent))) then (false, l) else (true, mkExtents new cap)
    else (true, mkExtents new (el_cap l)) in
  if count =? 0 then (true, l) else
  match split_last (el_v l) with
  | Some (before, last) =>
      if (u64 (ex_logical last + ex_count last) =? logical) && (u64 (ex_physical last + ex_count last) =? physical)
      then (true, mkExtents (before ++ [mkExtent (ex_logical last) (ex_physical last) (u64 (ex_count last + count))])
                    (el_cap l))
      else fresh
  | None => fresh
  end.

Section Node.
Context (fs : fsd_extfs).

(** The entries of a node of depth [depth], [n] of them from [entry] on; [child]
    is the recursive call on a child block. *)
Fixpoint entries_loop (child : Z → extent_list_t → outcome (bool * extent_list_t)) (depth : Z)
    (n : nat) (entry : Z) (out : extent_list_t) : outcome (bool * extent_list_t) :=
  match n with
  | O => Ok (true, out)
  | S n =>
      let continue := entries_loop child depth n (entry + EXT_ENTRY_SIZE) in
      if depth =? 0 then
        len ← rd16 (fx_image fs) (entry + EE_LEN_OFF);
        if len =? 0 then continue out else
        if EXT_INIT_MAX_LEN <? len then continue out else
        lo ← rd32 (fx_image fs) (entry + EE_START_LO_OFF);
        hi ← rd16 (fx_image fs) (entry + EE_START_HI_OFF);
        let phys := Z.lor lo (Z.shiftl hi 32) in
        if (phys =? 0) || (fx_block_count fs <? u64 (phys + len)) then Ok (false, out) else
        block ← rd32 (fx_image fs) (entry + EE_BLOCK_OFF);
        let '(done, out) := extent_append out block phys len in
        if (done : bool) then continue out else Ok (false, out)
      else
        lo ← rd32 (fx_image fs) (entry + EI_LEAF_LO_OFF);
        hi ← rd16 (fx_image fs) (entry + EI_LEAF_HI_OFF);
        match fs_block fs (Z.lor lo (Z.shiftl hi 32)) with
        | None => Ok (false, out)
        | Some cb =>
            '(done, out) ← child cb out;
            if (done : bool) then continue out else Ok (false, out)
        end
  end.

(** The fuel bounds the depth of the tree. *)
Fixpoint extents_from_node (fuel : nat) (node space expect_depth : Z) (out : extent_list_t)
  : outcome (bool * extent_list_t) :=
  match fuel with
  | O => NoFuel
  | S fuel =>
      if space <? EH_SIZE then Ok (false, out) else
      magic ← rd16 (fx_image fs) (node + EH_MAGIC_OFF);
      if negb (magic =? EXTENT_HEADER_MAGIC) then Ok (false, out) else
      entries ← rd16 (fx_image fs) (node + EH_ENTRIES_OFF);
      depth ← rd16 (fx_image fs) (node + EH_DEPTH_OFF);
      if (EXTENT_MAX_DEPTH <? depth) || ((0 <=? expect_depth) && negb (depth =? u16 expect_depth))
      then Ok (false, out) else
      if space <? EH_SIZE + entries * EXT_ENTRY_SIZE then Ok (false, out) else
      entries_loop (fun cb => extents_from_node fuel cb (fx_block_size fs) (depth - 1))
        depth (Z.to_nat entries) (node + EH_SIZE) out
  end.

(** The result of walking a block map: success, [*logical], the list. *)
Abbreviation mapped := (outcome (bool * Z * extent_list_t)).

(** for (i = 0; i < per && remaining > *logical; i++) *)
Fixpoint map_loop (child : Z → Z → extent_list_t → mapped) (remaining : Z) (n : nat) (ptr logical : Z)
    (out : extent_list_t) : mapped :=
  match n with
  | O => Ok (true, logical, out)
  | S n =>
      if remaining <=? logical then Ok (true, logical, out) else
      b ← rd32 (fx_image fs) ptr;
      '(done, logical, out) ← child b logical out;
      if (done : bool) then map_loop child remaining n (ptr + 4) logical out else Ok (false, logical, out)
  end.

(** The file blocks below a map block of this level. *)
Definition map_span (level : nat) : Z :=
  let per := fx_block_size fs / 4 in
  Nat.iter (level - 1) (fun span => u64 (span * per)) per.

Fixpoint blockmap_indirect (level : nat) (remaining map_block logical : Z) (out : extent_list_t) : mapped :=
  if remaining =? 0 then Ok (true, logical, out) else
  if map_block =? 0 then
    Ok (true, u64 (logical + match level with O => 1 | S _ => map_span level end), out)
  else
  match level with
  | O =>
      if fx_block_count fs <=? map_block then Ok (false, logical, out) else
      let '(done, out) := extent_append out logical map_block 1 in
      Ok (done, u64 (logical + 1), out)
  | S level =>
      match fs_block fs map_block with
      | None => Ok (false, logical, out)
      | Some blk =>
          map_loop (blockmap_indirect level remaining) remaining (Z.to_nat (fx_block_size fs / 4)) blk logical out
      end
  end.

(** for (level = 1; level <= 3 && logical < file_blocks; level++) *)
Fixpoint levels_loop (iblock file_blocks : Z) (levels : list nat) (logical : Z) (out : extent_list_t)
  : outcome (bool * extent_list_t) :=
  match levels with
  | [] => Ok (true, out)
  | level :: levels =>
      if file_blocks <=? logical then Ok (true, out) else
      b ← rd32 (fx_image fs) (iblock + (11 + Z.of_nat level) * 4);
      '(done, logical, out) ← blockmap_indirect level file_blocks b logical out;
      if (done : bool) then levels_loop iblock file_blocks levels logical out else Ok (false, out)
  end.

Definition blockmap_collect (iblock file_blocks : Z) (out : extent_list_t) : outcome (bool * extent_list_t) :=
  if MAX_FILE_BLOCKS <? file_blocks then Ok (false, out) else
  '(done, logical, out) ← map_loop (blockmap_indirect 0 file_blocks) file_blocks 12 iblock 0 out;
  if (done : bool) then levels_loop iblock file_blocks [1; 2; 3]%nat logical out else Ok (false, out).

Definition inode_extents (ino : Z) (out : extent_list_t) : outcome (bool * extent_list_t) :=
  flags ← rd32 (fx_image fs) (ino + INO_FLAGS);
  let out := mkExtents [] (el_cap out) in
  if negb (Z.land flags IFLAG_INLINE_DATA =? 0) then Ok (true, out) else
  if negb (Z.land flags IFLAG_EXTENTS =? 0)
  then extents_from_node 6 (ino + INO_BLOCK) INO_BLOCK_LEN (-1) out else
  mode ← rd16 (fx_image fs) (ino + INO_MODE);
  size ← inode_file_size fs ino mode;
  let file_blocks := u64 (size + fx_block_size fs - 1) / fx_block_size fs in
  blockmap_collect (ino + INO_BLOCK) file_blocks out.

End Node.
End Extents.

(** ** The directory walk *)

Record dir_entry_t := mkDir { de_inode : Z; de_path : bytes }.

(** The entries, the top of the stack first, and the capacity. *)
Record dir_stack_t := mkStack { dk_v : list dir_entry_t; dk_cap : Z }.

Definition sizeof_dir_entry : Z := 16.

Definition dir_push (malloc_ok : allocator) (st : dir_stack_t) (ino : Z) (path : bytes) : option dir_stack_t :=
  let grow :=
    if zlen (dk_v st) =? dk_cap st then
      let cap := if dk_cap st =? 0 then 64 else u64 (dk_cap st * 2) in
      if negb (malloc_ok (u64 (cap * sizeof_dir_entry))) then None else Some cap
    else Some (dk_cap st) in
  match grow with
  | None => None
  | Some cap =>
      if negb (malloc_ok (zlen path + 1)) then None
      else Some (mkStack (mkDir ino path :: dk_v st) cap)
  end.

(** The number of slashes. *)
Definition path_depth (p : bytes) : Z := zlen (filter (fun c => c = 47) p).

(** [visited[ino / 8] & (1u << (ino % 8))], nonzero or not. *)
Definition is_visited (visited : bytes) (ino : Z) : outcome bool :=
  match zget visited (ino / 8) with
  | None => UB
  | Some v => Ok (negb (Z.land v (Z.shiftl 1 (ino mod 8)) =? 0))
  end.

Definition mark_visited (visited : bytes) (ino : Z) : outcome bytes :=
  match zget visited (ino / 8) with
  | None => UB
  | Some v => Ok (zput visited (ino / 8) (Z.lor v (u8 (Z.shiftl 1 (ino mod 8)))))
  end.

(** The name part of [path_buf], which has MAX_PATH_LEN bytes with the final NUL. *)
Definition build_path (dir_path name : bytes) : outcome bytes :=
  let path := dir_path ++ [47] ++ name in
  if MAX_PATH_LEN <? zlen path + 1 then UB else Ok path.

(** [name_len] and [ftype] of the directory entry at [de]. *)
Definition dirent_type (fs : fsd_extfs) (de ino : Z) : outcome (Z * Z) :=
  if fx_has_filetype fs then
    name_len ← rd8 (fx_image fs) (de + DE_NAME_LEN_OFF);
    ftype ← rd8 (fx_image fs) (de + DE_FILE_TYPE_OFF);
    Ok (name_len, ftype)
  else
    name_len ← rd16 (fx_image fs) (de + DE_NAME_LEN_OFF);
    ti ← inode_ptr fs ino;
    match ti with
    | None => Ok (name_len, DE_FT_UNKNOWN)
    | Some ti =>
        mode ← rd16 (fx_image fs) (ti + INO_MODE);
        let fmt := Z.land mode MODE_FMT_MASK in
        Ok (name_len, if fmt =? MODE_DIRECTORY then DE_FT_DIRECTORY
                      else if fmt =? MODE_REGULAR then DE_FT_REGULAR else DE_FT_UNKNOWN)
    end.

Definition is_dot (name : bytes) : bool := bool_decide (name = [46]) || bool_decide (name = [46; 46]).

Section Walk.
Context {U : Type}.

(** The callback: the user state, the path, the inode number, the file size and
    the extents; [true] asks the walk to stop. *)
Definition fsd_extfs_file_cb : Type := U → bytes → Z → Z → list fsd_ext_extent_t → outcome (bool * U).

Record walk_state := mkWalk {
  wk_visited : bytes;
  wk_stack : dir_stack_t;
  wk_dir_ext : extent_list_t;
  wk_file_ext : extent_list_t;
  wk_stopped : bool;
  wk_user : U
}.

Context (malloc_ok : allocator) (fs : fsd_extfs) (cb : fsd_extfs_file_cb).

(** A subdirectory is pushed once. *)
Definition enter_dir (ino : Z) (path : bytes) (w : walk_state) : outcome walk_state :=
  if fx_inodes_count fs <? ino then Ok w else
  seen ← is_visited (wk_visited w) ino;
  if (seen : bool) then Ok w else
  if MAX_DIR_DEPTH <? path_depth path then Ok w else
  visited ← mark_visited (wk_visited w) ino;
  match dir_push malloc_ok (wk_stack w) ino path with
  | None => Err FSD_ERR_OUT_OF_MEMORY
  | Some stack => Ok (mkWalk visited stack (wk_dir_ext w) (wk_file_ext w) (wk_stopped w) (wk_user w))
  end.

(** A regular file is reported. *)
Definition report_file (ino : Z) (path : bytes) (w : walk_state) : outcome walk_state :=
  fi ← inode_ptr fs ino;
  match fi with
  | None => Ok w
  | Some fi =>
      mode ← rd16 (fx_image fs) (fi + INO_MODE);
      if negb (Z.land mode MODE_FMT_MASK =? MODE_REGULAR) then Ok w else
      '(done, file_ext) ← inode_extents malloc_ok fs fi (wk_file_ext w);
      if negb done then Ok (mkWalk (wk_visited w) (wk_stack w) (wk_dir_ext w) file_ext (wk_stopped w) (wk_user w)) else
      fsize ← inode_file_size fs fi mode;
      '(stop, user) ← cb (wk_user w) path ino fsize (el_v file_ext);
      Ok (mkWalk (wk_visited w) (wk_stack w) (wk_dir_ext w) file_ext (wk_stopped w || stop) user)
  end.

(** One directory entry at [de], of [rec_len] bytes. *)
Definition visit_dirent (dir_path : bytes) (de rec_len : Z) (w : walk_state) : outcome walk_state :=
  ino ← rd32 (fx_image fs) (de + DE_INODE_OFF);
  '(name_len, ftype) ← dirent_type fs de ino;
  if (ino =? 0) || (name_len =? 0) || (rec_len <? DE_NAME_OFF + name_len) then Ok w else
  name ← load (de + DE_NAME_OFF) name_len (fx_image fs);
  if is_dot name || existsb (Z.eqb 47) name || existsb (Z.eqb 0) name ||
     (MAX_PATH_LEN <=? zlen dir_path + 1 + name_len) then Ok w else
  path ← build_path dir_path name;
  if ftype =? DE_FT_DIRECTORY then enter_dir ino path w
  else if ftype =? DE_FT_REGULAR then report_file ino path w
  else Ok w.

(** while (pos + DE_NAME_OFF <= fs->block_size): every entry has at least eight
    bytes.  The loop does not look at [stopped]. *)
Fixpoint dirent_loop (fuel : nat) (dir_path : bytes) (blk pos : Z) (w : walk_state) : outcome walk_state :=
  match fuel with
  | O => NoFuel
  | S fuel =>
      if fx_block_size fs <? u32 (pos + DE_NAME_OFF) then Ok w else
      let de := blk + pos in
      rec_len ← rd16 (fx_image fs) (de + DE_REC_LEN_OFF);
      if (rec_len <? DE_NAME_OFF) || negb (Z.land rec_len 3 =? 0) || (fx_block_size fs <? u32 (pos + rec_len))
      then Ok w else
      w ← visit_dirent dir_path de rec_len w;
      dirent_loop fuel dir_path blk (u32 (pos + rec_len)) w
  end.

Definition dirent_fuel : nat := S (Z.to_nat (fx_block_size fs / 8)).

(** for (b = 0; b < ext.count && !stopped; b++), [n] blocks left *)
Fixpoint dir_blocks_loop (n : nat) (dir_path : bytes) (physical : Z) (w : walk_state) : outcome walk_state :=
  match n with
  | O => Ok w
  | S n =>
      if wk_stopped w then Ok w else
      w ← match fs_block fs physical with
          | None => Ok w
          | Some blk => dirent_loop dirent_fuel dir_path blk 0 w
          end;
      dir_blocks_loop n dir_path (u64 (physical + 1)) w
  end.

(** for (e = 0; e < dir_ext.n && !stopped; e++) *)
Fixpoint dir_extents_loop (exts : list fsd_ext_extent_t) (dir_path : bytes) (w : walk_state) : outcome walk_state :=
  match exts with
  | [] => Ok w
  | ext :: exts =>
      if wk_stopped w then Ok w else
      w ← dir_blocks_loop (Z.to_nat (ex_count ext)) dir_path (ex_physical ext) w;
      dir_extents_loop exts dir_path w
  end.

(** The directory popped from the stack. *)
Definition visit_dir (dir : dir_entry_t) (w : walk_state) : outcome walk_state :=
  dino ← inode_ptr fs (de_inode dir);
  match dino with
  | None => Ok w
  | Some dino =>
      mode ← rd16 (fx_image fs) (dino + INO_MODE);
      if negb (Z.land mode MODE_FMT_MASK =? MODE_DIRECTORY) then Ok w else
      '(done, dir_ext) ← inode_extents malloc_ok fs dino (wk_dir_ext w);
      let w := mkWalk (wk_visited w) (wk_stack w) dir_ext (wk_file_ext w) (wk_stopped w) (wk_user w) in
      if negb done then Ok w else dir_extents_loop (el_v dir_ext) (de_path dir) w
  end.

(** while (stack.n > 0 && !stopped) *)
Fixpoint walk_loop (fuel : nat) (w : walk_state) : outcome walk_state :=
  match fuel with
  | O => NoFuel
  | S fuel =>
      match dk_v (wk_stack w) with
      | [] => Ok w
      | dir :: rest =>
          if wk_stopped w then Ok w else
          w ← visit_dir dir (mkWalk (wk_visited w) (mkStack rest (dk_cap (wk_stack w))) (wk_dir_ext w)
                               (wk_file_ext w) (wk_stopped w) (wk_user w));
          walk_loop fuel w
      end
  end.

Definition walk_fuel : nat := S (S (Z.to_nat (fx_inodes_count fs))).

Definition fsd_extfs_walk (user : U) : outcome U :=
  if negb (malloc_ok (fx_inodes_count fs / 8 + 1)) || negb (malloc_ok MAX_PATH_LEN)
  then Err FSD_ERR_OUT_OF_MEMORY else
  match dir_push malloc_ok (mkStack [] 0) EXT_ROOT_INODE [] with
  | None => Err FSD_ERR_OUT_OF_MEMORY
  | Some stack =>
      visited ← mark_visited (fill (fx_inodes_count fs / 8 + 1) 0) EXT_ROOT_INODE;
      w ← walk_loop walk_fuel (mkWalk visited stack (mkExtents [] 0) (mkExtents [] 0) false user);
      Ok (wk_user w)
  end.

End Walk.
Arguments fsd_extfs_file_cb : clear implicits.
Arguments walk_state : clear implicits.

(** * Reads *)

Lemma load_2 image p : bytes_ok image → 0 ≤ p → p + 2 ≤ zlen image →
  ∃ a b, load p 2 image = Ok [a; b] ∧ is_byte a ∧ is_byte b.
Proof.
  intros Hok H0 H1. rewrite load_ok by lia.
  pose proof (bytes_ok_slice p 2 _ Hok) as Hs. pose proof (zlen_slice p 2 image ltac:(lia) ltac:(lia) H1) as Hl.
  destruct (slice p 2 image) as [|a [|b [|]]]; try (exfalso; unfold zlen in Hl; cbn [length] in Hl; lia).
  rewrite !bytes_ok_cons in Hs. naive_solver.
Qed.

Lemma load_4 image p : bytes_ok image → 0 ≤ p → p + 4 ≤ zlen image →
  ∃ a b c d, load p 4 image = Ok [a; b; c; d] ∧ is_byte a ∧ is_byte b ∧ is_byte c ∧ is_byte d.
Proof.
  intros Hok H0 H1. rewrite load_ok by lia.
  pose proof (bytes_ok_slice p 4 _ Hok) as Hs. pose proof (zlen_slice p 4 image ltac:(lia) ltac:(lia) H1) as Hl.
  destruct (slice p 4 image) as [|a [|b [|c [|d [|]]]]]; try (exfalso; unfold zlen in Hl; cbn [length] in Hl; lia).
  rewrite !bytes_ok_cons in Hs. naive_solver.
Qed.

Lemma rd16_returns image p E : bytes_ok image → 0 ≤ p → p + 2 ≤ zlen image →
  returns (fun v => 0 ≤ v < 2 ^ 16) E (rd16 image p).
Proof.
  intros Hok H0 H1. unfold rd16. destruct (load_2 image p Hok H0 H1) as (a & b & -> & _).
  cbn [mbind outcome_bind returns]. apply wrap_range. lia.
Qed.

Lemma lor3 a b n m : 0 ≤ a < 2 ^ n → 0 ≤ b < 2 ^ m → 0 ≤ n → 0 ≤ m → 0 ≤ Z.lor a (Z.shiftl b n) < 2 ^ (n + m).
Proof. intros. rewrite lor_shiftl_add by lia. rewrite Z.pow_add_r by lia. nia. Qed.

Lemma rd32_returns image p E : bytes_ok image → 0 ≤ p → p + 4 ≤ zlen image →
  returns (fun v => 0 ≤ v < 2 ^ 32) E (rd32 image p).
Proof.
  intros Hok H0 H1. unfold rd32. destruct (load_4 image p Hok H0 H1) as (a & b & c & d & -> & Ha & Hb & Hc & Hd).
  cbn [mbind outcome_bind returns]. unfold is_byte in *.
  apply (lor3 _ _ 24 8); [|lia..]. apply (lor3 _ _ 16 8); [|lia..]. apply (lor3 _ _ 8 8); lia.
Qed.

Lemma rd8_returns image p E : bytes_ok image → 0 ≤ p → p < zlen image →
  returns (fun v => 0 ≤ v < 256) E (rd8 image p).
Proof.
  intros Hok H0 H1. unfold rd8. destruct (zget_is_Some image p) as [b Hb]; [lia|]. rewrite Hb. cbn.
  unfold zget in Hb. destruct (0 <=? p); [|done]. unfold bytes_ok in Hok. rewrite Forall_lookup in Hok.
  exact (Hok _ _ Hb).
Qed.

(** Two halves of a wider field. *)
Lemma lor_hi lo hi w : 0 ≤ w → 0 ≤ lo < 2 ^ 32 → 0 ≤ hi < 2 ^ w → 0 ≤ Z.lor lo (Z.shiftl hi 32) < 2 ^ (32 + w).
Proof. intros. by apply lor3; [| |lia|]. Qed.

(** One step of a computation by what its first part returns. *)
Ltac ret_step lem := eapply returns_bind; [apply lem|cbn beta].
Ltac read_step :=
  eapply returns_bind; [first [apply rd16_returns | apply rd32_returns | apply rd8_returns]; [done|lia..]|];
  let v := fresh "v" in let H := fresh "Hv" in intros v H; cbn beta in H.

(** * Opening *)

Record extfs_ok (fs : fsd_extfs) : Prop := {
  fo_bytes : bytes_ok (fx_image fs);
  fo_size : fx_image_size fs ≤ zlen (fx_image fs);
  fo_max : fx_image_size fs ≤ 2 ^ 62;
  fo_bs : fx_block_size fs = 1024 ∨ fx_block_size fs = 2048 ∨ fx_block_size fs = 4096;
  fo_blocks : 0 < fx_block_count fs ∧ fx_block_count fs * fx_block_size fs ≤ fx_image_size fs;
  fo_inodes : 0 < fx_inodes_count fs < 2 ^ 32;
  fo_ipg : 0 < fx_inodes_per_group fs < 2 ^ 32;
  fo_inode_size : 128 ≤ fx_inode_size fs ≤ 4096;
  fo_desc : 32 ≤ fx_desc_size fs ≤ 4096;
  fo_gdt : 0 ≤ fx_gdt_start fs;
  fo_groups : 0 ≤ fx_group_count fs < 2 ^ 32 ∧
    fx_inodes_count fs ≤ fx_group_count fs * fx_inodes_per_group fs ∧
    fx_gdt_start fs + fx_group_count fs * fx_desc_size fs ≤ fx_image_size fs
}.

Lemma probe_returns image image_size :
  bytes_ok image → image_size ≤ zlen image →
  returns (fun '(log_bs, incompat, rev) => 2048 ≤ image_size ∧ 0 ≤ log_bs ≤ 2) (eq FSD_ERR_BAD_MAGIC) (probe image image_size).
Proof.
  intros Hok Hl. unfold probe, EXT_SB_OFFSET, SB_MAGIC, SB_LOG_BLOCK_SIZE, SB_FEATURE_INCOMPAT, SB_REV_LEVEL, SB_STATE.
  destruct (Z.ltb_spec image_size (1024 + 1024)); [done|].
  read_step. destruct (negb _); [done|]. do 3 read_step.
  destruct (Z.ltb_spec 2 v0); [done|]. destruct (negb _); [done|]. destruct (negb _); [done|].
  read_step. destruct (_ =? 0); [done|]. cbn. lia.
Qed.

(** The block size. *)
Lemma shiftl_1024 k : 0 ≤ k ≤ 2 → let b := u32 (Z.shiftl 1024 k) in b = 1024 ∨ b = 2048 ∨ b = 4096.
Proof. intros. assert (k = 0 ∨ k = 1 ∨ k = 2) as [->|[->| ->]] by lia; vm_compute; auto. Qed.

(** The fields as read, before the geometry is checked. *)
Record fields_ok (image : bytes) (image_size : Z) (fs : fsd_extfs) : Prop := {
  ff_image : fx_image fs = image;
  ff_size : fx_image_size fs = image_size;
  ff_bs : fx_block_size fs = 1024 ∨ fx_block_size fs = 2048 ∨ fx_block_size fs = 4096;
  ff_blocks : 0 ≤ fx_block_count fs;
  ff_inodes : 0 ≤ fx_inodes_count fs < 2 ^ 32;
  ff_ipg : 0 ≤ fx_inodes_per_group fs < 2 ^ 32;
  ff_bpg : 0 ≤ fx_blocks_per_group fs < 2 ^ 32
}.

Lemma read_fields_returns image image_size log_bs incompat rev E :
  bytes_ok image → image_size ≤ zlen image → 2048 ≤ image_size → 0 ≤ log_bs ≤ 2 →
  returns (fields_ok image image_size) E (read_fields image image_size log_bs incompat rev).
Proof.
  intros Hok Hl Hs Hlog. unfold read_fields, EXT_SB_OFFSET, SB_BLOCKS_COUNT_LO, SB_BLOCKS_COUNT_HI, SB_INODES_COUNT,
    SB_INODES_PER_GROUP, SB_BLOCKS_PER_GROUP, SB_FIRST_DATA_BLOCK, SB_INODE_SIZE, SB_DESC_SIZE.
  read_step. eapply (returns_bind (fun c => 0 ≤ c)).
  { destruct (negb _); [read_step; apply Z.lor_nonneg; split; [lia|apply Z.shiftl_nonneg; lia]|cbn; lia]. }
  intros blocks Hblocks. do 4 read_step.
  eapply (returns_bind (fun _ => True)).
  { destruct (1 <=? rev); [|done]. eapply returns_mono; [apply rd16_returns; [done|lia..]|done|by intros e He]. }
  intros isz _. eapply (returns_bind (fun _ => True)).
  { destruct (negb _); [|done]. eapply returns_mono; [apply rd16_returns; [done|lia..]|done|by intros e He]. }
  intros dsz _. cbn [returns]. constructor; cbn; try done; try lia. by apply shiftl_1024.
Qed.

Lemma check_geometry_returns image image_size fs :
  bytes_ok image → image_size ≤ zlen image → image_size ≤ 2 ^ 62 → fields_ok image image_size fs →
  returns (fun fs' => extfs_ok fs' ∧ fx_image fs' = image ∧ fx_image_size fs' = image_size)
    (eq FSD_ERR_CORRUPT_DATA) (check_geometry fs).
Proof.
  intros Hok Hl Hm [Hi Hs Hbs Hb Hin Hipg Hbpg]. unfold check_geometry, INO_MIN_SIZE, GD_SIZE_32.
  destruct ((_ =? 0) || _ || _ || (_ =? 0)) eqn:E1; [done|]. destruct ((_ <? 128) || _ || _) eqn:E2; [done|].
  destruct ((_ <? 32) || _) eqn:E3; [done|]. destruct (negb (fx_first_data_block fs =? _)) eqn:E4; [done|].
  destruct (Z.ltb_spec (fx_image_size fs / fx_block_size fs) (fx_block_count fs)) as [|Hfit]; [done|].
  assert (0 < fx_inodes_per_group fs ∧ 0 < fx_blocks_per_group fs ∧ 0 < fx_inodes_count fs ∧ 0 < fx_block_count fs) by lia.
  assert (128 ≤ fx_inode_size fs ≤ fx_block_size fs ∧ 32 ≤ fx_desc_size fs ≤ fx_block_size fs) by lia.
  apply negb_false_iff in E4. clear E1 E2 E3.
  set (g := u32 _). assert (Hg : 0 ≤ g < 2 ^ 32) by (apply (wrap_range 32); lia). clearbody g.
  assert (0 ≤ fx_first_data_block fs ≤ 1) by (destruct (fx_block_size fs =? 1024); lia).
  rewrite (wrap_small 64 (g * fx_inodes_per_group fs)) by nia.
  destruct (Z.ltb_spec (g * fx_inodes_per_group fs) (fx_inodes_count fs)) as [|Hgi]; [done|].
  rewrite (wrap_small 32 (fx_first_data_block fs + 1)) by lia.
  assert (0 ≤ (fx_first_data_block fs + 1) * fx_block_size fs ≤ 8192) by nia.
  rewrite (wrap_small 64 ((fx_first_data_block fs + 1) * _)) by lia.
  assert (0 ≤ g * fx_desc_size fs ≤ 2 ^ 32 * 4096) by nia.
  rewrite (wrap_small 64 (g * fx_desc_size fs)), wrap_small by lia.
  destruct (Z.ltb_spec (fx_image_size fs) ((fx_first_data_block fs + 1) * fx_block_size fs + g * fx_desc_size fs))
    as [|Hgdt]; [done|].
  assert (fx_block_count fs * fx_block_size fs ≤ fx_image_size fs).
  { pose proof (Z.mul_div_le (fx_image_size fs) (fx_block_size fs) ltac:(lia)). nia. }
  cbn [returns]. split; [|done]. constructor; cbn; try done; try lia; by rewrite ?Hi, ?Hs.
Qed.

Lemma fsd_extfs_open_returns malloc_ok image image_size :
  bytes_ok image → image_size ≤ zlen image → image_size ≤ 2 ^ 62 →
  returns (fun fs => extfs_ok fs ∧ fx_image fs = image ∧ fx_image_size fs = image_size)
    (fun e => e = FSD_ERR_BAD_MAGIC ∨ e = FSD_ERR_CORRUPT_DATA ∨ e = FSD_ERR_OUT_OF_MEMORY)
    (fsd_extfs_open malloc_ok image image_size).
Proof.
  intros Hok Hl Hm. unfold fsd_extfs_open.
  eapply returns_bind; [eapply returns_mono; [by apply probe_returns|intros a Ha; exact Ha|naive_solver]|].
  intros [[log_bs incompat] rev] [Hs Hlog]. destruct (negb _); [cbn; auto|].
  eapply returns_bind; [by apply read_fields_returns|]. intros fs Hf.
  eapply returns_mono; [by apply check_geometry_returns|done|naive_solver].
Qed.

(** * Inodes and blocks *)

(** Where the mappings of a file may point. *)
Record extent_ok (block_count : Z) (e : fsd_ext_extent_t) : Prop := {
  eo_logical : 0 ≤ ex_logical e < 2 ^ 32;
  eo_physical : 0 < ex_physical e;
  eo_count : 0 < ex_count e;
  eo_inside : ex_physical e + ex_count e ≤ block_count
}.

Definition extents_ok (block_count : Z) (l : extent_list_t) : Prop := Forall (extent_ok block_count) (el_v l).

Lemma split_last_app {A} (l : list A) x : split_last (l ++ [x]) = Some (l, x).
Proof. unfold split_last. rewrite rev_app_distr. cbn. by rewrite rev_involutive. Qed.

Lemma split_last_spec {A} (l : list A) :
  match split_last l with Some (r, x) => l = r ++ [x] | None => l = [] end.
Proof.
  destruct l as [|x r _] using rev_ind; [done|]. by rewrite split_last_app.
Qed.

Lemma mul_range a b c d : 0 ≤ a ≤ b → 0 ≤ c ≤ d → 0 ≤ a * c ≤ b * d.
Proof. nia. Qed.

Section Safety.
Context {fs : fsd_extfs} (Hfs : extfs_ok fs) {E : fsd_error_t → Prop}.

Abbreviation exts_ok := (extents_ok (fx_block_count fs)).

Lemma block_size_range : 1024 ≤ fx_block_size fs ≤ 4096.
Proof. destruct (fo_bs _ Hfs); lia. Qed.

Lemma block_count_range : 0 < fx_block_count fs ≤ 2 ^ 52.
Proof.
  pose proof (fo_blocks _ Hfs). pose proof (fo_max _ Hfs). pose proof block_size_range.
  assert (fx_block_count fs * 1024 ≤ 2 ^ 62) by nia. lia.
Qed.

Lemma fs_block_Some b off :
  0 ≤ b → fs_block fs b = Some off →
  0 < b < fx_block_count fs ∧ off = b * fx_block_size fs ∧ 0 ≤ off ∧ off + fx_block_size fs ≤ zlen (fx_image fs).
Proof.
  intros H0. unfold fs_block. pose proof block_size_range. pose proof block_count_range.
  pose proof (fo_blocks _ Hfs). pose proof (fo_size _ Hfs). pose proof (fo_max _ Hfs).
  destruct (Z.eqb_spec b 0); [done|]. cbn [orb]. destruct (Z.leb_spec (fx_block_count fs) b); [done|].
  pose proof (mul_range (b + 1) (fx_block_count fs) (fx_block_size fs) (fx_block_size fs) ltac:(lia) ltac:(lia)).
  pose proof (mul_range b (fx_block_count fs) (fx_block_size fs) (fx_block_size fs) ltac:(lia) ltac:(lia)).
  rewrite (wrap_small 64 (b * _)), wrap_small by lia. destruct (_ <? _); [done|]. intros [= <-]. lia.
Qed.

Lemma inode_ptr_returns ino :
  0 ≤ ino →
  returns (fun o => ∀ p, o = Some p → 0 ≤ p ∧ p + 128 ≤ zlen (fx_image fs) ∧ 1 ≤ ino ≤ fx_inodes_count fs)
    E (inode_ptr fs ino).
Proof.
  intros H0. unfold inode_ptr. pose proof block_size_range. pose proof block_count_range.
  destruct Hfs as [Hb Hsz Hmax _ [_ Hfit] Hin Hipg Hisz Hdsz Hgdt (Hg & Hgi & Hgd)].
  destruct (Z.eqb_spec ino 0); [done|]. cbn [orb]. destruct (Z.ltb_spec (fx_inodes_count fs) ino); [done|].
  assert (Hgrp : 0 ≤ (ino - 1) / fx_inodes_per_group fs < fx_group_count fs).
  { split; [apply Z.div_pos; lia|]. apply Z.div_lt_upper_bound; lia. }
  assert (Hw : 0 ≤ (ino - 1) mod fx_inodes_per_group fs < fx_inodes_per_group fs) by (apply Z.mod_pos_bound; lia).
  set (grp := (ino - 1) / _) in *. set (within := (ino - 1) mod _) in *. clearbody grp within.
  pose proof (mul_range (grp + 1) (fx_group_count fs) (fx_desc_size fs) (fx_desc_size fs) ltac:(lia) ltac:(lia)).
  pose proof (mul_range grp (2 ^ 32) (fx_desc_size fs) 4096 ltac:(lia) ltac:(lia)).
  rewrite (wrap_small 64 (grp * _)) by lia. unfold GD_INODE_TABLE_LO, GD_INODE_TABLE_HI.
  read_step. eapply (returns_bind (fun t => 0 ≤ t)).
  { destruct (Z.leb_spec (40 + 4) (fx_desc_size fs)); [|cbn; lia].
    read_step. apply Z.lor_nonneg. split; [lia|apply Z.shiftl_nonneg; lia]. }
  intros table Ht. destruct (Z.eqb_spec table 0); [done|]. cbn [orb].
  destruct (Z.leb_spec (fx_block_count fs) table); [done|]. cbn [orb].
  pose proof (mul_range table (fx_block_count fs) (fx_block_size fs) (fx_block_size fs) ltac:(lia) ltac:(lia)).
  pose proof (mul_range within (2 ^ 32) (fx_inode_size fs) 4096 ltac:(lia) ltac:(lia)).
  rewrite (wrap_small 64 (table * _)), (wrap_small 64 (within * _)), (wrap_small 64 (_ + within * _)), wrap_small by lia.
  destruct (Z.ltb_spec (fx_image_size fs)
    (table * fx_block_size fs + within * fx_inode_size fs + fx_inode_size fs)); [done|].
  cbn. intros p [= <-]. lia.
Qed.

Lemma inode_file_size_returns ino mode :
  0 ≤ ino → ino + 128 ≤ zlen (fx_image fs) →
  returns (fun s => 0 ≤ s < 2 ^ 64) E (inode_file_size fs ino mode).
Proof.
  intros H0 H1. unfold inode_file_size, INO_SIZE_LO, INO_SIZE_HIGH. pose proof (fo_bytes _ Hfs).
  read_step. destruct (_ =? _); [|cbn; lia]. read_step. apply (lor_hi _ _ 32); lia.
Qed.

(** * Extents *)

Context (malloc_ok : allocator).

Lemma extent_append_ok l logical physical count :
  exts_ok l → 0 ≤ logical < 2 ^ 32 → 0 < physical → 0 ≤ count → physical + count ≤ fx_block_count fs →
  exts_ok (snd (extent_append malloc_ok l logical physical count)).
Proof.
  intros Hl Hlog Hp Hc Hin. unfold extent_append, extents_ok in *. pose proof block_count_range.
  destruct (Z.eqb_spec count 0); [done|].
  assert (Hnew : Forall (extent_ok (fx_block_count fs)) (el_v l ++ [mkExtent logical physical count])).
  { apply Forall_app. split; [done|]. apply Forall_singleton. constructor; cbn; lia. }
  pose proof (split_last_spec (el_v l)) as Hs. destruct (split_last (el_v l)) as [[r x]|].
  - destruct (_ && _) eqn:Hadj.
    + cbn. rewrite Hs in Hl. apply Forall_app in Hl as [Hr Hx]. apply Forall_app. split; [done|].
      apply Forall_singleton. apply Forall_cons_iff in Hx as [Hx _]. destruct Hx as [Hxl Hxp Hxc Hxi].
      apply andb_prop in Hadj as [_ Ha2]. apply Z.eqb_eq in Ha2. rewrite wrap_small in Ha2 by lia.
      constructor; cbn; [done|done| |]; rewrite wrap_small by lia; lia.
    + repeat case_match; done.
  - repeat case_match; done.
Qed.

Lemma entries_loop_returns child depth n entry out :
  0 ≤ entry → entry + Z.of_nat n * 12 ≤ zlen (fx_image fs) → exts_ok out →
  (depth ≠ 0 → ∀ cb out, 0 ≤ cb → cb + fx_block_size fs ≤ zlen (fx_image fs) → exts_ok out →
     returns (fun r => exts_ok (snd r)) E (child cb out)) →
  returns (fun r => exts_ok (snd r)) E (entries_loop malloc_ok fs child depth n entry out).
Proof.
  intros H0 H1 Hout Hch. pose proof (fo_bytes _ Hfs). pose proof block_count_range.
  unfold EXT_ENTRY_SIZE in *. revert entry out H0 H1 Hout.
  induction n as [|n IH]; intros entry out H0 H1 Hout; cbn [entries_loop]; [done|].
  unfold EXT_ENTRY_SIZE, EE_LEN_OFF, EE_START_LO_OFF, EE_START_HI_OFF, EE_BLOCK_OFF, EI_LEAF_LO_OFF, EI_LEAF_HI_OFF.
  assert (Hnext : ∀ o, exts_ok o →
    returns (fun r => exts_ok (snd r)) E (entries_loop malloc_ok fs child depth n (entry + 12) o)).
  { intros o Ho. apply IH; [lia|lia|done]. }
  destruct (Z.eqb_spec depth 0).
  - read_step. destruct (Z.eqb_spec v 0); [by apply Hnext|]. destruct (_ <? v); [by apply Hnext|].
    do 2 read_step. assert (Hphys := lor_hi v0 v1 16 ltac:(lia) Hv0 Hv1). set (phys := Z.lor _ _) in *. clearbody phys.
    rewrite wrap_small by lia.
    destruct (Z.eqb_spec phys 0); [done|]. cbn [orb]. destruct (Z.ltb_spec (fx_block_count fs) (phys + v)); [done|].
    read_step. pose proof (extent_append_ok out v2 phys v Hout ltac:(lia) ltac:(lia) ltac:(lia) ltac:(lia)) as Ha.
    destruct (extent_append _ _ _ _ _) as [[] out']; [by apply Hnext|done].
  - do 2 read_step. destruct (fs_block fs _) as [cb|] eqn:Hcb; [|done].
    apply fs_block_Some in Hcb as (_ & _ & Hc0 & Hc1).
    2:{ apply (lor_hi v v0 16); lia. }
    eapply returns_bind; [by apply Hch|]. intros [[] out'] Ho; [by apply Hnext|done].
Qed.

Lemma extents_from_node_returns fuel node space expect out :
  0 ≤ node → node + space ≤ zlen (fx_image fs) → exts_ok out →
  (expect = -1 ∧ (6 ≤ fuel)%nat ∨ 0 ≤ expect ≤ 5 ∧ expect < Z.of_nat fuel) →
  returns (fun r => exts_ok (snd r)) E (extents_from_node malloc_ok fs fuel node space expect out).
Proof.
  revert node space expect out. pose proof (fo_bytes _ Hfs).
  induction fuel as [|fuel IH]; intros node space expect out H0 H1 Hout Hf; [lia|]. cbn [extents_from_node].
  unfold EH_SIZE, EH_MAGIC_OFF, EH_ENTRIES_OFF, EH_DEPTH_OFF, EXTENT_MAX_DEPTH, EXT_ENTRY_SIZE.
  destruct (Z.ltb_spec space 12); [done|]. read_step. destruct (negb _); [done|]. do 2 read_step.
  destruct (_ || _) eqn:Hd; [done|]. destruct (Z.ltb_spec space (12 + v0 * 12)); [done|].
  assert (Hdepth : 0 ≤ v1 ≤ 5 ∧ (v1 ≠ 0 → v1 - 1 < Z.of_nat fuel)).
  { destruct Hf as [[-> Hf]|[Hx Hf]]; [lia|]. rewrite wrap_small in Hd by lia. lia. }
  apply entries_loop_returns; [lia|rewrite Z2Nat.id by lia; lia|done|].
  intros Hne cb o Hc0 Hc1 Ho. apply IH; [done|done|done|right; lia].
Qed.

(** ** Block maps *)

Definition map_ok (r : bool * Z * extent_list_t) : Prop :=
  let '(_, logical, out) := r in 0 ≤ logical < 2 ^ 64 ∧ exts_ok out.

Lemma map_loop_returns child remaining n ptr logical out :
  0 ≤ ptr → ptr + Z.of_nat n * 4 ≤ zlen (fx_image fs) → 0 ≤ logical < 2 ^ 64 → exts_ok out →
  (∀ b logical out, 0 ≤ b < 2 ^ 32 → 0 ≤ logical < remaining → exts_ok out → returns map_ok E (child b logical out)) →
  returns map_ok E (map_loop fs child remaining n ptr logical out).
Proof.
  intros H0 H1 Hl Hout Hch. pose proof (fo_bytes _ Hfs). revert ptr logical out H0 H1 Hl Hout.
  induction n as [|n IH]; intros ptr logical out H0 H1 Hl Hout; cbn [map_loop]; [done|].
  destruct (Z.leb_spec remaining logical); [done|]. read_step.
  eapply returns_bind; [apply Hch; [done|lia|done]|]. intros [[[] l'] o'] [Hl' Ho']; [|done].
  apply IH; [lia|lia|done|done].
Qed.

Lemma blockmap_indirect_returns level remaining b logical out :
  0 ≤ b < 2 ^ 32 → 0 ≤ logical < remaining → remaining ≤ 2 ^ 32 → exts_ok out →
  returns map_ok E (blockmap_indirect malloc_ok fs level remaining b logical out).
Proof.
  intros Hb Hl Hr. revert b logical out Hb Hl. pose proof block_size_range as Hbs. pose proof block_count_range.
  induction level as [|level IH]; intros b logical out Hb Hl Hout; cbn [blockmap_indirect];
    (destruct (Z.eqb_spec remaining 0); [lia|]);
    (destruct (Z.eqb_spec b 0); [split; [apply (wrap_range 64); lia|done]|]).
  - destruct (Z.leb_spec (fx_block_count fs) b); [split; [lia|done]|].
    pose proof (extent_append_ok out logical b 1 Hout ltac:(lia) ltac:(lia) ltac:(lia) ltac:(lia)) as Ha.
    destruct (extent_append _ _ _ _ _) as [d o]. split; [apply (wrap_range 64); lia|done].
  - destruct (fs_block fs b) as [blk|] eqn:Hblk; [|split; [lia|done]].
    apply fs_block_Some in Hblk as (_ & _ & Hc0 & Hc1); [|lia].
    assert (0 ≤ fx_block_size fs / 4 ∧ fx_block_size fs / 4 * 4 ≤ fx_block_size fs) by zmod.
    apply map_loop_returns; [lia|rewrite Z2Nat.id by lia; lia|lia|done|]. intros b' l' o' Hb' Hl' Ho'. by apply IH.
Qed.

Lemma levels_loop_returns iblock file_blocks levels logical out :
  0 ≤ iblock → iblock + 60 ≤ zlen (fx_image fs) → file_blocks ≤ 2 ^ 32 →
  Forall (fun l => l ≤ 3)%nat levels → 0 ≤ logical → exts_ok out →
  returns (fun r => exts_ok (snd r)) E (levels_loop malloc_ok fs iblock file_blocks levels logical out).
Proof.
  intros H0 H1 Hf Hlv. pose proof (fo_bytes _ Hfs). revert logical out.
  induction Hlv as [|level levels Hle _ IH]; intros logical out Hl Hout; cbn [levels_loop]; [done|].
  destruct (Z.leb_spec file_blocks logical); [done|]. read_step.
  eapply returns_bind; [apply blockmap_indirect_returns; [done|lia|done|done]|].
  intros [[[] l'] o'] [Hl' Ho']; [|done]. apply IH; [lia|done].
Qed.

Lemma blockmap_collect_returns iblock file_blocks out :
  0 ≤ iblock → iblock + 60 ≤ zlen (fx_image fs) → exts_ok out →
  returns (fun r => exts_ok (snd r)) E (blockmap_collect malloc_ok fs iblock file_blocks out).
Proof.
  intros H0 H1 Hout. unfold blockmap_collect, MAX_FILE_BLOCKS. change (Z.shiftl 1 32) with (2 ^ 32).
  destruct (Z.ltb_spec (2 ^ 32) file_blocks); [done|].
  eapply returns_bind.
  { apply map_loop_returns; [lia|lia|lia|done|]. intros b l o Hb Hl Ho. by apply blockmap_indirect_returns. }
  intros [[[] l'] o'] [Hl' Ho']; [|done]. apply levels_loop_returns; [lia|lia|lia| |lia|done].
  repeat constructor.
Qed.

Lemma inode_extents_returns ino out :
  0 ≤ ino → ino + 128 ≤ zlen (fx_image fs) →
  returns (fun r => exts_ok (snd r)) E (inode_extents malloc_ok fs ino out).
Proof.
  intros H0 H1. unfold inode_extents, INO_FLAGS, INO_BLOCK, INO_BLOCK_LEN, INO_MODE. pose proof (fo_bytes _ Hfs).
  assert (Hnil : exts_ok (mkExtents [] (el_cap out))) by (by apply Forall_nil).
  read_step. destruct (negb _); [done|]. destruct (negb _).
  - apply extents_from_node_returns; [lia|lia|done|left; lia].
  - read_step. eapply returns_bind; [apply inode_file_size_returns; lia|]. intros size Hs.
    apply blockmap_collect_returns; [lia|lia|done].
Qed.

End Safety.

(** * The bitmap of visited directories *)

Definition visited_bit (visited : bytes) (ino : Z) : bool :=
  match zget visited (ino / 8) with Some v => Z.testbit v (ino mod 8) | None => false end.

Lemma testbit_shiftl_1 k j : 0 ≤ k → Z.testbit (Z.shiftl 1 k) j = (k =? j).
Proof. intros. rewrite Z.shiftl_1_l. by apply Z.pow2_bits_eqb. Qed.

Lemma is_visited_eq visited ino :
  0 ≤ ino → ino / 8 < zlen visited → is_visited visited ino = Ok (visited_bit visited ino).
Proof.
  intros H0 H1. unfold is_visited, visited_bit. destruct (zget_is_Some visited (ino / 8)) as [v ->]; [zmod|].
  rewrite land_bit; [done|zmod].
Qed.

Lemma mark_visited_spec visited ino :
  0 ≤ ino → ino / 8 < zlen visited →
  ∃ visited', mark_visited visited ino = Ok visited' ∧ zlen visited' = zlen visited ∧
    ∀ i, 0 ≤ i → visited_bit visited' i = visited_bit visited i || (i =? ino).
Proof.
  intros H0 H1. unfold mark_visited, visited_bit. destruct (zget_is_Some visited (ino / 8)) as [v Hv]; [zmod|].
  rewrite Hv. eexists. split; [reflexivity|]. split; [apply zlen_zput|]. intros i Hi.
  assert (0 ≤ ino mod 8 < 8 ∧ 0 ≤ ino / 8) by zmod.
  rewrite zget_zput by lia. destruct (Z.eqb_spec (ino / 8) (i / 8)) as [E|E].
  - rewrite <- E, Hv. rewrite Z.lor_spec. f_equal. rewrite wrap_small.
    + rewrite testbit_shiftl_1 by lia. destruct (Z.eqb_spec (ino mod 8) (i mod 8)), (Z.eqb_spec i ino); subst; try done; zmod.
    + rewrite Z.shiftl_1_l. split; [apply Z.pow_nonneg; lia|]. apply Z.pow_lt_mono_r; lia.
  - destruct (Z.eqb_spec i ino) as [->|]; [by destruct E|]. by rewrite orb_false_r.
Qed.

(** The inodes that can still be pushed. *)
Definition unvisited (visited : bytes) (n : Z) : nat :=
  length (filter (fun i => visited_bit visited i = false) (seqZ 1 n)).

Lemma length_filter_le {A} (P Q : A → Prop) `{∀ x, Decision (P x), ∀ x, Decision (Q x)} (l : list A) :
  Forall (fun y => Q y → P y) l → (length (filter Q l) ≤ length (filter P l))%nat.
Proof.
  induction 1 as [|y l Hy _ IH]; [done|]. rewrite !filter_cons. repeat case_decide; cbn; try lia; tauto.
Qed.

Lemma length_filter_lt {A} (P Q : A → Prop) `{∀ x, Decision (P x), ∀ x, Decision (Q x)} (l : list A) x :
  Forall (fun y => Q y → P y) l → x ∈ l → P x → ¬ Q x → (length (filter Q l) < length (filter P l))%nat.
Proof.
  intros Hsub Hx HP HQ. induction Hsub as [|y l Hy Hsub IH]; [by apply elem_of_nil in Hx|]. rewrite !filter_cons.
  apply elem_of_cons in Hx as [<-|Hx].
  - rewrite decide_False, decide_True by done. cbn. pose proof (length_filter_le P Q l Hsub). lia.
  - specialize (IH Hx). repeat case_decide; cbn; try lia; tauto.
Qed.

Lemma unvisited_mark visited visited' ino n :
  1 ≤ ino ≤ n → visited_bit visited ino = false →
  (∀ i, 0 ≤ i → visited_bit visited' i = visited_bit visited i || (i =? ino)) →
  (unvisited visited' n < unvisited visited n)%nat.
Proof.
  intros Hi Hb Hv. unfold unvisited. apply (length_filter_lt _ _ _ ino); [|apply elem_of_seqZ; lia|done|].
  - apply list.Forall_forall. intros i. rewrite elem_of_seqZ. intros Hr. rewrite Hv by lia.
    by intros [? _]%orb_false_iff.
  - rewrite Hv, Z.eqb_refl, orb_true_r by lia. done.
Qed.

Lemma unvisited_le visited n : 0 ≤ n → (unvisited visited n ≤ Z.to_nat n)%nat.
Proof. intros. unfold unvisited. rewrite length_filter. by rewrite length_seqZ. Qed.

(** * The walk *)

(** A C string that fits the path buffer. *)
Record path_ok (p : bytes) : Prop := {
  po_chars : Forall (fun c => 0 < c < 256) p;
  po_len : zlen p < MAX_PATH_LEN;
  po_rooted : p = [] ∨ head p = Some 47
}.

(** What the walk promises its callback about a file. *)
Record reported (malloc_ok : allocator) (fs : fsd_extfs) (path : bytes) (ino fsize : Z)
    (exts : list fsd_ext_extent_t) : Prop := {
  rp_path : path_ok path;
  rp_nonempty : path ≠ [];
  rp_ino : 1 ≤ ino ≤ fx_inodes_count fs;
  rp_size : 0 ≤ fsize < 2 ^ 64;
  rp_exts : Forall (extent_ok (fx_block_count fs)) exts;
  rp_inode : ∃ fi l l', inode_ptr fs ino = Ok (Some fi) ∧ inode_extents malloc_ok fs fi l = Ok (true, l') ∧
    el_v l' = exts
}.

(** What it asks of the callback: to keep an invariant of the user state. *)
Definition cb_keeps {U} (malloc_ok : allocator) (fs : fsd_extfs) (I : U → Prop) (E : fsd_error_t → Prop) (cb : fsd_extfs_file_cb U) : Prop :=
  ∀ u path ino fsize exts, I u → reported malloc_ok fs path ino fsize exts →
    returns (fun r => I (snd r)) E (cb u path ino fsize exts).

Section WalkSafety.
Context {U : Type} {I : U → Prop} {E : fsd_error_t → Prop}.
Context {fs : fsd_extfs} (Hfs : extfs_ok fs) (malloc_ok : allocator).
(** Either the walk may run out of memory, or there is enough. *)
Context (HE : E FSD_ERR_OUT_OF_MEMORY ∨ ∀ n, malloc_ok n = true).
Context {cb : fsd_extfs_file_cb U} (Hcb : cb_keeps malloc_ok fs I E cb).

Record walk_ok (w : walk_state U) : Prop := {
  wo_visited : zlen (wk_visited w) = fx_inodes_count fs / 8 + 1;
  wo_stack : Forall (fun d => 0 ≤ de_inode d ∧ path_ok (de_path d)) (dk_v (wk_stack w));
  wo_user : I (wk_user w)
}.

(** The directories on the stack and those that can still get there. *)
Definition budget (w : walk_state U) : nat :=
  (unvisited (wk_visited w) (fx_inodes_count fs) + length (dk_v (wk_stack w)))%nat.

Definition walked (b : nat) (w : walk_state U) : Prop := walk_ok w ∧ (budget w ≤ b)%nat.

Lemma dir_push_spec st ino path st' :
  dir_push malloc_ok st ino path = Some st' → dk_v st' = mkDir ino path :: dk_v st.
Proof. unfold dir_push. repeat case_match; intros [= <-]; done. Qed.

Lemma dir_push_fails st ino path : dir_push malloc_ok st ino path = None → E FSD_ERR_OUT_OF_MEMORY.
Proof.
  destruct HE as [He|Hm]; [done|]. unfold dir_push. rewrite !Hm. cbn [negb]. by destruct (_ =? dk_cap st).
Qed.

Lemma enter_dir_returns b ino path w :
  walked b w → 0 < ino → path_ok path → returns (walked b) E (enter_dir malloc_ok fs ino path w).
Proof.
  intros [Hw Hb] Hi Hp. unfold enter_dir. pose proof Hw as [Hv Hs Hu].
  destruct (Z.ltb_spec (fx_inodes_count fs) ino); [done|].
  assert (Hin : ino / 8 < zlen (wk_visited w)) by (rewrite Hv; zmod).
  rewrite is_visited_eq by lia. cbn [mbind outcome_bind].
  destruct (visited_bit (wk_visited w) ino) eqn:Hbit; [done|]. destruct (_ <? path_depth path); [done|].
  destruct (mark_visited_spec (wk_visited w) ino) as (v' & -> & Hl & Hv'); [lia|done|]. cbn [mbind outcome_bind].
  destruct (dir_push _ _ _ _) as [st|] eqn:Hpush; [|exact (dir_push_fails _ _ _ Hpush)]. apply dir_push_spec in Hpush.
  pose proof (unvisited_mark _ _ ino (fx_inodes_count fs) ltac:(lia) Hbit Hv') as Hlt.
  split; [constructor; cbn|].
  - congruence.
  - rewrite Hpush. apply Forall_cons_iff. split; [|done]. cbn. split; [lia|done].
  - done.
  - unfold budget in *. cbn. rewrite Hpush. cbn. lia.
Qed.

Lemma report_file_returns b ino path w :
  walked b w → 0 ≤ ino → path_ok path → path ≠ [] → returns (walked b) E (report_file malloc_ok fs cb ino path w).
Proof.
  intros [Hw Hb] Hi Hp Hne. unfold report_file, INO_MODE. pose proof (fo_bytes _ Hfs).
  eapply returns_bind_eq; [by apply inode_ptr_returns|]. intros [fi|] Hfi Hip; [|done].
  destruct (Hfi fi eq_refl) as (Hf0 & Hf1 & Hino). read_step. destruct (negb _); [done|].
  eapply returns_bind_eq; [by apply inode_extents_returns|]. intros [[] ext] Hext Hie; cbn [negb]; [|by destruct Hw].
  eapply returns_bind; [by apply inode_file_size_returns|]. intros size Hsize.
  eapply returns_bind; [apply Hcb; [apply Hw|constructor; try done; by exists fi, (wk_file_ext w), ext]|].
  intros [stop u] Hu. by destruct Hw.
Qed.

Lemma dirent_type_returns de ino :
  0 ≤ de → de + 8 ≤ zlen (fx_image fs) → 0 ≤ ino →
  returns (fun r => 0 ≤ fst r < 2 ^ 16) E (dirent_type fs de ino).
Proof.
  intros H0 H1 Hi. unfold dirent_type, DE_NAME_LEN_OFF, DE_FILE_TYPE_OFF, INO_MODE. pose proof (fo_bytes _ Hfs).
  destruct (fx_has_filetype fs); [do 2 read_step; cbn; lia|].
  read_step. eapply returns_bind; [by apply inode_ptr_returns|]. intros [ti|] Hti; [|done].
  destruct (Hti ti eq_refl) as (Hf0 & Hf1 & Hino). by read_step.
Qed.

(** The path of an accepted entry. *)
Lemma entry_path_ok dir_path name :
  path_ok dir_path → bytes_ok name → existsb (Z.eqb 0) name = false → zlen dir_path + 1 + zlen name < MAX_PATH_LEN →
  build_path dir_path name = Ok (dir_path ++ [47] ++ name) ∧ path_ok (dir_path ++ [47] ++ name).
Proof.
  intros [Hc Hl Hr] Hn Hz Hlen. unfold build_path.
  assert (Hzl : zlen (dir_path ++ [47] ++ name) = zlen dir_path + 1 + zlen name) by (rewrite !zlen_app, zlen_cons, zlen_nil; lia).
  split; [rewrite Hzl; destruct (Z.ltb_spec MAX_PATH_LEN (zlen dir_path + 1 + zlen name + 1)); [lia|done]|].
  constructor; [|lia|].
  - apply Forall_app. split; [done|]. apply Forall_cons_iff. split; [lia|].
    apply List.Forall_forall. intros c Hin. unfold bytes_ok in Hn. rewrite List.Forall_forall in Hn.
    specialize (Hn c Hin). unfold is_byte in Hn. assert (c ≠ 0); [|lia]. intros ->.
    assert (existsb (Z.eqb 0) name = true) by (apply existsb_exists; by exists 0). congruence.
  - right. destruct Hr as [->|Hh]; [done|]. by destruct dir_path.
Qed.

Lemma visit_dirent_returns b dir_path de rec_len w :
  walked b w → path_ok dir_path → 0 ≤ de → 8 ≤ rec_len → de + rec_len ≤ zlen (fx_image fs) →
  returns (walked b) E (visit_dirent malloc_ok fs cb dir_path de rec_len w).
Proof.
  intros Hw Hp H0 Hr H1. unfold visit_dirent, DE_INODE_OFF, DE_NAME_OFF. pose proof (fo_bytes _ Hfs) as Hok.
  read_step. eapply returns_bind; [apply dirent_type_returns; lia|]. intros [name_len ftype] Hn. cbn [fst] in Hn.
  destruct ((_ =? 0) || _ || _) eqn:E1; [done|].
  rewrite load_ok by lia. cbn [mbind outcome_bind]. pose proof (bytes_ok_slice (de + 8) name_len _ Hok) as Hns.
  pose proof (zlen_slice (de + 8) name_len (fx_image fs) ltac:(lia) ltac:(lia) ltac:(lia)) as Hnl.
  set (name := slice _ _ _) in *. clearbody name.
  destruct (_ || _ || _ || _) eqn:E2; [done|]. rewrite !orb_false_iff in E2. destruct E2 as [[_ E2] E3].
  destruct (entry_path_ok dir_path name Hp Hns E2) as [-> Hpath]; [lia|]. cbn [mbind outcome_bind].
  destruct (_ =? DE_FT_DIRECTORY); [apply enter_dir_returns; [done|lia|done]|].
  destruct (_ =? DE_FT_REGULAR); [|done]. apply report_file_returns; [done|lia|done|]. by destruct dir_path.
Qed.

Lemma dirent_loop_returns b fuel dir_path blk pos w :
  walked b w → path_ok dir_path → 0 ≤ blk → blk + fx_block_size fs ≤ zlen (fx_image fs) → 0 ≤ pos ≤ fx_block_size fs →
  fx_block_size fs - pos < 8 * Z.of_nat fuel →
  returns (walked b) E (dirent_loop malloc_ok fs cb fuel dir_path blk pos w).
Proof.
  intros Hw Hp H0 H1. pose proof (fo_bytes _ Hfs) as Hok. pose proof (block_size_range Hfs). revert pos w Hw.
  induction fuel as [|fuel IH]; intros pos w Hw Hpos Hf; [lia|]. cbn [dirent_loop].
  unfold DE_NAME_OFF, DE_REC_LEN_OFF. rewrite (wrap_small 32 (pos + 8)) by lia.
  destruct (Z.ltb_spec (fx_block_size fs) (pos + 8)); [done|].
  read_step. rewrite (wrap_small 32 (pos + v)) by lia. destruct (_ || _ || _) eqn:E1; [done|].
  eapply returns_bind; [apply visit_dirent_returns; [exact Hw|done|lia|lia|lia]|]. intros w' Hw'. apply IH; [done|lia|lia].
Qed.

Lemma dir_blocks_loop_returns b n dir_path physical w :
  walked b w → path_ok dir_path → 0 ≤ physical →
  returns (walked b) E (dir_blocks_loop malloc_ok fs cb n dir_path physical w).
Proof.
  intros Hw Hp. revert physical w Hw. induction n as [|n IH]; intros physical w Hw H0; cbn [dir_blocks_loop]; [done|].
  destruct (wk_stopped w); [done|]. eapply (returns_bind (walked b)).
  - destruct (fs_block fs physical) as [blk|] eqn:Hb; [|done].
    apply (fs_block_Some Hfs) in Hb as (_ & _ & Hb0 & Hb1); [|done]. pose proof (block_size_range Hfs).
    apply dirent_loop_returns; [done|done|done|done|lia|]. unfold dirent_fuel. zmod.
  - intros w' Hw'. apply IH; [done|]. apply (wrap_range 64). lia.
Qed.

Lemma dir_extents_loop_returns b exts dir_path w :
  walked b w → path_ok dir_path → Forall (extent_ok (fx_block_count fs)) exts →
  returns (walked b) E (dir_extents_loop malloc_ok fs cb exts dir_path w).
Proof.
  intros Hw Hp He. revert w Hw. induction He as [|e exts He _ IH]; intros w Hw; cbn [dir_extents_loop]; [done|].
  destruct (wk_stopped w); [done|].
  eapply returns_bind; [apply dir_blocks_loop_returns; [exact Hw|done|]|apply IH]. destruct He. lia.
Qed.

Lemma visit_dir_returns b dir w :
  walked b w → 0 ≤ de_inode dir → path_ok (de_path dir) →
  returns (walked b) E (visit_dir malloc_ok fs cb dir w).
Proof.
  intros [Hw Hb] Hi Hp. unfold visit_dir, INO_MODE. pose proof (fo_bytes _ Hfs).
  eapply returns_bind; [by apply inode_ptr_returns|]. intros [dino|] Hd; [|done].
  destruct (Hd dino eq_refl) as (Hf0 & Hf1 & Hino). read_step. destruct (negb _); [done|].
  eapply returns_bind; [by apply inode_extents_returns|]. intros [done ext] Hext.
  destruct Hw. destruct done; cbn [negb]; [|done]. by apply dir_extents_loop_returns.
Qed.

Lemma walk_loop_returns fuel w :
  walk_ok w → (budget w < fuel)%nat → returns (fun w' => I (wk_user w')) E (walk_loop malloc_ok fs cb fuel w).
Proof.
  revert w. induction fuel as [|fuel IH]; intros w Hw Hf; [lia|]. cbn [walk_loop].
  pose proof Hw as [Hv Hs Hu]. unfold budget in Hf. destruct (dk_v (wk_stack w)) as [|dir rest] eqn:Hst; [done|].
  destruct (wk_stopped w); [done|]. apply Forall_cons_iff in Hs as [[Hd Hp] Hs]. cbn [length] in Hf.
  eapply returns_bind.
  { apply (visit_dir_returns (unvisited (wk_visited w) (fx_inodes_count fs) + length rest)); [|done|done].
    split; [by constructor|]. unfold budget. cbn. lia. }
  intros w' [Hw' Hb']. apply IH; [done|lia].
Qed.

Lemma fsd_extfs_walk_returns user : I user → returns I E (fsd_extfs_walk malloc_ok fs cb user).
Proof.
  intros Hu. unfold fsd_extfs_walk. pose proof (fo_inodes _ Hfs).
  destruct (_ || _) eqn:Hm; [destruct HE as [He|Hall]; [done|by rewrite !Hall in Hm]|].
  destruct (dir_push _ _ _ _) as [st|] eqn:Hpush; [|exact (dir_push_fails _ _ _ Hpush)]. apply dir_push_spec in Hpush. cbn [dk_v] in Hpush.
  assert (Hz : zlen (fill (fx_inodes_count fs / 8 + 1) 0) = fx_inodes_count fs / 8 + 1) by (apply zlen_fill; zmod).
  destruct (mark_visited_spec (fill (fx_inodes_count fs / 8 + 1) 0) EXT_ROOT_INODE) as (v' & -> & Hl & _);
    [done|rewrite Hz; unfold EXT_ROOT_INODE; zmod|]. cbn [mbind outcome_bind].
  eapply returns_bind; [apply walk_loop_returns|intros w' Hw'; exact Hw'].
  - constructor; cbn; [congruence| |done]. rewrite Hpush. apply Forall_singleton. cbn. split; [done|].
    constructor; [by apply Forall_nil|done|by left].
  - unfold budget, walk_fuel. cbn. rewrite Hpush. cbn. pose proof (unvisited_le v' (fx_inodes_count fs)). lia.
Qed.

End WalkSafety.

(** * A small filesystem *)

(** Six blocks of 1024 bytes: the superblock, one group descriptor, a table of
    eight inodes, the root directory with two names of one file, and the file's
    only block. *)
Definition dirent (ino rec_len : Z) (name : bytes) : bytes :=
  le_bytes 4 ino ++ le_bytes 2 rec_len ++ [zlen name; DE_FT_REGULAR] ++ name.

Definition demo_fs (content : bytes) : bytes :=
  fold_left (fun image '(off, d) => blit off d image)
    [ (1024 + SB_INODES_COUNT, le_bytes 4 8); (1024 + SB_BLOCKS_COUNT_LO, le_bytes 4 6);
      (1024 + SB_FIRST_DATA_BLOCK, le_bytes 4 1); (1024 + SB_BLOCKS_PER_GROUP, le_bytes 4 8192);
      (1024 + SB_INODES_PER_GROUP, le_bytes 4 8); (1024 + SB_MAGIC, le_bytes 2 EXT_SUPER_MAGIC);
      (1024 + SB_STATE, le_bytes 2 EXT_STATE_CLEAN); (1024 + SB_FEATURE_INCOMPAT, le_bytes 4 INCOMPAT_FILETYPE);
      (2048 + GD_INODE_TABLE_LO, le_bytes 4 3);
      (3072 + 128 + INO_MODE, le_bytes 2 MODE_DIRECTORY); (3072 + 128 + INO_SIZE_LO, le_bytes 4 1024);
      (3072 + 128 + INO_BLOCK, le_bytes 4 4);
      (3072 + 256 + INO_MODE, le_bytes 2 MODE_REGULAR); (3072 + 256 + INO_SIZE_LO, le_bytes 4 1024);
      (3072 + 256 + INO_BLOCK, le_bytes 4 5);
      (4096, dirent 3 12 [97]); (4096 + 12, dirent 3 1012 [98]);
      (5120, content) ]
    (fill 6144 0).

(** Its handle. *)
Definition opened (image : bytes) : fsd_extfs :=
  match fsd_extfs_open (fun _ => true) image (zlen image) with
  | Ok fs => fs
  | _ => mkExtfs [] 0 0 0 0 0 0 0 0 0 0 0 false
  end.

(** The callback that collects what it is told. *)
Definition collect (stop : bool) : fsd_extfs_file_cb (list (bytes * list fsd_ext_extent_t)) :=
  fun files path _ _ exts => Ok (stop, files ++ [(path, exts)]).

(** * Properties *)

(** C13: whatever bytes the image holds, probing it reads nothing outside it and
    either fails with one of three documented codes or succeeds; walking an
    opened filesystem terminates, reads only inside the image, writes only inside
    the bitmap and the path buffer, and fails only when memory runs out.  Every
    call of the callback gets a rooted NUL-free path shorter than the buffer, an
    inode number of the filesystem, and the extents of that inode, which are not
    empty and lie inside the filesystem, so an invariant that the callback keeps under those promises
    holds at the end. *)
Theorem extfs_walk_safe {U} (I : U → Prop) (cb : fsd_extfs → fsd_extfs_file_cb U) malloc_ok image image_size user :
  bytes_ok image → image_size ≤ zlen image → image_size ≤ 2 ^ 62 → I user →
  (∀ fs, extfs_ok fs → fx_image fs = image → cb_keeps malloc_ok fs I oom (cb fs)) →
  match fsd_extfs_open malloc_ok image image_size with
  | Ok fs =>
      fx_block_count fs * fx_block_size fs ≤ image_size ∧
      match fsd_extfs_walk malloc_ok fs (cb fs) user with
      | Ok user' => I user'
      | Err e => e = FSD_ERR_OUT_OF_MEMORY
      | _ => False
      end
  | Err e => e = FSD_ERR_BAD_MAGIC ∨ e = FSD_ERR_CORRUPT_DATA ∨ e = FSD_ERR_OUT_OF_MEMORY
  | _ => False
  end.
Proof.
  intros Hok Hl Hm Hu Hcb. pose proof (fsd_extfs_open_returns malloc_ok image image_size Hok Hl Hm) as Ho.
  destruct (fsd_extfs_open malloc_ok image image_size) as [fs|e| |]; cbn in Ho; [|done..].
  destruct Ho as (Hfs & Hi & Hs). split; [destruct (fo_blocks _ Hfs); lia|].
  exact (fsd_extfs_walk_returns Hfs malloc_ok (or_introl eq_refl) (Hcb fs Hfs Hi) user Hu).
Qed.

Lemma extfs_walk_safe_witness :
  let image := demo_fs (fill 1024 7) in
  let files := [([47; 97], [mkExtent 0 5 1]); ([47; 98], [mkExtent 0 5 1])] in
  fsd_extfs_open (fun _ => true) image 6144 = Ok (opened image) ∧
  fsd_extfs_walk (fun _ => true) (opened image) (collect false) [] = Ok files ∧
  Forall (fun file => Forall (fun e => 0 < ex_physical e) (snd file)) files.
Proof.
  intros image files.
  assert (Ho : fsd_extfs_open (fun _ => true) image 6144 = Ok (opened image)) by (vm_compute; reflexivity).
  assert (Hw : fsd_extfs_walk (fun _ => true) (opened image) (collect false) [] = Ok files) by (vm_compute; reflexivity).
  split; [exact Ho|]. split; [exact Hw|].
  pose proof (extfs_walk_safe (fun files => Forall (fun file => Forall (fun e => 0 < ex_physical e) (snd file)) files)
    (fun _ => collect false) (fun _ => true) image 6144 []
    ltac:(apply bytes_okb; vm_compute; reflexivity) ltac:(vm_compute; discriminate) ltac:(lia)
    ltac:(apply List.Forall_nil)) as H.
  rewrite Ho, Hw in H. apply H.
  intros fs' _ _ l path ino fsize exts Hf [_ _ _ _ He _]. cbn. apply Forall_app. split; [exact Hf|].
  apply Forall_singleton. cbn. revert He. apply List.Forall_impl. intros e [_ Hp _ _]. exact Hp.
Defined.

(** A callback that asks for a stop is called again for the remaining entries
    of the same directory block: only the loops over blocks, extents and
    directories look at the request. *)
Theorem walk_stop_is_late :
  let image := demo_fs (fill 1024 7) in
  fsd_extfs_open (fun _ => true) image 6144 = Ok (opened image) ∧
  fsd_extfs_walk (fun _ => true) (opened image) (collect true) [] =
    Ok [([47; 97], [mkExtent 0 5 1]); ([47; 98], [mkExtent 0 5 1])].
Proof. split; vm_compute; reflexivity. Qed.
