(* ===== verification/ExtMap.v ===== *)
(** What the block maps of ext2 and ext3 mean (src/fs/ext_reader.c, the functions
    blockmap_indirect and blockmap_collect).

    An inode of these filesystems points to its first twelve blocks directly and
    to the others through trees of one, two and three levels of pointers, in which
    a zero is a hole.  [inode_bmap] says where block [k] of a file is, by the
    definition of the format: one pointer is followed per level.  The C code walks
    the trees once, in order, skips holes, gathers neighbouring blocks into
    extents and stops at the end of the file.  Shown here: what it gathers is
    exactly the list of the mapped blocks with their places. *)

From stdpp Require Import base list numbers tactics.
From Stdlib Require Import ZArith Lia.
From S2P Require Import Prelude Patch ExtReader.
Open Scope Z_scope.

(** * The format *)

Definition word (image : bytes) (p : Z) : Z := le_val (slice p 4 image).

(** The blocks that a pointer of this level covers. *)
Definition span (per : Z) (level : nat) : Z := per ^ Z.of_nat level.

Section Format.
Context (fs : fsd_extfs).

Definition pointers_per_block : Z := fx_block_size fs / 4.

(** The place of block [k] below the pointer [b]; 0 is a hole. *)
Fixpoint bmap (level : nat) (b k : Z) : Z :=
  match level with
  | O => b
  | S level =>
      if b =? 0 then 0 else
      bmap level (word (fx_image fs) (b * fx_block_size fs + 4 * (k / span pointers_per_block level)))
        (k mod span pointers_per_block level)
  end.

(** The place of block [k] of a file; the pointers of its inode are at [iblock]. *)
Definition inode_bmap (iblock k : Z) : Z :=
  let per := pointers_per_block in
  if k <? 12 then word (fx_image fs) (iblock + 4 * k) else
  let k := k - 12 in
  if k <? span per 1 then bmap 1 (word (fx_image fs) (iblock + 48)) k else
  let k := k - span per 1 in
  if k <? span per 2 then bmap 2 (word (fx_image fs) (iblock + 52)) k else
  let k := k - span per 2 in
  if k <? span per 3 then bmap 3 (word (fx_image fs) (iblock + 56)) k else 0.
End Format.

(** The mapped ones of the [n] blocks from [lo] on, with their places. *)
Definition mappings (f : Z → Z) (lo n : Z) : list (Z * Z) :=
  omap (fun k => if f k =? 0 then None else Some (k, f k)) (seqZ lo n).

(** The blocks of an extent, of a list of extents. *)
Definition extent_blocks (e : fsd_ext_extent_t) : list (Z * Z) :=
  (fun i => (ex_logical e + i, ex_physical e + i)) <$> seqZ 0 (ex_count e).

Definition expand (l : list fsd_ext_extent_t) : list (Z * Z) := l ≫= extent_blocks.

(** * Lists of mappings *)

Lemma seqZ_add m a b : 0 ≤ a → 0 ≤ b → seqZ m (a + b) = seqZ m a ++ seqZ (m + a) b.
Proof.
  intros Ha Hb. apply list_eq. intros i. destruct (decide (Z.of_nat i < a)).
  - rewrite lookup_app_l by (rewrite length_seqZ; lia). by rewrite !lookup_seqZ_lt by lia.
  - rewrite lookup_app_r by (rewrite length_seqZ; lia). rewrite length_seqZ.
    destruct (decide (Z.of_nat i < a + b)); [rewrite !lookup_seqZ_lt by lia; f_equal; lia|by rewrite !lookup_seqZ_ge by lia].
Qed.

Lemma mappings_nil f lo n : n ≤ 0 → mappings f lo n = [].
Proof. intros. unfold mappings. by rewrite seqZ_nil. Qed.

Lemma mappings_add f lo a b : 0 ≤ a → 0 ≤ b → mappings f lo (a + b) = mappings f lo a ++ mappings f (lo + a) b.
Proof. intros. unfold mappings. by rewrite seqZ_add, omap_app by done. Qed.

Lemma mappings_one f lo : mappings f lo 1 = if f lo =? 0 then [] else [(lo, f lo)].
Proof. unfold mappings. rewrite seqZ_cons, seqZ_nil by lia. cbn. by destruct (f lo =? 0). Qed.

Lemma mappings_ext f g lo n : (∀ k, lo ≤ k < lo + n → f k = g k) → mappings f lo n = mappings g lo n.
Proof.
  intros Hfg. unfold mappings. apply list_omap_ext. apply Forall2_same_length_lookup_2; [done|].
  intros i x y Hx Hy. rewrite Hx in Hy. injection Hy as <-. apply lookup_seqZ in Hx as [-> Hi]. by rewrite Hfg by lia.
Qed.

Lemma mappings_zero lo n : mappings (fun _ => 0) lo n = [].
Proof.
  unfold mappings. generalize (seqZ lo n) as l. induction l; [done|]. by cbn.
Qed.

(** * Appending an extent *)

Lemma expand_app l k : expand (l ++ k) = expand l ++ expand k.
Proof. apply bind_app. Qed.

Lemma extent_blocks_add l p a b : 0 ≤ a → 0 ≤ b →
  extent_blocks (mkExtent l p (a + b)) = extent_blocks (mkExtent l p a) ++ extent_blocks (mkExtent (l + a) (p + a) b).
Proof.
  intros. unfold extent_blocks. cbn. rewrite seqZ_add, fmap_app by done. f_equal.
  replace (0 + a) with (a + 0) by lia. rewrite <- (fmap_add_seqZ a 0 b), <- list_fmap_compose.
  apply list_fmap_ext. intros i x _. cbn. f_equal; lia.
Qed.

Section Collect.
Context {fs : fsd_extfs} (Hfs : extfs_ok fs) (malloc_ok : allocator).

Abbreviation exts_ok := (extents_ok (fx_block_count fs)).
Abbreviation per := (pointers_per_block fs).

Lemma extent_append_expand l logical physical count l' :
  exts_ok l → 0 ≤ logical < 2 ^ 32 → 0 < physical → 0 < count → physical + count ≤ fx_block_count fs →
  extent_append malloc_ok l logical physical count = (true, l') →
  expand (el_v l') = expand (el_v l) ++ extent_blocks (mkExtent logical physical count).
Proof.
  intros Hl Hlog Hp Hc Hin. unfold extent_append. pose proof (block_count_range Hfs).
  destruct (Z.eqb_spec count 0); [lia|]. set (new := el_v l ++ _).
  assert (Hnew : expand new = expand (el_v l) ++ extent_blocks (mkExtent logical physical count)).
  { subst new. rewrite expand_app. unfold expand at 2. cbn. by rewrite app_nil_r. }
  pose proof (split_last_spec (el_v l)) as Hs. destruct (split_last (el_v l)) as [[r x]|].
  - destruct (_ && _) eqn:Hadj; [|repeat case_match; intros [= <-]; exact Hnew].
    intros [= <-]. cbn [el_v]. unfold extents_ok in Hl. rewrite Hs in Hl |- *. apply Forall_app in Hl as [_ Hx].
    apply Forall_cons_iff in Hx as [[Hxl Hxp Hxc Hxi] _]. apply andb_prop in Hadj as [Ha1 Ha2].
    apply Z.eqb_eq in Ha1, Ha2. rewrite wrap_small in Ha1, Ha2 by lia. rewrite (wrap_small 64) by lia.
    rewrite !expand_app, <- app_assoc. f_equal. unfold expand. cbn. rewrite !app_nil_r, extent_blocks_add by lia.
    rewrite Ha1, Ha2. by destruct x.
  - repeat case_match; intros [= <-]; exact Hnew.
Qed.

Lemma rd32_word p : 0 ≤ p → p + 4 ≤ zlen (fx_image fs) →
  rd32 (fx_image fs) p = Ok (word (fx_image fs) p) ∧ 0 ≤ word (fx_image fs) p < 2 ^ 32.
Proof.
  intros H0 H1. pose proof (fo_bytes _ Hfs) as Hok. unfold rd32, word. rewrite load_ok by lia.
  pose proof (bytes_ok_slice p 4 _ Hok) as Hs.
  pose proof (zlen_slice p 4 (fx_image fs) ltac:(lia) ltac:(lia) H1) as Hl.
  pose proof (le_val_range _ Hs) as Hr. rewrite Hl in Hr. split; [|exact Hr].
  destruct (slice p 4 (fx_image fs)) as [|a [|b [|c [|d [|]]]]]; try (exfalso; unfold zlen in Hl; cbn [length] in Hl; lia).
  rewrite !bytes_ok_cons in Hs. destruct Hs as (Ha & Hb & Hc & Hd & _). unfold is_byte in *. cbn [mbind outcome_bind].
  f_equal. rewrite (lor_shiftl_add a b 8) by lia. rewrite (lor_shiftl_add _ c 16) by lia.
  rewrite (lor_shiftl_add _ d 24) by lia. cbn [le_val]. lia.
Qed.

(** ** Walking the pointers *)

(** A walk that starts at block [logical] and covers [sp] blocks: it ends behind
    them or at the end of the file, having gathered the places that [g] gives. *)
Definition maps_as (sp remaining logical : Z) (g : Z → Z) (out : extent_list_t) (r : outcome (bool * Z * extent_list_t))
  : Prop :=
  ∀ l' o', r = Ok (true, l', o') →
    (l' = logical + sp ∨ remaining ≤ l' ≤ logical + sp) ∧ exts_ok o' ∧
    expand (el_v o') = expand (el_v out) ++ mappings (fun k => g (k - logical)) logical (Z.min sp (remaining - logical)).

Lemma maps_as_end sp remaining logical g out :
  0 ≤ sp → (sp = 0 ∨ remaining ≤ logical) → exts_ok out → maps_as sp remaining logical g out (Ok (true, logical, out)).
Proof.
  intros Hsp Hor Ho l' o' [= <- <-]. split; [lia|]. split; [done|]. by rewrite mappings_nil, app_nil_r by lia.
Qed.

Lemma map_loop_maps child remaining sp g :
  0 < sp →
  (∀ b logical out, 0 ≤ b < 2 ^ 32 → 0 ≤ logical < remaining → exts_ok out →
     maps_as sp remaining logical (g b) out (child b logical out)) →
  ∀ n ptr logical out, 0 ≤ ptr → ptr + Z.of_nat n * 4 ≤ zlen (fx_image fs) → 0 ≤ logical → exts_ok out →
  maps_as (Z.of_nat n * sp) remaining logical
    (fun k => g (word (fx_image fs) (ptr + 4 * (k / sp))) (k mod sp)) out (map_loop fs child remaining n ptr logical out).
Proof.
  intros Hsp Hch n. induction n as [|n IH]; intros ptr logical out H0 H1 Hl Ho; cbn [map_loop];
    [apply maps_as_end; [lia|by left|done]|].
  destruct (Z.leb_spec remaining logical); [apply maps_as_end; [nia|by right|done]|].
  destruct (rd32_word ptr H0 ltac:(lia)) as [-> Hw]. cbn [mbind outcome_bind].
  pose proof (Hch _ logical out Hw ltac:(lia) Ho) as Hc.
  destruct (child _ logical out) as [[[d l1] o1]|e| |]; [|by intros l' o' Hx..]. cbn [mbind outcome_bind].
  destruct d; [|by intros l' o' Hx]. destruct (Hc l1 o1 eq_refl) as (Hl1 & Ho1 & He1).
  intros l' o' Hx. destruct (IH (ptr + 4) l1 o1 ltac:(lia) ltac:(lia) ltac:(lia) Ho1 l' o' Hx) as (Hl' & Ho' & He').
  assert (Hfirst : mappings (fun k => g (word (fx_image fs) ptr) (k - logical)) logical (Z.min sp (remaining - logical)) =
    mappings (fun k => g (word (fx_image fs) (ptr + 4 * ((k - logical) / sp))) ((k - logical) mod sp)) logical
      (Z.min sp (remaining - logical))).
  { apply mappings_ext. intros k Hk. rewrite Z.div_small, Z.mod_small by lia. by rewrite Z.mul_0_r, Z.add_0_r. }
  rewrite Nat2Z.inj_succ, <- Z.add_1_r, Z.mul_add_distr_r, Z.mul_1_l.
  split; [lia|]. split; [done|]. rewrite He', He1, Hfirst, <- app_assoc. f_equal.
  destruct (decide (remaining - logical ≤ sp)).
  { rewrite (mappings_nil _ l1) by lia. rewrite app_nil_r. f_equal. nia. }
  assert (l1 = logical + sp) as -> by lia.
  replace (Z.min (Z.of_nat n * sp + sp) (remaining - logical)) with
    (Z.min sp (remaining - logical) + Z.min (Z.of_nat n * sp) (remaining - (logical + sp))) by lia.
  rewrite mappings_add by nia. f_equal. rewrite (Z.min_l sp (remaining - logical)) by lia. apply mappings_ext. intros k Hk.
  replace (k - logical) with (k - (logical + sp) + 1 * sp) by lia. rewrite Z.div_add, Z.mod_add by lia.
  do 2 f_equal. lia.
Qed.

Lemma per_range : 256 ≤ per ≤ 1024.
Proof. unfold pointers_per_block. destruct (fo_bs _ Hfs) as [-> |[-> | ->]]; by vm_compute. Qed.

Lemma span_S level : span per (S level) = per * span per level.
Proof. unfold span. rewrite Nat2Z.inj_succ, Z.pow_succ_r by lia. done. Qed.

Lemma span_range level : (level ≤ 3)%nat → 0 < span per level ≤ 2 ^ 30.
Proof.
  intros Hl. pose proof per_range. unfold span. split; [apply Z.pow_pos_nonneg; lia|].
  etrans; [apply (Z.pow_le_mono_l per 1024); lia|]. change 1024 with (2 ^ 10).
  rewrite <- Z.pow_mul_r by lia. apply Z.pow_le_mono_r; lia.
Qed.

Lemma map_span_span level : (1 ≤ level ≤ 3)%nat → map_span fs level = span per level.
Proof.
  intros Hl. unfold map_span. fold per. pose proof per_range.
  assert (per * per ≤ 2 ^ 20) by nia. assert (per * per * per ≤ 2 ^ 30) by nia.
  assert (level = 1 ∨ level = 2 ∨ level = 3)%nat as [->|[->| ->]] by lia; unfold span; cbn [Nat.sub Nat.iter nat_rect Z.of_nat Pos.of_succ_nat Pos.succ].
  - by rewrite Z.pow_1_r.
  - rewrite wrap_small by nia. by rewrite Z.pow_2_r.
  - rewrite (wrap_small 64 (per * per)) by nia. rewrite wrap_small by nia.
    change (Z.of_nat 3) with 3. ring.
Qed.

Lemma blockmap_maps level remaining :
  (level ≤ 3)%nat → remaining ≤ 2 ^ 32 → ∀ b logical out, 0 ≤ b < 2 ^ 32 → 0 ≤ logical < remaining → exts_ok out →
  maps_as (span per level) remaining logical (bmap fs level b) out
    (blockmap_indirect malloc_ok fs level remaining b logical out).
Proof.
  intros Hlv Hr. induction level as [|level IH]; intros b logical out Hb Hl Ho; cbn [blockmap_indirect];
    (destruct (Z.eqb_spec remaining 0); [lia|]).
  - change (span per 0) with 1. pose proof (block_count_range Hfs).
    assert (Hone : Z.min 1 (remaining - logical) = 1) by lia.
    destruct (Z.eqb_spec b 0) as [->|Hb0].
    { intros l' o' [= <- <-]. rewrite wrap_small by lia. split; [lia|]. split; [done|]. cbn [bmap].
      by rewrite mappings_zero, app_nil_r. }
    destruct (Z.leb_spec (fx_block_count fs) b); [by intros l' o' Hx|].
    pose proof (extent_append_ok Hfs malloc_ok out logical b 1 Ho ltac:(lia) ltac:(lia) ltac:(lia) ltac:(lia)) as Ha.
    destruct (extent_append malloc_ok out logical b 1) as [d o1] eqn:E. intros l' o' [= -> <- <-].
    rewrite wrap_small by lia. split; [lia|]. split; [exact Ha|].
    rewrite (extent_append_expand out logical b 1 o1 Ho ltac:(lia) ltac:(lia) ltac:(lia) ltac:(lia) E). f_equal.
    rewrite Hone, mappings_one. cbn [bmap]. destruct (Z.eqb_spec b 0); [done|].
    unfold extent_blocks. change (ex_count (mkExtent logical b 1)) with 1. rewrite seqZ_cons, seqZ_nil by lia.
    cbn [fmap list_fmap ex_logical ex_physical]. by rewrite !Z.add_0_r.
  - pose proof (span_range (S level) ltac:(lia)). pose proof (span_range level ltac:(lia)). cbn [bmap].
    destruct (Z.eqb_spec b 0) as [->|Hb0].
    { intros l' o' [= <- <-]. rewrite map_span_span by lia. rewrite wrap_small by lia. split; [lia|]. split; [done|].
      by rewrite mappings_zero, app_nil_r. }
    destruct (fs_block fs b) as [blk|] eqn:Hblk; [|by intros l' o' Hx].
    apply (fs_block_Some Hfs) in Hblk as (_ & -> & Hc0 & Hc1); [|lia].
    pose proof per_range. fold per.
    assert (Hp4 : per * 4 ≤ fx_block_size fs) by (unfold pointers_per_block; zmod).
    rewrite span_S. replace (per * span per level) with (Z.of_nat (Z.to_nat per) * span per level) by lia.
    apply (map_loop_maps _ _ _ (bmap fs level)); [lia|apply IH; lia|lia|lia|lia|done].
Qed.

(** ** The whole map *)

(** [f] is what the remaining levels give, whose first block is [base]. *)
Fixpoint covers (f : Z → Z) (iblock base : Z) (levels : list nat) : Prop :=
  match levels with
  | [] => ∀ k, base ≤ k → f k = 0
  | level :: levels =>
      (∀ k, base ≤ k < base + span per level →
         f k = bmap fs level (word (fx_image fs) (iblock + (11 + Z.of_nat level) * 4)) (k - base)) ∧
      covers f iblock (base + span per level) levels
  end.

Lemma mappings_past f lo n base :
  (∀ k, base ≤ k → f k = 0) → lo ≤ base → mappings f lo n = mappings f lo (Z.min (base - lo) n).
Proof.
  intros Hf Hlo. destruct (decide (n ≤ base - lo)); [by rewrite Z.min_r|]. rewrite Z.min_l by lia.
  replace n with ((base - lo) + (n - (base - lo))) at 1 by lia. rewrite mappings_add by lia.
  rewrite (mappings_ext f (fun _ => 0) (lo + (base - lo))), mappings_zero; [by rewrite app_nil_r|].
  intros k Hk. apply Hf. lia.
Qed.

Lemma levels_loop_maps f iblock file_blocks levels base logical out out' :
  0 ≤ iblock → iblock + 60 ≤ zlen (fx_image fs) → file_blocks ≤ 2 ^ 32 → 0 ≤ file_blocks → 0 ≤ base →
  Forall (fun l => l ≤ 3)%nat levels → covers f iblock base levels →
  (logical = base ∨ file_blocks ≤ logical ≤ base) → exts_ok out →
  expand (el_v out) = mappings f 0 (Z.min base file_blocks) →
  levels_loop malloc_ok fs iblock file_blocks levels logical out = Ok (true, out') →
  expand (el_v out') = mappings f 0 file_blocks.
Proof.
  intros H0 H1 Hf Hf0 Hb Hlv. revert base logical out Hb.
  induction Hlv as [|level levels Hle _ IH]; intros base logical out Hb Hcov Hlog Ho He; cbn [levels_loop].
  { intros [= <-]. rewrite He, (mappings_past f 0 file_blocks base) by (done || lia). by rewrite Z.sub_0_r. }
  destruct (Z.leb_spec file_blocks logical) as [Hend|Hmore].
  { intros [= <-]. by rewrite He, Z.min_r by lia. }
  assert (logical = base) as -> by lia. destruct Hcov as [Hhere Hrest].
  set (p := iblock + (11 + Z.of_nat level) * 4) in *. destruct (rd32_word p ltac:(lia) ltac:(lia)) as [-> Hw].
  cbn [mbind outcome_bind]. pose proof (span_range level Hle).
  pose proof (blockmap_maps level file_blocks Hle Hf _ base out Hw ltac:(lia) Ho) as Hm.
  destruct (blockmap_indirect _ _ _ _ _ _ _) as [[[d l1] o1]|e| |]; [|done..]. cbn [mbind outcome_bind].
  destruct d; [|done]. destruct (Hm l1 o1 eq_refl) as (Hl1 & Ho1 & He1).
  apply (IH (base + span per level)); [lia|done|lia|done|].
  rewrite He1, He, Z.min_l by lia.
  replace (Z.min (base + span per level) file_blocks) with (base + Z.min (span per level) (file_blocks - base)) by lia.
  rewrite mappings_add by lia. f_equal. rewrite Z.add_0_l. apply mappings_ext. intros k Hk. symmetry. apply Hhere. lia.
Qed.

Lemma inode_bmap_covers iblock : covers (inode_bmap fs iblock) iblock 12 [1; 2; 3]%nat.
Proof.
  pose proof (span_range 1 ltac:(lia)). pose proof (span_range 2 ltac:(lia)). pose proof (span_range 3 ltac:(lia)).
  cbn [covers]. change (iblock + (11 + Z.of_nat 1) * 4) with (iblock + 48).
  change (iblock + (11 + Z.of_nat 2) * 4) with (iblock + 52). change (iblock + (11 + Z.of_nat 3) * 4) with (iblock + 56).
  unfold inode_bmap. fold per. split_and!; intros k Hk;
    repeat match goal with |- context [?a <? ?b] => destruct (Z.ltb_spec a b); [try lia|try lia] end; try done; try lia;
    f_equal; lia.
Qed.

End Collect.

(** * Properties *)

(** C21: reading a block map gives the file: when blockmap_collect succeeds, the
    extents it returns, taken apart into blocks, are exactly the blocks of the
    file that are not holes, in order, each with the place that the pointers of
    the format lead to; blocks beyond the end of the file do not appear. *)
Theorem blockmap_collect_exact fs malloc_ok iblock file_blocks cap out :
  extfs_ok fs → 0 ≤ iblock → iblock + 60 ≤ zlen (fx_image fs) → 0 ≤ file_blocks →
  blockmap_collect malloc_ok fs iblock file_blocks (mkExtents [] cap) = Ok (true, out) →
  expand (el_v out) = mappings (inode_bmap fs iblock) 0 file_blocks.
Proof.
  intros Hfs H0 H1 Hf0. unfold blockmap_collect, MAX_FILE_BLOCKS. change (Z.shiftl 1 32) with (2 ^ 32).
  destruct (Z.ltb_spec (2 ^ 32) file_blocks) as [|Hf]; [done|].
  assert (Hnil : extents_ok (fx_block_count fs) (mkExtents [] cap)) by apply List.Forall_nil.
  pose proof (map_loop_maps Hfs (blockmap_indirect malloc_ok fs 0 file_blocks) file_blocks 1 (bmap fs 0)
    ltac:(lia) (blockmap_maps Hfs malloc_ok 0 file_blocks ltac:(lia) Hf) 12 iblock 0 (mkExtents [] cap)
    H0 ltac:(lia) ltac:(lia) Hnil) as Hm.
  destruct (map_loop _ _ _ _ _ _ _) as [[[d l1] o1]|e| |]; [|done..]. cbn [mbind outcome_bind]. destruct d; [|done].
  destruct (Hm l1 o1 eq_refl) as (Hl1 & Ho1 & He1). cbn in He1.
  apply (levels_loop_maps Hfs malloc_ok (inode_bmap fs iblock) iblock file_blocks [1; 2; 3]%nat 12 l1 o1 out);
    [done|done|lia|lia|lia|repeat constructor|by apply inode_bmap_covers|lia|done|].
  rewrite He1, Z.sub_0_r. apply mappings_ext. intros k Hk. unfold inode_bmap.
  destruct (Z.ltb_spec k 12); [|lia]. by rewrite Z.sub_0_r, Z.div_1_r.
Qed.

(** A file of fourteen blocks with a hole, the last two behind the indirect block. *)
Definition map_image : bytes :=
  fold_left (fun image '(off, d) => blit off d image)
    [ (0, le_bytes 4 2); (4, le_bytes 4 3); (12, le_bytes 4 5); (48, le_bytes 4 4);
      (4096, le_bytes 4 6); (4100, le_bytes 4 7) ] (fill 8192 0).

Definition map_fs : fsd_extfs := mkExtfs map_image 8192 1024 8 1 1 1 128 32 0 0 1 false.

Lemma map_fs_ok : extfs_ok map_fs.
Proof.
  constructor; cbn [map_fs fx_image fx_image_size fx_block_size fx_block_count fx_inodes_count fx_inodes_per_group
    fx_inode_size fx_desc_size fx_gdt_start fx_group_count]; try lia.
  - apply bytes_okb. vm_compute. reflexivity.
  - vm_compute. discriminate.
Qed.

Definition map_result : extent_list_t :=
  mkExtents [mkExtent 0 2 2; mkExtent 3 5 1; mkExtent 12 6 2] 16.

Lemma blockmap_collect_exact_witness :
  blockmap_collect (fun _ => true) map_fs 0 14 (mkExtents [] 0) = Ok (true, map_result) ∧
  mappings (inode_bmap map_fs 0) 0 14 = [(0, 2); (1, 3); (3, 5); (12, 6); (13, 7)].
Proof.
  assert (H : blockmap_collect (fun _ => true) map_fs 0 14 (mkExtents [] 0) = Ok (true, map_result))
    by (vm_compute; reflexivity).
  split; [exact H|].
  rewrite <- (blockmap_collect_exact map_fs (fun _ => true) 0 14 0 map_result map_fs_ok); [reflexivity|done| |done|exact H].
  vm_compute. discriminate.
Defined.
