(* ===== verification/ExtTree.v ===== *)
(** What the extent trees of ext4 mean (src/fs/ext_reader.c, extents_from_node).

    An inode of ext4 holds the root of a tree whose nodes are a header and entries
    of twelve bytes sorted by file block.  An entry of a leaf is a run of blocks,
    one of an inner node leads to the node for the blocks from its own up to the
    next entry's.  [extent_bmap] says where block [k] of a file is, by the
    definition of the format: in every node the last entry that does not lie behind
    [k] is followed.  The C code instead walks the whole tree in order, skips runs
    that were allocated and not written, and gathers extents.  Shown here: on a tree
    that is sorted, what it gathers is exactly the list of the mapped blocks with
    their places. *)

From stdpp Require Import base list numbers tactics.
From Stdlib Require Import ZArith Lia.
From S2P Require Import Prelude Patch ExtReader ExtMap.
Open Scope Z_scope.

(** * The format *)

Section Format.
Context (fs : fsd_extfs).

Abbreviation word := (ExtMap.word (fx_image fs)).
Definition half (p : Z) : Z := le_val (slice p 2 (fx_image fs)).

(** A node at [p]: the number of its entries, its height over the leaves. *)
Definition node_entries (p : Z) : nat := Z.to_nat (half (p + 2)).
Definition node_depth (p : Z) : nat := Z.to_nat (half (p + 6)).

(** An entry at [e]: its first block; in a leaf the length and the start of the
    run, in an inner node the block of the child. *)
Definition entry_block (e : Z) : Z := word e.
Definition leaf_len (e : Z) : Z := half (e + 4).
Definition leaf_start (e : Z) : Z := word (e + 8) + 2 ^ 32 * half (e + 6).
Definition child_block (e : Z) : Z := word (e + 4) + 2 ^ 32 * half (e + 8).

(** A length above 2^15 marks a run that was not written. *)
Definition leaf_place (e k : Z) : Z :=
  if (leaf_len e <=? 32768) && (k - entry_block e <? leaf_len e) then leaf_start e + (k - entry_block e) else 0.

(** The last of the [n] entries from [e] on that does not lie behind block [k]. *)
Fixpoint last_entry (n : nat) (e k : Z) : option Z :=
  match n with
  | O => None
  | S n =>
      match last_entry n (e + 12) k with
      | Some e => Some e
      | None => if entry_block e <=? k then Some e else None
      end
  end.

(** The place of block [k] of a file below the node at [p]; 0 is a hole. *)
Fixpoint extent_bmap (depth : nat) (p k : Z) : Z :=
  match last_entry (node_entries p) (p + 12) k with
  | None => 0
  | Some e =>
      match depth with
      | O => leaf_place e k
      | S depth => extent_bmap depth (child_block e * fx_block_size fs) k
      end
  end.

(** [n] entries from [e] on that split the blocks from [lo] to [hi] in order;
    [sub e a b] is what entry [e] has to satisfy for its share. *)
Fixpoint sorted_entries (sub : Z → Z → Z → Prop) (n : nat) (e lo hi : Z) : Prop :=
  match n with
  | O => lo ≤ hi
  | S n =>
      let next := match n with O => hi | S _ => entry_block (e + 12) end in
      lo ≤ entry_block e ∧ entry_block e ≤ next ∧ sub e (entry_block e) next ∧ sorted_entries sub n (e + 12) next hi
  end.

Definition leaf_fits (e a b : Z) : Prop := leaf_len e ≤ 32768 → a + leaf_len e ≤ b.

(** A tree as the format demands it, for the blocks from [lo] to [hi]. *)
Fixpoint sorted_tree (depth : nat) (p lo hi : Z) : Prop :=
  sorted_entries
    match depth with
    | O => leaf_fits
    | S depth => fun e => sorted_tree depth (child_block e * fx_block_size fs)
    end (node_entries p) (p + 12) lo hi.

End Format.

(** * Following the entries *)

Section Entries.
Context {fs : fsd_extfs}.

Lemma sorted_entries_le sub n e lo hi : sorted_entries fs sub n e lo hi → lo ≤ hi.
Proof.
  revert e lo. induction n as [|n IH]; intros e lo; cbn [sorted_entries]; [done|].
  intros (H1 & H2 & _ & H3). apply IH in H3. destruct n; lia.
Qed.

Lemma last_entry_before sub n e lo hi k : sorted_entries fs sub n e lo hi → k < lo → last_entry fs n e k = None.
Proof.
  revert e lo. induction n as [|n IH]; intros e lo; cbn [sorted_entries last_entry]; [done|].
  intros (H1 & H2 & _ & H3) Hk. rewrite (IH _ _ H3) by lia. destruct (Z.leb_spec (entry_block fs e) k); [lia|done].
Qed.

Lemma last_entry_from n e k : entry_block fs e ≤ k → is_Some (last_entry fs (S n) e k).
Proof.
  intros Hk. cbn [last_entry]. destruct (last_entry fs n (e + 12) k); [done|].
  destruct (Z.leb_spec (entry_block fs e) k); [done|lia].
Qed.

(** What entries give, entry by entry. *)
Lemma entries_split sub (val : Z → Z → Z) n e lo hi :
  sorted_entries fs sub (S n) e lo hi →
  let next := match n with O => hi | S _ => entry_block fs (e + 12) end in
  let place n e k := match last_entry fs n e k with Some e => val e k | None => 0 end in
  mappings (place (S n) e) lo (hi - lo) =
  mappings (val e) (entry_block fs e) (next - entry_block fs e) ++ mappings (place n (e + 12)) next (hi - next).
Proof.
  intros (H1 & H2 & _ & H3). cbv zeta. set (next := match n with O => hi | S _ => _ end) in *.
  set (place := fun (n : nat) (e k : Z) => match last_entry fs n e k with Some e => val e k | None => 0 end).
  pose proof (sorted_entries_le _ _ _ _ _ H3) as Hle.
  replace (hi - lo) with ((entry_block fs e - lo) + ((next - entry_block fs e) + (hi - next))) by lia.
  rewrite !mappings_add by lia.
  rewrite (mappings_ext (place (S n) e) (fun _ => 0) lo), mappings_zero.
  2:{ intros k Hk. unfold place. cbn [last_entry]. rewrite (last_entry_before _ _ _ _ _ _ H3) by lia.
      destruct (Z.leb_spec (entry_block fs e) k); [lia|done]. }
  replace (lo + (entry_block fs e - lo)) with (entry_block fs e) by lia.
  replace (entry_block fs e + (next - entry_block fs e)) with next by lia. cbn [app]. f_equal.
  - apply mappings_ext. intros k Hk. unfold place. cbn [last_entry]. rewrite (last_entry_before _ _ _ _ _ _ H3) by lia.
    destruct (Z.leb_spec (entry_block fs e) k); [done|lia].
  - apply mappings_ext. intros k Hk. unfold place. destruct n as [|n]; [subst next; lia|].
    destruct (last_entry_from n (e + 12) k) as [x Hx]; [subst next; lia|]. cbn [last_entry] in Hx |- *. by rewrite Hx.
Qed.

(** A run gives its blocks. *)
Lemma leaf_mappings e b :
  leaf_fits fs e (entry_block fs e) b → entry_block fs e ≤ b → 0 < leaf_start fs e → 0 ≤ leaf_len fs e →
  mappings (leaf_place fs e) (entry_block fs e) (b - entry_block fs e) =
  if leaf_len fs e <=? 32768 then extent_blocks (mkExtent (entry_block fs e) (leaf_start fs e) (leaf_len fs e)) else [].
Proof.
  intros Hf Hb Hs Hl. destruct (Z.leb_spec (leaf_len fs e) 32768) as [Hle|Hgt].
  - specialize (Hf Hle). replace (b - entry_block fs e) with (leaf_len fs e + (b - entry_block fs e - leaf_len fs e)) by lia.
    rewrite mappings_add by lia. rewrite (mappings_ext (leaf_place fs e) (fun _ => 0) (entry_block fs e + leaf_len fs e)), mappings_zero.
    2:{ intros k Hk. unfold leaf_place. destruct (Z.ltb_spec (k - entry_block fs e) (leaf_len fs e)); [lia|by rewrite andb_false_r]. }
    rewrite app_nil_r.
    rewrite (mappings_ext (leaf_place fs e) (fun k => leaf_start fs e + (k - entry_block fs e))).
    2:{ intros k Hk. unfold leaf_place. destruct (Z.leb_spec (leaf_len fs e) 32768); [|lia].
        by destruct (Z.ltb_spec (k - entry_block fs e) (leaf_len fs e)); [|lia]. }
    unfold mappings, extent_blocks. cbn [ex_count ex_logical ex_physical].
    pose proof (fmap_add_seqZ (entry_block fs e) 0 (leaf_len fs e)) as Hq. rewrite Z.add_0_r in Hq. rewrite <- Hq.
    clear Hq.
    set (l := seqZ 0 (leaf_len fs e)). assert (Hl0 : Forall (fun i => 0 ≤ i) l).
    { apply Forall_lookup. intros j i Hi. apply lookup_seqZ in Hi. lia. }
    clearbody l. induction Hl0 as [|i l Hi _ IH]; [done|]. cbn.
    destruct (Z.eqb_spec (leaf_start fs e + (entry_block fs e + i - entry_block fs e)) 0); [lia|].
    cbn in IH. rewrite IH. f_equal. f_equal. lia.
  - rewrite (mappings_ext (leaf_place fs e) (fun _ => 0)), mappings_zero; [done|].
    intros k _. unfold leaf_place. by destruct (Z.leb_spec (leaf_len fs e) 32768); [lia|].
Qed.

End Entries.

(** * Walking the tree *)

Section Walk.
Context {fs : fsd_extfs} (Hfs : extfs_ok fs) (malloc_ok : allocator).

Abbreviation exts_ok := (extents_ok (fx_block_count fs)).
Abbreviation word := (ExtMap.word (fx_image fs)).

Lemma rd16_half p : 0 ≤ p → p + 2 ≤ zlen (fx_image fs) →
  rd16 (fx_image fs) p = Ok (half fs p) ∧ 0 ≤ half fs p < 2 ^ 16.
Proof.
  intros H0 H1. pose proof (fo_bytes _ Hfs) as Hok. unfold rd16, half.
  destruct (load_2 (fx_image fs) p Hok H0 H1) as (a & b & Hl & Ha & Hb). rewrite Hl. rewrite load_ok in Hl by lia.
  injection Hl as ->. unfold is_byte in *. cbn [mbind outcome_bind le_val]. rewrite (lor_shiftl_add a b 8) by lia.
  rewrite wrap_small by lia. split; [f_equal; lia|lia].
Qed.

(** A block number in two parts. *)
Lemma wide_block lo hi : 0 ≤ lo < 2 ^ 32 → 0 ≤ hi < 2 ^ 16 → Z.lor lo (Z.shiftl hi 32) = lo + 2 ^ 32 * hi.
Proof. intros. rewrite (lor_shiftl_add lo hi 32) by lia. lia. Qed.

(** The extents [out'] add to [out] the places that [g] gives for the blocks from
    [a] to [b]. *)
Definition gathers (g : Z → Z) (a b : Z) (out out' : extent_list_t) : Prop :=
  exts_ok out' ∧ expand (el_v out') = expand (el_v out) ++ mappings g a (b - a).

Lemma entries_loop_gathers child depth sub val n e lo hi out out' :
  (depth = 0 → sub = leaf_fits fs ∧ val = leaf_place fs) →
  (depth ≠ 0 → ∀ e a b out out', 0 ≤ child_block fs e → fs_block fs (child_block fs e) ≠ None → exts_ok out → sub e a b →
     child (child_block fs e * fx_block_size fs) out = Ok (true, out') → gathers (val e) a b out out') →
  0 ≤ e → e + Z.of_nat n * 12 ≤ zlen (fx_image fs) → exts_ok out → sorted_entries fs sub n e lo hi →
  entries_loop malloc_ok fs child depth n e out = Ok (true, out') →
  gathers (fun k => match last_entry fs n e k with Some e => val e k | None => 0 end) lo hi out out'.
Proof.
  intros Hleaf Hchild. revert e lo out. induction n as [|n IH]; intros e lo out H0 H1 Ho Hs; cbn [entries_loop].
  { intros [= <-]. split; [done|]. by rewrite mappings_zero, app_nil_r. }
  pose proof (block_count_range Hfs).
  pose proof (entries_split sub val n e lo hi Hs) as Hsplit. cbv zeta in Hsplit.
  destruct Hs as (Hlo & Hnext & Hsub & Hrest). set (next := match n with O => hi | S _ => _ end) in *.
  (* the rest of the entries *)
  assert (Hgo : ∀ out1, gathers (val e) (entry_block fs e) next out out1 →
    entries_loop malloc_ok fs child depth n (e + EXT_ENTRY_SIZE) out1 = Ok (true, out') →
    gathers (fun k => match last_entry fs (S n) e k with Some e => val e k | None => 0 end) lo hi out out').
  { intros out1 [Ho1 He1] Hx. apply (IH (e + 12) next) in Hx as [Ho' He']; [|lia|lia|done|done].
    split; [done|]. by rewrite He', He1, Hsplit, app_assoc. }
  unfold EE_LEN_OFF, EE_START_LO_OFF, EE_START_HI_OFF, EE_BLOCK_OFF, EI_LEAF_LO_OFF, EI_LEAF_HI_OFF, EXT_INIT_MAX_LEN.
  destruct (rd32_word Hfs (e + 8)) as [R8 W8]; [lia|lia|]. destruct (rd32_word Hfs (e + 4)) as [R4 W4]; [lia|lia|].
  destruct (rd16_half (e + 6)) as [R6 W6]; [lia|lia|]. destruct (rd16_half (e + 8)) as [S8 V8]; [lia|lia|].
  destruct (rd16_half (e + 4)) as [S4 V4]; [lia|lia|]. destruct (rd32_word Hfs (e + 0)) as [R0 W0]; [lia|lia|].
  destruct (Z.eqb_spec depth 0) as [Hd|Hd].
  - destruct (Hleaf Hd) as [-> ->]. rewrite S4. cbn [mbind outcome_bind]. fold (leaf_len fs e) in V4 |- *.
    assert (Hskip : leaf_len fs e = 0 ∨ 32768 < leaf_len fs e → gathers (leaf_place fs e) (entry_block fs e) next out out).
    { intros Hl. split; [done|]. rewrite (mappings_ext (leaf_place fs e) (fun _ => 0)), mappings_zero; [by rewrite app_nil_r|].
      intros k Hk. unfold leaf_place. destruct (Z.leb_spec (leaf_len fs e) 32768); [|done].
      destruct (Z.ltb_spec (k - entry_block fs e) (leaf_len fs e)); [lia|done]. }
    destruct (Z.eqb_spec (leaf_len fs e) 0); [apply Hgo, Hskip; by left|].
    destruct (Z.ltb_spec 32768 (leaf_len fs e)); [apply Hgo, Hskip; by right|].
    rewrite R8. cbn [mbind outcome_bind]. rewrite R6. cbn [mbind outcome_bind]. rewrite wide_block by done.
    fold (leaf_start fs e). assert (0 ≤ leaf_start fs e < 2 ^ 48) by (unfold leaf_start; lia). rewrite (wrap_small 64) by lia.
    destruct (Z.eqb_spec (leaf_start fs e) 0); [done|]. cbn [orb].
    destruct (Z.ltb_spec (fx_block_count fs) (leaf_start fs e + leaf_len fs e)); [done|].
    rewrite R0. cbn [mbind outcome_bind]. rewrite Z.add_0_r in W0 |- *. fold (entry_block fs e) in W0 |- *.
    pose proof (extent_append_ok Hfs malloc_ok out (entry_block fs e) (leaf_start fs e) (leaf_len fs e) Ho W0
      ltac:(lia) ltac:(lia) ltac:(lia)) as Ha.
    destruct (extent_append malloc_ok out _ _ _) as [d o1] eqn:E. destruct d; [|done].
    apply Hgo. split; [exact Ha|].
    rewrite (extent_append_expand Hfs malloc_ok out (entry_block fs e) (leaf_start fs e) (leaf_len fs e) o1 Ho W0 ltac:(lia) ltac:(lia) ltac:(lia) E). f_equal.
    rewrite leaf_mappings by (done || lia). by destruct (Z.leb_spec (leaf_len fs e) 32768); [|lia].
  - rewrite R4. cbn [mbind outcome_bind]. rewrite S8. cbn [mbind outcome_bind]. rewrite wide_block by done.
    fold (child_block fs e). assert (Hc : 0 ≤ child_block fs e) by (unfold child_block; lia).
    destruct (fs_block fs (child_block fs e)) as [cb|] eqn:Hcb; [|done].
    assert (cb = child_block fs e * fx_block_size fs) as -> by (by apply (fs_block_Some Hfs) in Hcb as (_ & -> & _)).
    destruct (child _ out) as [[d o1]|e1| |] eqn:E; [|done..]. cbn [mbind outcome_bind]. destruct d; [|done].
    apply Hgo. apply (Hchild Hd e (entry_block fs e) next out o1 Hc); [by rewrite Hcb|done|done|done].
Qed.

(** A node below the root has the height its parent gives it. *)
Lemma extents_from_node_gathers fuel d node space expect lo hi out out' :
  0 ≤ node → node + space ≤ zlen (fx_image fs) → exts_ok out →
  (expect = -1 ∧ d = node_depth fs node ∨ expect = Z.of_nat d ∧ (d ≤ 5)%nat) →
  sorted_tree fs d node lo hi →
  extents_from_node malloc_ok fs fuel node space expect out = Ok (true, out') →
  gathers (extent_bmap fs d node) lo hi out out'.
Proof.
  revert d node space expect lo hi out out'.
  induction fuel as [|fuel IH]; intros d node space expect lo hi out out' H0 H1 Ho He Hs; cbn [extents_from_node]; [done|].
  unfold EH_SIZE, EH_MAGIC_OFF, EH_ENTRIES_OFF, EH_DEPTH_OFF, EXTENT_MAX_DEPTH, EXT_ENTRY_SIZE.
  destruct (Z.ltb_spec space 12); [done|].
  destruct (rd16_half (node + 0)) as [-> _]; [lia|lia|]. cbn [mbind outcome_bind]. destruct (negb _); [done|].
  destruct (rd16_half (node + 2)) as [-> Hn]; [lia|lia|]. cbn [mbind outcome_bind].
  destruct (rd16_half (node + 6)) as [-> Hh]; [lia|lia|]. cbn [mbind outcome_bind].
  destruct (_ || _) eqn:Hd; [done|]. apply orb_false_iff in Hd as [Hd5 Hde].
  destruct (Z.ltb_spec space (12 + half fs (node + 2) * 12)); [done|].
  assert (Hdep : half fs (node + 6) = Z.of_nat d).
  { destruct He as [[-> ->]|[-> Hle]]; [unfold node_depth; lia|]. rewrite wrap_small in Hde by lia. lia. }
  rewrite Hdep. intros Hx.
  set (sub := match d with O => leaf_fits fs | S d => fun e => sorted_tree fs d (child_block fs e * fx_block_size fs) end).
  set (val := match d with O => leaf_place fs | S d => fun e => extent_bmap fs d (child_block fs e * fx_block_size fs) end).
  assert (Hs' : sorted_entries fs sub (node_entries fs node) (node + 12) lo hi) by (subst sub; by destruct d).
  assert (Hbm : gathers (fun k => match last_entry fs (node_entries fs node) (node + 12) k with Some e => val e k | None => 0 end)
    lo hi out out' → gathers (extent_bmap fs d node) lo hi out out').
  { intros [Hg1 Hg2]. split; [done|]. rewrite Hg2. f_equal. apply mappings_ext. intros k _. subst val. by destruct d. }
  apply Hbm. eapply (entries_loop_gathers _ _ sub val); [| |lia|unfold node_entries; lia|done|exact Hs'|exact Hx].
  - intros Hd0. destruct d; [done|lia].
  - intros Hd0 e a b o o' Hc Hcb Ho1 Hsub Hch. destruct d as [|d]; [lia|]. cbn in sub, val.
    destruct (fs_block fs (child_block fs e)) as [cb|] eqn:Ecb; [|done].
    apply (fs_block_Some Hfs) in Ecb as (_ & -> & Hc0 & Hc1); [|done].
    eapply IH; [exact Hc0|exact Hc1|exact Ho1| |exact Hsub|exact Hch]. right. lia.
Qed.

End Walk.

(** * Properties *)

(** C22: reading an extent tree gives the file: when extents_from_node succeeds on
    the root of a tree that is sorted as the format demands, the extents it
    returns, taken apart into blocks, are exactly the blocks of the file that were
    written, in order, each at the place that following the entries leads to. *)
Theorem extents_from_node_exact fs malloc_ok node space cap out hi :
  extfs_ok fs → 0 ≤ node → node + space ≤ zlen (fx_image fs) →
  sorted_tree fs (node_depth fs node) node 0 hi →
  extents_from_node malloc_ok fs 6 node space (-1) (mkExtents [] cap) = Ok (true, out) →
  expand (el_v out) = mappings (extent_bmap fs (node_depth fs node) node) 0 hi.
Proof.
  intros Hfs H0 H1 Hs Hx.
  destruct (extents_from_node_gathers Hfs malloc_ok 6 (node_depth fs node) node space (-1) 0 hi (mkExtents [] cap) out)
    as [_ He]; [done|done|apply List.Forall_nil|by left|done|done|].
  by rewrite He, Z.sub_0_r.
Qed.

(** A root in an inode at 0 with one entry, for the node in block 4: two blocks, an
    unwritten one, one block. *)
Definition tree_image : bytes :=
  fold_left (fun image '(off, d) => blit off d image)
    [ (0, le_bytes 2 0xF30A ++ le_bytes 2 1 ++ le_bytes 2 4 ++ le_bytes 2 1); (12, le_bytes 4 0 ++ le_bytes 4 4);
      (4096, le_bytes 2 0xF30A ++ le_bytes 2 3 ++ le_bytes 2 84 ++ le_bytes 2 0);
      (4108, le_bytes 4 0 ++ le_bytes 2 2 ++ le_bytes 2 0 ++ le_bytes 4 2);
      (4120, le_bytes 4 3 ++ le_bytes 2 32769 ++ le_bytes 2 0 ++ le_bytes 4 5);
      (4132, le_bytes 4 5 ++ le_bytes 2 1 ++ le_bytes 2 0 ++ le_bytes 4 6) ] (fill 8192 0).

Definition tree_fs : fsd_extfs := mkExtfs tree_image 8192 1024 8 1 1 1 128 32 0 0 1 false.

Lemma tree_fs_ok : extfs_ok tree_fs.
Proof.
  constructor; cbn [tree_fs fx_image fx_image_size fx_block_size fx_block_count fx_inodes_count fx_inodes_per_group
    fx_inode_size fx_desc_size fx_gdt_start fx_group_count]; try lia.
  - apply bytes_okb. vm_compute. reflexivity.
  - vm_compute. discriminate.
Qed.

Definition tree_result : extent_list_t := mkExtents [mkExtent 0 2 2; mkExtent 5 6 1] 16.

Lemma extents_from_node_exact_witness :
  extents_from_node (fun _ => true) tree_fs 6 0 60 (-1) (mkExtents [] 0) = Ok (true, tree_result) ∧
  mappings (extent_bmap tree_fs (node_depth tree_fs 0) 0) 0 8 = [(0, 2); (1, 3); (5, 6)].
Proof.
  assert (H : extents_from_node (fun _ => true) tree_fs 6 0 60 (-1) (mkExtents [] 0) = Ok (true, tree_result))
    by (vm_compute; reflexivity).
  split; [exact H|].
  rewrite <- (extents_from_node_exact tree_fs (fun _ => true) 0 60 0 tree_result 8 tree_fs_ok); [reflexivity|done| | |exact H].
  - vm_compute. discriminate.
  - vm_compute. intuition discriminate.
Defined.
