(* ===== verification/ExtWalk.v ===== *)
(** The directory walk against the tree of names (src/fs/ext_reader.c,
    fsd_extfs_walk).

    [dir_lists] says what a directory of the image lists, [tree_dir] which inodes
    names lead to from the root, [file_at] what the inode of a regular file says of
    it: relations on the bytes of the image, without a stack, a bitmap or an order.
    The C code keeps a stack of directories, a bitmap of those it has pushed and two
    lists it reuses.  Shown here: with memory to spare, the walk enters every
    directory it should exactly once and reports the regular files of the
    directories it enters, all of them and nothing else ([lists_tree]). *)

From stdpp Require Import base list numbers tactics.
From Stdlib Require Import ZArith Lia.
From S2P Require Import Prelude ExtReader.
Open Scope Z_scope.

(** * The tree of names *)

(** Memory to spare. *)
Definition plenty : allocator := fun _ => true.

Record entry := mkEntry { nm_name : bytes; nm_ino : Z; nm_type : Z }.

(** What a callback is told of a file. *)
Record file_report := mkReport {
  fr_path : bytes;
  fr_ino : Z;
  fr_size : Z;
  fr_exts : list fsd_ext_extent_t
}.

Definition child_path (p name : bytes) : bytes := p ++ [47] ++ name.

(** A path that fits the buffer with its final NUL. *)
Definition fits (p : bytes) : Prop := zlen p < MAX_PATH_LEN.

Section Tree.
Context (fs : fsd_extfs).

(** The inode [ino], of the format [fmt], at [p]. *)
Record inode_at (fmt ino p mode : Z) : Prop := {
  ia_ptr : inode_ptr fs ino = Ok (Some p);
  ia_mode : rd16 (fx_image fs) (p + INO_MODE) = Ok mode;
  ia_fmt : Z.land mode MODE_FMT_MASK = fmt
}.

(** The extents of the inode at [p]. *)
Definition inode_data (p : Z) (exts : list fsd_ext_extent_t) : Prop :=
  ∃ l l', inode_extents plenty fs p l = Ok (true, l') ∧ el_v l' = exts.

(** A record of [len] bytes at [pos] of the directory block at [blk]. *)
Record record_at (blk pos len : Z) : Prop := {
  ra_room : pos + DE_NAME_OFF ≤ fx_block_size fs;
  ra_len : rd16 (fx_image fs) (blk + pos + DE_REC_LEN_OFF) = Ok len;
  ra_min : DE_NAME_OFF ≤ len;
  ra_aligned : Z.land len 3 = 0;
  ra_inside : pos + len ≤ fx_block_size fs
}.

(** The records from [pos] on: each starts where the one before ends. *)
Inductive chain (blk : Z) : Z → Z → Z → Prop :=
| chain_here pos len : record_at blk pos len → chain blk pos pos len
| chain_next pos len pos' len' : record_at blk pos len → chain blk (pos + len) pos' len' → chain blk pos pos' len'.

(** The record of [len] bytes at [de] is the entry [x]. *)
Record names (de len : Z) (x : entry) : Prop := {
  na_ino : rd32 (fx_image fs) (de + DE_INODE_OFF) = Ok (nm_ino x);
  na_type : dirent_type fs de (nm_ino x) = Ok (zlen (nm_name x), nm_type x);
  na_used : nm_ino x ≠ 0;
  na_nonempty : nm_name x ≠ [];
  na_room : DE_NAME_OFF + zlen (nm_name x) ≤ len;
  na_name : load (de + DE_NAME_OFF) (zlen (nm_name x)) (fx_image fs) = Ok (nm_name x);
  na_not_dot : nm_name x ≠ [46] ∧ nm_name x ≠ [46; 46];
  na_chars : 47 ∉ nm_name x ∧ 0 ∉ nm_name x
}.

(** [blk] is a block of the directory [d]. *)
Definition dir_block (d blk : Z) : Prop :=
  ∃ p mode exts e b, inode_at MODE_DIRECTORY d p mode ∧ inode_data p exts ∧ e ∈ exts ∧
    0 ≤ b < ex_count e ∧ fs_block fs (ex_physical e + b) = Some blk.

Definition dir_lists (d : Z) (x : entry) : Prop :=
  ∃ blk pos len, dir_block d blk ∧ chain blk 0 pos len ∧ names (blk + pos) len x.

(** The directories that names lead to. *)
Inductive tree_dir : Z → bytes → Prop :=
| tree_root : tree_dir EXT_ROOT_INODE []
| tree_sub d p x :
    tree_dir d p → dir_lists d x → nm_type x = DE_FT_DIRECTORY →
    tree_dir (nm_ino x) (child_path p (nm_name x)).

(** What the inode of a regular file says. *)
Definition file_at (ino size : Z) (exts : list fsd_ext_extent_t) : Prop :=
  ∃ p mode, inode_at MODE_REGULAR ino p mode ∧ inode_file_size fs p mode = Ok size ∧ inode_data p exts.

(** Entry [x] of the directory at path [p] makes the report [r]. *)
Record reports (p : bytes) (x : entry) (r : file_report) : Prop := {
  re_type : nm_type x = DE_FT_REGULAR;
  re_fits : fits (child_path p (nm_name x));
  re_path : fr_path r = child_path p (nm_name x);
  re_ino : fr_ino r = nm_ino x;
  re_file : file_at (nm_ino x) (fr_size r) (fr_exts r)
}.

(** Entry [x] of the directory at path [p] has to be entered. *)
Record enters (p : bytes) (x : entry) : Prop := {
  en_type : nm_type x = DE_FT_DIRECTORY;
  en_ino : nm_ino x ≤ fx_inodes_count fs;
  en_fits : fits (child_path p (nm_name x));
  en_depth : path_depth (child_path p (nm_name x)) ≤ MAX_DIR_DEPTH
}.

(** [files] are the files of the directories [dirs], and [dirs] is the tree. *)
Record lists_tree (dirs : list (Z * bytes)) (files : list file_report) : Prop := {
  lt_root : (EXT_ROOT_INODE, []) ∈ dirs;
  lt_once : NoDup dirs.*1;
  lt_named : ∀ d p, (d, p) ∈ dirs → tree_dir d p;
  lt_closed : ∀ d p x, (d, p) ∈ dirs → dir_lists d x → enters p x → nm_ino x ∈ dirs.*1;
  lt_files : ∀ r, r ∈ files ↔ ∃ d p x, (d, p) ∈ dirs ∧ dir_lists d x ∧ reports p x r
}.

End Tree.

(** The callback that records what it is told. *)
Definition record_file : fsd_extfs_file_cb (list file_report) :=
  fun files path ino size exts => Ok (false, files ++ [mkReport path ino size exts]).

(** * The extents do not depend on the list that is reused *)

(** What a caller sees of the list. *)
Definition seen {A} (m : outcome (A * extent_list_t)) : outcome (A * list fsd_ext_extent_t) :=
  '(a, l) ← m; Ok (a, el_v l).

Lemma seen_bind {A B} m k (f g : A * extent_list_t → outcome (B * extent_list_t)) :
  seen m = seen k → (∀ a l l', el_v l = el_v l' → seen (f (a, l)) = seen (g (a, l'))) →
  seen (mbind f m) = seen (mbind g k).
Proof.
  intros Hmk Hfg. destruct m as [[a l]|e| |], k as [[a' l']|e'| |]; cbn in Hmk |- *; try done; try congruence.
  injection Hmk as <- Hl. by apply Hfg.
Qed.

(** Reads in front of the list. *)
Lemma seen_read {A B} (m : outcome A) (f g : A → outcome (B * extent_list_t)) :
  (∀ a, seen (f a) = seen (g a)) → seen (mbind f m) = seen (mbind g m).
Proof. intros H. destruct m; cbn; [apply H|done..]. Qed.

Section Same.
Context (fs : fsd_extfs).

Abbreviation same f := (∀ l k, el_v l = el_v k → seen (f l) = seen (f k)).

Lemma extent_append_same logical physical count l k :
  el_v l = el_v k →
  seen (Ok (extent_append plenty l logical physical count)) = seen (Ok (extent_append plenty k logical physical count)).
Proof.
  destruct l as [v c], k as [v' c']. cbn [el_v]. intros <-. unfold extent_append, plenty. cbn [el_v el_cap negb].
  destruct (count =? 0); [done|]. destruct (split_last v) as [[before last]|];
    repeat match goal with |- context [if ?b then _ else _] => destruct b; cbn [negb] end; done.
Qed.

Lemma entries_loop_same child depth n e :
  (∀ cb, same (child cb)) → same (entries_loop plenty fs child depth n e).
Proof.
  intros Hc. revert e. induction n as [|n IH]; intros e l k Hl; cbn [entries_loop]; [cbn; by rewrite Hl|].
  destruct (depth =? 0).
  - apply seen_read. intros len. destruct (len =? 0); [by apply IH|]. destruct (_ <? len); [by apply IH|].
    apply seen_read. intros lo. apply seen_read. intros hi. destruct (_ || _); [cbn; by rewrite Hl|].
    apply seen_read. intros block.
    pose proof (extent_append_same block (Z.lor lo (Z.shiftl hi 32)) len l k Hl) as Ha.
    destruct (extent_append plenty l _ _ _) as [d l'], (extent_append plenty k _ _ _) as [d' k'].
    cbn in Ha. injection Ha as <- Hl'. destruct d; [by apply IH|cbn; by rewrite Hl'].
  - apply seen_read. intros lo. apply seen_read. intros hi. destruct (fs_block _ _) as [cb|]; [|cbn; by rewrite Hl].
    apply seen_bind; [by apply Hc|]. intros [] l' k' Hl'; [by apply IH|cbn; by rewrite Hl'].
Qed.

Lemma extents_from_node_same fuel node space expect : same (extents_from_node plenty fs fuel node space expect).
Proof.
  revert node space expect. induction fuel as [|fuel IH]; intros node space expect l k Hl; cbn [extents_from_node]; [done|].
  assert (Hno : seen (Ok (false, l)) = seen (Ok (false, k))) by (cbn; by rewrite Hl).
  destruct (space <? EH_SIZE); [done|]. apply seen_read. intros magic. destruct (negb _); [done|].
  apply seen_read. intros entries. apply seen_read. intros depth. destruct (_ || _); [done|].
  destruct (space <? _); [done|]. apply entries_loop_same; [|done]. intros cb. apply IH.
Qed.

Lemma map_loop_same child remaining n ptr logical :
  (∀ b logical, same (child b logical)) → same (map_loop fs child remaining n ptr logical).
Proof.
  intros Hc. revert ptr logical. induction n as [|n IH]; intros ptr logical l k Hl; cbn [map_loop]; [cbn; by rewrite Hl|].
  destruct (remaining <=? logical); [cbn; by rewrite Hl|]. apply seen_read. intros b.
  apply seen_bind; [by apply Hc|]. intros [[] logical'] l' k' Hl'; [by apply IH|cbn; by rewrite Hl'].
Qed.

Lemma blockmap_indirect_same level remaining b logical : same (blockmap_indirect plenty fs level remaining b logical).
Proof.
  revert b logical. induction level as [|level IH]; intros b logical l k Hl; cbn [blockmap_indirect];
    (destruct (remaining =? 0); [cbn; by rewrite Hl|]); (destruct (b =? 0); [cbn; by rewrite Hl|]).
  - destruct (_ <=? b); [cbn; by rewrite Hl|]. pose proof (extent_append_same logical b 1 l k Hl) as Ha.
    destruct (extent_append plenty l _ _ _) as [d l'], (extent_append plenty k _ _ _) as [d' k'].
    cbn in Ha. injection Ha as <- Hl'. cbn. by rewrite Hl'.
  - destruct (fs_block fs b) as [blk|]; [|cbn; by rewrite Hl]. by apply map_loop_same.
Qed.

Lemma levels_loop_same iblock file_blocks levels logical : same (levels_loop plenty fs iblock file_blocks levels logical).
Proof.
  revert logical. induction levels as [|level levels IH]; intros logical l k Hl; cbn [levels_loop]; [cbn; by rewrite Hl|].
  destruct (file_blocks <=? logical); [cbn; by rewrite Hl|]. apply seen_read. intros b.
  apply seen_bind; [by apply blockmap_indirect_same|]. intros [[] logical'] l' k' Hl'; [by apply IH|cbn; by rewrite Hl'].
Qed.

(** The list passed in is emptied first. *)
Lemma inode_extents_same p l k : seen (inode_extents plenty fs p l) = seen (inode_extents plenty fs p k).
Proof.
  unfold inode_extents. apply seen_read. intros flags. destruct (negb _); [done|].
  destruct (negb _); [by apply extents_from_node_same|]. apply seen_read. intros mode. apply seen_read. intros size.
  unfold blockmap_collect. destruct (_ <? _); [done|].
  apply seen_bind; [apply map_loop_same; [|done]; intros b logical; apply blockmap_indirect_same|].
  intros [[] logical'] l' k' Hl'; [by apply levels_loop_same|cbn; by rewrite Hl'].
Qed.

Lemma inode_data_run p l d l' exts :
  inode_extents plenty fs p l = Ok (d, l') → inode_data fs p exts → d = true ∧ el_v l' = exts.
Proof.
  intros Hx (k & k' & Hk & <-). pose proof (inode_extents_same p l k) as H. rewrite Hx, Hk in H. by injection H.
Qed.

End Same.

(** * The walk *)

Section Walk.
Context {fs : fsd_extfs} (Hfs : extfs_ok fs).

Abbreviation state := (walk_state (list file_report)).

(** A read that succeeds is inside. *)
Lemma load_Ok_inv off len l b : load off len l = Ok b → 0 ≤ off ∧ 0 ≤ len ∧ off + len ≤ zlen l.
Proof. unfold load. destruct (_ && _) eqn:E; [lia|done]. Qed.

Lemma rd32_range p v : rd32 (fx_image fs) p = Ok v → 0 ≤ v < 2 ^ 32.
Proof.
  intros H. pose proof H as (b & Hb%load_Ok_inv & _)%bind_Ok_inv.
  pose proof (rd32_returns (fx_image fs) p (fun _ => False) (fo_bytes _ Hfs)) as Hr. rewrite H in Hr. apply Hr; lia.
Qed.

Lemma rd16_range p v : rd16 (fx_image fs) p = Ok v → 0 ≤ v < 2 ^ 16.
Proof.
  intros H. pose proof H as (b & Hb%load_Ok_inv & _)%bind_Ok_inv.
  pose proof (rd16_returns (fx_image fs) p (fun _ => False) (fo_bytes _ Hfs)) as Hr. rewrite H in Hr. apply Hr; lia.
Qed.

(** The directories taken from the stack, each with the entries that were looked at
    so far, the last one first. *)
Definition history : Type := list (Z * bytes * list entry).

Definition stacked (w : state) : list (Z * bytes) := (fun d => (de_inode d, de_path d)) <$> dk_v (wk_stack w).

Definition known (H : history) (w : state) : list (Z * bytes) := stacked w ++ H.*1.

Record listed (H : history) (w : state) : Prop := {
  ls_visited : zlen (wk_visited w) = fx_inodes_count fs / 8 + 1;
  ls_bits : ∀ i, 0 ≤ i → visited_bit (wk_visited w) i = true ↔ i ∈ (known H w).*1;
  ls_once : NoDup (known H w).*1;
  ls_root : (EXT_ROOT_INODE, []) ∈ known H w;
  ls_named : ∀ d p, (d, p) ∈ known H w → tree_dir fs d p;
  ls_closed : ∀ d p S x, (d, p, S) ∈ H → x ∈ S → enters fs p x → nm_ino x ∈ (known H w).*1;
  ls_files : ∀ r, r ∈ wk_user w ↔ ∃ d p S x, (d, p, S) ∈ H ∧ x ∈ S ∧ reports fs p x r;
  ls_going : wk_stopped w = false
}.

(** What looking at entry [x] of the directory at [p] does: it pushes [stk] and
    reports [fl]. *)
Record handled (p : bytes) (x : entry) (w w' : state) (stk : list (Z * bytes)) (fl : list file_report) : Prop := {
  hd_visited : zlen (wk_visited w') = zlen (wk_visited w);
  hd_bits : ∀ i, 0 ≤ i → visited_bit (wk_visited w') i = visited_bit (wk_visited w) i || bool_decide (i ∈ stk.*1);
  hd_stack : stacked w' = stk ++ stacked w;
  hd_new : NoDup stk.*1 ∧ Forall (fun i => 0 ≤ i ∧ visited_bit (wk_visited w) i = false) stk.*1;
  hd_named : Forall (fun d => d = (nm_ino x, child_path p (nm_name x)) ∧ nm_type x = DE_FT_DIRECTORY) stk;
  hd_entered : enters fs p x → visited_bit (wk_visited w') (nm_ino x) = true;
  hd_user : wk_user w' = wk_user w ++ fl;
  hd_files : ∀ r, r ∈ fl ↔ reports fs p x r;
  hd_going : wk_stopped w' = wk_stopped w
}.

(** One more entry of the directory that was taken last. *)
Lemma listed_entry H d p S x w w' stk fl :
  listed ((d, p, S) :: H) w → dir_lists fs d x → 0 ≤ nm_ino x → handled p x w w' stk fl →
  listed ((d, p, S ++ [x]) :: H) w'.
Proof.
  intros [Lv Lb Lo Lr Ln Lc Lf Lg] Hx Hi [Hv Hb Hs [Hn1 Hn2] Hnm He Hu Hf Hg].
  assert (Hk : known ((d, p, S ++ [x]) :: H) w' = stk ++ known ((d, p, S) :: H) w).
  { unfold known. by rewrite Hs, <- app_assoc. }
  rewrite list.Forall_forall in Hn2. rewrite list.Forall_forall in Hnm.
  assert (Hbits : ∀ i, 0 ≤ i → visited_bit (wk_visited w') i = true ↔ i ∈ (known ((d, p, S ++ [x]) :: H) w').*1).
  { intros i Hi0. by rewrite Hk, fmap_app, elem_of_app, Hb, orb_true_iff, bool_decide_eq_true, Lb, (comm or) by done. }
  constructor.
  - congruence.
  - exact Hbits.
  - rewrite Hk, fmap_app. apply list.NoDup_app. split_and!; [done| |done].
    intros i Hin Hold. destruct (Hn2 i Hin) as [Hi0 Hnew]. apply Lb in Hold; [congruence|done].
  - rewrite Hk. apply elem_of_app. by right.
  - intros d' p'. rewrite Hk. intros [Hy|Hy]%elem_of_app; [|by apply Ln].
    destruct (Hnm _ Hy) as [[= -> ->] Hty]. apply tree_sub with d; [|done|done]. apply Ln.
    apply elem_of_app. right. apply elem_of_cons. by left.
  - intros d' p' S' y Hin Hy Hen.
    assert (Hcase : (y = x ∧ p' = p) ∨ nm_ino y ∈ (known ((d, p, S) :: H) w).*1).
    { apply elem_of_cons in Hin as [[= -> -> ->]|Hin].
      - apply elem_of_app in Hy as [Hy|Hy%list_elem_of_singleton]; [|by left].
        right. apply (Lc d p S); [apply elem_of_cons; by left|done|done].
      - right. apply (Lc d' p' S'); [apply elem_of_cons; by right|done|done]. }
    destruct Hcase as [[-> ->]|Hold]; [apply Hbits; auto|]. rewrite Hk, fmap_app. apply elem_of_app. by right.
  - intros r. rewrite Hu, elem_of_app, Lf, Hf. split.
    + intros [(d' & p' & S' & y & Hin & Hy & Hr)|Hr].
      * apply elem_of_cons in Hin as [[= -> -> ->]|Hin].
        -- exists d, p, (S ++ [x]), y. split_and!; [apply elem_of_cons; by left|apply elem_of_app; by left|done].
        -- exists d', p', S', y. split_and!; [apply elem_of_cons; by right|done|done].
      * exists d, p, (S ++ [x]), x. split_and!; [apply elem_of_cons; by left| |done].
        apply elem_of_app. right. by apply list_elem_of_singleton.
    + intros (d' & p' & S' & y & Hin & Hy & Hr). apply elem_of_cons in Hin as [[= -> -> ->]|Hin].
      * apply elem_of_app in Hy as [Hy| ->%list_elem_of_singleton]; [|by right].
        left. exists d, p, S, y. split_and!; [apply elem_of_cons; by left|done|done].
      * left. exists d', p', S', y. split_and!; [apply elem_of_cons; by right|done|done].
  - congruence.
Qed.

(** The directory on top of the stack is taken. *)
Lemma listed_pop H d p w w' :
  listed H w → stacked w = (d, p) :: stacked w' → wk_visited w' = wk_visited w → wk_user w' = wk_user w →
  wk_stopped w' = wk_stopped w → listed ((d, p, []) :: H) w'.
Proof.
  intros [Lv Lb Lo Lr Ln Lc Lf Lg] Hs Hv Hu Hg.
  assert (Hk : known ((d, p, []) :: H) w' ≡ₚ known H w).
  { unfold known. rewrite Hs. symmetry. apply Permutation_middle. }
  constructor; rewrite ?Hv, ?Hg; try done.
  - intros i Hi. by rewrite Hk, Lb.
  - by rewrite Hk.
  - by rewrite Hk.
  - intros d' p'. rewrite Hk. apply Ln.
  - intros d' p' S' y [[= -> -> ->]|Hin]%elem_of_cons Hy Hen; [by apply elem_of_nil in Hy|]. rewrite Hk. eauto.
  - intros r. rewrite Hu, Lf. split.
    + intros (d' & p' & S' & y & Hin & Hy & Hr). exists d', p', S', y. split_and!; [apply elem_of_cons; by right|done|done].
    + intros (d' & p' & S' & y & [[= -> -> ->]|Hin]%elem_of_cons & Hy & Hr); [by apply elem_of_nil in Hy|]. by exists d', p', S', y.
Qed.

(** * One entry *)

Lemma zlen_child p name : zlen (child_path p name) = zlen p + 1 + zlen name.
Proof. unfold child_path. rewrite !zlen_app, zlen_cons, zlen_nil. lia. Qed.

Lemma names_unique de len x y : names fs de len x → names fs de len y → x = y.
Proof.
  destruct x as [n i t], y as [n' i' t']. intros [Hi Ht _ _ _ Hn _ _] [Hi' Ht' _ _ _ Hn' _ _].
  cbn [nm_name nm_ino nm_type] in *. congruence.
Qed.

(** An entry that is passed over. *)
Lemma handled_nothing p x w :
  (enters fs p x → visited_bit (wk_visited w) (nm_ino x) = true) → (∀ r, ¬ reports fs p x r) → handled p x w w [] [].
Proof.
  intros He Hr. constructor; try done.
  - intros i _. rewrite bool_decide_false by apply not_elem_of_nil. by rewrite orb_false_r.
  - split; [apply NoDup_nil_2|by apply Forall_nil].
  - by rewrite app_nil_r.
  - intros r. rewrite elem_of_nil. naive_solver.
Qed.

Lemma enter_dir_handled p x w w' :
  zlen (wk_visited w) = fx_inodes_count fs / 8 + 1 → nm_type x = DE_FT_DIRECTORY → 0 ≤ nm_ino x →
  enter_dir plenty fs (nm_ino x) (child_path p (nm_name x)) w = Ok w' → ∃ stk, handled p x w w' stk [].
Proof.
  intros Hv Hty Hi. unfold enter_dir.
  assert (Hr : ∀ r, ¬ reports fs p x r) by (intros r [Ht _ _ _ _]; by rewrite Hty in Ht).
  destruct (Z.ltb_spec (fx_inodes_count fs) (nm_ino x)).
  { intros [= <-]. exists []. apply handled_nothing; [|done]. intros []. lia. }
  assert (Hin : nm_ino x / 8 < zlen (wk_visited w)) by (rewrite Hv; zmod).
  rewrite is_visited_eq by done. cbn [mbind outcome_bind].
  destruct (visited_bit (wk_visited w) (nm_ino x)) eqn:Hbit.
  { intros [= <-]. exists []. by apply handled_nothing. }
  destruct (Z.ltb_spec MAX_DIR_DEPTH (path_depth (child_path p (nm_name x)))).
  { intros [= <-]. exists []. apply handled_nothing; [|done]. intros []. lia. }
  destruct (mark_visited_spec (wk_visited w) (nm_ino x)) as (v' & -> & Hl & Hb'); [done|done|]. cbn [mbind outcome_bind].
  destruct (dir_push plenty _ _ _) as [st|] eqn:Hpush; [|done]. apply dir_push_spec in Hpush. intros [= <-].
  exists [(nm_ino x, child_path p (nm_name x))]. constructor; cbn; try done.
  - intros i Hi0. rewrite Hb' by done. f_equal. apply eq_true_iff_eq.
    rewrite bool_decide_eq_true, list_elem_of_singleton. lia.
  - unfold stacked. cbn. by rewrite Hpush.
  - split; [apply NoDup_singleton|]. by apply Forall_singleton.
  - by apply Forall_singleton.
  - intros _. rewrite Hb', Hbit by done. cbn. apply Z.eqb_refl.
  - by rewrite app_nil_r.
  - intros r. rewrite elem_of_nil. naive_solver.
Qed.

Lemma report_file_handled p x w w' :
  nm_type x = DE_FT_REGULAR → fits (child_path p (nm_name x)) →
  report_file plenty fs record_file (nm_ino x) (child_path p (nm_name x)) w = Ok w' → ∃ fl, handled p x w w' [] fl.
Proof.
  intros Hty Hfit. unfold report_file.
  assert (He : ¬ enters fs p x) by (intros [Ht _ _ _]; by rewrite Hty in Ht).
  intros ([fi|] & Hfi & Hx)%bind_Ok_inv.
  2:{ injection Hx as <-. exists []. apply handled_nothing; [done|].
      intros r [_ _ _ _ (q & m & [Hq _ _] & _)]. by rewrite Hfi in Hq. }
  apply bind_Ok_inv in Hx as (mode & Hmode & Hx).
  destruct (Z.eqb_spec (Z.land mode MODE_FMT_MASK) MODE_REGULAR) as [Hreg|Hreg]; cbn [negb] in Hx.
  2:{ injection Hx as <-. exists []. apply handled_nothing; [done|].
      intros r [_ _ _ _ (q & m & [Hq Hm Hf] & _)]. congruence. }
  apply bind_Ok_inv in Hx as ([dn ext] & Hext & Hx).
  (* what a report of the entry says *)
  assert (Hrep : ∀ r, reports fs p x r → dn = true ∧ fr_path r = child_path p (nm_name x) ∧ fr_ino r = nm_ino x ∧
    inode_file_size fs fi mode = Ok (fr_size r) ∧ el_v ext = fr_exts r).
  { intros r [_ _ Hp Hi (q & m & [Hq Hm Hf] & Hs & Hd)]. rewrite Hfi in Hq. injection Hq as <-.
    rewrite Hmode in Hm. injection Hm as <-. destruct (inode_data_run _ _ _ _ _ _ Hext Hd) as [-> <-]. done. }
  destruct dn; cbn [negb] in Hx.
  2:{ injection Hx as <-. exists []. destruct (handled_nothing p x w) as [? ? ? ? ? ? ? ? ?];
        [done|intros r Hr; by destruct (Hrep r Hr)|]. by constructor. }
  apply bind_Ok_inv in Hx as (size & Hsize & Hx). cbn in Hx. injection Hx as <-.
  exists [mkReport (child_path p (nm_name x)) (nm_ino x) size (el_v ext)].
  constructor; cbn; try done.
  - intros i _. rewrite bool_decide_false by apply not_elem_of_nil. by rewrite orb_false_r.
  - split; [apply NoDup_nil_2|by apply Forall_nil].
  - intros [pa ino sz exts]. rewrite list_elem_of_singleton. split.
    + intros [= -> -> -> ->]. constructor; cbn; try done. exists fi, mode. split_and!; [done|done|].
      by exists (wk_file_ext w), ext.
    + intros Hr. apply Hrep in Hr. cbn in Hr. destruct Hr as (_ & -> & -> & Hs & <-). congruence.
  - by rewrite orb_false_r.
Qed.

(** * A directory *)

(** [f] goes through the entries [Q] of the directory [d] that was taken last. *)
Definition goes_through (H : history) (d : Z) (p : bytes) (Q : entry → Prop) (f : state → outcome state) : Prop :=
  ∀ S w w', listed ((d, p, S) :: H) w → f w = Ok w' →
    ∃ new, (∀ x, x ∈ new ↔ Q x) ∧ listed ((d, p, S ++ new) :: H) w'.

Lemma through_none H d p Q : (∀ x, ¬ Q x) → goes_through H d p Q (fun w => Ok w).
Proof.
  intros Hno S w w' Hw [= <-]. exists []. rewrite app_nil_r. split; [|done].
  intros x. rewrite elem_of_nil. naive_solver.
Qed.

Lemma through_mono H d p (Q R : entry → Prop) f :
  goes_through H d p Q f → (∀ x, Q x ↔ R x) → goes_through H d p R f.
Proof. intros Hf HQR S w w' Hw Hx. destruct (Hf S w w' Hw Hx) as (new & Hn & Hl). exists new. by setoid_rewrite <- HQR. Qed.

Lemma through_seq H d p (Q R : entry → Prop) f g :
  goes_through H d p Q f → goes_through H d p R g → goes_through H d p (fun x => Q x ∨ R x) (fun w => w ← f w; g w).
Proof.
  intros Hf Hg S w w' Hw (w1 & H1 & H2)%bind_Ok_inv.
  destruct (Hf S w w1 Hw H1) as (n1 & Hn1 & Hl1). destruct (Hg _ w1 w' Hl1 H2) as (n2 & Hn2 & Hl2).
  exists (n1 ++ n2). rewrite app_assoc. split; [|done]. intros x. by rewrite elem_of_app, Hn1, Hn2.
Qed.

(** The callback never asks for a stop. *)
Lemma through_going H d p Q f :
  goes_through H d p Q f → goes_through H d p Q (fun w => if wk_stopped w then Ok w else f w).
Proof. intros Hf S w w' Hw. rewrite (ls_going _ _ Hw). by apply Hf. Qed.

Lemma existsb_elem c (l : bytes) : existsb (Z.eqb c) l = true ↔ c ∈ l.
Proof.
  rewrite existsb_exists, list_elem_of_In. split; [intros (x & Hin & <-%Z.eqb_eq); done|].
  intros Hin. exists c. split; [done|apply Z.eqb_refl].
Qed.

Lemma load_length off len b : load off len (fx_image fs) = Ok b → zlen b = len.
Proof.
  intros Hb. pose proof (load_Ok_inv _ _ _ _ Hb) as (H0 & H1 & H2). rewrite load_ok in Hb by done.
  injection Hb as <-. by apply zlen_slice.
Qed.

Lemma is_dot_spec name : is_dot name = false ↔ name ≠ [46] ∧ name ≠ [46; 46].
Proof. unfold is_dot. by rewrite orb_false_iff, !bool_decide_eq_false. Qed.

(** The entry of one record. *)
Lemma dirent_through H d p de len :
  (∀ x, names fs de len x → dir_lists fs d x) →
  goes_through H d p (names fs de len) (visit_dirent plenty fs record_file p de len).
Proof.
  intros Hin S w w' Hw. unfold visit_dirent. intros (ino & Hino & Hx)%bind_Ok_inv.
  apply bind_Ok_inv in Hx as ([nl ty] & Hty & Hx). pose proof (rd32_range _ _ Hino) as Hi0.
  assert (Hfields : ∀ x, names fs de len x → nm_ino x = ino ∧ zlen (nm_name x) = nl ∧ nm_type x = ty).
  { intros x [Ni Nt _ _ _ _ _ _]. assert (nm_ino x = ino) as Hq by congruence.
    rewrite Hq, Hty in Nt. by injection Nt. }
  assert (Hnone : (∀ x, ¬ names fs de len x) → Ok w = Ok w' →
    ∃ new, (∀ x, x ∈ new ↔ names fs de len x) ∧ listed ((d, p, S ++ new) :: H) w').
  { intros Hno. by apply (through_none H d p _ Hno S w w'). }
  destruct ((ino =? 0) || _ || _) eqn:E1.
  { apply Hnone; [|done]. intros x Hn. pose proof (Hfields x Hn) as (<- & Hl & _). destruct Hn as [_ _ Hu Hne Hr _ _ _].
    destruct (nm_name x) as [|c name]; [done|]. rewrite zlen_cons in *. pose proof (zlen_nonneg name). lia. }
  apply bind_Ok_inv in Hx as (name & Hname & Hx). pose proof (load_length _ _ _ Hname) as Hnl.
  destruct (is_dot name || existsb (Z.eqb 47) name || existsb (Z.eqb 0) name) eqn:E2; cbn [orb] in Hx.
  { apply Hnone; [|done]. intros x Hn. pose proof (Hfields x Hn) as (_ & Hl & _). destruct Hn as [_ _ _ _ _ Hld Hd Hc].
    rewrite Hl, Hname in Hld. injection Hld as Hnm. rewrite <- Hnm, <- is_dot_spec, <- !existsb_elem in *.
    destruct Hc. destruct (is_dot name), (existsb (Z.eqb 47) name), (existsb (Z.eqb 0) name); naive_solver. }
  rewrite !orb_false_iff in E1, E2. destruct E1 as [[E1 E1'] E1''], E2 as [[Hdot H47] H0].
  set (x := mkEntry name ino ty).
  assert (Hx0 : names fs de len x).
  { constructor; cbn; rewrite ?Hnl; try done.
    - lia.
    - intros ->. rewrite zlen_nil in Hnl. lia.
    - unfold DE_NAME_OFF in *. lia.
    - by apply is_dot_spec.
    - rewrite <- !existsb_elem. by rewrite H47, H0. }
  assert (Hdone : ∀ stk fl, handled p x w w' stk fl →
    ∃ new, (∀ x, x ∈ new ↔ names fs de len x) ∧ listed ((d, p, S ++ new) :: H) w').
  { intros stk fl Hh. exists [x]. split; [|eapply listed_entry; [exact Hw|by apply Hin|exact (proj1 Hi0)|exact Hh]].
    intros y. rewrite list_elem_of_singleton. split; [by intros ->|]. intros Hy. by eapply names_unique. }
  pose proof (zlen_child p name) as Hz.
  destruct (Z.leb_spec MAX_PATH_LEN (zlen p + 1 + nl)) as [Hlong|Hfit].
  { injection Hx as <-. apply (Hdone [] []). apply handled_nothing.
    - intros [_ _ Hf _]. unfold fits in Hf. cbn in Hf. lia.
    - intros r [_ Hf _ _ _]. unfold fits in Hf. cbn in Hf. lia. }
  assert (Hf : fits (child_path p (nm_name x))) by (unfold fits; cbn; lia).
  apply bind_Ok_inv in Hx as (path & Hpath & Hx). unfold build_path in Hpath. cbv zeta in Hpath.
  destruct (MAX_PATH_LEN <? zlen (p ++ [47] ++ name) + 1); [done|].
  injection Hpath as <-.
  destruct (Z.eqb_spec ty DE_FT_DIRECTORY) as [Hd|Hd].
  { destruct (enter_dir_handled p x w w' (ls_visited _ _ Hw) Hd (proj1 Hi0) Hx) as [stk Hh]. by apply (Hdone stk []). }
  destruct (Z.eqb_spec ty DE_FT_REGULAR) as [Hr|Hr].
  { destruct (report_file_handled p x w w' Hr Hf Hx) as [fl Hh]. by apply (Hdone [] fl). }
  injection Hx as <-. apply (Hdone [] []). apply handled_nothing; [by intros []|by intros r []].
Qed.

(** The entries of the records from [pos] on. *)
Definition entries_from (blk pos : Z) (x : entry) : Prop :=
  ∃ at_ len, chain fs blk pos at_ len ∧ names fs (blk + at_) len x.

Lemma entries_from_step blk pos len x :
  record_at fs blk pos len → names fs (blk + pos) len x ∨ entries_from blk (pos + len) x ↔ entries_from blk pos x.
Proof.
  intros Hr. split.
  - intros [Hn|(a & l & Hc & Hn)]; [exists pos, len|exists a, l]; (split; [|done]).
    + by constructor.
    + by eapply chain_next.
  - intros (a & l & Hc & Hn). inversion Hc as [pos' len' Hr'|pos' len' a' l' Hr' Hc']; subst.
    + left. assert (l = len) as <-; [|done]. destruct Hr, Hr'. congruence.
    + right. exists a, l. assert (len' = len) as <-; [|done]. destruct Hr, Hr'. congruence.
Qed.

Lemma entries_from_end blk pos x : (∀ len, ¬ record_at fs blk pos len) → ¬ entries_from blk pos x.
Proof. intros Hno (a & l & Hc & _). inversion Hc; subst; naive_solver. Qed.

Lemma dirent_loop_through H d p blk fuel pos :
  (∀ x, entries_from blk pos x → dir_lists fs d x) → 0 ≤ pos ≤ fx_block_size fs →
  goes_through H d p (entries_from blk pos) (dirent_loop plenty fs record_file fuel p blk pos).
Proof.
  pose proof (block_size_range Hfs) as Hbsr. revert pos. induction fuel as [|fuel IH]; intros pos Hin Hpos S w w' Hw; [done|].
  cbn [dirent_loop]. unfold DE_NAME_OFF. rewrite (wrap_small 32 (pos + 8)) by lia.
  assert (Hnone : (∀ len, ¬ record_at fs blk pos len) → Ok w = Ok w' →
    ∃ new, (∀ x, x ∈ new ↔ entries_from blk pos x) ∧ listed ((d, p, S ++ new) :: H) w').
  { intros Hno. apply (through_none H d p); [|done]. intros x. by apply entries_from_end. }
  destruct (Z.ltb_spec (fx_block_size fs) (pos + 8)).
  { apply Hnone. intros len [Hr _ _ _ _]. unfold DE_NAME_OFF in Hr. lia. }
  intros (len & Hlen & Hx)%bind_Ok_inv. pose proof (rd16_range _ _ Hlen) as Hl.
  rewrite (wrap_small 32 (pos + len)) in Hx by lia. destruct ((len <? 8) || _ || _) eqn:E.
  { apply Hnone; [|done]. intros len' [_ Hr Hm Ha Hi]. unfold DE_NAME_OFF in Hm.
    assert (len' = len) as -> by congruence. rewrite Ha in E. lia. }
  assert (Hr : record_at fs blk pos len) by (constructor; unfold DE_NAME_OFF; [lia|done|lia..]).
  pose proof (entries_from_step blk pos len) as Hstep.
  assert (Hboth : goes_through H d p (fun x => names fs (blk + pos) len x ∨ entries_from blk (pos + len) x)
    (fun w => w ← visit_dirent plenty fs record_file p (blk + pos) len w;
              dirent_loop plenty fs record_file fuel p blk (pos + len) w)).
  { apply through_seq; [apply dirent_through|apply IH; [|lia]]; intros x Hq; apply Hin, (Hstep x Hr); auto. }
  refine (through_mono _ _ _ _ _ _ Hboth _ S w w' Hw Hx). intros x. by apply Hstep.
Qed.

Lemma dir_blocks_loop_through H d p n physical :
  (∀ b blk x, 0 ≤ b < Z.of_nat n → fs_block fs (physical + b) = Some blk → entries_from blk 0 x → dir_lists fs d x) →
  0 ≤ physical → physical + Z.of_nat n ≤ fx_block_count fs →
  goes_through H d p
    (fun x => ∃ b blk, 0 ≤ b < Z.of_nat n ∧ fs_block fs (physical + b) = Some blk ∧ entries_from blk 0 x)
    (dir_blocks_loop plenty fs record_file n p physical).
Proof.
  pose proof (block_size_range Hfs) as Hbsr. pose proof (block_count_range Hfs) as Hbcr.
  revert physical. induction n as [|n IH]; intros physical Hin H0 H1; cbn [dir_blocks_loop].
  { apply through_none. intros x (b & blk & ? & _). lia. }
  apply through_going. rewrite (wrap_small 64 (physical + 1)) by lia.
  eapply through_mono; [apply (through_seq _ _ _ (fun x => ∃ blk, fs_block fs physical = Some blk ∧ entries_from blk 0 x));
    [|apply IH; [|lia|lia]]|].
  - destruct (fs_block fs physical) as [blk|] eqn:Hb.
    + eapply through_mono; [apply (dirent_loop_through _ _ _ blk); [|lia]|].
      * intros x. apply (Hin 0); [lia|by rewrite Z.add_0_r].
      * intros x. naive_solver.
    + apply through_none. naive_solver.
  - intros b blk x Hb Hs. apply (Hin (b + 1)); [lia|]. rewrite <- Hs. f_equal. lia.
  - intros x. split.
    + intros [(blk & Hb & Hx)|(b & blk & Hr & Hb & Hx)].
      * exists 0, blk. rewrite Z.add_0_r. split_and!; [lia|lia|done|done].
      * exists (b + 1), blk. split_and!; [lia|lia| |done]. rewrite <- Hb. f_equal. lia.
    + intros (b & blk & Hr & Hb & Hx). destruct (Z.eqb_spec b 0) as [->|].
      * left. exists blk. by rewrite Z.add_0_r in Hb.
      * right. exists (b - 1), blk. split_and!; [lia|lia| |done]. rewrite <- Hb. f_equal. lia.
Qed.

(** The entries of the blocks of [exts]. *)
Definition entries_in (exts : list fsd_ext_extent_t) (x : entry) : Prop :=
  ∃ e b blk, e ∈ exts ∧ 0 ≤ b < ex_count e ∧ fs_block fs (ex_physical e + b) = Some blk ∧ entries_from blk 0 x.

Lemma dir_extents_loop_through H d p exts :
  (∀ x, entries_in exts x → dir_lists fs d x) → Forall (extent_ok (fx_block_count fs)) exts →
  goes_through H d p (entries_in exts) (dir_extents_loop plenty fs record_file exts p).
Proof.
  intros Hin He. induction He as [|e exts [_ Hp Hc Hi] He IH]; cbn [dir_extents_loop].
  { apply through_none. intros x (e & b & blk & Hn & _). by apply elem_of_nil in Hn. }
  apply through_going. eapply through_mono; [apply through_seq; [apply dir_blocks_loop_through|apply IH]|].

  - intros b blk x Hb Hs Hx. apply Hin. exists e, b, blk. split_and!; [apply elem_of_cons; by left|lia|lia|done|done].
  - lia.
  - lia.
  - intros x (e' & b & blk & He' & Hr). apply Hin. exists e', b, blk. split; [apply elem_of_cons; by right|done].
  - rewrite Z2Nat.id by lia. intros x. split.
    + intros [(b & blk & Hr)|(e' & b & blk & He' & Hr)].
      * exists e, b, blk. split; [apply elem_of_cons; by left|done].
      * exists e', b, blk. split; [apply elem_of_cons; by right|done].
    + intros (e' & b & blk & [->|He']%elem_of_cons & Hr); [left; by exists b, blk|right; by exists e', b, blk].
Qed.

(** A directory on the stack, all of it. *)
Lemma visit_dir_through H d p (w0 w' : state) dir :
  listed ((d, p, []) :: H) w0 → de_inode dir = d → de_path dir = p → 0 ≤ d →
  visit_dir plenty fs record_file dir w0 = Ok w' →
  ∃ S, (∀ x, x ∈ S ↔ dir_lists fs d x) ∧ listed ((d, p, S) :: H) w'.
Proof.
  intros Hw Hd Hp Hd0. unfold visit_dir. rewrite Hd, Hp. intros (dino & Hi & Hx)%bind_Ok_inv.
  assert (Hnone : (∀ x, ¬ dir_lists fs d x) → ∀ w1, listed ((d, p, []) :: H) w1 → Ok w1 = Ok w' →
    ∃ S, (∀ x, x ∈ S ↔ dir_lists fs d x) ∧ listed ((d, p, S) :: H) w').
  { intros Hno w1 H1. by apply (through_none H d p _ Hno [] w1 w'). }
  destruct dino as [dino|].
  2:{ apply (Hnone ltac:(intros x (? & ? & ? & (q & m & exts & e & b & [Hq _ _] & _) & _); congruence) w0); done. }
  pose proof (inode_ptr_returns (E := fun _ => False) Hfs d Hd0) as Hr. rewrite Hi in Hr.
  destruct (Hr dino eq_refl) as (Hn0 & Hn1 & _).
  apply bind_Ok_inv in Hx as (mode & Hm & Hx).
  destruct (Z.eqb_spec (Z.land mode MODE_FMT_MASK) MODE_DIRECTORY) as [Hdir|Hdir]; cbn [negb] in Hx.
  2:{ apply (Hnone ltac:(intros x (? & ? & ? & (q & m & exts & e & b & [Hq Hqm Hqf] & _) & _); congruence) w0); done. }
  apply bind_Ok_inv in Hx as ([dn ext] & Hext & Hx).
  pose proof (inode_extents_returns (E := fun _ => False) Hfs plenty dino (wk_dir_ext w0) Hn0 Hn1) as He.
  rewrite Hext in He. cbn in He.
  set (w1 := mkWalk _ _ _ _ _ _) in Hx.
  assert (Hw1 : listed ((d, p, []) :: H) w1) by (destruct Hw; by constructor).
  assert (Hdata : ∀ q m exts, inode_at fs MODE_DIRECTORY d q m → inode_data fs q exts → dn = true ∧ el_v ext = exts).
  { intros q m exts [Hq _ _] Hdt. rewrite Hi in Hq. injection Hq as <-. by eapply inode_data_run. }
  destruct dn; cbn [negb] in Hx.
  2:{ apply (Hnone ltac:(intros x (? & ? & ? & (q & m & exts & e & b & Hq & Hdt & _) & _); by destruct (Hdata _ _ _ Hq Hdt)) w1); done. }
  assert (Heq : ∀ x, entries_in (el_v ext) x ↔ dir_lists fs d x).
  { intros x. split.
    - intros (e & b & blk & Hin & Hb & Hs & (a & len & Hc & Hnm)). exists blk, a, len. split_and!; [|done|done].
      exists dino, mode, (el_v ext), e, b. split_and!; try done; [|lia|lia]. by exists (wk_dir_ext w0), ext.
    - intros (blk & a & len & (q & m & exts & e & b & Hq & Hdt & Hin & Hb & Hs) & Hc & Hnm).
      destruct (Hdata _ _ _ Hq Hdt) as [_ <-]. exists e, b, blk. split_and!; try done; [lia|lia|]. by exists a, len. }
  pose proof (dir_extents_loop_through H d p (el_v ext) (fun x => proj1 (Heq x)) He) as Hgo.
  exact (through_mono _ _ _ _ _ _ Hgo Heq [] w1 w' Hw1 Hx).
Qed.

(** * The stack *)

Lemma tree_dir_nonneg d p : tree_dir fs d p → 0 ≤ d.
Proof.
  destruct 1 as [|d p x _ (blk & pos & len & _ & _ & [Hi _ _ _ _ _ _ _]) _]; [done|]. exact (proj1 (rd32_range _ _ Hi)).
Qed.

(** Every directory that was taken was gone through. *)
Definition complete (H : history) : Prop := ∀ d p S, (d, p, S) ∈ H → ∀ x, x ∈ S ↔ dir_lists fs d x.

Lemma walk_loop_listed fuel H w w' :
  listed H w → complete H → walk_loop plenty fs record_file fuel w = Ok w' →
  ∃ H', listed H' w' ∧ complete H' ∧ stacked w' = [].
Proof.
  revert H w. induction fuel as [|fuel IH]; intros H w Hw Hc; cbn [walk_loop]; [done|].
  destruct (dk_v (wk_stack w)) as [|dir rest] eqn:Hst.
  { intros [= <-]. exists H. split_and!; [done|done|]. unfold stacked. by rewrite Hst. }
  rewrite (ls_going _ _ Hw). intros (w1 & H1 & Hx)%bind_Ok_inv. set (w0 := mkWalk _ _ _ _ _ _) in H1.
  assert (Hs : stacked w = (de_inode dir, de_path dir) :: stacked w0) by (unfold stacked; by rewrite Hst).
  assert (Hd : 0 ≤ de_inode dir).
  { apply (tree_dir_nonneg _ (de_path dir)), (ls_named _ _ Hw). unfold known. rewrite Hs. apply elem_of_cons. by left. }
  assert (Hw0 : listed ((de_inode dir, de_path dir, []) :: H) w0) by (exact (listed_pop H _ _ w w0 Hw Hs eq_refl eq_refl (eq_sym (ls_going _ _ Hw)))).
  destruct (visit_dir_through H _ _ w0 w1 dir Hw0 eq_refl eq_refl Hd H1) as (S & HS & Hw1).
  apply (IH ((de_inode dir, de_path dir, S) :: H) w1 Hw1); [|done].
  intros d p S' [[= -> -> ->]|Hin]%elem_of_cons; [done|by eapply Hc].
Qed.

Lemma listed_start visited st :
  zlen visited = fx_inodes_count fs / 8 + 1 → (∀ i, 0 ≤ i → visited_bit visited i = (i =? EXT_ROOT_INODE)) →
  dk_v st = [mkDir EXT_ROOT_INODE []] → listed [] (mkWalk visited st (mkExtents [] 0) (mkExtents [] 0) false []).
Proof.
  intros Hv Hb Hst.
  assert (Hk : known [] (mkWalk visited st (mkExtents [] 0) (mkExtents [] 0) false []) = [(EXT_ROOT_INODE, [])]).
  { unfold known, stacked. cbn. by rewrite Hst. }
  constructor; cbn [wk_visited wk_user wk_stopped]; rewrite ?Hk; try done.
  - intros i Hi. cbn. rewrite Hb, list_elem_of_singleton by done. apply Z.eqb_eq.
  - apply NoDup_singleton.
  - by apply list_elem_of_singleton.
  - intros d p [= -> ->]%list_elem_of_singleton. constructor.
  - intros d p S x Hin. by apply elem_of_nil in Hin.
  - intros r. split; [intros Hr; by apply elem_of_nil in Hr|]. intros (d & p & S & x & Hin & _). by apply elem_of_nil in Hin.
Qed.

(** A history that is complete is the tree. *)
Lemma listed_tree H w : listed H w → complete H → stacked w = [] → lists_tree fs H.*1 (wk_user w).
Proof.
  intros [Lv Lb Lo Lr Ln Lc Lf Lg] Hc Hs. unfold known in *. rewrite Hs in *. cbn [app] in *.
  assert (Hin : ∀ d p, (d, p) ∈ H.*1 → ∃ S, (d, p, S) ∈ H).
  { intros d p Hd. apply list_elem_of_fmap in Hd as ([[d' p'] S] & [= -> ->] & Hd). by exists S. }
  assert (Hout : ∀ d p S, (d, p, S) ∈ H → (d, p) ∈ H.*1).
  { intros d p S Hd. apply list_elem_of_fmap. by exists (d, p, S). }
  constructor; try done.
  - intros d p x Hd Hx He. destruct (Hin d p Hd) as [S HS]. apply (Lc d p S); [done|by apply (Hc d p S)|done].
  - intros r. rewrite Lf. split.
    + intros (d & p & S & x & Hd & Hx & Hr). exists d, p, x. split_and!; [by eapply Hout|by apply (Hc d p S)|done].
    + intros (d & p & x & Hd & Hx & Hr). destruct (Hin d p Hd) as [S HS]. exists d, p, S, x.
      split_and!; [done|by apply (Hc d p S)|done].
Qed.

Lemma fsd_extfs_walk_lists files :
  fsd_extfs_walk plenty fs record_file [] = Ok files → ∃ dirs, lists_tree fs dirs files.
Proof.
  unfold fsd_extfs_walk. cbn [negb orb plenty]. pose proof (fo_inodes _ Hfs) as Hn.
  destruct (dir_push plenty _ _ _) as [st|] eqn:Hpush; [|done]. apply dir_push_spec in Hpush. cbn [dk_v] in Hpush.
  assert (Hz : zlen (fill (fx_inodes_count fs / 8 + 1) 0) = fx_inodes_count fs / 8 + 1) by (apply zlen_fill; zmod).
  destruct (mark_visited_spec (fill (fx_inodes_count fs / 8 + 1) 0) EXT_ROOT_INODE) as (v' & -> & Hl & Hb);
    [done|rewrite Hz; unfold EXT_ROOT_INODE; zmod|]. cbn [mbind outcome_bind].
  intros (w & Hx & [= <-])%bind_Ok_inv.
  eapply walk_loop_listed in Hx as (H & Hw & Hc & Hs); [exists H.*1; by apply listed_tree| |].
  - apply listed_start; [congruence| |done]. intros i Hi. rewrite Hb by done. unfold visited_bit, fill, zget.
    destruct (0 <=? i / 8); [|done]. destruct (_ !! _) as [v|] eqn:Hv; [|done].
    apply lookup_replicate in Hv as [-> _]. by rewrite Z.testbit_0_l.
  - intros d p S Hin. by apply elem_of_nil in Hin.
Qed.

End Walk.

(** * Properties *)

(** C23: the walk is the directory tree.  On every image that opens, with memory to
    spare, the walk succeeds, and there is a list of directories such that the root
    is one of them; none occurs twice; each is reached from the root by the names on
    its path; every subdirectory that one of them lists is one of them, unless its
    inode number is out of range or its path too long or too deep; and the files
    reported are exactly the regular files that they list, each with its path, its
    inode number, and the size and the extents its inode gives. *)
Theorem extfs_walk_lists_tree image image_size fs :
  bytes_ok image → image_size ≤ zlen image → image_size ≤ 2 ^ 62 →
  fsd_extfs_open plenty image image_size = Ok fs →
  ∃ dirs files, fsd_extfs_walk plenty fs record_file [] = Ok files ∧ lists_tree fs dirs files.
Proof.
  intros Hok Hl Hm Ho. pose proof (fsd_extfs_open_returns plenty image image_size Hok Hl Hm) as Hr. rewrite Ho in Hr.
  destruct Hr as (Hfs & _ & _).
  pose proof (fsd_extfs_walk_returns (I := fun _ => True) (E := fun _ => False) (cb := record_file) Hfs plenty
    (or_intror (fun _ => eq_refl)) (fun _ _ _ _ _ _ _ => Logic.I) [] Logic.I) as Hw.
  destruct (fsd_extfs_walk plenty fs record_file []) as [files|e| |] eqn:E; [|done..].
  destruct (fsd_extfs_walk_lists Hfs files E) as [dirs Hd]. by exists dirs, files.
Qed.

(** Seven blocks of 1024 bytes: the root lists a file and the directory of block 5,
    which lists itself, the root under another name and the same file again. *)
Definition named (ino rec_len ty : Z) (name : bytes) : bytes :=
  le_bytes 4 ino ++ le_bytes 2 rec_len ++ [zlen name; ty] ++ name.

Definition nested_image : bytes :=
  fold_left (fun image '(off, d) => blit off d image)
    [ (1024 + SB_INODES_COUNT, le_bytes 4 8); (1024 + SB_BLOCKS_COUNT_LO, le_bytes 4 7);
      (1024 + SB_FIRST_DATA_BLOCK, le_bytes 4 1); (1024 + SB_BLOCKS_PER_GROUP, le_bytes 4 8192);
      (1024 + SB_INODES_PER_GROUP, le_bytes 4 8); (1024 + SB_MAGIC, le_bytes 2 EXT_SUPER_MAGIC);
      (1024 + SB_STATE, le_bytes 2 EXT_STATE_CLEAN); (1024 + SB_FEATURE_INCOMPAT, le_bytes 4 INCOMPAT_FILETYPE);
      (2048 + GD_INODE_TABLE_LO, le_bytes 4 3);
      (3072 + 128 + INO_MODE, le_bytes 2 MODE_DIRECTORY); (3072 + 128 + INO_SIZE_LO, le_bytes 4 1024);
      (3072 + 128 + INO_BLOCK, le_bytes 4 4);
      (3072 + 256 + INO_MODE, le_bytes 2 MODE_REGULAR); (3072 + 256 + INO_SIZE_LO, le_bytes 4 700);
      (3072 + 256 + INO_BLOCK, le_bytes 4 6);
      (3072 + 384 + INO_MODE, le_bytes 2 MODE_DIRECTORY); (3072 + 384 + INO_SIZE_LO, le_bytes 4 1024);
      (3072 + 384 + INO_BLOCK, le_bytes 4 5);
      (4096, named 4 12 DE_FT_DIRECTORY [100]); (4096 + 12, named 3 1012 DE_FT_REGULAR [97]);
      (5120, named 4 12 DE_FT_DIRECTORY [46]); (5120 + 12, named 2 12 DE_FT_DIRECTORY [114]);
      (5120 + 24, named 3 1000 DE_FT_REGULAR [98]) ]
    (fill 7168 0).

Definition nested_fs : fsd_extfs := mkExtfs nested_image 7168 1024 7 8 8 8192 128 32 1 2048 1 true.

Definition nested_files : list file_report :=
  [ mkReport [47; 97] 3 700 [mkExtent 0 6 1]; mkReport [47; 100; 47; 98] 3 700 [mkExtent 0 6 1] ].

Lemma extfs_walk_lists_tree_witness :
  fsd_extfs_open plenty nested_image 7168 = Ok nested_fs ∧
  fsd_extfs_walk plenty nested_fs record_file [] = Ok nested_files ∧
  ∃ dirs, lists_tree nested_fs dirs nested_files.
Proof.
  assert (Ho : fsd_extfs_open plenty nested_image 7168 = Ok nested_fs) by (vm_compute; reflexivity).
  assert (Hw : fsd_extfs_walk plenty nested_fs record_file [] = Ok nested_files) by (vm_compute; reflexivity).
  split; [exact Ho|]. split; [exact Hw|].
  destruct (extfs_walk_lists_tree nested_image 7168 nested_fs
    ltac:(apply bytes_okb; vm_compute; reflexivity) ltac:(vm_compute; discriminate) ltac:(lia) Ho)
    as (dirs & files & Hf & Hl).
  exists dirs. rewrite Hw in Hf. injection Hf as ->. exact Hl.
Defined.
