(* ===== verification/WalkSim.v ===== *)
(** Two walks of one image in step.

    The walk of fs/ext_reader.c passes its callback's state along and looks at nothing
    of it but the answer to stop.  So two callbacks that answer alike are told the
    same files: what holds of their states in step holds at the end.  The first
    callback may reach a state that settles the matter and that it never leaves
    ([Bad]); from there on the walks may part. *)

From stdpp Require Import base list numbers tactics.
From Stdlib Require Import ZArith Lia.
From S2P Require Import Prelude ExtReader.
Open Scope Z_scope.

Section Sim.
Context {U V : Type} (malloc_ok : allocator) (fs : fsd_extfs).
Context {cb : fsd_extfs_file_cb U} {cb' : fsd_extfs_file_cb V} (R : U → V → Prop) (Bad : U → Prop).

Context (Hbad : ∀ u path ino size exts r, Bad u → cb u path ino size exts = Ok r → Bad (snd r)).
Context (Hcb : ∀ u v path ino size exts r r', R u v → cb u path ino size exts = Ok r →
  cb' v path ino size exts = Ok r' → Bad (snd r) ∨ fst r = fst r' ∧ R (snd r) (snd r')).

(** The same state of the walk, the users' parts aside. *)
Record same (w : walk_state U) (w' : walk_state V) : Prop := {
  sm_visited : wk_visited w = wk_visited w';
  sm_stack : wk_stack w = wk_stack w';
  sm_dir_ext : wk_dir_ext w = wk_dir_ext w';
  sm_file_ext : wk_file_ext w = wk_file_ext w';
  sm_stopped : wk_stopped w = wk_stopped w';
  sm_user : R (wk_user w) (wk_user w')
}.

Definition agree (w : walk_state U) (w' : walk_state V) : Prop := Bad (wk_user w) ∨ same w w'.

(** A piece of both walks. *)
Record in_step (f : walk_state U → outcome (walk_state U)) (f' : walk_state V → outcome (walk_state V)) : Prop := {
  is_bad w v : Bad (wk_user w) → f w = Ok v → Bad (wk_user v);
  is_same w w' v v' : same w w' → f w = Ok v → f' w' = Ok v' → agree v v'
}.

(** ** Pieces put together *)

Lemma step_id : in_step (fun w => Ok w) (fun w => Ok w).
Proof. split; [by intros w v Hb [= <-]|]. intros w w' v v' Hs [= <-] [= <-]. by right. Qed.

Lemma step_bind f f' g g' :
  in_step f f' → in_step g g' → in_step (fun w => w ← f w; g w) (fun w => w ← f' w; g' w).
Proof.
  intros [Bf Sf] [Bg Sg]. split.
  - intros w v Hb (x & Hf & Hg)%bind_Ok_inv. eauto.
  - intros w w' v v' Hs (x & Hf & Hg)%bind_Ok_inv (x' & Hf' & Hg')%bind_Ok_inv.
    destruct (Sf _ _ _ _ Hs Hf Hf') as [Hx|Hx]; [left; eauto|eauto].
Qed.

Lemma step_read {X} (m : outcome X) f f' :
  (∀ x, in_step (f x) (f' x)) → in_step (fun w => x ← m; f x w) (fun w => x ← m; f' x w).
Proof. intros H. destruct m as [x| | |]; [exact (H x)|by split..]. Qed.

Lemma step_if (b : bool) f f' g g' :
  in_step f f' → in_step g g' → in_step (fun w => if b then f w else g w) (fun w => if b then f' w else g' w).
Proof. by destruct b. Qed.

Lemma step_going f f' :
  in_step f f' → in_step (fun w => if wk_stopped w then Ok w else f w) (fun w => if wk_stopped w then Ok w else f' w).
Proof.
  intros [Bf Sf]. split.
  - intros w v Hb. destruct (wk_stopped w); [by intros [= <-]|eauto].
  - intros w w' v v' Hs. rewrite <- (sm_stopped _ _ Hs). destruct (wk_stopped w); [|eauto].
    intros [= <-] [= <-]. by right.
Qed.

(** ** The walk *)

Lemma enter_dir_step ino path : in_step (enter_dir malloc_ok fs ino path) (enter_dir malloc_ok fs ino path).
Proof.
  unfold enter_dir. apply step_if; [apply step_id|]. split.
  - intros w v Hb (s & _ & H)%bind_Ok_inv. destruct s; [by injection H as <-|].
    destruct (_ <? _); [by injection H as <-|]. apply bind_Ok_inv in H as (vis & _ & H).
    destruct (dir_push _ _ _ _); [|done]. by injection H as <-.
  - intros w w' v v' [Hv Hs Hd Hf Hst Hu]. rewrite <- Hv, <- Hs.
    intros (s & E & H)%bind_Ok_inv (s' & E' & H')%bind_Ok_inv. rewrite E in E'. injection E' as <-.
    destruct s; [injection H as <-; injection H' as <-; by right|].
    destruct (_ <? _); [injection H as <-; injection H' as <-; by right|].
    apply bind_Ok_inv in H as (vis & E1 & H). apply bind_Ok_inv in H' as (vis' & E2 & H').
    rewrite E1 in E2. injection E2 as <-. destruct (dir_push _ _ _ _); [|done].
    injection H as <-. injection H' as <-. right. by constructor.
Qed.

Lemma report_file_step ino path : in_step (report_file malloc_ok fs cb ino path) (report_file malloc_ok fs cb' ino path).
Proof.
  unfold report_file. apply step_read. intros [fi|]; [|apply step_id]. apply step_read. intros mode.
  apply step_if; [apply step_id|]. split.
  - intros w v Hb ([done ext] & _ & H)%bind_Ok_inv. destruct done; cbn [negb] in H; [|by injection H as <-].
    apply bind_Ok_inv in H as (size & _ & H). apply bind_Ok_inv in H as ([stop u] & Hc & [= <-]).
    exact (Hbad _ _ _ _ _ _ Hb Hc).
  - intros w w' v v' [Hv Hs Hd Hf Hst Hu]. rewrite <- Hf.
    intros ([done ext] & E & H)%bind_Ok_inv ([done' ext'] & E' & H')%bind_Ok_inv. rewrite E in E'.
    injection E' as <- <-. destruct done; cbn [negb] in H, H'; [|injection H as <-; injection H' as <-; by right].
    apply bind_Ok_inv in H as (size & E1 & H). apply bind_Ok_inv in H' as (size' & E2 & H').
    rewrite E1 in E2. injection E2 as <-.
    apply bind_Ok_inv in H as (r & Hc & H). apply bind_Ok_inv in H' as (r' & Hc' & H').
    pose proof (Hcb _ _ _ _ _ _ _ _ Hu Hc Hc') as Hr. destruct r as [stop u], r' as [stop' u'].
    cbn [fst snd] in Hr. injection H as <-. injection H' as <-. destruct Hr as [Hr|[<- Hr]]; [by left|right].
    constructor; cbn; congruence.
Qed.

Lemma visit_dirent_step dir_path de rec_len :
  in_step (visit_dirent malloc_ok fs cb dir_path de rec_len) (visit_dirent malloc_ok fs cb' dir_path de rec_len).
Proof.
  unfold visit_dirent. apply step_read. intros ino. apply step_read. intros [name_len ftype].
  apply step_if; [apply step_id|]. apply step_read. intros name. apply step_if; [apply step_id|].
  apply step_read. intros path. apply step_if; [apply enter_dir_step|].
  apply step_if; [apply report_file_step|apply step_id].
Qed.

Lemma dirent_loop_step fuel dir_path blk pos :
  in_step (dirent_loop malloc_ok fs cb fuel dir_path blk pos) (dirent_loop malloc_ok fs cb' fuel dir_path blk pos).
Proof.
  revert pos. induction fuel as [|fuel IH]; intros pos; cbn [dirent_loop]; [by split|].
  apply step_if; [apply step_id|]. apply step_read. intros rec_len. apply step_if; [apply step_id|].
  apply step_bind; [apply visit_dirent_step|apply IH].
Qed.

Lemma dir_blocks_loop_step n dir_path physical :
  in_step (dir_blocks_loop malloc_ok fs cb n dir_path physical) (dir_blocks_loop malloc_ok fs cb' n dir_path physical).
Proof.
  revert physical. induction n as [|n IH]; intros physical; cbn [dir_blocks_loop]; [apply step_id|].
  apply step_going, step_bind; [|apply IH].
  destruct (fs_block fs physical) as [blk|]; [apply dirent_loop_step|apply step_id].
Qed.

Lemma dir_extents_loop_step exts dir_path :
  in_step (dir_extents_loop malloc_ok fs cb exts dir_path) (dir_extents_loop malloc_ok fs cb' exts dir_path).
Proof.
  induction exts as [|ext exts IH]; cbn [dir_extents_loop]; [apply step_id|].
  apply step_going, step_bind; [apply dir_blocks_loop_step|apply IH].
Qed.

(** Putting other extents in place of the directory's, or another stack. *)
Lemma same_with w w' stack dir_ext :
  same w w' →
  same (mkWalk (wk_visited w) stack dir_ext (wk_file_ext w) (wk_stopped w) (wk_user w))
       (mkWalk (wk_visited w') stack dir_ext (wk_file_ext w') (wk_stopped w') (wk_user w')).
Proof. intros []. by constructor. Qed.

Lemma visit_dir_step dir : in_step (visit_dir malloc_ok fs cb dir) (visit_dir malloc_ok fs cb' dir).
Proof.
  unfold visit_dir. apply step_read. intros [dino|]; [|apply step_id]. apply step_read. intros mode.
  apply step_if; [apply step_id|]. split.
  - intros w v Hb ([done ext] & _ & H)%bind_Ok_inv. destruct done; cbn [negb] in H; [|by injection H as <-].
    revert H. by apply (is_bad _ _ (dir_extents_loop_step _ _)).
  - intros w w' v v' Hs. rewrite <- (sm_dir_ext _ _ Hs).
    intros ([done ext] & E & H)%bind_Ok_inv ([done' ext'] & E' & H')%bind_Ok_inv. rewrite E in E'.
    injection E' as <- <-. pose proof (same_with w w' (wk_stack w) ext Hs) as Hs1.
    rewrite (sm_stack _ _ Hs) in Hs1 at 2.
    destruct done; cbn [negb] in H, H'; [|injection H as <-; injection H' as <-; by right].
    exact (is_same _ _ (dir_extents_loop_step _ _) _ _ _ _ Hs1 H H').
Qed.

Lemma walk_loop_step fuel : in_step (walk_loop malloc_ok fs cb fuel) (walk_loop malloc_ok fs cb' fuel).
Proof.
  induction fuel as [|fuel IH]; cbn [walk_loop]; [by split|]. split.
  - intros w v Hb. destruct (dk_v (wk_stack w)) as [|dir rest]; [by intros [= <-]|].
    destruct (wk_stopped w) eqn:Hst; [by intros [= <-]|].
    intros (x & H1 & H2)%bind_Ok_inv. apply (is_bad _ _ IH _ _) in H2; [done|].
    by apply (is_bad _ _ (visit_dir_step dir)) in H1.
  - intros w w' v v' Hs. rewrite <- (sm_stack _ _ Hs), <- (sm_stopped _ _ Hs).
    destruct (dk_v (wk_stack w)) as [|dir rest]; [intros [= <-] [= <-]; by right|].
    destruct (wk_stopped w) eqn:Hst; [intros [= <-] [= <-]; by right|].
    pose proof (same_with w w' (mkStack rest (dk_cap (wk_stack w))) (wk_dir_ext w) Hs) as Hs1.
    rewrite (sm_dir_ext _ _ Hs) in Hs1 at 2. rewrite <- (sm_stopped _ _ Hs), Hst in Hs1.
    apply (is_same _ _ (step_bind _ _ _ _ (visit_dir_step dir) IH) _ _ _ _ Hs1).
Qed.

(** The two walks end with related states, or the first has settled the matter. *)
Lemma extfs_walk_step u v u' v' :
  R u v → fsd_extfs_walk malloc_ok fs cb u = Ok u' → fsd_extfs_walk malloc_ok fs cb' v = Ok v' → Bad u' ∨ R u' v'.
Proof.
  intros Hr. unfold fsd_extfs_walk. destruct (_ || _); [done|]. destruct (dir_push _ _ _ _) as [st|]; [|done].
  intros (vis & E & H)%bind_Ok_inv (vis' & E' & H')%bind_Ok_inv. rewrite E in E'. injection E' as <-.
  apply bind_Ok_inv in H as (w & Hw & [= <-]). apply bind_Ok_inv in H' as (w' & Hw' & [= <-]).
  assert (Hs : same (mkWalk vis st (mkExtents [] 0) (mkExtents [] 0) false u)
    (mkWalk vis st (mkExtents [] 0) (mkExtents [] 0) false v)) by (by constructor).
  destruct (is_same _ _ (walk_loop_step _) _ _ _ _ Hs Hw Hw') as [Hb|[]]; [by left|by right].
Qed.

End Sim.
