(* ===== verification/StageFsmap.v ===== *)
(** The filesystem-aware matching stage (src/stages/stage_fsmap.c).

    When both images are ext filesystems, the stage indexes the files of the
    source by path, walks the files of the destination and, for each of their
    blocks that is still unmatched, supposes that the same offset of the file with
    the same path holds the data.  Each such hypothesis is then verified, with a
    search around it, and recorded as a partial match.

    Paths and extent lists that the C code copies into its pool are values here;
    the allocations are made through the [Arena] interface and may fail.  The
    threshold is the dyadic number of StagePartial.v.  The cancel flags are other
    threads' business: a flag is a function that gives the value read at each
    check.  qsort with a total order is a sort whose result is determined.
    Verbose output and the counters it prints are not modelled.

    Shown here: on any two images the stage finishes within bounds and without
    overflow, changes only unmatched blocks, and keeps the tracker truthful; every
    hypothesis comes from a file of the destination and a source file of the same
    path, at the same file offset. *)

From stdpp Require Import base list numbers tactics sorting.
From Stdlib Require Import ZArith Lia.
From S2P Require Import Prelude Crc32 MemoryPool HashTable Simd Tracker Patch Matches StageIdentity.
From S2P Require Import BlockSearch StagePartial ExtReader.
Open Scope Z_scope.

(** * The program *)

Definition CANCEL_CHECK_INTERVAL : Z := 256.

Record src_file_t := mkSrcFile {
  sf_path : bytes;
  sf_size : Z;
  sf_ext : list fsd_ext_extent_t
}.

Definition sizeof_src_file : Z := 32.

Record hypothesis_t := mkHyp { hy_dest_block : Z; hy_src_pos : Z }.

#[global] Instance hypothesis_eq_dec : EqDecision hypothesis_t.
Proof. solve_decision. Defined.

Definition sizeof_hypothesis : Z := 16.

(** The path index: the pool, the table from checksums of paths to positions of
    the file table, and the file table with its capacity. *)
Record path_index (P : Type) := mkIndex {
  pi_pool : P;
  pi_path_hash : fsd_hash_table_t;
  pi_src_files : list src_file_t;
  pi_cap : Z
}.
Arguments mkIndex {P}.
Arguments pi_pool {P}.
Arguments pi_path_hash {P}.
Arguments pi_src_files {P}.
Arguments pi_cap {P}.

(** The value of an atomic flag when hypothesis [h] is reached. *)
Abbreviation flag := (Z → bool).

Record fsd_fsmap_stage (P : Type) := mkFsmap {
  fm_block_size : Z;
  fm_threshold : dyadic;
  fm_search_range : Z;
  fm_inactive : bool;
  fm_cancel : option flag;
  fm_cancel2 : option flag;
  fm_index : option (path_index P);
  fm_hyps : list hypothesis_t;
  fm_cap_hyps : Z;
  fm_src_size : Z;
  fm_dest_size : Z
}.
Arguments mkFsmap {P}.
Arguments fm_block_size {P}.
Arguments fm_threshold {P}.
Arguments fm_search_range {P}.
Arguments fm_inactive {P}.
Arguments fm_cancel {P}.
Arguments fm_cancel2 {P}.
Arguments fm_index {P}.
Arguments fm_hyps {P}.
Arguments fm_cap_hyps {P}.
Arguments fm_src_size {P}.
Arguments fm_dest_size {P}.

Definition sizeof_fsmap_stage : Z := 120.

Definition fsd_fsmap_stage_create {P} (malloc_ok : allocator) (block_size : Z) (threshold : dyadic)
    (search_radius_blocks : Z) : outcome (fsd_fsmap_stage P) :=
  if block_size =? 0 then Err FSD_ERR_INVALID_ARG else
  if negb (malloc_ok sizeof_fsmap_stage) then Err FSD_ERR_OUT_OF_MEMORY else
  let threshold := if (0 <? fl_mant threshold) && (fl_mant threshold <? 2 ^ fl_exp threshold)
                   then threshold else half in
  let search_radius_blocks := if search_radius_blocks <=? 0 then DEFAULT_SEARCH_RADIUS_BLOCKS
                              else search_radius_blocks in
  Ok (mkFsmap block_size threshold (u64 (search_radius_blocks * block_size)) true None None None [] 0 0 0).

Definition fsd_fsmap_stage_set_cancel {P} (stage : fsd_fsmap_stage P) (flag1 flag2 : option flag) : fsd_fsmap_stage P :=
  mkFsmap (fm_block_size stage) (fm_threshold stage) (fm_search_range stage) (fm_inactive stage) flag1 flag2
    (fm_index stage) (fm_hyps stage) (fm_cap_hyps stage) (fm_src_size stage) (fm_dest_size stage).

Definition fsmap_cancelled {P} (stage : fsd_fsmap_stage P) (h : Z) : bool :=
  match fm_cancel stage with Some f => f h | None => false end ||
  match fm_cancel2 stage with Some f => f h | None => false end.

(** ** The source files *)

Section SourceWalk.
Context {P : Type} {AR : Arena P}.

Record src_walk_ctx_t := mkSrcWalk { sw_index : path_index P; sw_oom : bool }.

Definition src_walk_cb : fsd_extfs_file_cb src_walk_ctx_t := fun ctx path _ file_size extents =>
  let ix := sw_index ctx in
  let oom pool := Ok (true, mkSrcWalk (mkIndex pool (pi_path_hash ix) (pi_src_files ix) (pi_cap ix)) true) in
  if zlen extents =? 0 then Ok (false, ctx) else
  '(grown, cap, pool) ←
    (if zlen (pi_src_files ix) =? pi_cap ix then
       let cap := if pi_cap ix =? 0 then 1024 else u64 (pi_cap ix * 2) in
       '(v, pool) ← arena_alloc (u64 (cap * sizeof_src_file)) (pi_pool ix);
       Ok (negb (v =? 0), cap, pool)
     else Ok (true, pi_cap ix, pi_pool ix));
  if negb grown then oom pool else
  let path_len := zlen path in
  '(path_copy, pool) ← arena_alloc (u64 (path_len + 1)) pool;
  '(ext_copy, pool) ← arena_alloc (u64 (zlen extents * sizeof_extent)) pool;
  if (path_copy =? 0) || (ext_copy =? 0)
  then Ok (true, mkSrcWalk (mkIndex pool (pi_path_hash ix) (pi_src_files ix) cap) true) else
  crc ← fsd_crc32 path path_len;
  '(path_hash, pool) ← fsd_hash_table_insert (pi_path_hash ix) crc (zlen (pi_src_files ix)) pool;
  Ok (false, mkSrcWalk (mkIndex pool path_hash (pi_src_files ix ++ [mkSrcFile path file_size extents]) cap)
               (sw_oom ctx)).

End SourceWalk.
Arguments src_walk_ctx_t : clear implicits.

(** for (; e; e = e->next) *)
Fixpoint find_loop (files : list src_file_t) (crc : Z) (path : bytes) (chain : list fsd_hash_entry_t) : option src_file_t :=
  match chain with
  | [] => None
  | e :: next =>
      if negb (he_crc32 e =? crc) || (zlen files <=? he_block_index e) then find_loop files crc path next else
      match zget files (he_block_index e) with
      | Some f => if bool_decide (sf_path f = path) then Some f else find_loop files crc path next
      | None => None
      end
  end.

Definition src_file_find {P} (ix : path_index P) (path : bytes) : outcome (option src_file_t) :=
  crc ← fsd_crc32 path (zlen path);
  chain ← fsd_hash_table_lookup (pi_path_hash ix) crc;
  Ok (find_loop (pi_src_files ix) crc path chain).

(** The extents in turn. *)
Fixpoint src_map_range (fs_block_size logical_byte len : Z) (ext : list fsd_ext_extent_t) : option Z :=
  match ext with
  | [] => None
  | e :: ext =>
      let ext_lo := u64 (ex_logical e * fs_block_size) in
      let ext_bytes := u64 (ex_count e * fs_block_size) in
      if (ext_lo <=? logical_byte) && (u64 (logical_byte + len) <=? u64 (ext_lo + ext_bytes))
      then Some (u64 (u64 (ex_physical e * fs_block_size) + (logical_byte - ext_lo)))
      else src_map_range fs_block_size logical_byte len ext
  end.

(** ** The destination files *)

(** The hypotheses with the capacity of their array, and the flag. *)
Record dest_walk_ctx_t := mkDestWalk { dw_hyps : list hypothesis_t; dw_cap_hyps : Z; dw_oom : bool }.

Definition hyp_append (malloc_ok : allocator) (ctx : dest_walk_ctx_t) (dest_block src_pos : Z) : option dest_walk_ctx_t :=
  let new := dw_hyps ctx ++ [mkHyp dest_block src_pos] in
  if zlen (dw_hyps ctx) =? dw_cap_hyps ctx then
    let cap := if dw_cap_hyps ctx =? 0 then 4096 else u64 (dw_cap_hyps ctx * 2) in
    if negb (malloc_ok (u64 (cap * sizeof_hypothesis))) then None else Some (mkDestWalk new cap (dw_oom ctx))
  else Some (mkDestWalk new (dw_cap_hyps ctx) (dw_oom ctx)).

Section DestWalk.
Context {P : Type} (malloc_ok : allocator) (ix : path_index P) (bs src_size : Z) (tracker : fsd_block_tracker_t).
Context (dest_fs_bs src_fs_bs : Z).

(** The source file of a path: [None] until it has been looked up. *)
Abbreviation lookup := (option (option src_file_t)).

(** Where a loop of the callback leaves: at the end, or by a return. *)
Inductive leave : Type :=
| Through (sf : lookup)
| Return (stop : bool).

(** for (b = first; b < last; b++), [n] blocks left *)
Fixpoint hyp_blocks_loop (path : bytes) (e : fsd_ext_extent_t) (phys_lo : Z) (n : nat) (b : Z) (sf : lookup)
    (ctx : dest_walk_ctx_t) : outcome (leave * dest_walk_ctx_t) :=
  match n with
  | O => Ok (Through sf, ctx)
  | S n =>
      if (count tracker <=? b) || negb (fsd_block_tracker_is_unmatched tracker b)
      then hyp_blocks_loop path e phys_lo n (b + 1) sf ctx else
      found ← match sf with Some found => Ok found | None => src_file_find ix path end;
      match found with
      | None => Ok (Return false, ctx)
      | Some f =>
          let logical_byte := u64 (u64 (ex_logical e * dest_fs_bs) + (u64 (b * bs) - phys_lo)) in
          match src_map_range src_fs_bs logical_byte bs (sf_ext f) with
          | None => hyp_blocks_loop path e phys_lo n (b + 1) (Some found) ctx
          | Some src_pos =>
              if src_size <? u64 (src_pos + bs) then hyp_blocks_loop path e phys_lo n (b + 1) (Some found) ctx else
              match hyp_append malloc_ok ctx b src_pos with
              | None => Ok (Return true, mkDestWalk (dw_hyps ctx) (dw_cap_hyps ctx) true)
              | Some ctx => hyp_blocks_loop path e phys_lo n (b + 1) (Some found) ctx
              end
          end
      end
  end.

(** for (e = 0; e < n_extents; e++) *)
Fixpoint hyp_extents_loop (path : bytes) (extents : list fsd_ext_extent_t) (sf : lookup) (ctx : dest_walk_ctx_t)
  : outcome (bool * dest_walk_ctx_t) :=
  match extents with
  | [] => Ok (false, ctx)
  | e :: extents =>
      let phys_lo := u64 (ex_physical e * dest_fs_bs) in
      let phys_hi := u64 (phys_lo + u64 (ex_count e * dest_fs_bs)) in
      let first := u64 (phys_lo + bs - 1) / bs in
      let last := phys_hi / bs in
      '(r, ctx) ← hyp_blocks_loop path e phys_lo (Z.to_nat (last - first)) first sf ctx;
      match r with
      | Through sf => hyp_extents_loop path extents sf ctx
      | Return stop => Ok (stop, ctx)
      end
  end.

Definition dest_walk_cb : fsd_extfs_file_cb dest_walk_ctx_t := fun ctx path _ _ extents =>
  hyp_extents_loop path extents None ctx.

End DestWalk.

(** ** build_index *)

(** The order of hyp_cmp. *)
Definition hyp_le (a b : hypothesis_t) : Prop :=
  hy_dest_block a < hy_dest_block b ∨ (hy_dest_block a = hy_dest_block b ∧ hy_src_pos a ≤ hy_src_pos b).

#[global] Instance hyp_le_dec : RelDecision hyp_le.
Proof. unfold hyp_le. intros a b. apply _. Defined.

(** The loop with the write index [w]: an element is kept when its block differs
    from that of the last one kept. *)
Fixpoint dedup_loop (last : hypothesis_t) (l : list hypothesis_t) : list hypothesis_t :=
  match l with
  | [] => []
  | h :: l => if hy_dest_block h =? hy_dest_block last then dedup_loop last l else h :: dedup_loop h l
  end.

Definition sort_dedup (hyps : list hypothesis_t) : list hypothesis_t :=
  match merge_sort hyp_le hyps with
  | [] => []
  | h :: l => h :: dedup_loop h l
  end.

Section Stage.
Context {P : Type} {AR : Arena P}.

(** [pool] is what fsd_pool_create gives. *)
Definition fsd_fsmap_stage_build_index (malloc_ok : allocator) (pool : outcome P) (stage : fsd_fsmap_stage P)
    (src : bytes) (src_size : Z) (dest : bytes) (dest_size : Z) (tracker : fsd_block_tracker_t)
  : outcome (fsd_fsmap_stage P) :=
  let built inactive index hyps cap_hyps :=
    mkFsmap (fm_block_size stage) (fm_threshold stage) (fm_search_range stage) inactive
      (fm_cancel stage) (fm_cancel2 stage) index hyps cap_hyps src_size dest_size in
  let disabled (e : fsd_error_t) :=
    match e with
    | FSD_ERR_OUT_OF_MEMORY => Err e
    | _ => Ok (built true (fm_index stage) (fm_hyps stage) (fm_cap_hyps stage))
    end in
  let '(src_files, cap_src_files) :=
    match fm_index stage with Some ix => (pi_src_files ix, pi_cap ix) | None => ([], 0) end in
  match fsd_extfs_open malloc_ok src src_size with
  | Ok src_fs =>
      match fsd_extfs_open malloc_ok dest dest_size with
      | Ok dest_fs =>
          match pool with
          | Ok pool =>
              match fsd_hash_table_create 16384 pool with
              | (Ok path_hash, pool) =>
                  sctx ← fsd_extfs_walk malloc_ok src_fs src_walk_cb
                           (mkSrcWalk (mkIndex pool path_hash src_files cap_src_files) false);
                  if sw_oom sctx then Err FSD_ERR_OUT_OF_MEMORY else
                  let ix := sw_index sctx in
                  dctx ← fsd_extfs_walk malloc_ok dest_fs
                           (dest_walk_cb malloc_ok ix (fm_block_size stage) src_size tracker
                              (fsd_extfs_block_size (Some dest_fs)) (fsd_extfs_block_size (Some src_fs)))
                           (mkDestWalk (fm_hyps stage) (fm_cap_hyps stage) false);
                  if dw_oom dctx then Err FSD_ERR_OUT_OF_MEMORY else
                  Ok (built false (Some ix)
                        (if 1 <? zlen (dw_hyps dctx) then sort_dedup (dw_hyps dctx) else dw_hyps dctx)
                        (dw_cap_hyps dctx))
              | (Err _, _) => Err FSD_ERR_OUT_OF_MEMORY
              | (UB, _) => UB
              | (NoFuel, _) => NoFuel
              end
          | Err _ => Err FSD_ERR_OUT_OF_MEMORY
          | UB => UB
          | NoFuel => NoFuel
          end
      | Err e => disabled e
      | UB => UB
      | NoFuel => NoFuel
      end
  | Err e => disabled e
  | UB => UB
  | NoFuel => NoFuel
  end.

(** ** run *)

Section Run.
Context (stage : fsd_fsmap_stage P) (src dest : bytes) (threshold_count : Z) (count_fn : count_matches_fn).

(** The source position for a block with hypothesis [hyp_pos]; [None] is a miss. *)
Definition verify (dest_block hyp_pos : Z) : outcome (option Z) :=
  let bs := fm_block_size stage in
  best_count ← count_fn src hyp_pos dest dest_block bs;
  if best_count <? bs then
    '(off, sweep_count) ← fsd_block_search_best src (fm_src_size stage) dest dest_block bs hyp_pos
                            (- s64 (fm_search_range stage)) (s64 (fm_search_range stage)) threshold_count count_fn;
    '(src_pos, best_count) ←
      (if (best_count <? sweep_count) && negb (off =? 0) then
         cand ← chk64 (hyp_pos + off);
         if (0 <=? cand) && (u64 (cand + bs) <=? fm_src_size stage) then Ok (cand, sweep_count)
         else Ok (hyp_pos, best_count)
       else Ok (hyp_pos, best_count));
    if best_count <? threshold_count then Ok None else Ok (Some src_pos)
  else Ok (Some hyp_pos).

(** for (h = 0; h < stage->n_hyps; h++) *)
Fixpoint verify_loop (hyps : list hypothesis_t) (h : Z) (tracker : fsd_block_tracker_t) (delta_pool : P)
  : outcome (fsd_block_tracker_t * P) :=
  match hyps with
  | [] => Ok (tracker, delta_pool)
  | hyp :: hyps =>
      if (h mod CANCEL_CHECK_INTERVAL =? 0) && fsmap_cancelled stage h then Err FSD_ERR_CANCELLED else
      let dest_idx := hy_dest_block hyp in
      if negb (fsd_block_tracker_is_unmatched tracker dest_idx)
      then verify_loop hyps (h + 1) tracker delta_pool else
      pos ← verify (u64 (dest_idx * fm_block_size stage)) (s64 (hy_src_pos hyp));
      match pos with
      | None => verify_loop hyps (h + 1) tracker delta_pool
      | Some src_pos =>
          '(recorded, delta_pool) ← record_match (fm_block_size stage) src dest dest_idx src_pos tracker delta_pool;
          match recorded with
          | None => verify_loop hyps (h + 1) tracker delta_pool
          | Some tracker => verify_loop hyps (h + 1) tracker delta_pool
          end
      end
  end.
End Run.

Definition fsmap_threshold (stage : fsd_fsmap_stage P) : Z :=
  let threshold_count := scale (fm_threshold stage) (fm_block_size stage) in
  if threshold_count =? 0 then 1 else threshold_count.

Definition fsd_fsmap_stage_run (g : fsd_simd_dispatch_t) (stage : fsd_fsmap_stage P) (tracker : fsd_block_tracker_t)
    (src dest : bytes) (delta_pool : P) : outcome (fsd_block_tracker_t * P) :=
  if fm_inactive stage || (zlen (fm_hyps stage) =? 0) then Ok (tracker, delta_pool) else
  verify_loop stage src dest (fsmap_threshold stage) (fsd_block_search_count_fn g) (fm_hyps stage) 0 tracker delta_pool.

End Stage.

(** * The file table *)

Lemma path_bytes_ok path : path_ok path → bytes_ok path.
Proof. intros [Hc _ _]. revert Hc. apply List.Forall_impl. unfold is_byte. lia. Qed.

(** Every file of the table was reported by the walk of the source. *)
Definition files_ok (malloc_ok : allocator) (src_fs : fsd_extfs) (files : list src_file_t) : Prop :=
  Forall (fun f => ∃ ino, reported malloc_ok src_fs (sf_path f) ino (sf_size f) (sf_ext f)) files.

Section Index.
Context {P : Type} {AR : Arena P} {ARS : ArenaSpec P} {ARL : ArenaLaws P}.
Context (malloc_ok : allocator) (src_fs : fsd_extfs).

Record index_sound (ix : path_index P) : Prop := {
  xs_pool : arena_ok (pi_pool ix);
  xs_hash : ∃ l, table_ok (pi_path_hash ix) l;
  xs_files : files_ok malloc_ok src_fs (pi_src_files ix)
}.

Lemma arena_alloc_returns size (p : P) E :
  arena_ok p → returns (fun r => arena_ok (snd r)) E (arena_alloc (u64 size) p).
Proof.
  intros Hp. destruct (arena_alloc_ok (u64 size) p Hp) as (a & p' & -> & Hp'); [apply (wrap_range 64); lia|done].
Qed.

Lemma src_walk_cb_keeps E : cb_keeps malloc_ok src_fs (fun ctx => index_sound (sw_index ctx)) E src_walk_cb.
Proof.
  intros ctx path ino fsize exts Hi Hr. pose proof Hi as [Hp (l & Hl) Hf]. unfold src_walk_cb.
  assert (Hkeep : ∀ pool cap, arena_ok pool →
    index_sound (mkIndex pool (pi_path_hash (sw_index ctx)) (pi_src_files (sw_index ctx)) cap)).
  { intros pool cap Hpool. constructor; [done|by exists l|done]. }
  destruct (zlen exts =? 0); [done|].
  eapply (returns_bind (fun r => arena_ok (snd r))).
  { destruct (zlen (pi_src_files (sw_index ctx)) =? _); [|done].
    eapply returns_bind; [by apply arena_alloc_returns|]. by intros [v pool] Hpool. }
  intros [[grown cap] pool] Hpool. cbn [snd] in Hpool. destruct (negb grown); [by apply Hkeep|].
  eapply returns_bind; [by apply arena_alloc_returns|]. intros [pc pool1] Hpool1. cbn [snd] in Hpool1.
  eapply returns_bind; [by apply arena_alloc_returns|]. intros [ec pool2] Hpool2. cbn [snd] in Hpool2.
  destruct (_ || _); [by apply Hkeep|].
  pose proof (path_bytes_ok path (rp_path _ _ _ _ _ _ Hr)) as Hpb.
  rewrite fsd_crc32_eq by (done || pose proof (zlen_nonneg path); lia). cbn [mbind outcome_bind].
  destruct (fsd_hash_table_insert_spec (pi_path_hash (sw_index ctx)) l
    (fsd_crc32_final (crc_bits (u32 (Z.lnot 0)) (slice 0 (zlen path) path))) (zlen (pi_src_files (sw_index ctx)))
    pool2 Hl Hpool2) as (t' & p' & -> & Hp' & Ht').
  cbn. constructor; cbn; [done| |].
  - destruct Ht' as [->|Ht']; eauto.
  - apply Forall_app. split; [done|]. apply Forall_singleton. by exists ino.
Qed.

Lemma find_loop_spec files crc path chain f :
  find_loop files crc path chain = Some f → f ∈ files ∧ sf_path f = path.
Proof.
  induction chain as [|e chain IH]; cbn [find_loop]; [done|]. destruct (_ || _); [done|].
  destruct (zget files (he_block_index e)) as [f'|] eqn:Hz; [|done]. case_bool_decide as Hpath; [|done].
  intros [= <-]. split; [|done]. unfold zget in Hz. destruct (0 <=? _); [|done]. by eapply list_elem_of_lookup_2.
Qed.

Lemma src_file_find_returns ix path E :
  index_sound ix → path_ok path →
  returns (fun r => ∀ f, r = Some f → f ∈ pi_src_files ix ∧ sf_path f = path) E (src_file_find ix path).
Proof.
  intros [_ (l & Hl) _] Hp. unfold src_file_find. pose proof (path_bytes_ok path Hp).
  rewrite fsd_crc32_eq by (done || pose proof (zlen_nonneg path); lia). cbn [mbind outcome_bind].
  destruct (fsd_hash_table_lookup_spec (pi_path_hash ix) l
    (fsd_crc32_final (crc_bits (u32 (Z.lnot 0)) (slice 0 (zlen path) path))) Hl) as (chain & -> & _).
  cbn. intros f. apply find_loop_spec.
Qed.

End Index.

(** * The hypotheses *)

(** A range of a file that one extent holds, with its place in the image. *)
Definition placed (fs : fsd_extfs) (e : fsd_ext_extent_t) (logical pos len : Z) : Prop :=
  let bs := fx_block_size fs in
  ex_logical e * bs ≤ logical ∧ logical + len ≤ (ex_logical e + ex_count e) * bs ∧
  pos = ex_physical e * bs + (logical - ex_logical e * bs).

Lemma placed_inside fs e logical pos len :
  extfs_ok fs → extent_ok (fx_block_count fs) e → placed fs e logical pos len →
  0 ≤ pos ∧ pos + len ≤ fx_image_size fs.
Proof.
  intros Hfs [_ Hp Hc Hi] (H0 & H1 & ->). pose proof (block_size_range Hfs). destruct (fo_blocks _ Hfs).
  pose proof (mul_range (ex_physical e + ex_count e) (fx_block_count fs) (fx_block_size fs) (fx_block_size fs)
    ltac:(lia) ltac:(lia)). assert (0 ≤ ex_physical e * fx_block_size fs) by nia. lia.
Qed.

(** The extent's sizes in bytes do not wrap. *)
Lemma extent_bytes fs e :
  extfs_ok fs → extent_ok (fx_block_count fs) e →
  let bs := fx_block_size fs in
  0 ≤ ex_logical e * bs ≤ 2 ^ 44 ∧ 0 ≤ ex_physical e * bs ∧ 0 ≤ ex_count e * bs ∧
  ex_physical e * bs + ex_count e * bs ≤ fx_image_size fs ≤ 2 ^ 62.
Proof.
  intros Hfs [Hl Hp Hc Hi]. cbv zeta. pose proof (block_size_range Hfs). destruct (fo_blocks _ Hfs). pose proof (fo_max _ Hfs).
  set (bs := fx_block_size fs) in *.
  pose proof (mul_range (ex_physical e + ex_count e) (fx_block_count fs) bs bs ltac:(lia) ltac:(lia)).
  pose proof (mul_range (ex_logical e) (2 ^ 32) bs 4096 ltac:(lia) ltac:(lia)).
  pose proof (mul_range (ex_physical e) (ex_physical e) bs bs ltac:(lia) ltac:(lia)).
  pose proof (mul_range (ex_count e) (ex_count e) bs bs ltac:(lia) ltac:(lia)).
  lia.
Qed.

Lemma src_map_range_spec fs logical len exts pos :
  extfs_ok fs → Forall (extent_ok (fx_block_count fs)) exts → 0 ≤ logical < 2 ^ 63 → 0 ≤ len ≤ 2 ^ 24 →
  src_map_range (fx_block_size fs) logical len exts = Some pos →
  ∃ e, e ∈ exts ∧ placed fs e logical pos len.
Proof.
  intros Hfs He Hl Hlen. induction He as [|e exts He _ IH]; cbn [src_map_range]; [done|].
  destruct (extent_bytes fs e Hfs He) as (H0 & H1 & H2 & H3 & H4).
  rewrite (wrap_small 64 (ex_logical e * _)), (wrap_small 64 (ex_count e * _)), (wrap_small 64 (ex_physical e * _)),
    (wrap_small 64 (logical + len)), (wrap_small 64 (_ + ex_count e * _)) by lia.
  destruct (_ && _) eqn:Ein.
  - apply andb_prop in Ein as [Ea%Z.leb_le Eb%Z.leb_le]. rewrite wrap_small by lia. intros [= <-].
    exists e. split; [left|]. unfold placed. split_and!; [done|lia|done].
  - intros Hm. destruct (IH Hm) as (e' & ? & ?). exists e'. split; [by right|done].
Qed.

Section Hypotheses.
Context {P : Type} {AR : Arena P} {ARS : ArenaSpec P} {ARL : ArenaLaws P}.
Context {malloc_ok : allocator} {src_fs dest_fs : fsd_extfs} (Hsfs : extfs_ok src_fs) (Hdfs : extfs_ok dest_fs).
Context {ix : path_index P} (Hix : index_sound malloc_ok src_fs ix).
Context {bs : Z} (Hbs : 32 ≤ bs ≤ 2 ^ 24) {tracker : fsd_block_tracker_t}.

(** Where a hypothesis comes from: block [hy_dest_block] lies in an extent of a
    destination file, and [hy_src_pos] is where an extent of the source file of
    the same path has the same bytes of the file. *)
Definition hyp_from (files : list src_file_t) (h : hypothesis_t) : Prop :=
  ∃ ino fsize exts f e es logical,
    reported malloc_ok dest_fs (sf_path f) ino fsize exts ∧ e ∈ exts ∧ f ∈ files ∧ es ∈ sf_ext f ∧
    placed dest_fs e logical (hy_dest_block h * bs) bs ∧ placed src_fs es logical (hy_src_pos h) bs.

Record hyp_ok (h : hypothesis_t) : Prop := {
  ho_block : 0 ≤ hy_dest_block h < count tracker;
  ho_unmatched : fsd_block_tracker_is_unmatched tracker (hy_dest_block h) = true;
  ho_pos : 0 ≤ hy_src_pos h ∧ hy_src_pos h + bs ≤ fx_image_size src_fs;
  ho_from : hyp_from (pi_src_files ix) h
}.

Abbreviation hyps_ok ctx := (Forall hyp_ok (dw_hyps ctx)).

Lemma hyp_append_spec ctx b pos ctx' :
  hyps_ok ctx → hyp_ok (mkHyp b pos) → hyp_append malloc_ok ctx b pos = Some ctx' → hyps_ok ctx'.
Proof.
  intros Hc Hh. unfold hyp_append. assert (Hnew : Forall hyp_ok (dw_hyps ctx ++ [mkHyp b pos])).
  { apply Forall_app. split; [done|]. by apply Forall_singleton. }
  repeat case_match; intros [= <-]; done.
Qed.

(** The lookup, once made, is right. *)
Definition lookup_ok (path : bytes) (sf : option (option src_file_t)) : Prop :=
  ∀ f, sf = Some (Some f) → f ∈ pi_src_files ix ∧ sf_path f = path.

Definition left_ok (path : bytes) (r : leave * dest_walk_ctx_t) : Prop :=
  hyps_ok (snd r) ∧ match fst r with Through sf => lookup_ok path sf | Return _ => True end.

Section Extent.
Context {path : bytes} {ino fsize : Z} {exts : list fsd_ext_extent_t} {e : fsd_ext_extent_t}.
Context (Hrep : reported malloc_ok dest_fs path ino fsize exts) (He : e ∈ exts).

Lemma dest_extent_ok : extent_ok (fx_block_count dest_fs) e.
Proof. pose proof (rp_exts _ _ _ _ _ _ Hrep) as Hf. rewrite list.Forall_forall in Hf. auto. Qed.

(** The block in the extent, as a range of the file. *)
Lemma dest_block_placed b :
  ex_physical e * fx_block_size dest_fs ≤ b * bs →
  (b + 1) * bs ≤ (ex_physical e + ex_count e) * fx_block_size dest_fs →
  let logical := ex_logical e * fx_block_size dest_fs + (b * bs - ex_physical e * fx_block_size dest_fs) in
  placed dest_fs e logical (b * bs) bs ∧ 0 ≤ logical < 2 ^ 63 ∧
  u64 (u64 (ex_logical e * fx_block_size dest_fs) + (u64 (b * bs) - ex_physical e * fx_block_size dest_fs)) = logical.
Proof.
  intros Hlo Hhi logical. destruct (extent_bytes dest_fs e Hdfs dest_extent_ok) as (H0 & H1 & H2 & H3 & H4).
  unfold placed, logical. split_and!; [lia|lia|lia|lia|lia|].
  rewrite (wrap_small 64 (b * bs)), (wrap_small 64 (ex_logical e * _)), wrap_small by lia. done.
Qed.

Lemma hyp_blocks_loop_returns E n b sf ctx :
  hyps_ok ctx → lookup_ok path sf → 0 ≤ b →
  ex_physical e * fx_block_size dest_fs ≤ b * bs →
  (n = 0%nat ∨ (b + Z.of_nat n) * bs ≤ (ex_physical e + ex_count e) * fx_block_size dest_fs) →
  returns (left_ok path) E
    (hyp_blocks_loop malloc_ok ix bs (fx_image_size src_fs) tracker (fx_block_size dest_fs) (fx_block_size src_fs)
       path e (ex_physical e * fx_block_size dest_fs) n b sf ctx).
Proof.
  revert b sf ctx. induction n as [|n IH]; intros b sf ctx Hc Hsf Hb Hlo Hhi; cbn [hyp_blocks_loop]; [done|].
  destruct Hhi as [|Hhi]; [done|].
  assert (Hnext : ∀ sf' ctx', hyps_ok ctx' → lookup_ok path sf' →
    returns (left_ok path) E (hyp_blocks_loop malloc_ok ix bs (fx_image_size src_fs) tracker (fx_block_size dest_fs)
      (fx_block_size src_fs) path e (ex_physical e * fx_block_size dest_fs) n (b + 1) sf' ctx')).
  { intros sf' ctx' Hc' Hsf'. apply IH; [done|done|lia|lia|]. right. lia. }
  clear IH. destruct (_ || negb _) eqn:Eskip; [by apply Hnext|].
  apply orb_false_iff in Eskip as [Hcount%Z.leb_gt Hun%negb_false_iff].
  eapply (returns_bind (fun found => ∀ f, found = Some f → f ∈ pi_src_files ix ∧ sf_path f = path)).
  { destruct sf as [found|]; [intros f ->; by apply Hsf|].
    eapply src_file_find_returns; [exact Hix|]. apply (rp_path _ _ _ _ _ _ Hrep). }
  intros [f|] Hfound; [|done]. destruct (Hfound f eq_refl) as [Hf Hpath].
  assert (Hsf' : lookup_ok path (Some (Some f))) by (intros f' [= <-]; done).
  assert ((b + 1) * bs ≤ (ex_physical e + ex_count e) * fx_block_size dest_fs) by nia.
  destruct (dest_block_placed b) as (Hplaced & Hl & ->); [done|done|].
  set (logical := ex_logical e * _ + _) in *.
  assert (Hfext : Forall (extent_ok (fx_block_count src_fs)) (sf_ext f)).
  { pose proof (xs_files _ _ _ Hix) as Hfiles. unfold files_ok in Hfiles. rewrite list.Forall_forall in Hfiles.
    destruct (Hfiles f Hf) as (ino' & Hr). apply Hr. }
  destruct (src_map_range _ _ _ _) as [pos|] eqn:Hmap; [|by apply Hnext].
  apply (src_map_range_spec src_fs) in Hmap as (es & Hes & Hpl); [|done|done|done|lia].
  destruct (_ <? _); [by apply Hnext|].
  destruct (hyp_append _ _ _ _) as [ctx'|] eqn:Happ; [|done]. apply Hnext; [|done].
  eapply hyp_append_spec; [exact Hc| |exact Happ]. constructor; cbn; [lia|done| |].
  - eapply placed_inside; [done| |exact Hpl]. rewrite list.Forall_forall in Hfext. auto.
  - exists ino, fsize, exts, f, e, es, logical. rewrite Hpath. split_and!; done.
Qed.

End Extent.

Lemma hyp_extents_loop_returns E path ino fsize exts0 exts sf ctx :
  reported malloc_ok dest_fs path ino fsize exts0 → (∀ e, e ∈ exts → e ∈ exts0) → hyps_ok ctx → lookup_ok path sf →
  returns (fun r => hyps_ok (snd r)) E
    (hyp_extents_loop malloc_ok ix bs (fx_image_size src_fs) tracker (fx_block_size dest_fs) (fx_block_size src_fs)
       path exts sf ctx).
Proof.
  intros Hrep. revert sf ctx. induction exts as [|e exts IH]; intros sf ctx Hsub Hc Hsf; cbn [hyp_extents_loop]; [done|].
  assert (He : e ∈ exts0) by (apply Hsub; left).
  destruct (extent_bytes dest_fs e Hdfs (dest_extent_ok Hrep He)) as (H0 & H1 & H2 & H3 & H4).
  set (lo := ex_physical e * fx_block_size dest_fs) in *. set (sz := ex_count e * fx_block_size dest_fs) in *.
  rewrite (wrap_small 64 lo), (wrap_small 64 sz), (wrap_small 64 (lo + sz)), (wrap_small 64 (lo + bs - 1)) by lia.
  pose proof (Z.div_mod (lo + bs - 1) bs ltac:(lia)). pose proof (Z.mod_pos_bound (lo + bs - 1) bs ltac:(lia)).
  pose proof (Z.mul_div_le (lo + sz) bs ltac:(lia)).
  assert (0 ≤ (lo + bs - 1) / bs) by (apply Z.div_pos; lia).
  eapply returns_bind.
  { apply (hyp_blocks_loop_returns Hrep He); [done|done|lia|fold lo; lia|].
    destruct (decide ((lo + sz) / bs ≤ (lo + bs - 1) / bs)); [left; lia|right].
    rewrite Z2Nat.id by lia. replace ((lo + bs - 1) / bs + ((lo + sz) / bs - (lo + bs - 1) / bs)) with ((lo + sz) / bs) by lia.
    rewrite Z.mul_add_distr_r. fold lo sz. lia. }
  intros [[sf'|stop] ctx'] [Hc' Hsf']; [|done]. apply IH; [|done|done]. intros e' He'. apply Hsub. by right.
Qed.

Lemma dest_walk_cb_keeps E :
  cb_keeps malloc_ok dest_fs (fun ctx => hyps_ok ctx) E
    (dest_walk_cb malloc_ok ix bs (fx_image_size src_fs) tracker (fx_block_size dest_fs) (fx_block_size src_fs)).
Proof.
  intros ctx path ino fsize exts Hc Hr. by eapply hyp_extents_loop_returns.
Qed.

End Hypotheses.

(** ** Sorting *)

Lemma dedup_loop_sub last l h : h ∈ dedup_loop last l → h ∈ l.
Proof.
  revert last. induction l as [|x l IH]; intros last; cbn [dedup_loop]; [done|].
  destruct (_ =? _); [intros H; right; by eapply IH|]. rewrite !elem_of_cons. intros [->|H]; [by left|right; by eapply IH].
Qed.

Lemma sort_dedup_sub l h : h ∈ sort_dedup l → h ∈ l.
Proof.
  unfold sort_dedup. intros H. rewrite <- (merge_sort_Permutation hyp_le l).
  destruct (merge_sort hyp_le l) as [|x k]; [done|].
  apply elem_of_cons in H as [->|H]; [left|right]. by eapply dedup_loop_sub.
Qed.

(** The hypotheses of different blocks come in the order of the blocks. *)
Definition blocks_increase : list hypothesis_t → Prop :=
  StronglySorted (fun a b => hy_dest_block a < hy_dest_block b).

#[global] Instance hyp_le_trans : Transitive hyp_le.
Proof. unfold hyp_le. intros a b c. lia. Qed.

#[global] Instance hyp_le_total : Total hyp_le.
Proof. unfold hyp_le. intros a b. lia. Qed.

Lemma dedup_loop_increases last l :
  StronglySorted hyp_le (last :: l) → blocks_increase (last :: dedup_loop last l).
Proof.
  revert last. induction l as [|x l IH]; intros last Hs; cbn [dedup_loop]; [by repeat constructor|].
  inversion Hs as [|? ? Hxl Hall]; subst. inversion Hxl as [|? ? Hl Hx]; subst. inversion Hall as [|? ? Hlx Hll]; subst.
  destruct (Z.eqb_spec (hy_dest_block x) (hy_dest_block last)) as [He|Hne].
  - apply IH. by constructor.
  - constructor; [apply IH; by constructor|].
    assert (hy_dest_block last < hy_dest_block x) by (unfold hyp_le in Hlx; lia).
    apply Forall_cons_iff. split; [done|]. apply list.Forall_forall. intros y Hy%dedup_loop_sub.
    rewrite list.Forall_forall in Hx. specialize (Hx y Hy). unfold hyp_le in Hx. lia.
Qed.

Lemma sort_dedup_increases l : blocks_increase (sort_dedup l).
Proof.
  unfold sort_dedup. pose proof (StronglySorted_merge_sort hyp_le l) as Hs.
  destruct (merge_sort hyp_le l) as [|x k]; [constructor|]. by apply dedup_loop_increases.
Qed.

(** ** build_index *)

Section Build.
Context {P : Type} {AR : Arena P} {ARS : ArenaSpec P} {ARL : ArenaLaws P}.

(** The stage after build_index on [src]: switched off, or with sound hypotheses. *)
Record built_ok (malloc_ok : allocator) (src : bytes) (src_size : Z) (dest : bytes) (dest_size : Z)
    (tracker : fsd_block_tracker_t) (stage stage' : fsd_fsmap_stage P) : Prop := {
  bo_block_size : fm_block_size stage' = fm_block_size stage;
  bo_threshold : fm_threshold stage' = fm_threshold stage;
  bo_range : fm_search_range stage' = fm_search_range stage;
  bo_cancel : fm_cancel stage' = fm_cancel stage;
  bo_cancel2 : fm_cancel2 stage' = fm_cancel2 stage;
  bo_src_size : fm_src_size stage' = src_size;
  bo_active : fm_inactive stage' = true ∨
    ∃ src_fs dest_fs ix, fsd_extfs_open malloc_ok src src_size = Ok src_fs ∧
      fsd_extfs_open malloc_ok dest dest_size = Ok dest_fs ∧ fx_image_size src_fs = src_size ∧
      files_ok malloc_ok src_fs (pi_src_files ix) ∧ fm_index stage' = Some ix ∧
      Forall (hyp_ok (malloc_ok := malloc_ok) (src_fs := src_fs) (dest_fs := dest_fs) (ix := ix)
                (bs := fm_block_size stage) (tracker := tracker)) (fm_hyps stage') ∧
      blocks_increase (fm_hyps stage')
}.

Lemma fsmap_build_index_returns malloc_ok pool stage src src_size dest dest_size tracker :
  bytes_ok src → src_size ≤ zlen src → src_size ≤ 2 ^ 62 →
  bytes_ok dest → dest_size ≤ zlen dest → dest_size ≤ 2 ^ 62 →
  32 ≤ fm_block_size stage ≤ 2 ^ 24 → fm_index stage = None → fm_hyps stage = [] →
  returns arena_ok (fun _ => True) pool →
  returns (built_ok malloc_ok src src_size dest dest_size tracker stage) oom
    (fsd_fsmap_stage_build_index malloc_ok pool stage src src_size dest dest_size tracker).
Proof.
  intros Hs Hsl Hsm Hd Hdl Hdm Hbs Hni Hnh Hpool. unfold fsd_fsmap_stage_build_index. rewrite Hni, Hnh.
  assert (Hoff : built_ok malloc_ok src src_size dest dest_size tracker stage (mkFsmap (fm_block_size stage) (fm_threshold stage)
    (fm_search_range stage) true (fm_cancel stage) (fm_cancel2 stage) None [] (fm_cap_hyps stage) src_size dest_size))
    by (constructor; auto).
  pose proof (fsd_extfs_open_returns malloc_ok src src_size Hs Hsl Hsm) as Hso.
  destruct (fsd_extfs_open malloc_ok src src_size) as [src_fs|es| |] eqn:Hsopen; [|by destruct Hso as [->|[->| ->]]|done|done].
  destruct Hso as (Hsfs & _ & Hss).
  pose proof (fsd_extfs_open_returns malloc_ok dest dest_size Hd Hdl Hdm) as Hdo.
  destruct (fsd_extfs_open malloc_ok dest dest_size) as [dest_fs|ed| |] eqn:Hdopen; [|by destruct Hdo as [->|[->| ->]]|done|done].
  destruct Hdo as (Hdfs & _ & Hds).
  destruct pool as [pool|ep| |]; [|done|done|done]. cbn in Hpool.
  destruct (fsd_hash_table_create_spec 16384 pool ltac:(lia) Hpool) as (p1 & Hp1 & [->|(t & k & -> & Ht & _)]); [done|].
  eapply returns_bind.
  { apply (fsd_extfs_walk_returns (I := fun ctx => index_sound malloc_ok src_fs (sw_index ctx)) (E := oom) Hsfs malloc_ok (or_introl eq_refl)).
    - apply src_walk_cb_keeps.
    - constructor; [done|by exists []|by apply Forall_nil]. }
  intros sctx Hix. destruct (sw_oom sctx); [done|].
  eapply returns_bind.
  { rewrite <- Hss.
    apply (fsd_extfs_walk_returns (I := fun ctx => Forall (hyp_ok (malloc_ok := malloc_ok) (src_fs := src_fs)
      (dest_fs := dest_fs) (ix := sw_index sctx) (bs := fm_block_size stage) (tracker := tracker)) (dw_hyps ctx))
      (E := oom) Hdfs malloc_ok (or_introl eq_refl)).
    - by apply dest_walk_cb_keeps.
    - by apply Forall_nil. }
  intros dctx Hh. destruct (dw_oom dctx); [done|]. constructor; cbn; try done. right.
  exists src_fs, dest_fs, (sw_index sctx). split_and!; try done; [apply Hix| |].
  - destruct (1 <? _); [|done]. apply list.Forall_forall. intros h Hin%sort_dedup_sub.
    rewrite list.Forall_forall in Hh. auto.
  - destruct (Z.ltb_spec 1 (zlen (dw_hyps dctx))); [apply sort_dedup_increases|].
    destruct (dw_hyps dctx) as [|x [|y l]]; [constructor|by repeat constructor|]. rewrite !zlen_cons in *.
    pose proof (zlen_nonneg l). lia.
Qed.

End Build.

(** * Verifying *)

Section Verify.
Context {P : Type} {AR : Arena P} {ARS : ArenaSpec P} {ARL : ArenaLaws P}.
Context {stage : fsd_fsmap_stage P} {dbs : Z} {src dest : bytes} {thr : Z} {f : count_matches_fn}.
Abbreviation bs := (fm_block_size stage).
Abbreviation src_size := (fm_src_size stage).
Abbreviation range := (s64 (fm_search_range stage)).
Context (Hf : count_fn_ok f) (Him : images bs dbs src dest).
Context (Hss : 0 ≤ src_size ≤ zlen src) (Hthr : 0 < thr ≤ bs) (Hrange : 0 ≤ range ≤ 2 ^ 56).

Lemma verify_spec i pos :
  0 ≤ i < dbs → 0 ≤ pos → pos + bs ≤ src_size →
  ∃ r, verify stage src dest thr f (i * bs) pos = Ok r ∧
    ∀ q, r = Some q → (0 ≤ q ∧ q + bs ≤ src_size) ∧ thr ≤ count_eq (slice q bs src) (slice (i * bs) bs dest).
Proof.
  intros Hi H0 H1. destruct (dest_block_range Him Hthr Hrange i Hi) as (Hd0 & Hd1 & Hd2).
  pose proof (im_size _ _ _ _ Him). pose proof (im_src _ _ _ _ Him). unfold verify.
  rewrite Hf by (try apply Him; lia). cbn [mbind outcome_bind].
  set (score q := count_eq (slice q bs src) (slice (i * bs) bs dest)). fold (score pos).
  destruct (Z.ltb_spec (score pos) bs) as [Hlt|Hge].
  2:{ eexists. split; [reflexivity|]. intros q [= <-]. fold (score pos). lia. }
  destruct (fsd_block_search_best_spec (src := src) (src_size := src_size) (dest := dest) (dpos := i * bs) (bs := bs)
    (center := pos) (threshold := thr) (f := f) Hf (im_src_ok _ _ _ _ Him) (im_dest_ok _ _ _ _ Him)
    ltac:(lia) Hd0 Hd1 Hss (im_src _ _ _ _ Him) (- range) range Hthr) as (off & cnt & -> & [Hfound _]).
  1-3: unfold INT64_MIN, INT64_MAX; lia.
  cbn [mbind outcome_bind].
  assert (Hoff : - 2 ^ 56 - 1 ≤ off ≤ 2 ^ 56) by (destruct Hfound as [[-> _]|(? & _)]; lia).
  assert (Hhyp : ∃ r, (if score pos <? thr then Ok None else Ok (Some pos)) = Ok r ∧
    ∀ q, r = Some q → (0 ≤ q ∧ q + bs ≤ src_size) ∧ thr ≤ score q).
  { destruct (Z.ltb_spec (score pos) thr); eexists; (split; [reflexivity|]); [done|]. intros q [= <-]. lia. }
  destruct (_ && _) eqn:Ebest; [|exact Hhyp].
  rewrite chk64_ok by (unfold INT64_MIN, INT64_MAX; lia). cbn [mbind outcome_bind].
  destruct ((0 <=? pos + off) && _) eqn:Ein; [|exact Hhyp]. cbn [mbind outcome_bind].
  destruct (Z.ltb_spec cnt thr); eexists; (split; [reflexivity|]); [done|]. intros q [= <-].
  destruct Hfound as [[_ ->]|(_ & [? ?] & -> & _)]; [lia|]. split; [lia|done].
Qed.

Lemma verify_loop_returns t0 hyps h t p :
  Forall (fun h => 0 ≤ hy_dest_block h < dbs ∧ 0 ≤ hy_src_pos h ∧ hy_src_pos h + bs ≤ src_size) hyps →
  partialing (bs := bs) (dbs := dbs) (src := src) (dest := dest) (thr := thr) t0 t → arena_ok p →
  returns (fun r => partialing (bs := bs) (dbs := dbs) (src := src) (dest := dest) (thr := thr) t0 (fst r) ∧
      arena_ok (snd r)) (fun e => e = FSD_ERR_CANCELLED ∧ ∃ h, fsmap_cancelled stage h = true)
    (verify_loop stage src dest thr f hyps h t p).
Proof.
  intros Hh. revert h t p. induction Hh as [|[i pos] hyps (Hi & H0 & H1) _ IH]; intros h t p Hp Ha;
    cbn [verify_loop]; [done|]. cbn [hy_dest_block hy_src_pos] in *.
  pose proof (im_size _ _ _ _ Him). pose proof (im_src _ _ _ _ Him).
  destruct (_ && fsmap_cancelled stage h) eqn:Ec; [apply andb_prop in Ec as [_ Ec]; split; [done|by exists h]|]. clear Ec.
  destruct (matching_get t i (pg_matching _ _ Hp) Hi) as (s & _ & Hs & ->).
  destruct (is_none s) eqn:En; cbn [negb]; [|by apply IH].
  unfold is_none in En. apply bool_decide_eq_true in En.
  destruct (dest_block_range Him Hthr Hrange i Hi) as (Hd0 & Hd1 & Hd2).
  rewrite wrap_small by lia. rewrite sgn_small by lia.
  destruct (verify_spec i pos Hi H0 H1) as (r & -> & Hr). cbn [mbind outcome_bind].
  destruct r as [q|]; [|by apply IH]. destruct (Hr q eq_refl) as [Hq Hc].
  destruct (record_match_spec Him Hss Hthr Hrange t i q s p (pg_matching _ _ Hp) Hi Hq Ha Hs En) as (rec & p' & -> & Hp' & Hrec).
  cbn [mbind outcome_bind]. destruct rec as [t'|]; [|by apply IH].
  apply IH; [|done]. by eapply (partialing_step Him Hss Hthr Hrange).
Qed.

End Verify.

(** The stage as the controller makes it. *)
Lemma fsmap_stage_ready {P} malloc_ok bs thr radius (st : fsd_fsmap_stage P) c1 c2 :
  0 < bs ≤ 2 ^ 24 → radius < 2 ^ 31 → fsd_fsmap_stage_create malloc_ok bs thr radius = Ok st →
  let st := fsd_fsmap_stage_set_cancel st c1 c2 in
  fm_block_size st = bs ∧ fm_index st = None ∧ fm_hyps st = [] ∧ fm_cancel st = c1 ∧ fm_cancel2 st = c2 ∧
  0 < fsmap_threshold st ≤ bs ∧ 0 ≤ s64 (fm_search_range st) ≤ 2 ^ 56.
Proof.
  intros Hbs Hrad. unfold fsd_fsmap_stage_create. destruct (bs =? 0); [done|]. destruct (negb _); [done|].
  set (th := if _ && _ then thr else half). set (rad := if radius <=? 0 then _ else radius).
  assert (Hrad' : 0 < rad < 2 ^ 31).
  { unfold rad, DEFAULT_SEARCH_RADIUS_BLOCKS. destruct (Z.leb_spec radius 0); lia. }
  assert (Hth : 0 < fl_mant th < 2 ^ fl_exp th).
  { unfold th. destruct (_ && _) eqn:E; [|done]. apply andb_prop in E as [?%Z.ltb_lt ?%Z.ltb_lt]. lia. }
  intros [= <-]. unfold fsd_fsmap_stage_set_cancel, fsmap_threshold.
  cbn [fm_threshold fm_block_size fm_search_range fm_index fm_hyps fm_cancel fm_cancel2].
  pose proof (scale_lt th bs Hth ltac:(lia)). pose proof (mul_range rad (2 ^ 31) bs (2 ^ 24) ltac:(lia) ltac:(lia)).
  cbv zeta. destruct (Z.eqb_spec (scale th bs) 0); rewrite wrap_small, sgn_small by lia; split_and!; try done; lia.
Qed.

Section Sound.
Context {P : Type} {AR : Arena P} {ARS : ArenaSpec P} {ARL : ArenaLaws P}.
Context {g : fsd_simd_dispatch_t} (Hg : simd_ok g) {malloc_ok : allocator}.
Context {bs dbs : Z} {src dest : bytes} (Him : images bs dbs src dest).
Context {thr : dyadic} {radius : Z} (Hrad : radius < 2 ^ 31).
Context {st0 : fsd_fsmap_stage P} (Hst : fsd_fsmap_stage_create malloc_ok bs thr radius = Ok st0).
Context (c1 c2 : option flag).

Let st := fsd_fsmap_stage_set_cancel st0 c1 c2.

Lemma images_dest_max : zlen dest ≤ 2 ^ 62.
Proof. destruct Him as [Hs Hb Hd _ _ _]. rewrite Hd. nia. Qed.

Lemma fsmap_build_spec pool t0 :
  returns arena_ok (fun _ => True) pool →
  returns (built_ok malloc_ok src (zlen src) dest (zlen dest) t0 st) oom
    (fsd_fsmap_stage_build_index malloc_ok pool st src (zlen src) dest (zlen dest) t0).
Proof.
  intros Hpool. pose proof images_dest_max. pose proof (im_size _ _ _ _ Him).
  destruct (fsmap_stage_ready malloc_ok bs thr radius st0 c1 c2 ltac:(lia) Hrad Hst) as (Hb & Hi & Hh & _).
  apply fsmap_build_index_returns; try done; try apply Him; unfold st; lia.
Qed.

Lemma fsmap_run_spec t0 st' p :
  matching bs dbs src dest t0 → arena_ok p →
  built_ok malloc_ok src (zlen src) dest (zlen dest) t0 st st' →
  returns (fun r => partialing (bs := bs) (dbs := dbs) (src := src) (dest := dest) (thr := fsmap_threshold st) t0 (fst r) ∧
      arena_ok (snd r)) (fun e => e = FSD_ERR_CANCELLED ∧ ∃ h, fsmap_cancelled st h = true)
    (fsd_fsmap_stage_run g st' t0 src dest p).
Proof.
  intros Hm Hp Hbuilt. pose proof (im_size _ _ _ _ Him).
  destruct (fsmap_stage_ready malloc_ok bs thr radius st0 c1 c2 ltac:(lia) Hrad Hst) as (Hb & _ & _ & _ & _ & Hth & Hr).
  fold st in Hb, Hth, Hr. destruct Hbuilt as [Eb Et Er Ec1 Ec2 Es Hact].
  assert (Hcan : ∀ h, fsmap_cancelled st' h = fsmap_cancelled st h) by (intros h; unfold fsmap_cancelled; by rewrite Ec1, Ec2).
  assert (Hid : partialing (bs := bs) (dbs := dbs) (src := src) (dest := dest) (thr := fsmap_threshold st) t0 t0).
  { constructor; [done|]. intros j s Hj. exists s. split; [done|by left]. }
  unfold fsd_fsmap_stage_run. destruct (fm_inactive st') eqn:Ein; [done|]. cbn [orb]. destruct (_ =? 0); [done|].
  destruct Hact as [|(src_fs & dest_fs & ix & _ & _ & Hsz & _ & _ & Hhyps & _)]; [done|].
  assert (Hthr : fsmap_threshold st' = fsmap_threshold st) by (unfold fsmap_threshold; by rewrite Et, Eb). rewrite Hthr.
  assert (Eb' : fm_block_size st' = bs) by congruence. rewrite <- Eb' in Him, Hm, Hid, Hth |- *.
  eapply returns_mono; [apply (verify_loop_returns (dbs := dbs)) with (t0 := t0); try done|..].
  - by apply search_count_fn_ok.
  - rewrite Es. pose proof (zlen_nonneg src). lia.
  - by rewrite Er.
  - revert Hhyps. apply List.Forall_impl. intros h [Hblk _ Hpos _]. rewrite Es.
    rewrite (ts_count _ _ _ _ _ (proj2 Hm)) in Hblk. rewrite Hsz in Hpos. rewrite Eb. lia.
  - intros a Ha. exact Ha.
  - intros e [He [h Hc]]. split; [done|]. exists h. by rewrite <- Hcan.
Qed.

End Sound.

(** * Properties *)

(** C19: the filesystem stage, created with any threshold and radius, on any two
    images and a truthful tracker, whatever the allocations and the cancel flags
    do: building the index either runs out of memory or succeeds, and running it
    finishes, or is cancelled when one of the flags was set, without an access outside the images and without
    overflow.  A run changes no block that was matched before, keeps the tracker
    truthful, and matches an unmatched block only to a place of the source that
    shares at least the threshold number of bytes with it. *)
Theorem fsmap_stage_sound {P} `{ARL : ArenaLaws P} g malloc_ok bs dbs src dest thr radius
    (st0 : fsd_fsmap_stage P) c1 c2 (pool : outcome P) t0 (p : P) :
  simd_ok g → images bs dbs src dest → radius < 2 ^ 31 →
  fsd_fsmap_stage_create malloc_ok bs thr radius = Ok st0 →
  matching bs dbs src dest t0 → returns arena_ok (fun _ => True) pool → arena_ok p →
  let st := fsd_fsmap_stage_set_cancel st0 c1 c2 in
  match fsd_fsmap_stage_build_index malloc_ok pool st src (zlen src) dest (zlen dest) t0 with
  | Ok st' =>
      match fsd_fsmap_stage_run g st' t0 src dest p with
      | Ok (t, _) =>
          matching bs dbs src dest t ∧ keeps_matches t0 t ∧ 1 ≤ fsmap_threshold st ≤ bs ∧
          ∀ i s, 0 ≤ i < dbs → fsd_block_tracker_get t0 i = Some s → match_type s = FSD_MATCH_NONE →
            ∃ s', fsd_block_tracker_get t i = Some s' ∧
              (s' = s ∨ match_type s' = FSD_MATCH_PARTIAL ∧
               fsmap_threshold st ≤ count_eq (slice (src_index s' * bs + byte_offset s') bs src)
                                             (slice (i * bs) bs dest))
      | Err e => e = FSD_ERR_CANCELLED ∧ ∃ h, fsmap_cancelled st h = true
      | _ => False
      end
  | Err e => e = FSD_ERR_OUT_OF_MEMORY
  | _ => False
  end.
Proof.
  intros Hg Him Hrad Hst Hm Hpool Hp st. pose proof (im_size _ _ _ _ Him).
  pose proof (fsmap_build_spec Him Hrad Hst c1 c2 pool t0 Hpool) as Hb. fold st in Hb.
  destruct (fsd_fsmap_stage_build_index _ _ _ _ _ _ _ _) as [st'|e| |]; [|done|done|done].
  pose proof (fsmap_run_spec Hg Him Hrad Hst c1 c2 t0 st' p Hm Hp Hb) as Hr. fold st in Hr.
  destruct (fsd_fsmap_stage_run g st' t0 src dest p) as [[t p']|e| |]; [|done|done|done].
  destruct Hr as [[Hm' Hblk] _]. cbn [fst] in Hm', Hblk.
  destruct (fsmap_stage_ready malloc_ok bs thr radius st0 c1 c2 ltac:(lia) Hrad Hst) as (_ & _ & _ & _ & _ & Hth & _).
  fold st in Hth. split_and!; [done| |lia|lia|].
  - intros j s Hj Hn. destruct (Hblk j s Hj) as (s' & Hs' & [->|[? _]]); [done|congruence].
  - intros i s Hi Hget Hn. destruct (matching_get t0 i Hm Hi) as (s0 & Hget0 & Hs0 & _).
    rewrite Hget in Hget0. injection Hget0 as <-.
    destruct (matching_get t i Hm' Hi) as (s1 & Hget1 & Hs1 & _).
    destruct (Hblk _ _ Hs0) as (s' & Hs' & Hcase). rewrite Hs1 in Hs'. injection Hs' as ->.
    exists s'. split; [done|]. destruct Hcase as [->|(_ & Hc & _ & Hcnt)]; [by left|right].
    by rewrite Z2Nat.id in Hcnt by lia.
Qed.

(** C20: every hypothesis of a built index is about a block that is still
    unmatched, and rests on a file that has the same path in both filesystems:
    the block lies in an extent of the destination's inode, and the source
    position is where an extent of the source's inode keeps the same bytes of the
    file.  There is at most one hypothesis per block, in the order of the blocks. *)
Theorem fsmap_hypotheses_from_files {P} `{ARL : ArenaLaws P} malloc_ok bs dbs src dest thr radius
    (st0 st' : fsd_fsmap_stage P) c1 c2 (pool : outcome P) t0 :
  images bs dbs src dest → radius < 2 ^ 31 → fsd_fsmap_stage_create malloc_ok bs thr radius = Ok st0 →
  returns arena_ok (fun _ => True) pool →
  fsd_fsmap_stage_build_index malloc_ok pool (fsd_fsmap_stage_set_cancel st0 c1 c2)
    src (zlen src) dest (zlen dest) t0 = Ok st' →
  fm_inactive st' = false →
  ∃ src_fs dest_fs,
    fsd_extfs_open malloc_ok src (zlen src) = Ok src_fs ∧ fsd_extfs_open malloc_ok dest (zlen dest) = Ok dest_fs ∧
    StronglySorted (fun a b => hy_dest_block a < hy_dest_block b) (fm_hyps st') ∧
    ∀ h, h ∈ fm_hyps st' →
      fsd_block_tracker_is_unmatched t0 (hy_dest_block h) = true ∧
      ∃ path ino fsize exts ino' fsize' exts' e e' logical,
        reported malloc_ok dest_fs path ino fsize exts ∧ reported malloc_ok src_fs path ino' fsize' exts' ∧
        e ∈ exts ∧ e' ∈ exts' ∧
        placed dest_fs e logical (hy_dest_block h * bs) bs ∧ placed src_fs e' logical (hy_src_pos h) bs.
Proof.
  intros Him Hrad Hst Hpool Hb Hact. pose proof (im_size _ _ _ _ Him).
  pose proof (fsmap_build_spec Him Hrad Hst c1 c2 pool t0 Hpool) as Hr. rewrite Hb in Hr.
  destruct Hr as [_ _ _ _ _ _ [Hr|(src_fs & dest_fs & ix & Hs & Hd & _ & Hfiles & _ & Hh & Hinc)]]; [congruence|].
  destruct (fsmap_stage_ready malloc_ok bs thr radius st0 c1 c2 ltac:(lia) Hrad Hst) as (Hbs & _). rewrite Hbs in Hh.
  exists src_fs, dest_fs. split_and!; [done|done|done|]. intros h Hin.
  rewrite list.Forall_forall in Hh. destruct (Hh h Hin) as [_ Hun _ (ino & fsize & exts & f & e & es & lg & Hr & He & Hf & Hes & P1 & P2)].
  split; [done|]. unfold files_ok in Hfiles. rewrite list.Forall_forall in Hfiles. destruct (Hfiles f Hf) as (ino' & Hr').
  exists (sf_path f), ino, fsize, exts, ino', (sf_size f), (sf_ext f), e, es, lg. done.
Qed.

(** ** Two filesystems with the same files *)

Definition fs_src : bytes := demo_fs (fill 1024 7).
Definition fs_dest : bytes := blit 0 [1] fs_src.

Lemma fs_images : images 1024 6 fs_src fs_dest.
Proof. constructor; try lia; try (apply bytes_okb; vm_compute; reflexivity); vm_compute; congruence. Qed.

Definition fs_tracker : fsd_block_tracker_t :=
  match fsd_block_tracker_create (fun _ => true) 6 1024 with
  | Ok t => t
  | _ => mkTracker [] 0 0 [] 0 0 0 0 0 0 0
  end.

Lemma fs_tracker_matching : matching 1024 6 fs_src fs_dest fs_tracker.
Proof.
  destruct (created_matching (fun _ => true) 1024 6 fs_src fs_dest fs_tracker fs_images) as [Hm _]; [|exact Hm].
  reflexivity.
Qed.

Definition fs_stage : fsd_fsmap_stage (fsd_memory_pool_t * @world bump) :=
  mkFsmap 1024 half 1024 true None None None [] 0 0 0.

Definition fs_built : fsd_fsmap_stage (fsd_memory_pool_t * @world bump) :=
  from_ok fs_stage
    (fsd_fsmap_stage_build_index (fun _ => true) (Ok demo_pool) fs_stage fs_src (zlen fs_src) fs_dest (zlen fs_dest)
       fs_tracker).

Lemma fs_stage_created : fsd_fsmap_stage_create (fun _ => true) 1024 half 1 = Ok fs_stage.
Proof. reflexivity. Qed.

Lemma fsmap_hypotheses_from_files_witness :
  fm_hyps fs_built = [mkHyp 5 5120] ∧
  ∃ src_fs dest_fs, fsd_extfs_open (fun _ => true) fs_src (zlen fs_src) = Ok src_fs ∧
    fsd_extfs_open (fun _ => true) fs_dest (zlen fs_dest) = Ok dest_fs.
Proof.
  split; [vm_compute; reflexivity|].
  destruct (fsmap_hypotheses_from_files (fun _ => true) 1024 6 fs_src fs_dest half 1 fs_stage fs_built None None
    (Ok demo_pool) fs_tracker) as (src_fs & dest_fs & Hs & Hd & _).
  - exact fs_images.
  - lia.
  - exact fs_stage_created.
  - exact demo_pool_ok.
  - apply is_ok_true. vm_compute. reflexivity.
  - vm_compute. reflexivity.
  - exists src_fs, dest_fs. split; [exact Hs|exact Hd].
Defined.

Lemma fsmap_stage_sound_witness :
  match fsd_fsmap_stage_run setup_scalar_dispatch fs_built fs_tracker fs_src fs_dest demo_pool with
  | Ok (t, _) => matching 1024 6 fs_src fs_dest t ∧ partial_count t = 1
  | _ => False
  end.
Proof.
  pose proof (fsmap_stage_sound setup_scalar_dispatch (fun _ => true) 1024 6 fs_src fs_dest half 1 fs_stage None None
    (Ok demo_pool) fs_tracker demo_pool scalar_ok fs_images ltac:(lia) fs_stage_created fs_tracker_matching
    demo_pool_ok demo_pool_ok) as H.
  cbv zeta in H.
  assert (Hb : fsd_fsmap_stage_build_index (fun _ => true) (Ok demo_pool) (fsd_fsmap_stage_set_cancel fs_stage None None)
    fs_src (zlen fs_src) fs_dest (zlen fs_dest) fs_tracker = Ok fs_built)
    by (apply is_ok_true; vm_compute; reflexivity).
  rewrite Hb in H.
  assert (Hc : match fsd_fsmap_stage_run setup_scalar_dispatch fs_built fs_tracker fs_src fs_dest demo_pool with
    Ok (t, _) => partial_count t | _ => 0 end = 1) by (vm_compute; reflexivity).
  destruct (fsd_fsmap_stage_run setup_scalar_dispatch fs_built fs_tracker fs_src fs_dest demo_pool) as [[t p]|e| |].
  - split; [apply H|exact Hc].
  - discriminate Hc.
  - exact H.
  - exact H.
Defined.
