(* ===== verification/FsmapBudget.v ===== *)
(** The memory of the filesystem stage's index.

    How much build_index asks of its pool depends on the files of the source image:
    [fsmap_tally] adds the requests up in a walk of its own.  With a pool that has
    room for them, the index is never given up for want of memory
    ([fsmap_build_served]): the table is created, the walk of the source (in step
    with the tally, WalkSim.v) ends with the out-of-memory flag clear, and so does
    that of the destination. *)

From stdpp Require Import base list numbers tactics.
From Stdlib Require Import ZArith Lia.
From S2P Require Import Prelude Crc32 MemoryPool HashTable Budget Tracker Patch Matches ExtReader WalkSim StageFsmap.
Open Scope Z_scope.

(** * The requests of the source walk *)

(** The files, the capacity of their table, the bytes asked for and the requests. *)
Record tally := mkTally { tl_files : Z; tl_cap : Z; tl_bytes : Z; tl_requests : Z }.

Definition grown_cap (cap : Z) : Z := if cap =? 0 then 1024 else cap * 2.

(** A file's path, its extents and its entry of the table, and with a full file
    table a larger one. *)
Definition tally_file : fsd_extfs_file_cb tally := fun d path _ _ extents =>
  if zlen extents =? 0 then Ok (false, d) else
  let file := (zlen path + 1 + 7) + (zlen extents * sizeof_extent + 7) + (sizeof_entry + 7) in
  Ok (false,
      if tl_files d =? tl_cap d
      then let cap := grown_cap (tl_cap d) in
           mkTally (tl_files d + 1) cap (tl_bytes d + (cap * sizeof_src_file + 7) + file) (tl_requests d + 4)
      else mkTally (tl_files d + 1) (tl_cap d) (tl_bytes d + file) (tl_requests d + 3)).

Definition fsmap_tally (malloc_ok : allocator) (src : bytes) : outcome tally :=
  fs ← fsd_extfs_open malloc_ok src (zlen src);
  fsd_extfs_walk malloc_ok fs tally_file (mkTally 0 0 0 0).

Lemma tally_file_grows d path ino size exts r :
  0 ≤ tl_cap d → tally_file d path ino size exts = Ok r →
  tl_bytes d ≤ tl_bytes (snd r) ∧ tl_requests d ≤ tl_requests (snd r) ∧ 0 ≤ tl_cap (snd r).
Proof.
  intros Hc. unfold tally_file, grown_cap, sizeof_src_file, sizeof_extent, sizeof_entry.
  pose proof (zlen_nonneg path). pose proof (zlen_nonneg exts).
  destruct (zlen exts =? 0); [intros [= <-]; cbn; lia|].
  destruct (tl_files d =? tl_cap d); intros [= <-]; cbn; [|lia].
  destruct (Z.eqb_spec (tl_cap d) 0); lia.
Qed.

Section Source.
Context {P : Type} {AR : Arena P} {ARS : ArenaSpec P} {ARL : ArenaLaws P} {AB : ArenaBudget P} {ABL : ArenaBudgetLaws P}.
Context (n r : Z).

(** The walk so far has been served, with room for what is left of [n] bytes in [r]
    requests. *)
Record served (d : tally) (ctx : src_walk_ctx_t P) : Prop := {
  sv_files : tl_files d = zlen (pi_src_files (sw_index ctx));
  sv_cap : tl_cap d = pi_cap (sw_index ctx) ∧ 0 ≤ tl_cap d;
  sv_oom : sw_oom ctx = false;
  sv_room : arena_room (n - tl_bytes d) (r - tl_requests d) (pi_pool (sw_index ctx))
}.

(** The tally exceeds what there is. *)
Definition exceeded (d : tally) : Prop := 0 ≤ tl_cap d ∧ (n < tl_bytes d ∨ r < tl_requests d).

Lemma arena_served m k size (p : P) x q :
  arena_room m k p → 0 < size → size + 7 ≤ m → 1 ≤ k → arena_alloc (u64 size) p = Ok (x, q) →
  x ≠ 0 ∧ arena_room (m - (size + 7)) (k - 1) q.
Proof.
  intros Hp Hs Hm Hk. destruct (arena_room_ok _ _ _ Hp) as (_ & Hr & _). rewrite wrap_small by lia.
  destruct (arena_room_alloc m k p size Hp Hs Hm Hk) as (a & p' & -> & Ha & Hp'). by intros [= <- <-].
Qed.

(** The three requests of a file. *)
Lemma file_served m k (pool : P) t files cap path fsize exts oomf res :
  arena_room m k pool → 0 < zlen exts → 3 ≤ k →
  (zlen path + 1 + 7) + (zlen exts * sizeof_extent + 7) + (sizeof_entry + 7) ≤ m →
  ('(path_copy, pool) ← arena_alloc (u64 (zlen path + 1)) pool;
   '(ext_copy, pool) ← arena_alloc (u64 (zlen exts * sizeof_extent)) pool;
   if (path_copy =? 0) || (ext_copy =? 0)
   then Ok (true, mkSrcWalk (mkIndex pool t files cap) true) else
   crc ← fsd_crc32 path (zlen path);
   '(path_hash, pool) ← fsd_hash_table_insert t crc (zlen files) pool;
   Ok (false, mkSrcWalk (mkIndex pool path_hash (files ++ [mkSrcFile path fsize exts]) cap) oomf)) = Ok res →
  ∃ t' pool', res = (false, mkSrcWalk (mkIndex pool' t' (files ++ [mkSrcFile path fsize exts]) cap) oomf) ∧
    arena_room (m - ((zlen path + 1 + 7) + (zlen exts * sizeof_extent + 7) + (sizeof_entry + 7))) (k - 3) pool'.
Proof.
  intros Hp He Hk Hm. pose proof (zlen_nonneg path). unfold sizeof_extent, sizeof_entry in *.
  intros ([a1 p1] & E1 & H1)%bind_Ok_inv. apply bind_Ok_inv in H1 as ([a2 p2] & E2 & H2).
  apply (arena_served m k) in E1 as [Ha1 Hp1]; [|done|lia|lia|lia].
  apply (arena_served _ _ _ _ _ _ Hp1) in E2 as [Ha2 Hp2]; [|lia|lia|lia].
  destruct (Z.eqb_spec a1 0) as [|_]; [done|]. destruct (Z.eqb_spec a2 0) as [|_]; [done|]. cbn [orb] in H2.
  apply bind_Ok_inv in H2 as (crc & _ & H2). apply bind_Ok_inv in H2 as ([t' p3] & E3 & [= <-]).
  eapply hash_table_insert_room in E3; [|exact Hp2|unfold sizeof_entry; lia|lia]. unfold sizeof_entry in E3.
  exists t', p3. split; [done|]. replace (k - 3) with (k - 1 - 1 - 1) by lia.
  by replace (m - _) with (m - (zlen path + 1 + 7) - (zlen exts * 24 + 7) - (24 + 7)) by lia.
Qed.

Lemma src_walk_step d ctx path ino size exts s s' :
  served d ctx → tally_file d path ino size exts = Ok s → src_walk_cb ctx path ino size exts = Ok s' →
  exceeded (snd s) ∨ fst s = fst s' ∧ served (snd s) (snd s').
Proof.
  intros [Hfi [Hca Hc0] Hoo Hro] Hd Hs. pose proof (zlen_nonneg exts). pose proof (zlen_nonneg path).
  destruct (tally_file_grows _ _ _ _ _ _ Hc0 Hd) as (_ & _ & Hc1).
  destruct (decide (exceeded (snd s))) as [|Hex]; [by left|right].
  assert (Hex' : tl_bytes (snd s) ≤ n ∧ tl_requests (snd s) ≤ r) by (unfold exceeded in Hex; lia). clear Hex.
  unfold tally_file in Hd. unfold src_walk_cb in Hs. destruct (Z.eqb_spec (zlen exts) 0) as [|He].
  { injection Hd as <-. injection Hs as <-. by split. }
  rewrite <- Hca, <- Hfi, Hoo in Hs. destruct (Z.eqb_spec (tl_files d) (tl_cap d)) as [Hfull|_]; injection Hd as <-;
    cbn [fst snd tl_bytes tl_requests] in *.
  - set (cap := grown_cap (tl_cap d)) in *. destruct (arena_room_ok _ _ _ Hro) as (_ & Hn & _).
    assert (Hcap : 0 < cap) by (unfold cap, grown_cap; destruct (Z.eqb_spec (tl_cap d) 0); lia).
    unfold sizeof_src_file, sizeof_extent, sizeof_entry in Hex'.
    assert (Heq : (if tl_cap d =? 0 then 1024 else u64 (tl_cap d * 2)) = cap).
    { unfold cap, grown_cap in *. destruct (Z.eqb_spec (tl_cap d) 0); [done|]. apply wrap_small. lia. }
    rewrite Heq in Hs. apply bind_Ok_inv in Hs as ([[g cap'] pool] & Hg & Hs).
    apply bind_Ok_inv in Hg as ([v p1] & Hv & [= <- <- <-]).
    apply (arena_served _ _ _ _ _ _ Hro) in Hv as [Hv Hp1]; unfold sizeof_src_file in *; [|lia|lia|lia].
    destruct (Z.eqb_spec v 0) as [|_]; [done|]. cbn [negb] in Hs. rewrite Hfi in Hs.
    apply (file_served _ _ _ _ _ _ _ _ _ _ _ Hp1) in Hs as (t' & p' & -> & Hp');
      unfold sizeof_extent, sizeof_entry in *; [|lia|lia|lia].
    split; [done|]. constructor; cbn; [rewrite zlen_app, zlen_cons, zlen_nil; lia|done|done|].
    replace (r - (tl_requests d + 4)) with (r - tl_requests d - 1 - 3) by lia.
    by replace (n - (tl_bytes d + _ + _)) with
      (n - tl_bytes d - (cap * 32 + 7) - ((zlen path + 1 + 7) + (zlen exts * 24 + 7) + (24 + 7))) by lia.
  - cbn [mbind outcome_bind negb] in Hs. rewrite Hfi in Hs.
    apply (file_served _ _ _ _ _ _ _ _ _ _ _ Hro) in Hs as (t' & p' & -> & Hp'); [|lia|lia|lia].
    split; [done|]. constructor; cbn; [rewrite zlen_app, zlen_cons, zlen_nil; lia|done|done|].
    replace (r - (tl_requests d + 3)) with (r - tl_requests d - 3) by lia.
    by replace (n - (tl_bytes d + _)) with
      (n - tl_bytes d - ((zlen path + 1 + 7) + (zlen exts * sizeof_extent + 7) + (sizeof_entry + 7))) by lia.
Qed.

End Source.

(** * The destination walk *)

Section Dest.
Context {P : Type} (malloc_ok : allocator) (Hm : ∀ z, malloc_ok z = true).
Context (ix : path_index P) (bs src_size : Z) (tracker : fsd_block_tracker_t) (dest_fs_bs src_fs_bs : Z).

Lemma hyp_append_served ctx b pos :
  ∃ ctx', hyp_append malloc_ok ctx b pos = Some ctx' ∧ dw_oom ctx' = dw_oom ctx.
Proof. unfold hyp_append. rewrite Hm. cbn [negb]. destruct (_ =? _); by eexists. Qed.

Lemma hyp_blocks_loop_served path e lo n b sf ctx l ctx' :
  hyp_blocks_loop malloc_ok ix bs src_size tracker dest_fs_bs src_fs_bs path e lo n b sf ctx = Ok (l, ctx') →
  dw_oom ctx' = dw_oom ctx.
Proof.
  revert b sf ctx. induction n as [|n IH]; intros b sf ctx; cbn [hyp_blocks_loop]; [by intros [= _ <-]|].
  destruct (_ || negb _); [apply IH|]. intros (found & _ & H)%bind_Ok_inv. destruct found as [f|]; [|by injection H as _ <-].
  destruct (src_map_range _ _ _ _) as [pos|]; [|by apply IH in H]. destruct (_ <? _); [by apply IH in H|].
  destruct (hyp_append_served ctx b pos) as (c & E & Ho). rewrite E in H. apply IH in H. congruence.
Qed.

Lemma hyp_extents_loop_served path exts sf ctx s ctx' :
  hyp_extents_loop malloc_ok ix bs src_size tracker dest_fs_bs src_fs_bs path exts sf ctx = Ok (s, ctx') →
  dw_oom ctx' = dw_oom ctx.
Proof.
  revert sf ctx. induction exts as [|e exts IH]; intros sf ctx; cbn [hyp_extents_loop]; [by intros [= _ <-]|].
  intros ([l c] & E & H)%bind_Ok_inv. apply hyp_blocks_loop_served in E. destruct l as [sf'|stop].
  - apply IH in H. congruence.
  - injection H as _ <-. done.
Qed.

End Dest.

(** * build_index *)

(** Opening fails for what the image holds, not for memory. *)
Lemma extfs_open_served malloc_ok image image_size :
  (∀ z, malloc_ok z = true) → bytes_ok image → image_size ≤ zlen image → image_size ≤ 2 ^ 62 →
  returns (fun fs => extfs_ok fs ∧ fx_image fs = image ∧ fx_image_size fs = image_size) (fun e => ¬ oom e)
    (fsd_extfs_open malloc_ok image image_size).
Proof.
  intros Hm Hok Hl Hmax. unfold fsd_extfs_open.
  eapply returns_bind; [eapply returns_mono; [by apply probe_returns|intros a Ha; exact Ha|by intros e <-]|].
  intros [[log_bs incompat] rev] [Hs Hlog]. rewrite Hm. cbn [negb].
  eapply returns_bind; [by apply read_fields_returns|]. intros fs Hf.
  eapply returns_mono; [by apply check_geometry_returns|done|by intros e <-].
Qed.

(** The tally of an image that opens. *)
Lemma tally_returns malloc_ok src fs :
  (∀ z, malloc_ok z = true) → extfs_ok fs → fsd_extfs_open malloc_ok src (zlen src) = Ok fs →
  ∃ d, fsmap_tally malloc_ok src = Ok d ∧ fsd_extfs_walk malloc_ok fs tally_file (mkTally 0 0 0 0) = Ok d ∧
    0 ≤ tl_bytes d ∧ 0 ≤ tl_requests d.
Proof.
  intros Hm Hfs Ho. unfold fsmap_tally. rewrite Ho. cbn [mbind outcome_bind].
  pose proof (fsd_extfs_walk_returns (I := fun d => 0 ≤ tl_cap d ∧ 0 ≤ tl_bytes d ∧ 0 ≤ tl_requests d)
    (E := fun _ => False) (cb := tally_file) Hfs malloc_ok (or_intror Hm)) as Hw.
  assert (Hk : cb_keeps malloc_ok fs (fun d => 0 ≤ tl_cap d ∧ 0 ≤ tl_bytes d ∧ 0 ≤ tl_requests d) (fun _ => False) tally_file).
  { intros d path ino size exts (H1 & H2 & H3) _. pose proof (tally_file_grows d path ino size exts) as Hg.
    assert (Ht : ∃ r, tally_file d path ino size exts = Ok r) by (unfold tally_file; repeat case_match; by eexists).
    destruct Ht as [r Hr]. destruct (Hg r H1 Hr) as (? & ? & ?). rewrite Hr. cbn. lia. }
  specialize (Hw Hk (mkTally 0 0 0 0) ltac:(cbn; lia)).
  destruct (fsd_extfs_walk _ _ _ _) as [d|e| |]; [|done..]. exists d. destruct Hw as (_ & ? & ?). by split_and!.
Qed.

Lemma tally_range malloc_ok src d :
  (∀ z, malloc_ok z = true) → bytes_ok src → zlen src ≤ 2 ^ 62 → fsmap_tally malloc_ok src = Ok d →
  0 ≤ tl_bytes d ∧ 0 ≤ tl_requests d.
Proof.
  intros Hm Hs Hmax Hd. pose proof (extfs_open_served malloc_ok src (zlen src) Hm Hs ltac:(lia) Hmax) as Ho.
  destruct (fsd_extfs_open malloc_ok src (zlen src)) as [fs|e| |] eqn:E; unfold fsmap_tally in Hd; rewrite E in Hd; [|done..].
  destruct (tally_returns malloc_ok src fs Hm (proj1 Ho) E) as (d' & Hd' & _ & H1 & H2).
  unfold fsmap_tally in Hd'. rewrite E in Hd'. rewrite Hd in Hd'. by injection Hd' as ->.
Qed.

Section Build.
Context {P : Type} {AR : Arena P} {ARS : ArenaSpec P} {ARL : ArenaLaws P} {AB : ArenaBudget P} {ABL : ArenaBudgetLaws P}.

(** The bytes and the requests of the table of the paths and of the files. *)
Definition index_bytes (d : tally) : Z := table_bytes 16384 + tl_bytes d.
Definition index_requests (d : tally) : Z := 2 + tl_requests d.

(** The walk of the source ends with the flag clear. *)
Lemma src_walk_served malloc_ok fs d t (p : P) sctx :
  (∀ z, malloc_ok z = true) → fsd_extfs_walk malloc_ok fs tally_file (mkTally 0 0 0 0) = Ok d →
  arena_room (tl_bytes d) (tl_requests d) p →
  fsd_extfs_walk malloc_ok fs src_walk_cb (mkSrcWalk (mkIndex p t [] 0) false) = Ok sctx → sw_oom sctx = false.
Proof.
  intros Hm Hd Hp Hs.
  assert (Hbad : ∀ u path ino size exts r, exceeded (tl_bytes d) (tl_requests d) u →
    tally_file u path ino size exts = Ok r → exceeded (tl_bytes d) (tl_requests d) (snd r)).
  { intros u path ino size exts r [Hc Hu] Hr. destruct (tally_file_grows _ _ _ _ _ _ Hc Hr) as (H1 & H2 & H3).
    unfold exceeded. lia. }
  assert (H0 : served (tl_bytes d) (tl_requests d) (mkTally 0 0 0 0) (mkSrcWalk (mkIndex p t [] 0) false)).
  { constructor; cbn; [done|done|done|]. by rewrite !Z.sub_0_r. }
  destruct (extfs_walk_step malloc_ok fs _ _ Hbad (src_walk_step _ _) _ _ _ _ H0 Hd Hs) as [[_ Hx]|Hx]; [lia|apply Hx].
Qed.

Lemma fsmap_build_served malloc_ok (pool : outcome P) stage src dest tracker :
  (∀ z, malloc_ok z = true) → bytes_ok src → zlen src ≤ 2 ^ 62 → bytes_ok dest → zlen dest ≤ 2 ^ 62 →
  32 ≤ fm_block_size stage ≤ 2 ^ 24 → fm_index stage = None → fm_hyps stage = [] →
  returns arena_ok (fun _ => True) pool →
  (∀ d, fsmap_tally malloc_ok src = Ok d → ∃ p, pool = Ok p ∧ arena_room (index_bytes d) (index_requests d) p) →
  returns (built_ok malloc_ok src (zlen src) dest (zlen dest) tracker stage) (fun _ => False)
    (fsd_fsmap_stage_build_index malloc_ok pool stage src (zlen src) dest (zlen dest) tracker).
Proof.
  intros Hm Hs Hsm Hd Hdm Hbs Hni Hnh Hpool Hroom.
  pose proof (fsmap_build_index_returns malloc_ok pool stage src (zlen src) dest (zlen dest) tracker
    Hs ltac:(lia) Hsm Hd ltac:(lia) Hdm Hbs Hni Hnh Hpool) as Hret.
  destruct (fsd_fsmap_stage_build_index _ _ _ _ _ _ _ _) as [st|e| |] eqn:E; [exact Hret| |done|done].
  cbn in Hret. rewrite Hret in E. exfalso. clear Hret e. revert E. unfold fsd_fsmap_stage_build_index. rewrite Hni, Hnh.
  pose proof (extfs_open_served malloc_ok src (zlen src) Hm Hs ltac:(lia) Hsm) as Hso.
  destruct (fsd_extfs_open malloc_ok src (zlen src)) as [sfs|es| |] eqn:Eo; [|destruct es; by intros ?; destruct Hso|done|done].
  destruct Hso as (Hsfs & _ & Hss).
  pose proof (extfs_open_served malloc_ok dest (zlen dest) Hm Hd ltac:(lia) Hdm) as Hdo.
  destruct (fsd_extfs_open malloc_ok dest (zlen dest)) as [dfs|ed| |]; [|destruct ed; by intros ?; destruct Hdo|done|done].
  destruct Hdo as (Hdfs & _ & _). destruct (tally_returns malloc_ok src sfs Hm Hsfs Eo) as (d & Et & Ed & Hd0 & Hd1).
  destruct (Hroom d Et) as (p & -> & Hp). unfold index_bytes, index_requests in Hp.
  destruct (arena_room_ok _ _ _ Hp) as (Hpok & _).
  destruct (hash_table_create_room _ _ 16384 p ltac:(lia) Hp ltac:(lia) ltac:(lia)) as (t & p1 & Ht & Hp1).
  destruct (fsd_hash_table_create_spec 16384 p ltac:(lia) Hpok) as (p2 & Hp2 & [Hx|(t' & k & Hx & Htok & _)]);
    rewrite Ht in Hx; [done|]. injection Hx as <- <-. rewrite Ht.
  replace (table_bytes 16384 + tl_bytes d - table_bytes 16384) with (tl_bytes d) in Hp1 by lia.
  replace (2 + tl_requests d - 2) with (tl_requests d) in Hp1 by lia.
  pose proof (fsd_extfs_walk_returns (I := fun ctx => index_sound malloc_ok sfs (sw_index ctx)) (E := fun _ => False)
    Hsfs malloc_ok (or_intror Hm) (src_walk_cb_keeps malloc_ok sfs _) (mkSrcWalk (mkIndex p1 t [] 0) false)
    ltac:(constructor; [done|by exists []|by apply Forall_nil])) as Hw.
  destruct (fsd_extfs_walk malloc_ok sfs src_walk_cb _) as [sctx|e| |] eqn:Ew; [|done..].
  cbn [mbind outcome_bind]. rewrite (src_walk_served malloc_ok sfs d t p1 sctx Hm Ed Hp1 Ew).
  set (cb := dest_walk_cb _ _ _ _ _ _ _).
  pose proof (fsd_extfs_walk_returns (I := fun ctx => dw_oom ctx = false ∧ Forall (hyp_ok (malloc_ok := malloc_ok) (src_fs := sfs)
    (dest_fs := dfs) (ix := sw_index sctx) (bs := fm_block_size stage) (tracker := tracker)) (dw_hyps ctx))
    (E := fun _ => False) (cb := cb) Hdfs malloc_ok (or_intror Hm)) as Hdw.
  assert (Hkeep : cb_keeps malloc_ok dfs (fun ctx => dw_oom ctx = false ∧ Forall (hyp_ok (malloc_ok := malloc_ok) (src_fs := sfs)
    (dest_fs := dfs) (ix := sw_index sctx) (bs := fm_block_size stage) (tracker := tracker)) (dw_hyps ctx)) (fun _ => False) cb).
  { intros ctx path ino size exts [Ho Hh] Hr. subst cb. rewrite <- Hss.
    pose proof (dest_walk_cb_keeps Hsfs Hdfs Hw Hbs (fun _ => False) ctx path ino size exts Hh Hr) as Hk.
    destruct (dest_walk_cb _ _ _ _ _ _ _ _ _ _ _ _) as [[s c]|e| |] eqn:Ec; [|done..].
    split; [|exact Hk]. apply (hyp_extents_loop_served malloc_ok Hm) in Ec. cbn. congruence. }
  specialize (Hdw Hkeep (mkDestWalk [] (fm_cap_hyps stage) false) ltac:(split; [done|by apply Forall_nil])).
  destruct (fsd_extfs_walk malloc_ok dfs cb _) as [dctx|e| |]; [|done..]. destruct Hdw as [Ho _].
  cbn [mbind outcome_bind]. by rewrite Ho.
Qed.

End Build.

(** Two names of one file: two paths, two extents of one block, two entries and the
    first file table. *)
Example tally_demo :
  fsmap_tally (fun _ => true) (demo_fs (fill 1024 7)) =
    Ok (mkTally 2 1024 (1024 * 32 + 7 + 2 * ((2 + 1 + 7) + (24 + 7) + (24 + 7))) 7).
Proof. vm_compute. reflexivity. Qed.
