(* ===== verification/StageController.v ===== *)
(** The stage controller (src/stages/stage_controller.c).

    It owns the tracker, the pool for deltas and the stages that the options
    enable, runs them in order with a look at the cancel flags before each, tells
    the progress callback how many blocks are matched after each, and turns what
    is left into literals.

    A cancel flag is written by other threads; it is a function that gives the
    value read at each point of the program where it is loaded.  Each of the three
    pools draws on an allocator state of its own.  The release of the resources on
    an error and the verbose switches are not modelled.

    Shown here: for every choice of options and whatever the flags and the
    allocations do, a run finishes within bounds; a successful one leaves a
    truthful tracker whose counters account for every block, and the progress
    reported never decreases. *)

From stdpp Require Import base list numbers tactics sorting.
From Stdlib Require Import ZArith Lia.
From S2P Require Import Prelude Crc32 MemoryPool HashTable Simd Tracker Patch Matches StageIdentity.
From S2P Require Import StageRelocation BlockSearch StagePartial ExtReader StageFsmap.
Open Scope Z_scope.

(** * The program *)

(** The options (include/fsdiff/options.h) that the diff uses; the custom
    allocator and the memory limit are read nowhere. *)
Record fsd_diff_options_t := mkOptions {
  opt_block_size_log2 : Z;
  opt_enable_identity : bool;
  opt_enable_relocation : bool;
  opt_enable_partial : bool;
  opt_partial_threshold : dyadic;
  opt_search_radius : Z;
  opt_force_scalar : bool;
  opt_enable_fsmap : bool
}.

Definition FSD_DEFAULT_BLOCK_SIZE : Z := 4096.

(** The points where a cancel flag is loaded. *)
Inductive check_point : Type :=
| BeforeIdentity
| BeforeRelocation
| BeforeFsmap
| AtHypothesis (h : Z)
| BeforePartial.

Abbreviation cancel_flag := (check_point → bool).

Section Controller.
Context {A : Type} {AL : Allocator A}.
Abbreviation pool_t := (fsd_memory_pool_t * @world A)%type.

(** The memory behind the three pools. *)
Record memory := mkMemory { m_delta : @world A; m_relocation : @world A; m_fsmap : @world A }.

Record fsd_stage_controller := mkController {
  sc_block_size : Z;
  sc_enable_identity : bool;
  sc_enable_relocation : bool;
  sc_enable_fsmap : bool;
  sc_enable_partial : bool;
  sc_identity : option fsd_identity_stage_t;
  sc_relocation : option (fsd_relocation_stage_t pool_t);
  sc_fsmap : option (fsd_fsmap_stage pool_t);
  sc_partial : option fsd_partial_stage;
  sc_tracker : fsd_block_tracker_t;
  sc_pool : pool_t;
  sc_cancelled : cancel_flag;
  sc_ext_cancel : option cancel_flag;
  sc_progress_cb : bool;
  sc_reports : list (Z * Z)          (** the calls of the callback *)
}.

Definition controller_cancelled (ctrl : fsd_stage_controller) (at_ : check_point) : bool :=
  sc_cancelled ctrl at_ || match sc_ext_cancel ctrl with Some f => f at_ | None => false end.

(** fsd_pool_create without a limit and with the default allocator. *)
Definition new_pool (chunk_size : Z) (w : @world A) : outcome pool_t :=
  match fsd_pool_create chunk_size 0 w with
  | (Ok (_, pool), w) => Ok (pool, w)
  | (Err e, _) => Err e
  | (UB, _) => UB
  | (NoFuel, _) => NoFuel
  end.

Definition sizeof_controller : Z := 120.

(** [if (enabled) create the stage]. *)
Definition when {B} (enabled : bool) (create : outcome B) : outcome (option B) :=
  if enabled then b ← create; Ok (Some b) else Ok None.

Definition fsd_stage_controller_create (malloc_ok : allocator) (mem : memory) (opts : option fsd_diff_options_t)
    (src_blocks dest_blocks : Z) : outcome fsd_stage_controller :=
  if match opts with Some o => opt_enable_relocation o && negb (opt_enable_identity o) | None => false end
  then Err FSD_ERR_INVALID_ARG else
  if negb (malloc_ok sizeof_controller) then Err FSD_ERR_OUT_OF_MEMORY else
  block_size ← match opts with
               | Some o => if 64 <=? opt_block_size_log2 o then UB else Ok (u64 (Z.shiftl 1 (opt_block_size_log2 o)))
               | None => Ok FSD_DEFAULT_BLOCK_SIZE
               end;
  let enable field := match opts with Some o => field o | None => true end in
  let threshold := match opts with Some o => opt_partial_threshold o | None => half end in
  let radius := match opts with Some o => opt_search_radius o | None => 0 end in
  tracker ← fsd_block_tracker_create malloc_ok dest_blocks block_size;
  pool ← new_pool (4 * 1024 * 1024) (m_delta mem);
  identity ← when (enable opt_enable_identity) (fsd_identity_stage_create malloc_ok block_size);
  relocation ← when (enable opt_enable_relocation)
                 ('(_, stage) ← fsd_relocation_stage_create malloc_ok block_size src_blocks (m_relocation mem); Ok stage);
  fsmap ← when (enable opt_enable_fsmap) (fsd_fsmap_stage_create malloc_ok block_size threshold radius);
  partial ← when (enable opt_enable_partial) (fsd_partial_stage_create malloc_ok block_size threshold radius);
  Ok (mkController block_size (enable opt_enable_identity) (enable opt_enable_relocation) (enable opt_enable_fsmap)
        (enable opt_enable_partial) identity relocation fsmap partial tracker pool (fun _ => false) None false []).

Definition fsd_stage_controller_set_progress (ctrl : fsd_stage_controller) (callback : bool) : fsd_stage_controller :=
  mkController (sc_block_size ctrl) (sc_enable_identity ctrl) (sc_enable_relocation ctrl) (sc_enable_fsmap ctrl)
    (sc_enable_partial ctrl) (sc_identity ctrl) (sc_relocation ctrl) (sc_fsmap ctrl) (sc_partial ctrl)
    (sc_tracker ctrl) (sc_pool ctrl) (sc_cancelled ctrl) (sc_ext_cancel ctrl) callback (sc_reports ctrl).

(** What fsd_stage_controller_cancel, called by another thread, makes of the
    controller's own flag. *)
Definition fsd_stage_controller_cancel (ctrl : fsd_stage_controller) (flag : cancel_flag) : fsd_stage_controller :=
  mkController (sc_block_size ctrl) (sc_enable_identity ctrl) (sc_enable_relocation ctrl) (sc_enable_fsmap ctrl)
    (sc_enable_partial ctrl) (sc_identity ctrl) (sc_relocation ctrl) (sc_fsmap ctrl) (sc_partial ctrl)
    (sc_tracker ctrl) (sc_pool ctrl) flag (sc_ext_cancel ctrl) (sc_progress_cb ctrl) (sc_reports ctrl).

Definition fsd_stage_controller_set_cancel_flag (ctrl : fsd_stage_controller) (flag : option cancel_flag)
  : fsd_stage_controller :=
  mkController (sc_block_size ctrl) (sc_enable_identity ctrl) (sc_enable_relocation ctrl) (sc_enable_fsmap ctrl)
    (sc_enable_partial ctrl) (sc_identity ctrl) (sc_relocation ctrl) (sc_fsmap ctrl) (sc_partial ctrl)
    (sc_tracker ctrl) (sc_pool ctrl) (sc_cancelled ctrl) flag (sc_progress_cb ctrl) (sc_reports ctrl).

Definition set_tracker (t : fsd_block_tracker_t) (pool : pool_t) (ctrl : fsd_stage_controller) : fsd_stage_controller :=
  mkController (sc_block_size ctrl) (sc_enable_identity ctrl) (sc_enable_relocation ctrl) (sc_enable_fsmap ctrl)
    (sc_enable_partial ctrl) (sc_identity ctrl) (sc_relocation ctrl) (sc_fsmap ctrl) (sc_partial ctrl)
    t pool (sc_cancelled ctrl) (sc_ext_cancel ctrl) (sc_progress_cb ctrl) (sc_reports ctrl).

(** [if (ctrl->progress_cb) ctrl->progress_cb(..., processed, total)]. *)
Definition report (processed total : Z) (ctrl : fsd_stage_controller) : fsd_stage_controller :=
  mkController (sc_block_size ctrl) (sc_enable_identity ctrl) (sc_enable_relocation ctrl) (sc_enable_fsmap ctrl)
    (sc_enable_partial ctrl) (sc_identity ctrl) (sc_relocation ctrl) (sc_fsmap ctrl) (sc_partial ctrl)
    (sc_tracker ctrl) (sc_pool ctrl) (sc_cancelled ctrl) (sc_ext_cancel ctrl) (sc_progress_cb ctrl)
    (if sc_progress_cb ctrl then sc_reports ctrl ++ [(processed, total)] else sc_reports ctrl).

Section Run.
Context (g : fsd_simd_dispatch_t) (malloc_ok : allocator) (mem : memory) (src dest : bytes).

(** One stage of fsd_stage_controller_run: the cancel check, the stage's work on
    tracker and pool, the progress report.  After an error the controller is only
    destroyed, and what the stage had changed until then is not kept here. *)
Definition run_stage {B} (dest_blocks : Z) (at_ : check_point) (enabled : bool) (stage : option B)
    (work : B → fsd_block_tracker_t → pool_t → outcome (fsd_block_tracker_t * pool_t)) : ST fsd_stage_controller unit :=
  fun ctrl =>
  match stage with
  | Some stage =>
      if negb enabled then (Ok tt, ctrl) else
      if controller_cancelled ctrl at_ then (Err FSD_ERR_CANCELLED, ctrl) else
      match work stage (sc_tracker ctrl) (sc_pool ctrl) with
      | Ok (t, pool) =>
          (Ok tt, report (u64 (dest_blocks - fsd_block_tracker_unmatched_count t)) dest_blocks (set_tracker t pool ctrl))
      | Err e => (Err e, ctrl)
      | UB => (UB, ctrl)
      | NoFuel => (NoFuel, ctrl)
      end
  | None => (Ok tt, ctrl)
  end.

Definition identity_work (src_blocks dest_blocks : Z) (stage : fsd_identity_stage_t) (t : fsd_block_tracker_t) (p : pool_t)
  : outcome (fsd_block_tracker_t * pool_t) :=
  t ← fsd_identity_stage_run g stage t src src_blocks dest dest_blocks; Ok (t, p).

Definition relocation_work (stage : fsd_relocation_stage_t pool_t) (t : fsd_block_tracker_t) (p : pool_t)
  : outcome (fsd_block_tracker_t * pool_t) :=
  match fsd_relocation_stage_build_index stage src with
  | (Ok _, stage) => t ← fsd_relocation_stage_run stage t src dest; Ok (t, p)
  | (Err e, _) => Err e
  | (UB, _) => UB
  | (NoFuel, _) => NoFuel
  end.

Definition fsmap_work (cancelled : cancel_flag) (ext_cancel : option cancel_flag) (src_size dest_size : Z)
    (stage : fsd_fsmap_stage pool_t) (t : fsd_block_tracker_t) (p : pool_t) : outcome (fsd_block_tracker_t * pool_t) :=
  let at_hyp (f : cancel_flag) := fun h => f (AtHypothesis h) in
  let stage := fsd_fsmap_stage_set_cancel stage (Some (at_hyp cancelled)) (at_hyp <$> ext_cancel) in
  stage ← fsd_fsmap_stage_build_index malloc_ok (new_pool (1024 * 1024) (m_fsmap mem)) stage
            src src_size dest dest_size t;
  fsd_fsmap_stage_run g stage t src dest p.

Definition partial_work (src_blocks : Z) (stage : fsd_partial_stage) (t : fsd_block_tracker_t) (p : pool_t)
  : outcome (fsd_block_tracker_t * pool_t) :=
  fsd_partial_stage_run g (fsd_partial_stage_build_index stage src_blocks) t src dest p.

(** What is left becomes literals, and everything is reported as done. *)
Definition finish (dest_blocks : Z) : ST fsd_stage_controller unit := fun ctrl =>
  (Ok tt, report dest_blocks dest_blocks
            (set_tracker (fsd_block_tracker_finalize (sc_tracker ctrl)) (sc_pool ctrl) ctrl)).

(** The body of fsd_stage_controller_run, on images that are there. *)
Definition run_stages (src_size dest_size : Z) : ST fsd_stage_controller unit :=
  ctrl ← st_get;
  if sc_block_size ctrl =? 0 then st_lift UB else
  let src_blocks := src_size / sc_block_size ctrl in
  let dest_blocks := dest_size / sc_block_size ctrl in
  run_stage dest_blocks BeforeIdentity (sc_enable_identity ctrl) (sc_identity ctrl)
    (identity_work src_blocks dest_blocks);;
  run_stage dest_blocks BeforeRelocation (sc_enable_relocation ctrl) (sc_relocation ctrl) relocation_work;;
  run_stage dest_blocks BeforeFsmap (sc_enable_fsmap ctrl) (sc_fsmap ctrl)
    (fsmap_work (sc_cancelled ctrl) (sc_ext_cancel ctrl) src_size dest_size);;
  run_stage dest_blocks BeforePartial (sc_enable_partial ctrl) (sc_partial ctrl) (partial_work src_blocks);;
  finish dest_blocks.

End Run.

(** [None] is a null pointer. *)
Definition fsd_stage_controller_run (g : fsd_simd_dispatch_t) (malloc_ok : allocator) (mem : memory)
    (src dest : option bytes) (src_size dest_size : Z) : ST fsd_stage_controller unit :=
  match src, dest with
  | Some src, Some dest => run_stages g malloc_ok mem src dest src_size dest_size
  | _, _ => st_fail FSD_ERR_INVALID_ARG
  end.

Definition fsd_stage_controller_get_tracker (ctrl : fsd_stage_controller) : fsd_block_tracker_t := sc_tracker ctrl.

End Controller.
Arguments fsd_stage_controller A : clear implicits.
Arguments memory A : clear implicits.

(** * What a stage does to the tracker *)

Lemma created_offsets malloc_ok n bs t : fsd_block_tracker_create malloc_ok n bs = Ok t → offsets_ok bs t.
Proof.
  assert (Hloop : ∀ k i t, Forall (fun s => match_type s = FSD_MATCH_NONE ∧ byte_offset s = 0) (blocks t) →
    Forall (fun s => match_type s = FSD_MATCH_NONE ∧ byte_offset s = 0) (blocks (create_loop k i t))).
  { induction k as [|k IH]; intros i t0 H; cbn [create_loop]; [done|]. apply IH. tsimpl.
    apply Forall_lookup. intros j s Hj. rewrite list_lookup_alter in Hj. rewrite Forall_lookup in H.
    case_decide; [|eauto]. subst j.
    destruct (blocks t0 !! Z.to_nat i) as [s0|] eqn:Es; [|done]. cbn in Hj. simplify_eq. cbn.
    split; [done|by apply (H _ _ Es)]. }
  unfold fsd_block_tracker_create. destruct (_ || _); [done|]. do 3 (destruct (negb _); [done|]).
  intros [= <-] j s Hj.
  assert (Hz := Hloop (Z.to_nat n) 0 (mkTracker (replicate (Z.to_nat n) zero_state) n bs
    (replicate (Z.to_nat (u64 (n + 63) / 64)) 0) (u64 (n + 63) / 64) 0 0 0 0 0 0) ltac:(by apply Forall_replicate)).
  rewrite Forall_lookup in Hz. destruct (Hz _ _ Hj) as [Hn Ho]. unfold offset_ok. by rewrite Hn.
Qed.

(** Matched blocks only become more. *)
Lemma matched_mono t t' :
  keeps_matches t t' → length (blocks t') = length (blocks t) →
  num FSD_MATCH_NONE (blocks t') ≤ num FSD_MATCH_NONE (blocks t).
Proof.
  intros Hk Hl. unfold num, zlen. apply inj_le.
  assert (HF : Forall2 (fun s s' => match_type s' = FSD_MATCH_NONE → match_type s = FSD_MATCH_NONE) (blocks t) (blocks t')).
  { apply Forall2_same_length_lookup. split; [done|]. intros j s s' Hs Hs' Hn.
    destruct (decide (match_type s = FSD_MATCH_NONE)); [done|]. rewrite (Hk j s Hs) in Hs' by done. congruence. }
  clear Hk Hl. induction HF as [|s s' l l' Hss _ IH]; [done|]. rewrite !filter_cons.
  repeat case_decide; cbn; try lia; tauto.
Qed.

Section Stages.
Context {A : Type} {AL : Allocator A} {ALS : AllocatorSpec A} {ALL : AllocatorLaws A}.
Abbreviation pool_t := (fsd_memory_pool_t * @world A)%type.
Context {g : fsd_simd_dispatch_t} (Hg : simd_ok g) {malloc_ok : allocator}.
Context {bs dbs : Z} {src dest : bytes} (Him : images bs dbs src dest).

Record progressed (t : fsd_block_tracker_t) (r : fsd_block_tracker_t * pool_t) : Prop := {
  pr_matching : matching bs dbs src dest (fst r);
  pr_keeps : keeps_matches t (fst r);
  pr_offsets : offsets_ok bs (fst r);
  pr_pool : arena_ok (snd r)
}.

(** The contract of a stage with the controller; [E] says when it may fail. *)
Definition stage_ok (pre : fsd_block_tracker_t → Prop) (E : fsd_error_t → Prop)
    (work : fsd_block_tracker_t → pool_t → outcome (fsd_block_tracker_t * pool_t)) : Prop :=
  ∀ t p, matching bs dbs src dest t → offsets_ok bs t → pre t → arena_ok p → returns (progressed t) E (work t p).

Lemma new_pool_returns chunk (w : @world A) :
  alloc_ok (w_alloc w) → 0 ≤ chunk < 2 ^ 64 → returns arena_ok (fun _ => True) (new_pool chunk w).
Proof.
  intros Hw Hc. unfold new_pool.
  pose proof (fsd_pool_create_spec 8 chunk 0 w (or_intror eq_refl) Hw Hc) as H.
  destruct (fsd_pool_create chunk 0 w) as [[[self pool]|e| |] w']; [|done|done|done].
  destruct H as [H _]. cbn. by eexists _, _, _, _.
Qed.

Abbreviation src_blocks := (zlen src / bs).

Lemma src_blocks_range : 0 ≤ src_blocks ∧ src_blocks * bs ≤ zlen src.
Proof.
  pose proof (im_size _ _ _ _ Him). pose proof (zlen_nonneg src). split; [apply Z.div_pos; lia|].
  pose proof (Z.mul_div_le (zlen src) bs ltac:(lia)). lia.
Qed.

Lemma identity_stage_ok : stage_ok all_unmatched (fun _ => False) (identity_work g src dest src_blocks dbs (mkIdentity bs)).
Proof.
  intros t p Hm Ho Hf Hp. unfold identity_work. destruct src_blocks_range as [Hb0 Hb1].
  destruct (identity_run_spec g bs dbs src src_blocks dest t Hg Hm Hf Hb0 Hb1) as (t' & -> & Hm' & Hrec).
  cbn. unfold all_unmatched in Hf. rewrite Forall_lookup in Hf.
  pose proof (ts_blocks _ _ _ _ _ (proj2 Hm)) as Hl. pose proof (ts_blocks _ _ _ _ _ (proj2 Hm')) as Hl'.
  constructor; [done| | |done]; cbn [fst].
  - intros j s Hj Hn. by rewrite (Hf _ _ Hj) in Hn.
  - intros j s' Hj. destruct (lookup_lt_is_Some_2 (blocks t) j) as [s Hs].
    { apply lookup_lt_Some in Hj. unfold zlen in *. lia. }
    specialize (Ho _ _ Hs). unfold offset_ok in *. rewrite (Hf _ _ Hs) in Ho. rewrite (Hrec _ _ Hs) in Hj.
    injection Hj as <-. pose proof (Hf _ _ Hs) as Hn. unfold identity_record. repeat case_match; simplify_eq/=; congruence || done.
Qed.

(** The stage fails only when its table cannot be created. *)
Lemma relocation_stage_ok (E : fsd_error_t → Prop) p0 :
  arena_ok p0 → E FSD_ERR_OUT_OF_MEMORY ∨ is_ok (fst (fsd_hash_table_create src_blocks p0)) = true →
  stage_ok (fun _ => True) E (relocation_work src dest (mkReloc bs src_blocks None p0)).
Proof.
  intros Hp0 HE t p Hm Ho _ Hp. unfold relocation_work. destruct src_blocks_range as [Hb0 Hb1].
  pose proof (im_size _ _ _ _ Him). pose proof (im_src _ _ _ _ Him).
  assert (HE' : E FSD_ERR_OUT_OF_MEMORY ∨
    fst (fsd_relocation_stage_build_index (mkReloc bs src_blocks None p0) src) = Ok tt).
  { destruct HE as [HE|HE]; [by left|right]. apply build_index_created; [apply Him|lia|nia|done|lia|done|done]. }
  destruct (build_index_spec bs src src_blocks p0) as (st & Eb & Hbs & Hblk & _ & Hix);
    [apply Him|lia|nia|done|lia|done|]. rewrite Eb in HE' |- *.
  destruct st as [bs' sb' [h|] p']; cbn [rl_src_hash rl_block_size rl_src_blocks fst] in *; [|by destruct HE'].
  subst bs' sb'.
  destruct (Hix h eq_refl) as (l & Hl).
  destruct (relocation_run_spec bs dbs src src_blocks dest h l p' t Hb0 Hb1 Hl Hm) as (t' & -> & Hm' & Hk & Hrel).
  cbn. pose proof (ts_blocks _ _ _ _ _ (proj2 Hm)) as Hl0. pose proof (ts_blocks _ _ _ _ _ (proj2 Hm')) as Hl1.
  constructor; [done|done| |done]; cbn [fst].
  intros j s' Hj. destruct (lookup_lt_is_Some_2 (blocks t) j) as [s Hs].
  { apply lookup_lt_Some in Hj. unfold zlen in *. lia. }
  specialize (Ho _ _ Hs). destruct (decide (match_type s = FSD_MATCH_NONE)) as [Hnone|Hsome].
  - destruct (Hrel (Z.of_nat j) s ltac:(lia)) as (s2 & Hs2 & Hcase); [by rewrite Nat2Z.id|done|].
    rewrite Nat2Z.id, Hj in Hs2. injection Hs2 as <-. unfold offset_ok in Ho. rewrite Hnone in Ho.
    destruct Hcase as [[-> _]|(k & _ & ->)]; unfold offset_ok; [by rewrite Hnone|done].
  - rewrite (Hk _ _ Hs Hsome) in Hj. injection Hj as <-. done.
Qed.

(** The partial and the filesystem stage leave the same kind of tracker. *)
Lemma partialing_progressed thr t t' p :
  matching bs dbs src dest t → offsets_ok bs t →
  partialing (bs := bs) (dbs := dbs) (src := src) (dest := dest) (thr := thr) t t' → arena_ok p →
  progressed t (t', p).
Proof.
  intros Hm Ho Hpg Hp. constructor; cbn [fst snd]; [apply Hpg| | |done].
  - intros j s Hj Hn. destruct (pg_blocks _ _ Hpg j s Hj) as (s' & Hs' & [->|[? _]]); [done|congruence].
  - eapply partialing_offsets; [exact Ho| |exact Hpg]. apply (ts_blocks _ _ _ _ _ (proj2 Hm)).
Qed.

Lemma partial_stage_ok thr radius st :
  radius < 2 ^ 31 → fsd_partial_stage_create malloc_ok bs thr radius = Ok st →
  stage_ok (fun _ => True) (fun _ => False) (partial_work g src dest src_blocks st).
Proof.
  intros Hr Hst t p Hm Ho _ Hp. unfold partial_work. destruct src_blocks_range as [Hb0 Hb1].
  destruct (partial_stage_run_spec g malloc_ok bs dbs src src_blocks dest thr radius st t p Hg Him Hr Hb0 Hb1 Hst Hm Ho Hp)
    as (t' & p' & -> & Hp' & Hpg). cbn. by eapply partialing_progressed.
Qed.

(** A check of the flags while hypotheses are verified reads one as set. *)
Definition hyp_cancelled (own : cancel_flag) (ext : option cancel_flag) : Prop :=
  ∃ h, own (AtHypothesis h) || match ext with Some f => f (AtHypothesis h) | None => false end = true.

(** [E] says how building the index may fail. *)
Lemma fsmap_work_ok E (mem : memory A) own ext thr radius st :
  radius < 2 ^ 31 → fsd_fsmap_stage_create malloc_ok bs thr radius = Ok st →
  (∀ c1 c2 t, let st := fsd_fsmap_stage_set_cancel st c1 c2 in
     returns (built_ok malloc_ok src (zlen src) dest (zlen dest) t st) E
       (fsd_fsmap_stage_build_index malloc_ok (new_pool (1024 * 1024) (m_fsmap mem)) st src (zlen src) dest (zlen dest) t)) →
  stage_ok (fun _ => True) (fun e => E e ∨ e = FSD_ERR_CANCELLED ∧ hyp_cancelled own ext)
    (fsmap_work g malloc_ok mem src dest own ext (zlen src) (zlen dest) st).
Proof.
  intros Hr Hst Hbuild t p Hm Ho _ Hp. unfold fsmap_work. eapply returns_bind.
  { eapply returns_mono; [apply Hbuild|intros st' Hb; exact Hb|by left]. }
  intros st' Hb. eapply returns_mono; [by apply (fsmap_run_spec Hg Him Hr Hst _ _ t st' p Hm Hp Hb)| |].
  - intros [t' p'] [Hpg Hp']. by eapply partialing_progressed.
  - intros e [-> [h Hh]]. right. split; [done|]. exists h. unfold fsmap_cancelled in Hh. cbn in Hh.
    destruct ext; exact Hh.
Qed.

Lemma fsmap_stage_ok (mem : memory A) own ext thr radius st :
  alloc_ok (w_alloc (m_fsmap mem)) → radius < 2 ^ 31 → fsd_fsmap_stage_create malloc_ok bs thr radius = Ok st →
  stage_ok (fun _ => True) (fun e => oom e ∨ e = FSD_ERR_CANCELLED ∧ hyp_cancelled own ext)
    (fsmap_work g malloc_ok mem src dest own ext (zlen src) (zlen dest) st).
Proof.
  intros Hw Hr Hst. eapply fsmap_work_ok; [exact Hr|exact Hst|]. intros c1 c2 t. apply (fsmap_build_spec Him Hr Hst).
  apply new_pool_returns; [done|lia].
Qed.

End Stages.

(** * A run *)

(** Progress never goes back, and never exceeds [n] blocks. *)
Record reports_ok (dbs n : Z) (l : list (Z * Z)) : Prop := {
  rk_sorted : StronglySorted Z.le (fst <$> l);
  rk_range : Forall (fun r => fst r ≤ n ∧ snd r = dbs) l
}.

Lemma reports_ok_snoc dbs n m l : reports_ok dbs n l → n ≤ m → reports_ok dbs m (l ++ [(m, dbs)]).
Proof.
  intros [Hs Hr] Hnm. constructor.
  - rewrite fmap_app. apply StronglySorted_snoc. split; [done|]. apply Forall_fmap. revert Hr. apply List.Forall_impl.
    intros [a b]. cbn. lia.
  - apply Forall_app. split; [|apply Forall_singleton; cbn; lia]. revert Hr. apply List.Forall_impl. intros [a b]. cbn. lia.
Qed.

Lemma reports_ok_mono dbs n m l : reports_ok dbs n l → n ≤ m → reports_ok dbs m l.
Proof.
  intros [Hs Hr] Hnm. constructor; [done|]. revert Hr. apply List.Forall_impl. intros [a b]. cbn. lia.
Qed.

(** Every created stage is the one its options describe. *)
Record created_ok {A} `{Allocator A} `{AllocatorSpec A} (malloc_ok : allocator) (bs src_blocks radius : Z) (thr : dyadic)
    (c : fsd_stage_controller A) : Prop := {
  cr_block_size : sc_block_size c = bs;
  cr_identity : ∀ st, sc_identity c = Some st → st = mkIdentity bs;
  cr_relocation : ∀ st, sc_relocation c = Some st → ∃ p, st = mkReloc bs src_blocks None p ∧ arena_ok p;
  cr_fsmap : ∀ st, sc_fsmap c = Some st → fsd_fsmap_stage_create malloc_ok bs thr radius = Ok st;
  cr_partial : ∀ st, sc_partial c = Some st → fsd_partial_stage_create malloc_ok bs thr radius = Ok st
}.

Section Run.
Context {A : Type} {AL : Allocator A} {ALS : AllocatorSpec A} {ALL : AllocatorLaws A}.
Context {g : fsd_simd_dispatch_t} (Hg : simd_ok g) {malloc_ok : allocator}.
Context {bs dbs : Z} {src dest : bytes} (Him : images bs dbs src dest).

Definition matched (t : fsd_block_tracker_t) : Z := dbs - num FSD_MATCH_NONE (blocks t).

Record ctrl_ok (c : fsd_stage_controller A) : Prop := {
  co_matching : matching bs dbs src dest (sc_tracker c);
  co_offsets : offsets_ok bs (sc_tracker c);
  co_pool : arena_ok (sc_pool c);
  co_reports : reports_ok dbs (matched (sc_tracker c)) (sc_reports c)
}.

Definition same_flags (c c' : fsd_stage_controller A) : Prop :=
  sc_cancelled c' = sc_cancelled c ∧ sc_ext_cancel c' = sc_ext_cancel c ∧ sc_progress_cb c' = sc_progress_cb c.

Definition cancel_seen (c : fsd_stage_controller A) : Prop := ∃ at_, controller_cancelled c at_ = true.

(** What the rest of a run that started from [c0] may return, when its stages fail
    with codes of [E] or for a cancel request. *)
Definition run_ok (E : fsd_error_t → Prop) (c0 : fsd_stage_controller A) (Q : fsd_stage_controller A → Prop)
    (r : outcome unit * fsd_stage_controller A) : Prop :=
  match r with
  | (Ok _, c') => Q c'
  | (Err e, _) => E e ∨ e = FSD_ERR_CANCELLED ∧ cancel_seen c0
  | _ => False
  end.

Lemma cancel_seen_flags c c' at_ : same_flags c c' → controller_cancelled c' at_ = true → cancel_seen c.
Proof. intros (H1 & H2 & _) Hc. exists at_. unfold controller_cancelled in *. by rewrite <- H1, <- H2. Qed.

Lemma run_stage_spec {B} E c0 c at_ enabled (stage : option B) work pre :
  ctrl_ok c → same_flags c0 c → pre (sc_tracker c) →
  (∀ st, stage = Some st → stage_ok (bs := bs) (dbs := dbs) (src := src) (dest := dest) pre
     (fun e => E e ∨ e = FSD_ERR_CANCELLED ∧ cancel_seen c0) (work st)) →
  run_ok E c0 (fun c' => ctrl_ok c' ∧ same_flags c0 c') (run_stage dbs at_ enabled stage work c).
Proof.
  intros Hc Hsf Hpre Hst. unfold run_stage. destruct stage as [st|]; [|done]. destruct (negb enabled); [done|].
  destruct (controller_cancelled c at_) eqn:Hcan; [right; split; [done|by eapply cancel_seen_flags]|].
  destruct Hc as [Hm Ho Hp Hr]. pose proof (Hst st eq_refl _ _ Hm Ho Hpre Hp) as Hw.
  destruct (work st (sc_tracker c) (sc_pool c)) as [[t p]|e| |]; [|done|done|done].
  destruct Hw as [Hm' Hk Ho' Hp']. cbn [fst snd] in *. split; [|done].
  pose proof (ts_blocks _ _ _ _ _ (proj2 Hm)). pose proof (ts_blocks _ _ _ _ _ (proj2 Hm')).
  pose proof (num_nonneg FSD_MATCH_NONE (blocks t)). pose proof (im_blocks _ _ _ _ Him).
  assert (Hle : matched (sc_tracker c) ≤ matched t).
  { unfold matched. pose proof (matched_mono _ _ Hk). unfold zlen in *. lia. }
  constructor; cbn; [done|done|done|]. rewrite (unmatched_count_spec t (proj1 Hm')), wrap_small by lia.
  destruct (sc_progress_cb c); [by apply (reports_ok_snoc _ (matched (sc_tracker c)) (matched t))|by eapply reports_ok_mono].
Qed.

Lemma run_ok_bind E c0 c Q R (m k : ST (fsd_stage_controller A) unit) :
  run_ok E c0 Q (m c) → (∀ c', Q c' → run_ok E c0 R (k c')) → run_ok E c0 R ((m;; k) c).
Proof. intros Hm Hk. unfold mbind, ST_bind. destruct (m c) as [[[]|e| |] c']; [|done|done|done]. by apply Hk. Qed.

(** The state a finished run leaves. *)
Record finished (c0 : fsd_stage_controller A) (c : fsd_stage_controller A) : Prop := {
  fi_sound : tracker_sound bs dbs src dest (sc_tracker c);
  fi_offsets : offsets_ok bs (sc_tracker c);
  fi_unmatched : fsd_block_tracker_unmatched_count (sc_tracker c) = 0;
  fi_account : identity_count (sc_tracker c) + relocate_count (sc_tracker c) + partial_count (sc_tracker c) +
    zero_count (sc_tracker c) + one_count (sc_tracker c) + literal_count (sc_tracker c) = dbs;
  fi_size : count (sc_tracker c) = dbs;
  fi_reports : reports_ok dbs dbs (sc_reports c);
  fi_last : sc_progress_cb c0 = true → last (sc_reports c) = Some (dbs, dbs)
}.

Lemma finish_spec c0 c :
  ctrl_ok c → same_flags c0 c → ∃ c', finish dbs c = (Ok tt, c') ∧ finished c0 c'.
Proof.
  intros [Hm Ho Hp Hr] (_ & _ & Hcb). eexists. split; [reflexivity|].
  pose proof Hm as [Hok Hts]. destruct (finalize_spec (sc_tracker c) Hok) as (Hun & Hlit & Hbl & Hct & Hsz).
  destruct (finalize_loop_stats (Z.to_nat (count (sc_tracker c))) 0 (sc_tracker c)) as (Hi & Hre & Hpa & Hz & Hon).
  pose proof (ts_blocks _ _ _ _ _ Hts). pose proof (num_nonneg FSD_MATCH_NONE (blocks (sc_tracker c))).
  assert (Hm' : matched (sc_tracker c) ≤ dbs) by (unfold matched; lia).
  constructor; cbn.
  - destruct Hts. constructor; try done; [by rewrite Hct|by rewrite Hbl|]. intros j st Hj. rewrite Hbl. auto.
  - intros j s. rewrite Hbl. apply Ho.
  - done.
  - change (finalize_loop (Z.to_nat (count (sc_tracker c))) 0 (sc_tracker c)) with
      (fsd_block_tracker_finalize (sc_tracker c)) in *.
    rewrite Hi, Hre, Hpa, Hz, Hon, Hlit. destruct Hok. rewrite <- H, <- (num_partition (blocks (sc_tracker c))). lia.
  - rewrite Hct. apply Hts.
  - destruct (sc_progress_cb c); [|by eapply reports_ok_mono]. by apply (reports_ok_snoc _ (matched (sc_tracker c))).
  - intros Hcb0. rewrite Hcb, Hcb0. by rewrite last_snoc.
Qed.

Context (mem : memory A) (Hmem : alloc_ok (w_alloc (m_fsmap mem))).
Context {radius : Z} {thr : dyadic} (Hrad : radius < 2 ^ 31).

Lemma stage_ok_weaken pre E F work :
  stage_ok (A := A) (bs := bs) (dbs := dbs) (src := src) (dest := dest) pre E work → (∀ e, E e → F e) →
  stage_ok (bs := bs) (dbs := dbs) (src := src) (dest := dest) pre F work.
Proof. intros Hw HEF t p Hm Ho Hp Ha. eapply returns_mono; [by apply Hw|done|done]. Qed.

Lemma run_stages_spec E c :
  sc_block_size c = bs → ctrl_ok c → all_unmatched (sc_tracker c) →
  (∀ st, sc_identity c = Some st → st = mkIdentity bs) →
  (∀ st, sc_relocation c = Some st →
     stage_ok (A := A) (bs := bs) (dbs := dbs) (src := src) (dest := dest) (fun _ => True) E (relocation_work src dest st)) →
  (∀ st, sc_fsmap c = Some st →
     stage_ok (bs := bs) (dbs := dbs) (src := src) (dest := dest) (fun _ => True)
       (fun e => E e ∨ e = FSD_ERR_CANCELLED ∧ hyp_cancelled (sc_cancelled c) (sc_ext_cancel c))
       (fsmap_work g malloc_ok mem src dest (sc_cancelled c) (sc_ext_cancel c) (zlen src) (zlen dest) st)) →
  (∀ st, sc_partial c = Some st → fsd_partial_stage_create malloc_ok bs thr radius = Ok st) →
  run_ok E c (finished c) (run_stages g malloc_ok mem src dest (zlen src) (zlen dest) c).
Proof.
  intros Hbs Hc Hun Hid Hre Hfs Hpa. pose proof (im_size _ _ _ _ Him).
  unfold run_stages. unfold mbind at 1, ST_bind at 1, st_get. rewrite Hbs.
  destruct (Z.eqb_spec bs 0); [lia|]. cbv zeta.
  assert (Hdb : zlen dest / bs = dbs) by (rewrite (im_dest _ _ _ _ Him); apply Z.div_mul; lia). rewrite Hdb.
  eapply run_ok_bind.
  { eapply (run_stage_spec E c c _ _ _ _ all_unmatched); [done|done|done|]. intros st Hst. rewrite (Hid st Hst).
    eapply stage_ok_weaken; [by apply identity_stage_ok|done]. }
  intros c1 [H1 F1]. eapply run_ok_bind.
  { eapply (run_stage_spec E c c1 _ _ _ _ (fun _ => True)); [done|done|done|].
    intros st Hst. eapply stage_ok_weaken; [by apply Hre|by left]. }
  intros c2 [H2 F2]. eapply run_ok_bind.
  { eapply (run_stage_spec E c c2 _ _ _ _ (fun _ => True)); [done|done|done|]. intros st Hst.
    eapply stage_ok_weaken; [by apply Hfs|].
    intros e [He|[He [h Hh]]]; [by left|right]. split; [done|]. by exists (AtHypothesis h). }
  intros c3 [H3 F3]. eapply run_ok_bind.
  { eapply (run_stage_spec E c c3 _ _ _ _ (fun _ => True)); [done|done|done|]. intros st Hst.
    eapply stage_ok_weaken; [eapply partial_stage_ok; [done|done|exact Hrad|by apply Hpa]|done]. }
  intros c4 [H4 F4]. destruct (finish_spec c c4 H4 F4) as (c' & -> & Hf). exact Hf.
Qed.

Lemma controller_run_spec c :
  created_ok malloc_ok bs (zlen src / bs) radius thr c → ctrl_ok c → all_unmatched (sc_tracker c) →
  run_ok oom c (finished c) (run_stages g malloc_ok mem src dest (zlen src) (zlen dest) c).
Proof.
  intros [Hbs Hid Hre Hfs Hpa] Hc Hun. apply run_stages_spec; try done.
  - intros st Hst. destruct (Hre st Hst) as (p & -> & Hp). apply (relocation_stage_ok Him); [done|by left].
  - intros st Hst. by eapply fsmap_stage_ok; [done|done|exact Hmem|exact Hrad|apply Hfs].
Qed.

End Run.

(** * Creation *)

Definition opts_block_size (opts : option fsd_diff_options_t) : Z :=
  match opts with Some o => u64 (Z.shiftl 1 (opt_block_size_log2 o)) | None => FSD_DEFAULT_BLOCK_SIZE end.

Definition opts_radius (opts : option fsd_diff_options_t) : Z :=
  match opts with Some o => opt_search_radius o | None => 0 end.

Definition opts_threshold (opts : option fsd_diff_options_t) : dyadic :=
  match opts with Some o => opt_partial_threshold o | None => half end.

Definition memory_ok {A} `{AllocatorSpec A} (mem : memory A) : Prop :=
  alloc_ok (w_alloc (m_delta mem)) ∧ alloc_ok (w_alloc (m_relocation mem)) ∧ alloc_ok (w_alloc (m_fsmap mem)).

Lemma when_Ok {B} enabled (create : outcome B) r :
  when enabled create = Ok r → r = None ∨ ∃ b, create = Ok b ∧ r = Some b.
Proof.
  unfold when. destruct enabled; [|intros [= <-]; by left]. destruct create as [b| | |]; try done.
  intros [= <-]. right. by exists b.
Qed.

Section Create.
Context {A : Type} {AL : Allocator A} {ALS : AllocatorSpec A} {ALL : AllocatorLaws A}.

Lemma identity_create_Ok malloc_ok bs st : fsd_identity_stage_create malloc_ok bs = Ok st → st = mkIdentity bs.
Proof. unfold fsd_identity_stage_create. repeat case_match; intros [= <-]; done. Qed.

Lemma relocation_create_Ok malloc_ok bs src_blocks (w : @world A) self st :
  alloc_ok (w_alloc w) → fsd_relocation_stage_create malloc_ok bs src_blocks w = Ok (self, st) →
  ∃ p, st = mkReloc bs src_blocks None p ∧ arena_ok p.
Proof.
  intros Hw. unfold fsd_relocation_stage_create. destruct (bs =? 0); [done|]. destruct (negb _); [done|].
  pose proof (fsd_pool_create_spec 8 (1024 * 1024) 0 w (or_intror eq_refl) Hw ltac:(lia)) as Hp.
  destruct (fsd_pool_create (1024 * 1024) 0 w) as [[[s pool]|e| |] w']; try done.
  intros [= <- <-]. destruct Hp as [Hp _]. eexists. split; [reflexivity|]. by eexists _, _, _, _.
Qed.

Lemma controller_create_spec malloc_ok (mem : memory A) opts src_blocks dbs src dest c :
  images (opts_block_size opts) dbs src dest → memory_ok mem →
  fsd_stage_controller_create malloc_ok mem opts src_blocks dbs = Ok c →
  created_ok malloc_ok (opts_block_size opts) src_blocks (opts_radius opts) (opts_threshold opts) c ∧
  ctrl_ok (bs := opts_block_size opts) (dbs := dbs) (src := src) (dest := dest) c ∧ all_unmatched (sc_tracker c).
Proof.
  intros Him (Hw1 & Hw2 & _). unfold fsd_stage_controller_create.
  destruct (match opts with Some _ => _ | None => _ end); [done|]. destruct (negb _); [done|].
  intros Hc. apply bind_Ok_inv in Hc as (bs & Hbs & Hc).
  assert (bs = opts_block_size opts) as ->.
  { destruct opts as [o|]; cbn in *; [|congruence]. destruct (64 <=? _); [done|]. congruence. }
  apply bind_Ok_inv in Hc as (t & Ht & Hc). apply bind_Ok_inv in Hc as (p & Hp & Hc).
  apply bind_Ok_inv in Hc as (id & Hid & Hc). apply bind_Ok_inv in Hc as (re & Hre & Hc).
  apply bind_Ok_inv in Hc as (fs & Hfs & Hc). apply bind_Ok_inv in Hc as (pa & Hpa & Hc). injection Hc as <-.
  destruct (created_matching malloc_ok _ dbs src dest t Him Ht) as (Hm & Hun & _).
  pose proof (new_pool_returns (4 * 1024 * 1024) (m_delta mem) Hw1 ltac:(lia)) as Hpool. rewrite Hp in Hpool.
  split_and!; [|constructor; cbn; [done|by eapply created_offsets|done|]|done].
  - constructor; cbn; [done|..]; intros st ->.
    + destruct (when_Ok _ _ _ Hid) as [|(b & Hb & [= ->])]; [done|]. by eapply identity_create_Ok.
    + destruct (when_Ok _ _ _ Hre) as [|(b & Hb & [= ->])]; [done|].
      apply bind_Ok_inv in Hb as ([self st] & Hb & [= <-]). by eapply relocation_create_Ok.
    + by destruct (when_Ok _ _ _ Hfs) as [|(b & Hb & [= ->])].
    + by destruct (when_Ok _ _ _ Hpa) as [|(b & Hb & [= ->])].
  - constructor; [constructor|by apply Forall_nil].
Qed.

(** A new controller has no cancel request, no callback, and the stages that are
    enabled. *)
Lemma controller_create_flags malloc_ok (mem : memory A) opts src_blocks dbs c :
  fsd_stage_controller_create malloc_ok mem opts src_blocks dbs = Ok c →
  (∀ at_, sc_cancelled c at_ = false) ∧ sc_progress_cb c = false ∧
  (sc_enable_identity c = true → is_Some (sc_identity c)) ∧
  (sc_enable_relocation c = true → is_Some (sc_relocation c)) ∧
  (sc_enable_fsmap c = true → is_Some (sc_fsmap c)) ∧ (sc_enable_partial c = true → is_Some (sc_partial c)).
Proof.
  unfold fsd_stage_controller_create. destruct (match opts with Some _ => _ | None => _ end); [done|].
  destruct (negb _); [done|]. intros Hc. do 7 (apply bind_Ok_inv in Hc as (? & ? & Hc)). injection Hc as <-. cbn.
  assert (Hwhen : ∀ B en (cr : outcome B) r, when en cr = Ok r → en = true → is_Some r).
  { intros B en cr r Hr ->. unfold when in Hr. destruct cr; try done. injection Hr as <-. done. }
  split_and!; [done|done|eapply Hwhen; eassumption..].
Qed.

(** Creation is defined; it refuses an image of no blocks. *)
Lemma controller_create_returns malloc_ok (mem : memory A) opts src_blocks dbs :
  memory_ok mem → match opts with Some o => opt_block_size_log2 o < 64 | None => True end →
  returns (fun _ => dbs ≠ 0) (fun _ => True) (fsd_stage_controller_create malloc_ok mem opts src_blocks dbs).
Proof.
  intros (Hw1 & Hw2 & _) Hlg. unfold fsd_stage_controller_create.
  destruct (match opts with Some _ => _ | None => _ end); [done|]. destruct (negb _); [done|].
  eapply (returns_bind (fun _ => True)).
  { destruct opts as [o|]; [|done]. destruct (Z.leb_spec 64 (opt_block_size_log2 o)); [lia|done]. }
  intros bs _. eapply (returns_bind (fun _ => dbs ≠ 0)).
  { unfold fsd_block_tracker_create. destruct (Z.eqb_spec dbs 0); [done|]. repeat case_match; done. }
  intros t Hdbs. eapply returns_bind; [apply new_pool_returns; [done|lia]|]. intros p _.
  assert (Hwhen : ∀ B en (cr : outcome B), defined cr → returns (fun _ => True) (fun _ => True) (when en cr)).
  { intros B en cr Hcr. unfold when. destruct en; [|done]. by destruct cr. }
  eapply returns_bind; [apply Hwhen; unfold fsd_identity_stage_create; repeat case_match; done|]. intros id _.
  eapply returns_bind; [apply Hwhen|intros re _].
  { unfold fsd_relocation_stage_create. destruct (bs =? 0); [done|]. destruct (negb _); [done|].
    pose proof (fsd_pool_create_spec 8 (1024 * 1024) 0 (m_relocation mem) (or_intror eq_refl) Hw2 ltac:(lia)) as Hp.
    by destruct (fsd_pool_create (1024 * 1024) 0 (m_relocation mem)) as [[[s pool]|e| |] w']. }
  eapply returns_bind; [apply Hwhen; unfold fsd_fsmap_stage_create; repeat case_match; done|]. intros fs _.
  eapply returns_bind; [apply Hwhen; unfold fsd_partial_stage_create; repeat case_match; done|]. done.
Qed.

End Create.

(** The controller as the diff prepares it. *)
Definition prepared {A} (c : fsd_stage_controller A) (own : cancel_flag) (ext : option cancel_flag) (callback : bool)
  : fsd_stage_controller A :=
  fsd_stage_controller_set_progress (fsd_stage_controller_set_cancel_flag (fsd_stage_controller_cancel c own) ext) callback.

Lemma prepared_run_spec {A} `{ALL : AllocatorLaws A} g malloc_ok (mem : memory A) opts dbs src dest c own ext cb :
  simd_ok g → images (opts_block_size opts) dbs src dest → opts_radius opts < 2 ^ 31 → memory_ok mem →
  fsd_stage_controller_create malloc_ok mem opts (zlen src / opts_block_size opts) dbs = Ok c →
  run_ok oom (prepared c own ext cb)
    (finished (bs := opts_block_size opts) (dbs := dbs) (src := src) (dest := dest) (prepared c own ext cb))
    (run_stages g malloc_ok mem src dest (zlen src) (zlen dest) (prepared c own ext cb)).
Proof.
  intros Hg Him Hrad Hmem Hc.
  destruct (controller_create_spec malloc_ok mem opts _ dbs src dest c Him Hmem Hc) as ([] & [] & Hun).
  apply (controller_run_spec Hg (malloc_ok := malloc_ok) Him mem (proj2 (proj2 Hmem))
    (radius := opts_radius opts) (thr := opts_threshold opts) Hrad); [by constructor|by constructor|exact Hun].
Qed.

(** The controller of a run that returned. *)
Lemma run_finished {A} `{ALL : AllocatorLaws A} g malloc_ok (mem : memory A) opts dbs src dest c own ext cb :
  simd_ok g → images (opts_block_size opts) dbs src dest → opts_radius opts < 2 ^ 31 → memory_ok mem →
  fsd_stage_controller_create malloc_ok mem opts (zlen src / opts_block_size opts) dbs = Ok c →
  let r := fsd_stage_controller_run g malloc_ok mem (Some src) (Some dest) (zlen src) (zlen dest) (prepared c own ext cb) in
  is_ok (fst r) = true →
  finished (bs := opts_block_size opts) (dbs := dbs) (src := src) (dest := dest) (prepared c own ext cb) (snd r).
Proof.
  intros Hg Him Hrad Hmem Hc. cbv zeta. cbn [fsd_stage_controller_run].
  pose proof (prepared_run_spec g malloc_ok mem opts dbs src dest c own ext cb Hg Him Hrad Hmem Hc) as Hr.
  by destruct (run_stages _ _ _ _ _ _ _ _) as [[u|e| |] c'].
Qed.

(** * Properties *)

(** C12: the controller, created with any options, on any two images, whatever the
    cancel flags and the allocations do: a run finishes without undefined
    behaviour; it fails only when memory runs out or when a cancel flag was seen
    set.  A successful run leaves a tracker that describes the destination
    truthfully, in which no block is left unmatched and the counters of the six
    kinds add up to the number of blocks; the progress reported to the callback
    never decreases, never exceeds the number of blocks and ends with all of them. *)
Theorem controller_run_correct {A} `{ALL : AllocatorLaws A} g malloc_ok (mem : memory A) opts dbs src dest c own ext cb :
  simd_ok g → images (opts_block_size opts) dbs src dest → opts_radius opts < 2 ^ 31 → memory_ok mem →
  fsd_stage_controller_create malloc_ok mem opts (zlen src / opts_block_size opts) dbs = Ok c →
  let c := prepared c own ext cb in
  match fsd_stage_controller_run g malloc_ok mem (Some src) (Some dest) (zlen src) (zlen dest) c with
  | (Ok _, c') =>
      let t := fsd_stage_controller_get_tracker c' in
      tracker_sound (opts_block_size opts) dbs src dest t ∧
      fsd_block_tracker_unmatched_count t = 0 ∧
      identity_count t + relocate_count t + partial_count t + zero_count t + one_count t + literal_count t = dbs ∧
      StronglySorted Z.le (fst <$> sc_reports c') ∧
      Forall (fun r => fst r ≤ dbs ∧ snd r = dbs) (sc_reports c') ∧
      (cb = true → last (sc_reports c') = Some (dbs, dbs))
  | (Err e, _) =>
      e = FSD_ERR_OUT_OF_MEMORY ∨
      e = FSD_ERR_CANCELLED ∧ ∃ at_, own at_ || match ext with Some f => f at_ | None => false end = true
  | _ => False
  end.
Proof.
  intros Hg Him Hrad Hmem Hc. cbv zeta.
  pose proof (prepared_run_spec g malloc_ok mem opts dbs src dest c own ext cb Hg Him Hrad Hmem Hc) as Hr.
  unfold run_ok in Hr. cbn [fsd_stage_controller_run].
  destruct (run_stages _ _ _ _ _ _ _ _) as [[u|e| |] c']; [|exact Hr|exact Hr|exact Hr].
  destruct Hr as [Hs _ Hu Ha Hsz [Hsort Hrange] Hlast].
  split_and!; try done.
Qed.

(** C26: a cancel request is honoured before any work: when a flag reads as set at
    every check and some stage is enabled, the run returns the cancelled code and
    leaves the controller, its tracker and its progress reports as they were. *)
Theorem controller_cancel_honoured {A} `{ALL : AllocatorLaws A} g malloc_ok (mem : memory A) opts src_blocks dbs src dest
    src_size dest_size c own ext cb :
  fsd_stage_controller_create malloc_ok mem opts src_blocks dbs = Ok c → sc_block_size c ≠ 0 →
  (∀ at_, own at_ || match ext with Some f => f at_ | None => false end = true) →
  sc_enable_identity c || sc_enable_relocation c || sc_enable_fsmap c || sc_enable_partial c = true →
  fsd_stage_controller_run g malloc_ok mem (Some src) (Some dest) src_size dest_size (prepared c own ext cb) =
    (Err FSD_ERR_CANCELLED, prepared c own ext cb).
Proof.
  intros Hc Hbs Hset Hen. cbn [fsd_stage_controller_run]. unfold run_stages. unfold mbind at 1, ST_bind at 1, st_get.
  change (sc_block_size (prepared c own ext cb)) with (sc_block_size c). destruct (Z.eqb_spec (sc_block_size c) 0); [done|].
  destruct (controller_create_flags _ _ _ _ _ _ Hc) as (_ & _ & H1 & H2 & H3 & H4).
  assert (Hstop : ∀ B at_ en (st : option B) dbs work (k : ST (fsd_stage_controller A) unit),
    (en = true → is_Some st) →
    (run_stage dbs at_ en st work;; k) (prepared c own ext cb) =
      if en then (Err FSD_ERR_CANCELLED, prepared c own ext cb) else k (prepared c own ext cb)).
  { intros B at_ en st nb work k Hst. unfold run_stage, mbind, ST_bind. destruct en.
    - destruct (Hst eq_refl) as [b ->]. cbn [negb]. change (controller_cancelled (prepared c own ext cb) at_) with
        (own at_ || match ext with Some f => f at_ | None => false end). by rewrite Hset.
    - by destruct st. }
  cbv zeta. rewrite Hstop by done.
  change (sc_enable_identity (prepared c own ext cb)) with (sc_enable_identity c).
  destruct (sc_enable_identity c); [done|]. rewrite Hstop by done.
  change (sc_enable_relocation (prepared c own ext cb)) with (sc_enable_relocation c).
  destruct (sc_enable_relocation c); [done|]. rewrite Hstop by done.
  change (sc_enable_fsmap (prepared c own ext cb)) with (sc_enable_fsmap c).
  destruct (sc_enable_fsmap c); [done|]. rewrite Hstop by done.
  change (sc_enable_partial (prepared c own ext cb)) with (sc_enable_partial c).
  destruct (sc_enable_partial c); done.
Qed.

(** ** The small images with every stage enabled *)

Definition demo_options : fsd_diff_options_t := mkOptions 5 true true true half 1 false true.

Definition demo_memory : memory bump := mkMemory empty_world empty_world empty_world.

Lemma demo_memory_ok : memory_ok demo_memory.
Proof. split_and!; apply empty_world_ok. Qed.

Definition demo_controller : outcome (fsd_stage_controller bump) :=
  fsd_stage_controller_create (fun _ => true) demo_memory (Some demo_options)
    (zlen demo_src / opts_block_size (Some demo_options)) 3.

Definition no_controller : fsd_stage_controller bump :=
  mkController 0 false false false false None None None None (mkTracker [] 0 0 [] 0 0 0 0 0 0 0) demo_pool
    (fun _ => false) None false [].

Lemma demo_controller_ok :
  fsd_stage_controller_create (fun _ => true) demo_memory (Some demo_options)
    (zlen demo_src / opts_block_size (Some demo_options)) 3 = Ok (from_ok no_controller demo_controller).
Proof. apply is_ok_true. vm_compute. reflexivity. Qed.

Definition demo_run : outcome unit * fsd_stage_controller bump :=
  fsd_stage_controller_run setup_scalar_dispatch (fun _ => true) demo_memory (Some demo_src) (Some demo_dest) (zlen demo_src) (zlen demo_dest)
    (prepared (from_ok no_controller demo_controller) (fun _ => false) None true).

(** Comparing terms of the examples unfolds these last. *)
Local Strategy 100 [fsd_stage_controller_run fsd_stage_controller_create].

Lemma demo_run_finished :
  tracker_sound 32 3 demo_src demo_dest (sc_tracker (snd demo_run)) ∧ offsets_ok 32 (sc_tracker (snd demo_run)).
Proof.
  assert (Hok : is_ok (fst demo_run) = true) by (vm_compute; reflexivity).
  assert (H := run_finished setup_scalar_dispatch (fun _ => true) demo_memory (Some demo_options) 3
    demo_src demo_dest (from_ok no_controller demo_controller) (fun _ => false) None true
    scalar_ok demo_images ltac:(vm_compute; reflexivity) demo_memory_ok demo_controller_ok Hok).
  exact (conj (fi_sound _ _ H) (fi_offsets _ _ H)).
Qed.

Lemma controller_run_correct_witness :
  is_ok (fst demo_run) = true ∧ sc_reports (snd demo_run) = [(1, 3); (2, 3); (2, 3); (3, 3); (3, 3)] ∧
  tracker_sound (opts_block_size (Some demo_options)) 3 demo_src demo_dest (sc_tracker (snd demo_run)).
Proof.
  assert (Hok : is_ok (fst demo_run) = true) by (vm_compute; reflexivity).
  split; [exact Hok|]. split; [vm_compute; reflexivity|].
  pose proof (controller_run_correct setup_scalar_dispatch (fun _ => true) demo_memory (Some demo_options) 3
    demo_src demo_dest (from_ok no_controller demo_controller) (fun _ => false) None true
    scalar_ok demo_images ltac:(vm_compute; reflexivity) demo_memory_ok demo_controller_ok) as H.
  cbv zeta in H.
  unfold demo_run in Hok |- *.
  destruct (fsd_stage_controller_run _ _ _ _ _ _ _ _) as [[u|e| |] c']; [|discriminate Hok|discriminate Hok|discriminate Hok].
  apply H.
Defined.

Lemma controller_cancel_honoured_witness :
  fst (fsd_stage_controller_run setup_scalar_dispatch (fun _ => true) demo_memory (Some demo_src) (Some demo_dest) 64 96
    (prepared (from_ok no_controller demo_controller) (fun _ => false) (Some (fun _ => true)) true)) = Err FSD_ERR_CANCELLED.
Proof.
  rewrite (controller_cancel_honoured setup_scalar_dispatch (fun _ => true) demo_memory (Some demo_options)
    (zlen demo_src / opts_block_size (Some demo_options)) 3 demo_src demo_dest 64 96 (from_ok no_controller demo_controller) (fun _ => false) (Some (fun _ => true)) true).
  - reflexivity.
  - exact demo_controller_ok.
  - vm_compute. discriminate.
  - intros at_. reflexivity.
  - vm_compute. reflexivity.
Defined.
