(* ===== verification/PatchSafety.v ===== *)
(** Safety of patch application on arbitrary patch files.

    [op_spec] is a Hoare-style specification of one piece of the operation loop:
    it never reaches undefined behaviour or the end of its fuel; when it succeeds
    it has appended some bytes [w] to the output ([step]) and satisfies a
    postcondition; and when the proposition [good] holds it does succeed.  With
    [good := False] it is a safety statement about any input, with [good := True]
    a correctness statement about a well-formed one. *)

From Stdlib Require Import ZArith Lia Sorted.
From S2P Require Import Prelude Stdio Header Varint Source Patch.
From stdpp Require Import base list numbers tactics.
Open Scope Z_scope.

(** * The readers of the operation stream *)

Ltac shift_or :=
  unfold ld16, ld24, ld32;
  repeat first [ rewrite (lor_shiftl_add _ _ 8) by (unfold is_byte in *; lia)
               | rewrite (lor_shiftl_add _ _ 16) by (unfold is_byte in *; lia)
               | rewrite (lor_shiftl_add _ _ 24) by (unfold is_byte in *; lia) ].

Lemma ld16_val a b : is_byte a → is_byte b → ld16 a b = le_val [a; b].
Proof. intros. shift_or. cbn [le_val]. lia. Qed.

Lemma ld24_val a b c : is_byte a → is_byte b → is_byte c → ld24 a b c = le_val [a; b; c].
Proof. intros. shift_or. cbn [le_val]. lia. Qed.

Lemma ld32_val a b c d :
  is_byte a → is_byte b → is_byte c → is_byte d → ld32 a b c d = le_val [a; b; c; d].
Proof. intros. shift_or. cbn [le_val]. lia. Qed.

(** A reader of the stream: it is defined, gives a value in range, and leaves a
    suffix of well-formed bytes. *)
Definition field_ok (lo hi : Z) (rd : bytes → outcome (Z * bytes)) : Prop :=
  ∀ p, bytes_ok p →
    match rd p with
    | Ok (v, p') => lo ≤ v ≤ hi ∧ bytes_ok p' ∧ (length p' ≤ length p)%nat
    | Err _ => True
    | _ => False
    end.

Ltac bytes_split :=
  repeat match goal with H : bytes_ok (_ :: _) |- _ => apply bytes_ok_cons in H as [? H] end.

Ltac reader_cases :=
  intros p Hp; repeat case_match; simplify_eq; try done; bytes_split;
  rewrite ?ld16_val, ?ld24_val, ?ld32_val by done; cbn [le_val length]; unfold is_byte in *;
  (split_and!; [lia | lia | done | lia]).

Lemma read_count_ok fb : field_ok 0 UINT32_MAX (fun p => read_count p fb).
Proof.
  assert (0 ≤ Z.land fb 7 < 8) as Hl.
  { change 7 with (2 ^ 3 - 1). rewrite land_ones_mod by lia. apply Z.mod_pos_bound. lia. }
  unfold read_count, UINT32_MAX. reader_cases.
Qed.

Lemma read_reloc_offset_ok e : field_ok 0 UINT32_MAX (fun p => read_reloc_offset p e).
Proof. unfold read_reloc_offset, UINT32_MAX. reader_cases. Qed.

Lemma read_add_count_ok e : field_ok 0 UINT32_MAX (fun p => read_add_count p e).
Proof. unfold read_add_count, UINT32_MAX. reader_cases. Qed.

Lemma read_diff_len_ok : field_ok 0 UINT32_MAX read_diff_len.
Proof. unfold read_diff_len, UINT32_MAX. reader_cases. Qed.

(** Sign extension of a 24-bit value. *)
Lemma sext24 raw :
  0 ≤ raw < 2 ^ 24 →
  (if negb (Z.land raw 8388608 =? 0) then Z.lor raw (-16777216) else raw) = sgn 24 raw.
Proof.
  intros Hr. unfold sgn. rewrite wrap_small by done. change (2 ^ (24 - 1)) with 8388608.
  assert (Z.land raw 8388608 = if raw <? 8388608 then 0 else 8388608) as ->.
  { apply Z.bits_inj'. intros i Hi. rewrite Z.land_spec. change 8388608 with (2 ^ 23).
    destruct (decide (i = 23)) as [->|Hne].
    - rewrite Z.pow2_bits_true by lia. rewrite andb_true_r.
      destruct (Z.ltb_spec raw (2 ^ 23)).
      + rewrite <- (Z.mod_small raw (2 ^ 23)) by lia.
        rewrite Z.mod_pow2_bits_high by lia. done.
      + rewrite Z.pow2_bits_true by lia. replace raw with (raw - 2 ^ 23 + 1 * 2 ^ 23) by lia.
        rewrite <- lor_shiftl_add by lia. rewrite Z.lor_spec.
        change (Z.shiftl 1 23) with (2 ^ 23). rewrite Z.pow2_bits_true by lia. apply orb_true_r.
    - rewrite (Z.pow2_bits_false 23) by lia. rewrite andb_false_r.
      destruct (raw <? 2 ^ 23); [by rewrite Z.bits_0 | by rewrite (Z.pow2_bits_false 23) by lia]. }
  destruct (Z.ltb_spec raw 8388608); cbn [negb Z.eqb]; [done|].
  change (-16777216) with (Z.shiftl (-1) 24). change (2 ^ 24) with 16777216 in *.
  rewrite <- (Z.mod_small raw (2 ^ 24)) at 1 by done.
  apply Z.bits_inj'. intros i Hi. rewrite Z.lor_spec.
  replace (raw - 16777216) with (raw + (-1) * 2 ^ 24) by lia.
  destruct (decide (i < 24)).
  - rewrite Z.shiftl_spec_low, orb_false_r by lia. rewrite Z.mod_pow2_bits_low by lia.
    rewrite <- (Z.mod_pow2_bits_low (raw + _) 24) by lia. rewrite Z_mod_plus_full.
    by rewrite Z.mod_pow2_bits_low by lia.
  - rewrite Z.mod_pow2_bits_high, Z.shiftl_spec by lia. cbn [orb].
    rewrite Z.bits_m1 by lia. symmetry.
    replace i with ((i - 24) + 24) by lia. rewrite <- Z.div_pow2_bits by lia.
    rewrite Z.div_add, Z.div_small by lia. apply Z.bits_m1. lia.
Qed.

Lemma sgn_range w z : 0 < w → - 2 ^ (w - 1) ≤ sgn w z < 2 ^ (w - 1).
Proof.
  intros Hw. unfold sgn. pose proof (wrap_range w z).
  assert (2 ^ w = 2 * 2 ^ (w - 1)).
  { rewrite <- Z.pow_succ_r by lia. f_equal. lia. }
  destruct (Z.ltb_spec (wrap w z) (2 ^ (w - 1))); lia.
Qed.

(** The 3-byte case with the sign extension resolved. *)
Lemma read_byte_offset_3 p0 p1 p2 p :
  is_byte p0 → is_byte p1 → is_byte p2 →
  read_byte_offset (p0 :: p1 :: p2 :: p) 1 = Ok (sgn 24 (le_val [p0; p1; p2]), p).
Proof.
  intros. unfold read_byte_offset. cbn [Z.eqb]. cbv zeta. rewrite ld24_val by done.
  rewrite sext24; [done|]. cbn [le_val]. unfold is_byte in *. lia.
Qed.

Lemma read_byte_offset_ok e : field_ok INT32_MIN INT32_MAX (fun p => read_byte_offset p e).
Proof.
  unfold INT32_MIN, INT32_MAX. intros p Hp.
  destruct (Z.eqb_spec e 1) as [->|Hne].
  - destruct p as [|p0 [|p1 [|p2 p]]]; try done. bytes_split.
    rewrite read_byte_offset_3 by done. cbn [length].
    pose proof (sgn_range 24 (le_val [p0; p1; p2])). split_and!; [lia | lia | done | lia].
  - unfold read_byte_offset. destruct (Z.eqb_spec e 1); [done|].
    repeat case_match; simplify_eq; try done; bytes_split; cbn [length].
    all: match goal with
         | |- context [s16 ?x] => pose proof (sgn_range 16 x)
         | |- context [s32 ?x] => pose proof (sgn_range 32 x)
         | _ => idtac end.
    all: split_and!; [lia | lia | done | lia].
Qed.

(** * Diff data *)

Lemma zlen_add_bytes b d : zlen b ≤ zlen d → zlen (add_bytes b d) = zlen b.
Proof. unfold add_bytes. zl. Qed.

Lemma dense_block_safe bs diff_len blk region buf :
  0 ≤ bs → diff_len = zlen region → zlen buf = bs →
  match dense_block bs diff_len blk region buf with
  | Ok b => zlen b = bs | Err _ => True | _ => False end.
Proof.
  intros Hbs -> Hbuf. unfold dense_block.
  pose proof (wrap_range 64 (blk * bs)). destruct (_ || _) eqn:E; [done|].
  rewrite load_ok by lia. cbn. rewrite zlen_add_bytes; [done|]. rewrite zlen_slice; lia.
Qed.

Lemma zget_in (l : bytes) i : 0 ≤ i < zlen l → ∃ b, zget l i = Some b.
Proof.
  intros. unfold zget. destruct (Z.leb_spec 0 i); [|lia].
  apply lookup_lt_is_Some. zl.
Qed.

Lemma sparse_add_safe bs n cursor pos buf :
  (n ≤ length cursor)%nat → 0 ≤ pos ≤ bs → zlen buf = bs →
  ∃ pos' buf', sparse_add bs n cursor pos buf = Ok (drop n cursor, pos', buf') ∧
    pos' = Z.min bs (pos + Z.of_nat n) ∧ zlen buf' = bs.
Proof.
  revert cursor pos buf. induction n as [|n IH]; intros cursor pos buf Hn Hp Hb; cbn [sparse_add].
  { eexists _, _. split; [by rewrite drop_0|]. split; [lia|done]. }
  destruct cursor as [|v cursor]; cbn [length] in Hn; [lia|].
  destruct (Z.ltb_spec pos bs).
  - destruct (zget_in buf pos) as [b ->]; [lia|].
    destruct (IH cursor (pos + 1) (zput buf pos (u8 (b + v)))) as (p' & b' & -> & -> & ?);
      [lia | lia | by rewrite zlen_zput |].
    eexists _, _. split; [done|]. split; [lia | done].
  - destruct (IH cursor pos buf) as (p' & b' & -> & -> & ?); [lia.. | done |].
    eexists _, _. split; [done|]. split; [lia | done].
Qed.

(** The sparse loop ends: every iteration shortens the cursor. *)
Lemma sparse_block_safe fuel bs cursor pos buf :
  (length cursor < fuel)%nat → bytes_ok cursor → 0 ≤ pos ≤ bs → zlen buf = bs →
  match sparse_block fuel bs cursor pos buf with
  | Ok (c, b) => bytes_ok c ∧ zlen b = bs
  | Err _ => True | _ => False end.
Proof.
  revert cursor pos buf. induction fuel as [|fuel IH]; intros cursor pos buf Hf Hok Hp Hb; [lia|].
  cbn [sparse_block]. destruct (Z.leb_spec bs pos); [done|].
  pose proof (read_varint_defined cursor) as Hd.
  destruct (read_varint cursor) as [[add c1]| | |] eqn:E1; try done. cbn.
  pose proof (read_varint_shorter _ _ _ E1). pose proof (read_varint_range _ _ _ E1).
  destruct (read_varint_suffix _ _ _ E1) as [u1 ->]. apply bytes_ok_app in Hok as [_ Hok].
  destruct (Z.ltb_spec (zlen c1) add); [done|].
  destruct (sparse_add_safe bs (Z.to_nat add) c1 pos buf) as (p' & b' & -> & -> & Hb');
    [zl | lia | done |]. cbn.
  set (p' := Z.min _ _). assert (0 ≤ p' ≤ bs) as Hp' by lia.
  assert (bytes_ok (drop (Z.to_nat add) c1)) as Hok1 by by apply Forall_drop.
  destruct (Z.leb_spec bs p'); [done|].
  pose proof (read_varint_defined (drop (Z.to_nat add) c1)) as Hd2.
  destruct (read_varint (drop _ c1)) as [[cp c2]| | |] eqn:E2; try done. cbn.
  pose proof (read_varint_shorter _ _ _ E2) as Hsh. pose proof (read_varint_range _ _ _ E2).
  destruct (read_varint_suffix _ _ _ E2) as [u2 Hu2]. rewrite Hu2 in Hok1.
  apply bytes_ok_app in Hok1 as [_ Hok2].
  destruct (Z.ltb_spec (bs - p') cp); [done|].
  destruct (_ && _ && _); [done|].
  apply IH; [|done | lia | done]. rewrite length_drop in Hsh. lia.
Qed.

(** * Specifications of pieces of the operation loop *)

Section Spec.
Context {R : Type} {SR : SourceReader R} {SRS : SourceReaderSpec R} {SRL : SourceReaderLaws R}.

Abbreviation src s := (sr_contents (src_reader s)).

Record pok (s : pstate R) : Prop := {
  pok_reader : sr_ok (src_reader s);
  pok_room : 0 ≤ f_room (output s);
  pok_op : bytes_ok (op_ptr s);
  pok_diff : bytes_ok (diff_ptr s);
  pok_lit : bytes_ok (lit_ptr s)
}.

(** From [s] to [s'] the bytes [w] were written and the operation stream was not
    rewound. *)
Record step (s s' : pstate R) (w : bytes) : Prop := {
  step_ok : pok s';
  step_src : src s' = src s;
  step_reliable : sr_reliable (src_reader s) → sr_reliable (src_reader s');
  step_dest : dest_block s' = dest_block s;
  step_data : f_data (output s') = f_data (output s) ++ w;
  step_cap : f_cap (output s') = f_cap (output s);
  step_ops : (length (op_ptr s') ≤ length (op_ptr s))%nat;
  step_progress : progress s' = progress s
}.

Definition op_spec {A} (good : Prop) (s : pstate R) (rs : outcome A * pstate R)
    (Q : A → pstate R → bytes → Prop) : Prop :=
  match rs with
  | (Ok a, s') => ∃ w, step s s' w ∧ Q a s' w
  | (Err _, _) => ¬ good
  | _ => False
  end.

Definition same_ptrs (s s' : pstate R) : Prop :=
  op_ptr s' = op_ptr s ∧ diff_ptr s' = diff_ptr s ∧ lit_ptr s' = lit_ptr s.

Lemma step_refl s : pok s → step s s [].
Proof. intros. split; try done. by rewrite app_nil_r. Qed.

Lemma step_trans s1 s2 s3 w1 w2 : step s1 s2 w1 → step s2 s3 w2 → step s1 s3 (w1 ++ w2).
Proof.
  intros [] []. split; try done; try congruence; auto; try lia.
  rewrite step_data1, step_data0. by rewrite app_assoc.
Qed.

Lemma spec_ret {A} good s (a : A) (Q : A → pstate R → bytes → Prop) :
  pok s → Q a s [] → op_spec good s ((mret a : ST _ A) s) Q.
Proof. intros. exists []. split; [by apply step_refl | done]. Qed.

Lemma spec_bind {A B} good s (m : ST (pstate R) A) (f : A → ST (pstate R) B) Q1 Q :
  op_spec good s (m s) Q1 →
  (∀ a s' w, step s s' w → Q1 a s' w →
     op_spec good s' (f a s') (fun b s'' w' => Q b s'' (w ++ w'))) →
  op_spec good s ((m ≫= f) s) Q.
Proof.
  intros H1 H2. unfold mbind, ST_bind, op_spec in *.
  destruct (m s) as [[a|e| |] s']; try done.
  destruct H1 as (w & Hw & Hq). specialize (H2 a s' w Hw Hq).
  destruct (f a s') as [[b|e| |] s'']; try done.
  destruct H2 as (w' & Hw' & Hq'). exists (w ++ w'). split; [|done].
  by apply (step_trans s s' s'').
Qed.

Lemma spec_weaken {A} good s (rs : outcome A * pstate R) (Q1 Q2 : A → pstate R → bytes → Prop) :
  op_spec good s rs Q1 → (∀ a s' w, step s s' w → Q1 a s' w → Q2 a s' w) →
  op_spec good s rs Q2.
Proof. unfold op_spec. destruct rs as [[] ?]; naive_solver. Qed.

(** Reading the state, and checks that only fail. *)
Lemma spec_get {B} good s (f : pstate R → ST (pstate R) B) Q :
  op_spec good s (f s s) Q → op_spec good s ((st_get ≫= f) s) Q.
Proof. done. Qed.

Lemma spec_when {B} good s (b : bool) e (k : ST (pstate R) B) Q :
  (good → b = false) → (b = false → op_spec good s (k s) Q) →
  op_spec good s ((when_err b e ;; k) s) Q.
Proof.
  intros Hg Hk. destruct b; [|by apply Hk]. cbn. intros Hgood. specialize (Hg Hgood). done.
Qed.

Lemma spec_lift {A B} good s (m : outcome A) (f : A → ST (pstate R) B) Q :
  match m with Ok a => op_spec good s (f a s) Q | Err _ => ¬ good | _ => False end →
  op_spec good s ((st_lift m ≫= f) s) Q.
Proof. by destruct m. Qed.

Lemma spec_read good s off len :
  pok s → 0 ≤ off → 0 < len →
  (good → sr_reliable (src_reader s) ∧ off + len ≤ zlen (src s)) →
  op_spec good s (read_src off len s) (fun d s' w =>
    w = [] ∧ same_ptrs s s' ∧ off + len ≤ zlen (src s) ∧ d = slice off len (src s)).
Proof.
  intros Hs Ho Hl Hg. unfold read_src.
  pose proof (sr_read_law (src_reader s) off len (pok_reader s Hs) Ho Hl) as Hr.
  destruct (sr_read_at off len (src_reader s)) as [o r]. destruct Hr as [Hr1 Hr2 Hr3 Hr4 Hr5 Hr6].
  cbn in *. destruct o as [d|e| |]; cbn; try done.
  - exists []. split; [|split_and!; try done; naive_solver].
    destruct Hs. split; cbn; try done. by rewrite app_nil_r.
  - intros Hgood. destruct (Hg Hgood). destruct Hr6 as [? ?]; done.
Qed.

Lemma spec_write good s bs buf :
  pok s → 0 < bs → zlen buf = bs →
  (good → zlen (f_data (output s)) + bs ≤ f_cap (output s)) →
  op_spec good s (write_out bs buf s) (fun _ s' w => w = buf ∧ same_ptrs s s').
Proof.
  intros Hs Hbs Hb Hg. destruct Hs as [Hr Hroom Ho Hd Hl]. unfold write_out, f_cap in *.
  destruct (decide (zlen buf ≤ f_room (output s))) as [Hfit|Hno].
  - rewrite fwrite_fits by done. rewrite Hb, Z.eqb_refl. cbn. exists buf.
    split; [|done]. split; cbn; try done; unfold f_cap; cbn;
      rewrite ?zlen_app; try lia. split; cbn; try done. lia.
  - destruct (fwrite_short buf (output s)) as (f' & -> & _ & Hne);
      [intros ->; by cbn in Hb; subst bs | lia |].
    destruct (Z.eqb_spec (Z.max 0 (f_room (output s))) bs); [lia|]. cbn.
    intros Hgood. specialize (Hg Hgood). lia.
Qed.

Lemma spec_ops {A} good s (rd : bytes → outcome (A * bytes)) (P : A → bytes → Prop) :
  pok s →
  match rd (op_ptr s) with
  | Ok (a, p) => P a p ∧ bytes_ok p ∧ (length p ≤ length (op_ptr s))%nat
  | Err _ => ¬ good
  | _ => False
  end →
  op_spec good s (from_ops rd s) (fun a s' w =>
    w = [] ∧ P a (op_ptr s') ∧ diff_ptr s' = diff_ptr s ∧ lit_ptr s' = lit_ptr s).
Proof.
  intros [] Hrd. unfold from_ops. destruct (rd (op_ptr s)) as [[a p]|e| |]; try done.
  destruct Hrd as (Hp & Hok & Hlen). cbn. exists []. split; [|done].
  split; cbn; try done. by rewrite app_nil_r.
Qed.

(** * The operations *)

Section Ops.
Context (bs dbs : Z) (Hbs : 32 ≤ bs ≤ 2 ^ 24) (Hdbs : 0 ≤ dbs) (Hmax : dbs * bs ≤ INT64_MAX).

(** [good] needs room for [n] more bytes of output. *)
Definition room (good : Prop) (s : pstate R) (n : Z) : Prop :=
  good → zlen (f_data (output s)) + n ≤ f_cap (output s).

Lemma room_step good s s' w n k :
  step s s' w → room good s n → zlen w + k ≤ n → room good s' k.
Proof.
  intros Hst Hr Hk Hg. specialize (Hr Hg).
  rewrite (step_data _ _ _ Hst), (step_cap _ _ _ Hst), zlen_app. lia.
Qed.

Definition reliable (good : Prop) (s : pstate R) : Prop := good → sr_reliable (src_reader s).

Lemma reliable_step good s s' w : step s s' w → reliable good s → reliable good s'.
Proof. intros Hst Hr Hg. apply (step_reliable _ _ _ Hst), Hr, Hg. Qed.

Lemma same_ptrs_trans s1 s2 s3 : same_ptrs s1 s2 → same_ptrs s2 s3 → same_ptrs s1 s3.
Proof. unfold same_ptrs. intros (?&?&?) (?&?&?). split_and!; congruence. Qed.

(** A source block is read and written out: the common tail of the copy loops. *)
Lemma spec_copy_block good s off (k : ST (pstate R) unit) Q :
  pok s → 0 ≤ off → reliable good s → room good s bs →
  (good → off + bs ≤ zlen (src s)) →
  (∀ s', step s s' (slice off bs (src s)) → same_ptrs s s' → off + bs ≤ zlen (src s) →
     op_spec good s' (k s') (fun b s'' w' => Q b s'' (slice off bs (src s) ++ w'))) →
  op_spec good s ((buf ← read_src off bs; write_out bs buf;; k) s) Q.
Proof.
  intros Hs Ho Hrel Hroom Hg Hk.
  eapply spec_bind; [apply spec_read; [done..| lia | auto] |].
  intros d s1 w1 Hst1 (-> & Hp1 & Hin & ->).
  eapply spec_bind; [apply spec_write; [apply Hst1 | lia | by apply zlen_slice; lia |] |].
  { apply (room_step good s s1 [] bs bs Hst1); [done | change (zlen (@nil Z)) with 0; lia]. }
  intros [] s2 w2 Hst2 (-> & Hp2). cbn [app].
  apply Hk; [|by eapply same_ptrs_trans | done].
  change (slice off bs (src s)) with ([] ++ slice off bs (src s)).
  by apply (step_trans s s1 s2).
Qed.

Lemma spec_copy_identity good n : ∀ i s,
  pok s → 0 ≤ dest_block s → 0 ≤ i → dest_block s + i + Z.of_nat n ≤ dbs →
  reliable good s → room good s (Z.of_nat n * bs) →
  (good → (dest_block s + i + Z.of_nat n) * bs ≤ zlen (src s)) →
  op_spec good s (copy_identity bs n i s) (fun _ s' w =>
    same_ptrs s s' ∧ zlen w = Z.of_nat n * bs ∧
    w = slice ((dest_block s + i) * bs) (Z.of_nat n * bs) (src s)).
Proof.
  induction n as [|n IH]; intros i s Hs Hd Hi Hn Hrel Hroom Hg; cbn [copy_identity].
  { by apply spec_ret. }
  assert (INT64_MAX = 2 ^ 63 - 1) as EM by done.
  apply spec_get. cbv zeta.
  assert (0 ≤ (dest_block s + i) * bs) by nia.
  assert ((dest_block s + i) * bs + bs ≤ dbs * bs) by nia.
  rewrite (wrap_small 64 ((dest_block s + i) * bs)) by lia.
  rewrite (wrap_small 64 (_ + bs)) by lia.
  rewrite (proj1 (sr_size_law (src_reader s) (pok_reader s Hs))).
  apply spec_when; [intros Hgood; specialize (Hg Hgood); apply Z.ltb_ge; nia|].
  intros Hin. apply Z.ltb_ge in Hin.
  apply spec_copy_block; [done | nia | done | intros Hgood; specialize (Hroom Hgood); nia
                         | intros Hgood; specialize (Hg Hgood); nia |].
  intros s' Hst Hp _. assert (zlen (slice ((dest_block s + i) * bs) bs (src s)) = bs) as Hz
    by (apply zlen_slice; nia).
  eapply spec_weaken; [apply (IH (i + 1) s')|].
  - apply Hst.
  - by rewrite (step_dest _ _ _ Hst).
  - lia.
  - rewrite (step_dest _ _ _ Hst). lia.
  - by eapply reliable_step.
  - eapply room_step; [done..|]. nia.
  - rewrite (step_dest _ _ _ Hst), (step_src _ _ _ Hst). intros Hgood. specialize (Hg Hgood). nia.
  - intros [] s2 w _ (Hp2 & Hzw & ->). rewrite (step_dest _ _ _ Hst), (step_src _ _ _ Hst) in *.
    split; [by eapply same_ptrs_trans|].
    replace (Z.of_nat (S n) * bs) with (bs + Z.of_nat n * bs) by lia.
    rewrite zlen_app, Hz, Hzw. split; [done|].
    rewrite slice_app_add by nia. do 2 f_equal. lia.
Qed.

Lemma spec_copy_relocate good n offset : ∀ i s,
  pok s → 0 ≤ dest_block s → 0 ≤ i → dest_block s + i + Z.of_nat n ≤ dbs →
  - UINT32_MAX ≤ offset ≤ UINT32_MAX →
  reliable good s → room good s (Z.of_nat n * bs) →
  (good → 0 ≤ dest_block s + i + offset ∧
          (dest_block s + i + offset + Z.of_nat n) * bs ≤ zlen (src s)) →
  op_spec good s (copy_relocate bs n i offset s) (fun _ s' w =>
    same_ptrs s s' ∧ zlen w = Z.of_nat n * bs ∧
    w = slice ((dest_block s + i + offset) * bs) (Z.of_nat n * bs) (src s)).
Proof.
  induction n as [|n IH]; intros i s Hs Hd Hi Hn Hoff Hrel Hroom Hg; cbn [copy_relocate].
  { by apply spec_ret. }
  assert (INT64_MAX = 2 ^ 63 - 1) as EM by done. unfold UINT32_MAX in *.
  apply spec_get. cbv zeta. set (b := dest_block s + i) in *.
  assert (0 ≤ b * bs) by nia. assert (b * bs + bs ≤ dbs * bs) by nia.
  assert (0 ≤ Z.of_nat n * bs) by nia.
  replace (Z.of_nat (S n) * bs) with (bs + Z.of_nat n * bs) in * by lia.
  replace ((b + offset + Z.of_nat (S n)) * bs)
    with ((b + offset) * bs + bs + Z.of_nat n * bs) in * by lia.
  assert (b ≤ 2 ^ 58) by nia. assert (offset * bs ≤ 2 ^ 32 * 2 ^ 24) by nia.
  rewrite (sgn_small 64 b) by lia. rewrite (chk64_ok (b + offset)) by (unfold INT64_MIN; lia).
  apply spec_lift.
  apply spec_when; [intros Hgood; specialize (Hg Hgood); apply Z.ltb_ge; lia|].
  intros Hneg. apply Z.ltb_ge in Hneg.
  assert (0 ≤ (b + offset) * bs) by nia. assert ((b + offset) * bs + bs < 2 ^ 64) by lia.
  rewrite (wrap_small 64 (_ * _)) by lia. rewrite (wrap_small 64 (_ + bs)) by lia.
  rewrite (proj1 (sr_size_law (src_reader s) (pok_reader s Hs))).
  apply spec_when; [intros Hgood; specialize (Hg Hgood); apply Z.ltb_ge; lia|].
  intros Hin. apply Z.ltb_ge in Hin.
  apply spec_copy_block; [done | lia | done | intros Hgood; specialize (Hroom Hgood); lia
                         | intros Hgood; specialize (Hg Hgood); lia |].
  intros s' Hst Hp _. assert (zlen (slice ((b + offset) * bs) bs (src s)) = bs) as Hz
    by (apply zlen_slice; lia).
  pose proof (step_dest _ _ _ Hst) as Ed. pose proof (step_src _ _ _ Hst) as Es.
  eapply spec_weaken; [apply (IH (i + 1) s'); rewrite ?Ed, ?Es; subst b; try lia|].
  - apply Hst.
  - by eapply reliable_step.
  - eapply room_step; [done..|]. lia.
  - intros Hgood. specialize (Hg Hgood). lia.
  - intros [] s2 w _ (Hp2 & Hzw & ->). rewrite Ed, Es in *.
    split; [by eapply same_ptrs_trans|].
    rewrite zlen_app, Hz, Hzw. split; [done|].
    rewrite slice_app_add by lia. do 2 f_equal. subst b. lia.
Qed.

Lemma spec_write_filled good n b : ∀ s,
  pok s → room good s (Z.of_nat n * bs) →
  op_spec good s (write_filled bs n (fill bs b) s) (fun _ s' w =>
    same_ptrs s s' ∧ zlen w = Z.of_nat n * bs ∧ w = fill (Z.of_nat n * bs) b).
Proof.
  induction n as [|n IH]; intros s Hs Hroom; cbn [write_filled].
  { by apply spec_ret. }
  eapply spec_bind; [apply spec_write; [done | lia | by apply zlen_fill; lia |]|].
  { intros Hgood. specialize (Hroom Hgood). nia. }
  intros [] s1 w1 Hst (-> & Hp).
  eapply spec_weaken; [apply IH; [apply Hst|]|].
  { eapply room_step; [done..|]. rewrite zlen_fill; nia. }
  intros [] s2 w _ (Hp2 & Hzw & ->). split; [by eapply same_ptrs_trans|].
  rewrite zlen_app, Hzw, zlen_fill by lia. split; [lia|].
  unfold fill. rewrite <- replicate_add, <- Z2Nat.inj_add by nia. f_equal. lia.
Qed.

Lemma spec_write_literals good n : ∀ s,
  pok s → room good s (Z.of_nat n * bs) →
  (good → Z.of_nat n * bs ≤ zlen (lit_ptr s)) →
  op_spec good s (write_literals bs n s) (fun _ s' w =>
    op_ptr s' = op_ptr s ∧ diff_ptr s' = diff_ptr s ∧
    lit_ptr s = w ++ lit_ptr s' ∧ zlen w = Z.of_nat n * bs).
Proof.
  induction n as [|n IH]; intros s Hs Hroom Hg; cbn [write_literals].
  { by apply spec_ret. }
  apply spec_get.
  apply spec_when; [intros Hgood; specialize (Hg Hgood); apply Z.ltb_ge; nia|].
  intros Hin. apply Z.ltb_ge in Hin. rewrite load_ok by lia. apply spec_lift.
  assert (zlen (slice 0 bs (lit_ptr s)) = bs) as Hz by (apply zlen_slice; lia).
  eapply spec_bind; [apply spec_write; [done | lia | done |]|].
  { intros Hgood. specialize (Hroom Hgood). nia. }
  intros [] s1 w1 Hst (-> & Ho1 & Hd1 & Hl1).
  set (s2 := mkP (op_ptr s1) (diff_ptr s1) (drop (Z.to_nat bs) (lit_ptr s))
               (dest_block s1) (src_reader s1) (output s1) (progress s1)).
  assert (step s1 s2 []) as Hst2.
  { destruct (step_ok _ _ _ Hst). split; cbn; try done; [|by rewrite app_nil_r].
    split; cbn; try done. apply Forall_drop, Hs. }
  eapply spec_bind with (Q1 := fun _ s' w => s' = s2 ∧ w = []); [by exists []|].
  intros [] s' w' _ [-> ->].
  assert (zlen (lit_ptr s2) = zlen (lit_ptr s) - bs) as Hz2 by (subst s2; cbn; zl).
  eapply spec_weaken; [apply (IH s2); [apply Hst2| |]|].
  - eapply room_step; [exact Hst2| |change (zlen (@nil Z)) with 0; apply Z.le_refl].
    eapply room_step; [exact Hst | exact Hroom |]. nia.
  - intros Hgood. specialize (Hg Hgood). lia.
  - intros [] s3 w _ (Ho3 & Hd3 & Hl3 & Hzw). subst s2; cbn in *.
    split_and!; try congruence; [|rewrite zlen_app; lia].
    rewrite <- app_assoc, <- Hl3. unfold slice. rewrite drop_0. symmetry. apply take_drop.
Qed.

(** The block loop of COPY_ADD, for any invariant [D] of the diff cursor under
    which one block decodes to bytes that satisfy [E]. *)
Lemma spec_copy_add good byte_offset diff_fmt diff_len region
    (D : Z → bytes → Prop) (E : Z → bytes → Prop) n : ∀ blk cursor s,
  (∀ blk' cursor buf, blk ≤ blk' < blk + Z.of_nat n → D blk' cursor → zlen buf = bs →
     (0 ≤ (dest_block s + blk') * bs + byte_offset →
      buf = slice ((dest_block s + blk') * bs + byte_offset) bs (src s)) →
     match (if diff_fmt =? 0
            then b ← dense_block bs diff_len blk' region buf; Ok (cursor, b)
            else sparse_block (S (length cursor)) bs cursor 0 buf) with
     | Ok (c', b) => D (blk' + 1) c' ∧ zlen b = bs ∧ E blk' b
     | Err _ => ¬ good
     | _ => False
     end) →
  D blk cursor →
  pok s → 0 ≤ dest_block s → 0 ≤ blk → dest_block s + blk + Z.of_nat n ≤ dbs →
  INT32_MIN ≤ byte_offset ≤ INT32_MAX →
  f_cap (output s) ≤ 2 ^ 62 → (dest_block s + blk) * bs ≤ zlen (f_data (output s)) →
  reliable good s → room good s (Z.of_nat n * bs) →
  (good → ∀ j, blk ≤ j < blk + Z.of_nat n →
     0 ≤ (dest_block s + j) * bs + byte_offset ∧
     (dest_block s + j) * bs + byte_offset + bs ≤ zlen (src s)) →
  op_spec good s (copy_add bs n blk byte_offset diff_fmt diff_len region cursor s) (fun _ s' w =>
    same_ptrs s s' ∧ zlen w = Z.of_nat n * bs ∧
    ∃ l, w = concat l ∧ length l = n ∧
         ∀ j b, l !! j = Some b → zlen b = bs ∧ E (blk + Z.of_nat j) b).
Proof.
  induction n as [|n IH]; intros blk cursor s HD Hcur Hs Hd Hi Hn Hoff Hcap Hdata Hrel Hroom Hg;
    cbn [copy_add].
  { apply spec_ret; [done|]. split_and!; try done. by exists []. }
  assert (INT64_MAX = 2 ^ 63 - 1) as EM by done. unfold INT32_MIN, INT32_MAX in *.
  apply spec_get. cbv zeta. set (b := dest_block s + blk) in *.
  assert (0 ≤ b * bs) by nia. assert (b * bs + bs ≤ dbs * bs) by nia.
  assert (zlen (f_data (output s)) ≤ f_cap (output s)) by (unfold f_cap; lia).
  rewrite (wrap_small 64 (b * bs)) by lia. rewrite (sgn_small 64 (b * bs)) by lia.
  rewrite (chk64_ok (b * bs + _)) by (unfold INT64_MIN; lia). apply spec_lift.
  apply spec_when; [intros Hgood; specialize (Hg Hgood blk); apply Z.ltb_ge; lia|].
  intros Hneg. apply Z.ltb_ge in Hneg. rewrite (wrap_small 64 (_ + bs)) by lia.
  rewrite (proj1 (sr_size_law (src_reader s) (pok_reader s Hs))).
  apply spec_when; [intros Hgood; specialize (Hg Hgood blk); apply Z.ltb_ge; lia|].
  intros Hin. apply Z.ltb_ge in Hin.
  eapply spec_bind; [apply spec_read; [done|lia|lia|auto]|].
  intros d s1 w1 Hst1 (-> & Hp1 & _ & ->).
  assert (zlen (slice (b * bs + byte_offset) bs (src s)) = bs) as Hz by (apply zlen_slice; lia).
  apply spec_lift. pose proof (HD blk cursor (slice (b * bs + byte_offset) bs (src s))) as HD0.
  destruct (if diff_fmt =? 0 then _ else _) as [[c' buf]| | |];
    [|apply HD0; [lia | done | done | done]..].
  destruct HD0 as (HD1 & Hzb & HE); [lia | done | done | done |].
  eapply spec_bind; [apply spec_write; [apply Hst1 | lia | done |]|].
  { eapply room_step; [exact Hst1|exact Hroom|]. change (zlen (@nil Z)) with 0. nia. }
  intros [] s2 w2 Hst2 (-> & Hp2).
  assert (step s s2 buf) as Hst by exact (step_trans s s1 s2 [] buf Hst1 Hst2).
  pose proof (step_dest _ _ _ Hst) as Ed. pose proof (step_src _ _ _ Hst) as Es.
  pose proof (step_cap _ _ _ Hst) as Ec.
  eapply spec_weaken; [apply (IH (blk + 1) c' s2); rewrite ?Ed, ?Es, ?Ec; try done; try lia|].
  - intros blk' cursor' buf' Hb'. apply HD. lia.
  - apply Hst.
  - rewrite (step_data _ _ _ Hst), zlen_app. nia.
  - by eapply reliable_step.
  - eapply room_step; [done..|]. nia.
  - intros Hgood j Hj. apply (Hg Hgood). lia.
  - intros [] s3 w _ (Hp3 & Hzw & l & -> & Hl & HlE).
    split; [by eapply same_ptrs_trans; [eapply same_ptrs_trans|]|].
    cbn [app]. rewrite zlen_app. split; [lia|].
    exists (buf :: l). cbn. split_and!; [done | lia |].
    intros [|j] b' Hj; cbn in Hj; simplify_eq.
    + replace (blk + Z.of_nat 0) with blk by lia. done.
    + apply HlE in Hj. replace (blk + Z.of_nat (S j)) with (blk + 1 + Z.of_nat j) by lia. done.
Qed.

(** * Any operation stream *)

Ltac any_input := try done; try lia; try by intros [].

Lemma safe_op_other s ty fb count :
  pok s → 0 ≤ dest_block s → 0 ≤ count → dest_block s + count ≤ dbs →
  op_spec False s (op_other bs ty fb count s) (fun _ _ w => zlen w = count * bs).
Proof.
  intros Hs Hd Hc Hn. unfold op_other. rewrite <- (Z2Nat.id count) in Hn |- * by done.
  set (n := Z.to_nat count) in *. rewrite Nat2Z.id.
  destruct (ty =? _).
  { eapply spec_weaken; [apply spec_copy_identity; any_input|]. by intros ? ? ? _ (_ & ? & _). }
  destruct (ty =? _).
  { eapply spec_bind.
    - apply (spec_ops False s _ (fun v _ => 0 ≤ v ≤ UINT32_MAX)); [done|].
      pose proof (read_reloc_offset_ok (Z.land (Z.shiftr fb 1) 3) _ (pok_op s Hs)) as Hr.
      cbv beta in *. destruct (read_reloc_offset _ _) as [[v p]|e| |]; any_input.
    - intros off s1 w1 Hst1 (-> & Hoff & _). pose proof (step_dest _ _ _ Hst1) as Ed.
      eapply spec_weaken; [apply spec_copy_relocate; rewrite ?Ed; any_input|].
      + apply Hst1.
      + destruct (negb _); lia.
      + by intros ? ? ? _ (_ & ? & _). }
  destruct (ty =? _).
  { eapply spec_weaken; [apply spec_write_filled; any_input|]. by intros ? ? ? _ (_ & ? & _). }
  destruct (ty =? _).
  { eapply spec_weaken; [apply spec_write_filled; any_input|]. by intros ? ? ? _ (_ & ? & _). }
  destruct (ty =? _); [|by intros []].
  eapply spec_weaken; [apply spec_write_literals; any_input|]. by intros ? ? ? _ (_ & _ & _ & ?).
Qed.

(** Taking the diff region of an operation off the diff stream. *)
Lemma spec_take_diff {B} good s len (k : bytes → ST (pstate R) B) Q :
  pok s → 0 ≤ len ≤ zlen (diff_ptr s) →
  (∀ s', step s s' [] → op_ptr s' = op_ptr s → diff_ptr s' = drop (Z.to_nat len) (diff_ptr s) →
     lit_ptr s' = lit_ptr s → op_spec good s' (k (slice 0 len (diff_ptr s)) s') Q) →
  op_spec good s ((region ← st_lift (load 0 len (diff_ptr s));
                   set_diff (drop (Z.to_nat len) (diff_ptr s));; k region) s) Q.
Proof.
  intros Hs Hlen Hk. rewrite load_ok by lia. apply spec_lift.
  set (s' := mkP (op_ptr s) (drop (Z.to_nat len) (diff_ptr s)) (lit_ptr s) (dest_block s) (src_reader s) (output s)
               (progress s)).
  assert (step s s' []) as Hst.
  { destruct Hs. split; cbn; try done; [|by rewrite app_nil_r]. split; cbn; try done. by apply Forall_drop. }
  eapply spec_bind with (Q1 := fun _ s1 w => s1 = s' ∧ w = []); [by exists []|].
  intros [] s1 w _ [-> ->]. by apply Hk.
Qed.

Lemma safe_op_copy_add s fb :
  pok s → 0 ≤ dest_block s ≤ dbs → f_cap (output s) ≤ 2 ^ 62 →
  dest_block s * bs ≤ zlen (f_data (output s)) →
  op_spec False s (op_copy_add bs dbs fb s) (fun count _ w =>
    0 ≤ count ∧ dest_block s + count ≤ dbs ∧ zlen w = count * bs).
Proof.
  intros Hs Hd Hcap Hdata. unfold op_copy_add. cbv zeta. apply spec_when; [by intros []|]. intros _.
  eapply spec_bind.
  { apply (spec_ops False s _ (fun v _ => INT32_MIN ≤ v ≤ INT32_MAX)); [done|].
    pose proof (read_byte_offset_ok (Z.land (Z.shiftr fb 1) 3) _ (pok_op s Hs)).
    cbv beta in *. destruct (read_byte_offset _ _) as [[v p]|e| |]; any_input. }
  intros off s1 w1 Hst1 (-> & Hoff & _).
  eapply spec_bind.
  { apply (spec_ops False s1 _ (fun v _ => 0 ≤ v ≤ UINT32_MAX)); [apply Hst1|].
    pose proof (read_add_count_ok (Z.land (Z.shiftr fb 3) 3) _ (pok_op _ (step_ok _ _ _ Hst1))).
    cbv beta in *. destruct (read_add_count _ _) as [[v p]|e| |]; any_input. }
  intros count s2 w2 Hst2 (-> & Hcount & _).
  pose proof (step_trans _ _ _ _ _ Hst1 Hst2) as Hst12. clear Hst1 Hst2.
  apply spec_get. apply spec_when; [by intros []|]. intros Hb. apply Z.ltb_ge in Hb.
  rewrite (step_dest _ _ _ Hst12), wrap_small in Hb by (unfold INT64_MAX in *; nia).
  eapply spec_bind.
  { apply (spec_ops False s2 _ (fun v _ => 0 ≤ v ≤ UINT32_MAX)); [apply Hst12|].
    pose proof (read_diff_len_ok _ (pok_op _ (step_ok _ _ _ Hst12))).
    cbv beta in *. destruct (read_diff_len _) as [[v p]|e| |]; any_input. }
  intros dlen s3 w3 Hst3 (-> & Hdlen & _).
  pose proof (step_trans _ _ _ _ _ Hst12 Hst3) as Hst. clear Hst12 Hst3.
  apply spec_get. apply spec_when; [by intros []|]. intros Hdl. apply Z.ltb_ge in Hdl.
  apply spec_take_diff; [apply Hst|lia|]. intros s4 Hst4 _ _ _.
  set (region := slice 0 dlen (diff_ptr s3)).
  assert (dlen = zlen region) as Hreg by (symmetry; apply zlen_slice; lia).
  assert (bytes_ok region) as Hrok by apply bytes_ok_slice, Hst.
  pose proof (step_trans _ _ _ _ _ Hst Hst4) as Hst5. clear Hst Hst4. cbn [app] in Hst5.
  pose proof (step_dest _ _ _ Hst5) as Ed. pose proof (step_cap _ _ _ Hst5) as Ec.
  eapply spec_bind.
  { apply (spec_copy_add False off (Z.land fb 1) dlen region
             (fun _ c => bytes_ok c) (fun _ _ => True)); rewrite ?Ed, ?Ec; any_input.
    - intros blk c buf _ Hc Hbuf _. destruct (Z.land fb 1 =? 0).
      + pose proof (dense_block_safe bs dlen blk region buf ltac:(lia) Hreg Hbuf) as Hds.
        destruct (dense_block _ _ _ _ _) as [b| | |]; cbn; done || tauto.
      + pose proof (sparse_block_safe (S (length c)) bs c 0 buf) as Hss.
        destruct (sparse_block _ _ _ _ _) as [[c' b]| | |]; try tauto; try (apply Hss; done || lia).
        destruct Hss as [? ?]; [lia | done | lia | done | done].
    - apply Hst5.
    - rewrite (step_data _ _ _ Hst5), app_nil_r. lia. }
  intros [] s5 w5 Hst6 (_ & Hz & _). apply spec_ret; [apply Hst6|].
  cbn [app]. rewrite app_nil_r. split_and!; lia.
Qed.

(** * The loop *)

Context (hp : bool).

(** Between two operations: exactly [dest_block] blocks have been written after
    [out0], and the reports so far are in order. *)
Record loop_inv (out0 : bytes) (s : pstate R) : Prop := {
  li_ok : pok s;
  li_range : 0 ≤ dest_block s ≤ dbs;
  li_cap : f_cap (output s) ≤ 2 ^ 62;
  li_data : ∃ w, f_data (output s) = out0 ++ w ∧ zlen w = dest_block s * bs;
  li_progress : ∃ ds : list Z, progress s = ((fun d => (d, dbs)) <$> ds) ∧
    StronglySorted Z.le (ds ++ [dest_block s]) ∧
    (hp = true → dest_block s = 0 ∨ list.last ds = Some (dest_block s))
}.

Definition loop_post (out0 : bytes) (s : pstate R) (rs : outcome unit * pstate R) : Prop :=
  match rs with
  | (Ok _, s') => loop_inv out0 s' ∧ (length (op_ptr s') ≤ length (op_ptr s))%nat
  | (Err _, _) => True
  | _ => False
  end.

Lemma loop_inv_advance out0 s s' w count :
  loop_inv out0 s → step s s' w → 0 ≤ count → dest_block s + count ≤ dbs →
  zlen w = count * bs → loop_post out0 s (advance dbs hp count s').
Proof.
  intros [Hok Hr Hc (v & Hd & Hv) (ds & Hp & Hsort & Hlast)] Hst Hc0 Hn Hz.
  destruct Hst as [Hok' Es _ Ed Edat Ec Ho Ep]. unfold advance. cbn.
  assert (INT64_MAX = 2 ^ 63 - 1) as EM by done.
  rewrite Ed, wrap_small by nia. split; [|done].
  split; cbn; [by destruct Hok' | lia | by rewrite Ec | |].
  - exists (v ++ w). rewrite Edat, Hd, app_assoc. split; [done|]. rewrite zlen_app. lia.
  - rewrite Ep, Hp. apply StronglySorted_snoc in Hsort as [Hs Hf].
    assert (Forall (fun y => y ≤ dest_block s + count) ds) as Hf'.
    { eapply Forall_impl; [|exact Hf]. cbn. lia. }
    destruct hp.
    + exists (ds ++ [dest_block s + count]). rewrite fmap_app. split; [done|].
      split; [|intros _; right; by rewrite list.last_snoc].
      rewrite !StronglySorted_snoc. split_and!; try done.
      apply Forall_app. split; [done | constructor; [cbn; lia | done]].
    + exists ds. split; [done|]. split; [by apply StronglySorted_snoc | done].
Qed.

Lemma spec_advance out0 s {m : ST (pstate R) Z} :
  loop_inv out0 s →
  op_spec False s (m s) (fun count _ w =>
    0 ≤ count ∧ dest_block s + count ≤ dbs ∧ zlen w = count * bs) →
  loop_post out0 s ((count ← m; advance dbs hp count) s).
Proof.
  intros Hinv Hm. unfold mbind, ST_bind, op_spec in *.
  destruct (m s) as [[count|e| |] s']; try done.
  destruct Hm as (w & Hst & ? & ? & ?). by eapply loop_inv_advance.
Qed.

Lemma process_op_safe out0 fb s :
  loop_inv out0 s → loop_post out0 s (process_op bs dbs hp fb s).
Proof.
  intros Hinv. unfold process_op. apply spec_advance; [done|].
  pose proof Hinv as [Hok Hr Hc (v & Hd & Hv) _].
  destruct (negb _).
  - eapply spec_bind.
    { apply (spec_ops False s _ (fun v _ => 0 ≤ v ≤ UINT32_MAX)); [done|].
      pose proof (read_count_ok fb _ (pok_op s Hok)).
      cbv beta in *. destruct (read_count _ _) as [[? ?]| | |]; any_input. }
    intros count s1 w1 Hst1 (-> & Hcount & _). pose proof (step_dest _ _ _ Hst1) as Ed.
    apply spec_get. apply spec_when; [by intros []|]. intros Hb. apply Z.ltb_ge in Hb.
    rewrite Ed, wrap_small in Hb by (unfold INT64_MAX in *; nia).
    eapply spec_bind; [apply safe_op_other; [apply Hst1 | lia..]|].
    intros [] s2 w2 Hst2 Hz. apply spec_ret; [apply Hst2|].
    cbn [app]. rewrite app_nil_r. split_and!; [lia | lia | done].
  - apply safe_op_copy_add; [done.. |]. rewrite Hd, zlen_app. pose proof (zlen_nonneg out0). lia.
Qed.

Lemma op_loop_safe out0 fuel : ∀ s,
  (length (op_ptr s) < fuel)%nat → loop_inv out0 s →
  loop_post out0 s (op_loop bs dbs hp fuel s).
Proof.
  induction fuel as [|fuel IH]; intros s Hf Hinv; [lia|]. cbn [op_loop].
  destruct (Z.leb_spec dbs (dest_block s)); [done|].
  destruct (op_ptr s) as [|fb p] eqn:Ep; [by cbn; rewrite Ep|].
  set (s1 := mkP p (diff_ptr s) (lit_ptr s) (dest_block s) (src_reader s) (output s) (progress s)).
  change (loop_post out0 s ((process_op bs dbs hp fb ;; op_loop bs dbs hp fuel) s1)).
  assert (loop_inv out0 s1) as Hinv1.
  { destruct Hinv as [[] ? ? ? ?]. split; cbn; try done. split; cbn; try done.
    rewrite Ep in *. by bytes_split. }
  pose proof (process_op_safe out0 fb s1 Hinv1) as Hp. unfold mbind, ST_bind.
  unfold loop_post in *. rewrite Ep in *. cbn [length] in *.
  destruct (process_op bs dbs hp fb s1) as [[u|e| |] s2]; try done.
  destruct Hp as [Hinv2 Hlen]. cbn in Hlen.
  specialize (IH s2 ltac:(lia) Hinv2).
  destruct (op_loop bs dbs hp fuel s2) as [[u'|e| |] s3]; try done.
  destruct IH. split; [done | lia].
Qed.

Lemma apply_ops_safe out0 s :
  loop_inv out0 s →
  match apply_ops bs dbs hp s with
  | (Ok _, s') => loop_inv out0 s' ∧ dest_block s' = dbs
  | (Err _, _) => True
  | _ => False
  end.
Proof.
  intros Hinv. unfold apply_ops, st_get, mbind, ST_bind.
  pose proof (op_loop_safe out0 (S (length (op_ptr s))) s ltac:(lia) Hinv) as Hl.
  unfold loop_post in Hl. destruct (op_loop _ _ _ _ _) as [[u|e| |] s1]; try done.
  destruct (Z.eqb_spec (dest_block s1) dbs); cbn; [|done]. by destruct Hl.
Qed.

End Ops.
End Spec.

(** * fsd_patch_apply *)

(** The block size of a header, and the limits the checks before the loop give. *)
Definition header_block_size (h : fsd_header_t) : Z := Z.shiftl 1 (block_size_log2 h).

Lemma header_block_size_range h :
  5 ≤ block_size_log2 h ≤ 24 → 32 ≤ header_block_size h ≤ 2 ^ 24.
Proof.
  intros. unfold header_block_size. rewrite Z.shiftl_mul_pow2, Z.mul_1_l by lia.
  split; [apply (Z.pow_le_mono_r 2 5); lia | apply Z.pow_le_mono_r; lia].
Qed.

Lemma open_streams_spec patch :
  (∀ p, patch = Some p → bytes_ok p) →
  match open_streams patch with
  | Ok (h, bs, ops, diffs, lits) =>
      ∃ p, patch = Some p ∧ fsd_header_read_memory (Some p) (zlen p) = Ok h ∧
      bs = header_block_size h ∧ 32 ≤ bs ≤ 2 ^ 24 ∧ 0 ≤ dest_blocks h ∧
      dest_blocks h * bs ≤ INT64_MAX ∧ bytes_ok ops ∧ bytes_ok diffs ∧ bytes_ok lits ∧
      drop (Z.to_nat FSD_HEADER_SIZE) p = ops ++ diffs ++ lits ∧
      zlen ops = op_stream_len h ∧ zlen diffs = diff_stream_len h
  | Err _ => True
  | _ => False
  end.
Proof.
  intros Hp. unfold open_streams. destruct patch as [p|]; [|done].
  change (default [] (Some p)) with p. cbv zeta.
  specialize (Hp p eq_refl).
  pose proof (header_read_defined p (zlen p) ltac:(lia) Hp) as Hd.
  destruct (fsd_header_read_memory (Some p) (zlen p)) as [h|e| |] eqn:Eh; try done.
  cbn [mbind outcome_bind].
  destruct (header_read_inv p h Hp Eh) as (_ & Hbl & Hdb & Hol & Hdl & _).
  pose proof (header_block_size_range h Hbl) as Hbs. unfold header_block_size in Hbs.
  set (bs := Z.shiftl 1 (block_size_log2 h)) in *.
  case_bool; [done|]. case_bool; [done|]. case_bool; [done|]. case_bool; [done|].
  exists p. unfold u64_ok in *.
  set (q := drop _ p). set (q2 := drop _ q).
  assert (zlen q = zlen p - FSD_HEADER_SIZE) as Hq by (subst q; unfold FSD_HEADER_SIZE in *; zl).
  assert (zlen q2 = zlen q - op_stream_len h) as Hq2 by (subst q2; zl).
  assert (bytes_ok q) by by apply Forall_drop. assert (bytes_ok q2) by by apply Forall_drop.
  split_and!; try done; try lia.
  - pose proof (Z.mul_div_le INT64_MAX bs). nia.
  - by apply Forall_take.
  - by apply Forall_take.
  - by apply Forall_drop.
  - rewrite (take_drop (Z.to_nat (diff_stream_len h))). symmetry. apply take_drop.
  - zl.
  - zl.
Qed.

(** The surroundings of one run: an open source satisfies the reader's
    interface, the patch is made of bytes, the output is freshly truncated and no
    larger than a file can be. *)
Record env_ok {R} `{SourceReaderSpec R} (env : patch_env R) : Prop := {
  eo_source : defined (pe_source env);
  eo_reader r : pe_source env = Ok r → sr_ok r;
  eo_patch : defined (pe_patch env);
  eo_bytes p : pe_patch env = Ok (Some p) → bytes_ok p;
  eo_empty f : pe_fopen env = Some f → f_data f = [];
  eo_room f : pe_fopen env = Some f → 0 ≤ f_room f ≤ 2 ^ 62
}.

Section Top.
Context {R : Type} {SR : SourceReader R} {SRS : SourceReaderSpec R} {SRL : SourceReaderLaws R}.
Implicit Types env : patch_env R.

(** A run either stops before the operation loop, with an error and no output
    beyond an empty file, or runs the loop from its initial state. *)
Lemma patch_apply_cases env :
  env_ok env →
  (∃ e, pr_status (fsd_patch_apply env) = Err e) ∨
  ∃ p h ops diffs lits r out,
    pe_source env = Ok r ∧ pe_patch env = Ok (Some p) ∧ pe_fopen env = Some out ∧
    open_streams (Some p) = Ok (h, header_block_size h, ops, diffs, lits) ∧
    loop_inv (header_block_size h) (dest_blocks h) (pe_has_progress env) []
      (mkP ops diffs lits 0 r out []) ∧
    32 ≤ header_block_size h ≤ 2 ^ 24 ∧ 0 ≤ dest_blocks h ∧
    dest_blocks h * header_block_size h ≤ INT64_MAX ∧
    fsd_header_read_memory (Some p) (zlen p) = Ok h ∧
    fsd_patch_apply env =
      let '(r, s) := apply_ops (header_block_size h) (dest_blocks h) (pe_has_progress env)
                       (mkP ops diffs lits 0 r out []) in
      mkResult r (Some (output s)) (match r with Ok _ => false | _ => pe_output_regular env end)
        (progress s).
Proof.
  intros []. unfold fsd_patch_apply.
  destruct (pe_source env) as [r|e| |] eqn:Es; try done; [|left; by eexists].
  destruct (pe_patch env) as [patch|e| |] eqn:Ep; try done; [|left; by eexists].
  pose proof (open_streams_spec patch) as Ho.
  destruct (open_streams patch) as [[[[[h bs] ops] diffs] lits]|e| |] eqn:Eo;
    [| left; by eexists | naive_solver..].
  destruct Ho as (p & -> & Hh & -> & Hbs & Hdb & Hm & Hops & Hdiffs & Hlits & _ & _ & _);
    [naive_solver|].
  destruct (pe_fopen env) as [out|] eqn:Ef; [|left; by eexists].
  destruct (negb _); [left; by eexists|]. right.
  exists p, h, ops, diffs, lits, r, out. split_and!; try done; try lia.
  split; cbn; try lia.
  - split; cbn; try done; [by apply eo_reader0 | by apply eo_room0].
  - unfold f_cap. rewrite (eo_empty0 out eq_refl). change (zlen (@nil Z)) with 0.
    specialize (eo_room0 out eq_refl). lia.
  - exists []. by rewrite (eo_empty0 out eq_refl).
  - exists []. split; [done|]. split; [repeat constructor | by left].
Qed.

(** C5: applying any patch file, however malformed, terminates without undefined
    behaviour: no read or write outside a buffer, no signed overflow, no loop
    that does not end. *)
Theorem patch_apply_safe env :
  env_ok env → defined (pr_status (fsd_patch_apply env)).
Proof.
  intros Hok. destruct (patch_apply_cases env Hok)
    as [[e ->]|(p & h & ops & diffs & lits & r & out & _ & _ & _ & _ & Hinv & Hbs & Hdb & Hm & _ & ->)];
    [done|].
  pose proof (apply_ops_safe _ _ Hbs Hdb Hm _ [] _ Hinv) as Ha.
  destruct (apply_ops _ _ _ _) as [[u|e| |] s]; done.
Qed.

(** C6: when applying a patch succeeds, the output file is exactly
    [dest_blocks * block_size] bytes long, which is also what
    fsd_patch_output_size announces for the patch, and the progress reports rise
    to [dest_blocks]. *)
Theorem patch_apply_exact_size env p :
  env_ok env → pe_patch env = Ok (Some p) → pr_status (fsd_patch_apply env) = Ok tt →
  ∃ h f, fsd_header_read_memory (Some p) (zlen p) = Ok h ∧
    pr_output (fsd_patch_apply env) = Some f ∧
    zlen (f_data f) = dest_blocks h * header_block_size h ∧
    fsd_patch_output_size (Some (file_of p)) = Ok (zlen (f_data f)) ∧
    pr_unlinked (fsd_patch_apply env) = false ∧
    ∃ ds, pr_progress (fsd_patch_apply env) = ((fun d => (d, dest_blocks h)) <$> ds) ∧
      StronglySorted Z.le (ds ++ [dest_blocks h]) ∧
      (pe_has_progress env = true → dest_blocks h = 0 ∨ list.last ds = Some (dest_blocks h)).
Proof.
  intros Hok Hp. destruct (patch_apply_cases env Hok)
    as [[e ->]|(p' & h & ops & diffs & lits & r & out & _ & Hp' & _ & _ & Hinv & Hbs & Hdb & Hm & Hh & ->)];
    [done|].
  rewrite Hp in Hp'. injection Hp' as <-.
  pose proof (apply_ops_safe _ _ Hbs Hdb Hm _ [] _ Hinv) as Ha.
  destruct (apply_ops _ _ _ _) as [o s].
  cbn [pr_status pr_output pr_unlinked pr_progress]. intros ->. destruct Ha as [[_ _ _ (w & Hw & Hz) Hpr] Hd]. rewrite Hd in *. cbn [app] in Hw.
  exists h, (output s). rewrite Hw. split_and!; try done.
  unfold fsd_patch_output_size.
  change (fsd_patch_read_header _) with (fst (fsd_header_read (Some (file_of p)))).
  rewrite (header_read_file p h (eo_bytes env Hok p Hp) Hh). cbn [mbind outcome_bind].
  fold (header_block_size h). rewrite Hz. assert (INT64_MAX ≤ UINT64_MAX) by done.
  destruct (Z.ltb_spec (UINT64_MAX / header_block_size h) (dest_blocks h)) as [Hlt|].
  - assert (dest_blocks h ≤ UINT64_MAX / header_block_size h)
      by (apply Z.div_le_lower_bound; lia). lia.
  - rewrite wrap_small; [done|]. unfold INT64_MAX in *. nia.
Qed.
End Top.

(** A small run: one zero block, then one block copied from the source. *)
Definition demo_source : fsd_source_reader :=
  mkReader FSD_BACKEND_MMAP 64 (Some (fill 64 7)) no_device 0 [] 0 0 0 None.

Definition demo_patch : bytes := header_buf 2 5 2 0 ++ [88; 24].

Definition demo_env : patch_env fsd_source_reader :=
  mkEnv (Ok demo_source) (Ok (Some demo_patch)) true (Some (file_new 1000)) (fun _ => true) true.

Lemma demo_env_ok : env_ok demo_env.
Proof.
  split; try done.
  - intros r [= <-]. split; try done. by apply bytes_okb.
  - intros p [= <-]. by apply bytes_okb.
  - by intros f [= <-].
  - intros f [= <-]. done.
Qed.

Lemma patch_apply_safe_witness : defined (pr_status (fsd_patch_apply demo_env)).
Proof. exact (patch_apply_safe demo_env demo_env_ok). Defined.

Lemma patch_apply_exact_size_witness :
  ∃ h f, fsd_header_read_memory (Some demo_patch) (zlen demo_patch) = Ok h ∧
    pr_output (fsd_patch_apply demo_env) = Some f ∧
    zlen (f_data f) = dest_blocks h * header_block_size h ∧
    fsd_patch_output_size (Some (file_of demo_patch)) = Ok (zlen (f_data f)) ∧
    pr_unlinked (fsd_patch_apply demo_env) = false ∧
    ∃ ds, pr_progress (fsd_patch_apply demo_env) = ((fun d => (d, dest_blocks h)) <$> ds) ∧
      StronglySorted Z.le (ds ++ [dest_blocks h]) ∧
      (pe_has_progress demo_env = true → dest_blocks h = 0 ∨ list.last ds = Some (dest_blocks h)).
Proof.
  apply (patch_apply_exact_size demo_env demo_patch demo_env_ok); vm_compute; reflexivity.
Defined.
