(* ===== verification/PatchClose.v ===== *)
(** What the patcher makes of fclose (src/patch.c).

    stdio hands the last bytes of a stream to the system in fclose, so that a full
    disk can show up there and nowhere else; src/diff.c says so and checks.
    fsd_patch_apply closes its output without looking at the answer.  Shown here:
    a run does not depend on that answer in any way, so that the output file is
    what the stream was given when the close succeeds, and a run that reports
    success can have lost the end of the file when it does not. *)

From S2P Require Import Prelude Stdio Header Varint Source Patch.
From stdpp Require Import base list numbers tactics.
From Stdlib Require Import ZArith Lia.
Open Scope Z_scope.

(** * Runs that differ in the answer of fclose *)

(** The same stream, whose fclose will answer [b]. *)
Definition closing (b : bool) (f : FILE) : FILE := mkFILE (f_data f) (f_pos f) (f_room f) (f_flush_ok f) b.

Lemma fwrite_closing b d f : fwrite d (closing b f) = (fst (fwrite d f), closing b (snd (fwrite d f))).
Proof. done. Qed.

Section Closing.
Context {R : Type} `{SourceReader R} (b : bool).

Definition state_closing (s : pstate R) : pstate R :=
  mkP (op_ptr s) (diff_ptr s) (lit_ptr s) (dest_block s) (src_reader s) (closing b (output s)) (progress s).

Definition env_closing (env : patch_env R) : patch_env R :=
  mkEnv (pe_source env) (pe_patch env) (pe_output_regular env) (closing b <$> pe_fopen env) (pe_malloc env)
    (pe_has_progress env).

Definition result_closing (r : patch_result) : patch_result :=
  mkResult (pr_status r) (closing b <$> pr_output r) (pr_unlinked r) (pr_progress r).

(** [m] does the same whatever fclose will answer. *)
Definition blind {A} (m : ST (pstate R) A) : Prop :=
  ∀ s, m (state_closing s) = (fst (m s), state_closing (snd (m s))).

Lemma blind_ret {A} (a : A) : blind (mret a).
Proof. done. Qed.

Lemma blind_fail {A} e : blind (st_fail (A := A) e).
Proof. done. Qed.

Lemma blind_lift {A} (m : outcome A) : blind (st_lift m).
Proof. done. Qed.

Lemma blind_bind {A B} (m : ST (pstate R) A) (f : A → ST (pstate R) B) :
  blind m → (∀ a, blind (f a)) → blind (m ≫= f).
Proof.
  intros Hm Hf s. unfold mbind, ST_bind. rewrite Hm. destruct (m s) as [[a|e| |] s']; cbn; [apply Hf|done..].
Qed.

(** The state is looked at, but not at the stream. *)
Lemma blind_get {A} (f : pstate R → ST (pstate R) A) :
  (∀ s, f (state_closing s) = f s) → (∀ s, blind (f s)) → blind (st_get ≫= f).
Proof. intros Hs Hf s. unfold mbind, ST_bind, st_get. rewrite Hs. apply Hf. Qed.

Lemma blind_when c e : blind (when_err (R := R) c e).
Proof. by destruct c. Qed.

Lemma blind_set_op p : blind (set_op (R := R) p).
Proof. done. Qed.

Lemma blind_set_diff p : blind (set_diff (R := R) p).
Proof. done. Qed.

Lemma blind_set_lit p : blind (set_lit (R := R) p).
Proof. done. Qed.

Lemma blind_ops {A} (rd : bytes → outcome (A * bytes)) : blind (from_ops (R := R) rd).
Proof. intros s. unfold from_ops. cbn. by destruct (rd (op_ptr s)) as [[a p]|e| |]. Qed.

Lemma blind_read off len : blind (read_src (R := R) off len).
Proof. intros s. unfold read_src. cbn. by destruct (sr_read_at off len (src_reader s)). Qed.

Lemma blind_write bs buf : blind (write_out (R := R) bs buf).
Proof.
  intros s. unfold write_out. cbn [state_closing output]. rewrite fwrite_closing.
  destruct (fwrite buf (output s)) as [n f]. cbn [fst snd]. by destruct (negb (n =? bs)).
Qed.

Lemma blind_advance dbs hp count : blind (advance (R := R) dbs hp count).
Proof. intros s. unfold advance. cbn. by destruct hp. Qed.

End Closing.

Create HintDb blind.
#[export] Hint Resolve blind_ret blind_fail blind_lift blind_when blind_set_op blind_set_diff blind_set_lit blind_ops
  blind_read blind_write blind_advance : blind.

(** Follow the binds of a program down to the steps above. *)
Ltac blind_steps :=
  lazymatch goal with
  | |- blind _ (mbind _ st_get) => apply blind_get; [done|intros ?; blind_steps]
  | |- blind _ (mbind _ _) => apply blind_bind; [blind_steps|intros ?; blind_steps]
  | |- blind _ (if ?c then _ else _) => destruct c; blind_steps
  | |- blind _ (let '_ := ?x in _) => destruct x; blind_steps
  | |- _ => cbn beta zeta; auto with blind nocore
  end.

Section Blind.
Context {R : Type} `{SourceReader R} (b : bool).

Lemma blind_copy_identity bs n i : blind b (copy_identity (R := R) bs n i).
Proof. revert i. induction n as [|n IH]; intros i; cbn [copy_identity]; blind_steps. Qed.

Lemma blind_copy_relocate bs n i offset : blind b (copy_relocate (R := R) bs n i offset).
Proof. revert i. induction n as [|n IH]; intros i; cbn [copy_relocate]; blind_steps. Qed.

Lemma blind_write_filled bs n buf : blind b (write_filled (R := R) bs n buf).
Proof. induction n as [|n IH]; cbn [write_filled]; blind_steps. Qed.

Lemma blind_write_literals bs n : blind b (write_literals (R := R) bs n).
Proof. induction n as [|n IH]; cbn [write_literals]; blind_steps. Qed.

Lemma blind_copy_add bs n blk bo fmt dl region cursor : blind b (copy_add (R := R) bs n blk bo fmt dl region cursor).
Proof. revert blk cursor. induction n as [|n IH]; intros blk cursor; cbn [copy_add]; blind_steps. Qed.

Hint Resolve blind_copy_identity blind_copy_relocate blind_write_filled blind_write_literals blind_copy_add : blind.

Lemma blind_process_op bs dbs hp first_byte : blind b (process_op (R := R) bs dbs hp first_byte).
Proof.
  unfold process_op, op_copy_add, op_other. cbv zeta. blind_steps.
Qed.

Hint Resolve blind_process_op : blind.

Lemma blind_op_loop bs dbs hp fuel : blind b (op_loop (R := R) bs dbs hp fuel).
Proof.
  induction fuel as [|fuel IH]; intros s; cbn [op_loop]; [done|]. cbn [state_closing dest_block op_ptr].
  destruct (dbs <=? dest_block s); [done|]. destruct (op_ptr s) as [|first_byte p]; [done|].
  assert (Hb : blind b (set_op p;; process_op (R := R) bs dbs hp first_byte;; op_loop bs dbs hp fuel)) by blind_steps.
  apply Hb.
Qed.

Lemma blind_apply_ops bs dbs hp : blind b (apply_ops (R := R) bs dbs hp).
Proof. unfold apply_ops. apply blind_get; [done|intros s]. apply blind_bind; [apply blind_op_loop|intros []]. blind_steps. Qed.

Lemma patch_apply_closing (env : patch_env R) : fsd_patch_apply (env_closing b env) = result_closing b (fsd_patch_apply env).
Proof.
  unfold fsd_patch_apply. cbn [env_closing pe_source pe_patch pe_output_regular pe_fopen pe_malloc pe_has_progress].
  destruct (pe_source env) as [r|e| |]; [|done..]. destruct (pe_patch env) as [p|e| |]; [|done..].
  destruct (open_streams p) as [[[[[h bs] ops] diffs] lits]|e| |]; [|done..].
  destruct (pe_fopen env) as [out|]; [|done]. cbn [fmap option_fmap option_map].
  destruct (negb _); [done|].
  pose proof (blind_apply_ops bs (dest_blocks h) (pe_has_progress env) (mkP ops diffs lits 0 r out [])) as Hb.
  unfold state_closing at 1 in Hb. cbn [op_ptr diff_ptr lit_ptr dest_block src_reader output progress] in Hb.
  rewrite Hb. by destruct (apply_ops bs (dest_blocks h) (pe_has_progress env) (mkP ops diffs lits 0 r out [])) as [r' s].
Qed.

End Blind.

(** * The file that is left *)

Section Left.
Context {R : Type} `{SourceReader R}.
Implicit Types env : patch_env R.

(** The stream is closed with the answer it was opened with. *)
Lemma patch_apply_keeps_close env out f :
  pe_fopen env = Some out → pr_output (fsd_patch_apply env) = Some f → fclose f = fclose out.
Proof.
  intros Ho Hf. pose proof (patch_apply_closing (fclose out) env) as Hc.
  assert (Henv : env_closing (fclose out) env = env).
  { destruct env. unfold env_closing. cbn in *. rewrite Ho. by destruct out. }
  rewrite Henv in Hc. apply (f_equal pr_output) in Hc. cbn in Hc. rewrite Hf in Hc. by injection Hc as ->.
Qed.

Lemma patch_file_left env out d :
  pe_fopen env = Some out → f_data <$> pr_output (fsd_patch_apply env) = Some d →
  pr_file (fsd_patch_apply env) = if fclose out then Some d else None.
Proof.
  intros Ho Hd. unfold pr_file. destruct (pr_output (fsd_patch_apply env)) as [f|] eqn:Hf; [|done].
  injection Hd as <-. cbn. unfold file_left. by rewrite (patch_apply_keeps_close env out f Ho Hf).
Qed.

End Left.
