(* ===== verification/Encoder.v ===== *)
(** The operation encoder: src/src/encoding/operation_encoder.c.

    The encoder walks the block tracker, coalesces runs of blocks that one
    operation can describe, and writes three streams (operations, diff data,
    literals).  The streams are any [ByteSink]; [diff_buf] is the list of its
    bytes filled so far, and a write beyond its allocation is [UB]. *)

From S2P Require Import Prelude Stdio Writer Varint Tracker Source Patch.
From stdpp Require Import base list numbers tactics.
From Stdlib Require Import ZArith Lia.
Open Scope Z_scope.

Definition SPARSE_THRESHOLD_PER_BLOCK : Z := 512.

Record fsd_op_encoder : Type := mkEncoder {
  enc_block_size : Z;
  op_bytes : Z;
  diff_bytes : Z;
  literal_bytes : Z
}.

Definition SIZEOF_ENCODER : Z := 32.

Definition fsd_op_encoder_create (malloc_ok : allocator) (block_size : Z) : outcome fsd_op_encoder :=
  if block_size =? 0 then Err FSD_ERR_INVALID_ARG else
  if negb (malloc_ok SIZEOF_ENCODER) then Err FSD_ERR_OUT_OF_MEMORY else
  Ok (mkEncoder block_size 0 0 0).

(** * Runs of blocks *)

(** while (i + run_count < tracker->count [&& more]) { next = get(i + run_count);
    if (!same(next)) break; run_count++; } *)
Fixpoint run_loop (fuel : nat) (t : fsd_block_tracker_t) (i : Z) (more : Z → bool)
    (same : fsd_block_state_t → Z → outcome bool) (run_count : Z) : outcome Z :=
  match fuel with
  | O => NoFuel
  | S fuel =>
      if (u64 (i + run_count) <? count t) && more run_count then
        match fsd_block_tracker_get t (u64 (i + run_count)) with
        | None => UB
        | Some next =>
            b ← same next (u64 (i + run_count));
            if b : bool then run_loop fuel t i more same (run_count + 1) else Ok run_count
        end
      else Ok run_count
  end.

(** A run has at most as many blocks as the tracker. *)
Definition run_from (t : fsd_block_tracker_t) (i : Z) (more : Z → bool)
    (same : fsd_block_state_t → Z → outcome bool) : outcome Z :=
  run_loop (S (length (blocks t))) t i more same 1.

Definition no_limit (_ : Z) : bool := true.

Definition same_type (m : fsd_match_type_t) (next : fsd_block_state_t) (_ : Z) : outcome bool :=
  Ok (bool_decide (match_type next = m)).

(** (int64_t)src_index - (int64_t)i *)
Definition reloc_offset (st : fsd_block_state_t) (i : Z) : outcome Z :=
  chk64 (s64 (src_index st) - s64 i).

Definition same_reloc (base_offset : Z) (next : fsd_block_state_t) (j : Z) : outcome bool :=
  if bool_decide (match_type next = FSD_MATCH_RELOCATE) then
    next_offset ← reloc_offset next j; Ok (next_offset =? base_offset)
  else Ok false.

(** (int64_t)(src_index * block_size + byte_offset) - (int64_t)(i * block_size) *)
Definition partial_offset (block_size : Z) (st : fsd_block_state_t) (i : Z) : outcome Z :=
  chk64 (s64 (u64 (src_index st * block_size + byte_offset st)) - s64 (u64 (i * block_size))).

Definition same_partial (block_size offset : Z) (next : fsd_block_state_t) (j : Z) : outcome bool :=
  if bool_decide (match_type next = FSD_MATCH_PARTIAL) then
    next_offset ← partial_offset block_size next j; Ok (next_offset =? offset)
  else Ok false.

(** * Diff data of COPY_ADD *)

(** A write to diff_buf, of which [buf] is filled and [cap] allocated. *)
Definition emit (cap : Z) (buf d : bytes) : outcome bytes :=
  if zlen buf + zlen d <=? cap then Ok (buf ++ d) else UB.

(** The non-zero bytes of one block's delta. *)
Definition block_nonzero (block_size : Z) (st : fsd_block_state_t) : outcome Z :=
  match delta st with
  | None => Ok 0
  | Some d =>
      l ← load 0 (Z.min block_size (delta_size st)) d;
      Ok (zlen (filter (fun b => b ≠ 0) l))
  end.

Definition dense_encode (cap block_size : Z) (st : fsd_block_state_t) (buf : bytes) : outcome bytes :=
  match delta st with
  | Some d =>
      if block_size <=? delta_size st
      then l ← load 0 block_size d; emit cap buf l
      else l ← load 0 (delta_size st) d;
           b ← emit cap buf l;
           emit cap b (fill (block_size - delta_size st) 0)
  | None => emit cap buf (fill block_size 0)
  end.

(** !delta || delta[pos] == 0 *)
Definition zero_at (d : option bytes) (pos : Z) : outcome bool :=
  match d with
  | None => Ok true
  | Some d => match zget d pos with Some b => Ok (b =? 0) | None => UB end
  end.

(** The loop that extends an add run until two consecutive zeros. *)
Fixpoint add_run (fuel : nat) (block_size : Z) (d : option bytes) (pos add_len : Z)
    : outcome (Z * Z) :=
  match fuel with
  | O => NoFuel
  | S fuel =>
      if pos <? block_size then
        curr_is_zero ← zero_at d pos;
        next_is_zero ← (if block_size <=? pos + 1 then Ok true else zero_at d (pos + 1));
        if curr_is_zero && next_is_zero then Ok (pos, add_len)
        else add_run fuel block_size d (pos + 1) (add_len + 1)
      else Ok (pos, add_len)
  end.

(** The loop that counts zero diffs. *)
Fixpoint copy_run (fuel : nat) (block_size : Z) (d : option bytes) (pos copy_len : Z)
    : outcome (Z * Z) :=
  match fuel with
  | O => NoFuel
  | S fuel =>
      if pos <? block_size then
        z ← zero_at d pos;
        if z : bool then copy_run fuel block_size d (pos + 1) (copy_len + 1)
        else Ok (pos, copy_len)
      else Ok (pos, copy_len)
  end.

(** while (pos < block_size) of the sparse format, for one block. *)
Fixpoint sparse_encode (fuel : nat) (cap block_size : Z) (d : option bytes) (pos : Z) (buf : bytes)
    : outcome bytes :=
  match fuel with
  | O => NoFuel
  | S fuel =>
      if pos <? block_size then
        let add_start := pos in
        '(pos, add_len) ← add_run (S (Z.to_nat block_size)) block_size d pos 0;
        buf ← emit cap buf (encode_varint add_len);
        buf ← match d with
              | Some d => if 0 <? add_len then l ← load add_start add_len d; emit cap buf l else Ok buf
              | None => Ok buf
              end;
        if block_size <=? pos then Ok buf else
        '(pos, copy_len) ← copy_run (S (Z.to_nat block_size)) block_size d pos 0;
        buf ← emit cap buf (encode_varint copy_len);
        sparse_encode fuel cap block_size d pos buf
      else Ok buf
  end.

(** for (j = 0; j < run_count; j++) over the blocks of a run. *)
Fixpoint over_run {A} (t : fsd_block_tracker_t) (i : Z) (f : fsd_block_state_t → A → outcome A)
    (n : nat) (j : Z) (a : A) : outcome A :=
  match n with
  | O => Ok a
  | S n =>
      match fsd_block_tracker_get t (u64 (i + j)) with
      | None => UB
      | Some st => a ← f st a; over_run t i f n (j + 1) a
      end
  end.

Section Encode.
Context {W : Type} `{ByteSink W}.

Record writers : Type := mkWriters { op_writer : W; diff_writer : W; lit_writer : W }.

Definition on_op {A} (m : ST W A) : ST writers A := fun s =>
  let '(r, w) := m (op_writer s) in (r, mkWriters w (diff_writer s) (lit_writer s)).
Definition on_diff {A} (m : ST W A) : ST writers A := fun s =>
  let '(r, w) := m (diff_writer s) in (r, mkWriters (op_writer s) w (lit_writer s)).
Definition on_lit {A} (m : ST W A) : ST writers A := fun s =>
  let '(r, w) := m (lit_writer s) in (r, mkWriters (op_writer s) (diff_writer s) w).

(** * Counts and literals *)

Definition encode_count (op_byte count : Z) : ST W unit :=
  if count <=? 8 then
    snk_byte (u8 (Z.lor (Z.lor op_byte (Z.shiftl 3 3)) (Z.land (u64 (count - 1)) 7)))
  else if count <=? 256 then
    snk_byte (u8 (Z.lor op_byte (Z.shiftl 0 3)));;
    snk_byte (u8 (count - 1))
  else if count <=? 65536 then
    snk_byte (u8 (Z.lor op_byte (Z.shiftl 1 3)));;
    fsd_writer_write_u16_le (u16 (count - 1))
  else
    snk_byte (u8 (Z.lor op_byte (Z.shiftl 2 3)));;
    fsd_writer_write_u32_le (u32 count).

Definition emit_literal_run (dest_data : bytes) (block_size first_block run_count : Z)
    : ST writers unit :=
  on_op (encode_count (Z.shiftl FSD_OP_LITERAL 5) run_count);;
  lit_data ← st_lift (load (u64 (first_block * block_size)) (u64 (run_count * block_size)) dest_data);
  on_lit (snk_write lit_data).

(** The count field of COPY_RELOCATE and COPY_ADD: its encoding and its bytes. *)
Definition count_enc_of (run_count : Z) : Z :=
  if run_count <=? 256 then 0 else if run_count <=? 65536 then 1 else 2.

Definition write_count (count_enc run_count : Z) : ST W unit :=
  if count_enc =? 0 then snk_byte (u8 (run_count - 1))
  else if count_enc =? 1 then fsd_writer_write_u16_le (u16 (run_count - 1))
  else fsd_writer_write_u32_le (u32 run_count).

Definition first_byte_of (op count_enc offset_enc low : Z) : Z :=
  u8 (Z.lor (Z.lor (Z.lor (Z.shiftl op 5) (Z.shiftl count_enc 3)) (Z.shiftl offset_enc 1)) low).

(** * The operations *)

(** case FSD_MATCH_RELOCATE *)
Definition encode_relocate (dest_data : bytes) (block_size : Z) (st : fsd_block_state_t)
    (i run_count : Z) : ST writers unit :=
  offset ← st_lift (reloc_offset st i);
  abs_offset ← st_lift (if offset <? 0 then a ← chk64 (- offset); Ok (u64 a) else Ok (u64 offset));
  let sign_bit := if offset <? 0 then 1 else 0 in
  if UINT32_MAX <? abs_offset then emit_literal_run dest_data block_size i run_count else
  let offset_enc := if abs_offset <=? 255 then 0 else if abs_offset <=? 65535 then 1 else 2 in
  let count_enc := count_enc_of run_count in
  on_op (
    snk_byte (first_byte_of FSD_OP_COPY_RELOCATE count_enc offset_enc sign_bit);;
    write_count count_enc run_count;;
    (if offset_enc =? 0 then snk_byte (u8 abs_offset)
     else if offset_enc =? 1 then fsd_writer_write_u16_le (u16 abs_offset)
     else fsd_writer_write_u32_le (u32 abs_offset))).

(** The diff data of a run of [run_count] partial matches, and its format. *)
Definition partial_diff (malloc_ok : allocator) (t : fsd_block_tracker_t) (block_size i run_count : Z)
    : outcome (Z * bytes) :=
  nonzero_count ← over_run t i (fun st n => k ← block_nonzero block_size st; Ok (u64 (n + k)))
                    (Z.to_nat run_count) 0 0;
  let diff_fmt := if nonzero_count <? u64 (run_count * SPARSE_THRESHOLD_PER_BLOCK) then 1 else 0 in
  if SIZE_MAX / block_size / 2 <? run_count then Err FSD_ERR_OUT_OF_MEMORY else
  let max_diff_len := run_count * block_size * 2 in
  if negb (malloc_ok max_diff_len) then Err FSD_ERR_OUT_OF_MEMORY else
  diff_buf ← over_run t i
    (fun st buf =>
       if diff_fmt =? 0 then dense_encode max_diff_len block_size st buf
       else sparse_encode (S (Z.to_nat block_size)) max_diff_len block_size (delta st) 0 buf)
    (Z.to_nat run_count) 0 [];
  Ok (diff_fmt, diff_buf).

(** The signed byte offset of COPY_ADD. *)
Definition write_byte_offset (offset_enc byte_offset : Z) : ST W unit :=
  if offset_enc =? 0 then fsd_writer_write_u16_le (u16 byte_offset)
  else if offset_enc =? 1 then
    let val := u32 byte_offset in
    snk_byte (u8 (Z.land val 255));;
    snk_byte (u8 (Z.land (Z.shiftr val 8) 255));;
    snk_byte (u8 (Z.land (Z.shiftr val 16) 255))
  else fsd_writer_write_u32_le (u32 byte_offset).

(** case FSD_MATCH_PARTIAL; gives back the length of the run it has encoded. *)
Definition encode_partial (malloc_ok : allocator) (t : fsd_block_tracker_t) (dest_data : bytes)
    (block_size : Z) (st : fsd_block_state_t) (i : Z) : ST writers Z :=
  byte_offset ← st_lift (partial_offset block_size st i);
  let max_run_for_format := UINT32_MAX / u64 (block_size * 2) in
  let max_run_for_format := if max_run_for_format =? 0 then 1 else max_run_for_format in
  run_count ← st_lift (run_from t i (fun n => n <? max_run_for_format)
                         (same_partial block_size byte_offset));
  if (byte_offset <? INT32_MIN) || (INT32_MAX <? byte_offset) then
    emit_literal_run dest_data block_size i run_count;; mret run_count
  else
  '(diff_fmt, diff_buf) ← st_lift (partial_diff malloc_ok t block_size i run_count);
  abs_offset ← st_lift (if byte_offset <? 0 then chk64 (- byte_offset) else Ok byte_offset);
  let offset_enc := if abs_offset <=? 32767 then 0 else if abs_offset <=? 8388607 then 1 else 2 in
  let count_enc := count_enc_of run_count in
  on_op (
    snk_byte (first_byte_of FSD_OP_COPY_ADD count_enc offset_enc diff_fmt);;
    write_byte_offset offset_enc byte_offset;;
    write_count count_enc run_count;;
    (if UINT32_MAX <? zlen diff_buf then st_fail FSD_ERR_OUT_OF_MEMORY
     else fsd_writer_write_u32_le (u32 (zlen diff_buf))));;
  on_diff (snk_write diff_buf);;
  mret run_count.

(** One iteration of the main loop: the operation for block [i] and the length of
    the run it covers. *)
Definition encode_op (malloc_ok : allocator) (t : fsd_block_tracker_t) (dest_data : bytes)
    (block_size i : Z) : ST writers Z :=
  match fsd_block_tracker_get t i with
  | None => st_lift UB
  | Some st =>
      match match_type st with
      | FSD_MATCH_RELOCATE =>
          base_offset ← st_lift (reloc_offset st i);
          run_count ← st_lift (run_from t i no_limit (same_reloc base_offset));
          encode_relocate dest_data block_size st i run_count;; mret run_count
      | FSD_MATCH_PARTIAL => encode_partial malloc_ok t dest_data block_size st i
      | m =>
          run_count ← st_lift (run_from t i no_limit (same_type m));
          match m with
          | FSD_MATCH_IDENTITY => on_op (encode_count (Z.shiftl FSD_OP_COPY_IDENTITY 5) run_count)
          | FSD_MATCH_ZERO => on_op (encode_count (Z.shiftl FSD_OP_ZERO 5) run_count)
          | FSD_MATCH_ONE => on_op (encode_count (Z.shiftl FSD_OP_ONE 5) run_count)
          | _ => emit_literal_run dest_data block_size i run_count
          end;; mret run_count
      end
  end.

(** while (i < tracker->count): a run has at least one block. *)
Fixpoint encode_loop (fuel : nat) (malloc_ok : allocator) (t : fsd_block_tracker_t)
    (dest_data : bytes) (block_size i : Z) : ST writers unit :=
  match fuel with
  | O => st_lift NoFuel
  | S fuel =>
      if i <? count t then
        run_count ← encode_op malloc_ok t dest_data block_size i;
        encode_loop fuel malloc_ok t dest_data block_size (u64 (i + run_count))
      else mret tt
  end.

Definition fsd_op_encoder_encode (malloc_ok : allocator) (encoder : fsd_op_encoder)
    (t : fsd_block_tracker_t) (dest_data : bytes) : ST writers fsd_op_encoder :=
  encode_loop (S (length (blocks t))) malloc_ok t dest_data (enc_block_size encoder) 0;;
  s ← st_get;
  mret (mkEncoder (enc_block_size encoder) (snk_size (op_writer s)) (snk_size (diff_writer s))
          (snk_size (lit_writer s))).

Definition fsd_op_encoder_op_size (encoder : option fsd_op_encoder) : Z :=
  from_option op_bytes 0 encoder.
Definition fsd_op_encoder_diff_size (encoder : option fsd_op_encoder) : Z :=
  from_option diff_bytes 0 encoder.
Definition fsd_op_encoder_literal_size (encoder : option fsd_op_encoder) : Z :=
  from_option literal_bytes 0 encoder.

End Encode.
Arguments writers W : clear implicits.
