(* ===== verification/Codec.v ===== *)
(** The fields of an operation: what the encoder writes for a count, an offset or
    a first byte, and that the patcher reads the same value back. *)

From S2P Require Import Prelude Stdio Writer Varint Tracker Source Patch PatchSafety Encoder.
From stdpp Require Import base list numbers tactics.
From Stdlib Require Import ZArith Lia.
Open Scope Z_scope.

(** * Bytes of the fields *)

(** [op:3][hi:2][low:3] *)
Definition fbyte (op hi low : Z) : Z := op * 32 + hi * 8 + low.

Definition count_bytes (op n : Z) : bytes :=
  if n <=? 8 then [fbyte op 3 (n - 1)]
  else if n <=? 256 then [fbyte op 0 0; n - 1]
  else if n <=? 65536 then fbyte op 1 0 :: le_bytes 2 (n - 1)
  else fbyte op 2 0 :: le_bytes 4 n.

Definition run_bytes (n : Z) : bytes :=
  if n <=? 256 then [n - 1] else if n <=? 65536 then le_bytes 2 (n - 1) else le_bytes 4 n.

Definition reloc_enc (a : Z) : Z := if a <=? 255 then 0 else if a <=? 65535 then 1 else 2.
Definition reloc_bytes (a : Z) : bytes :=
  if a <=? 255 then [a] else if a <=? 65535 then le_bytes 2 a else le_bytes 4 a.

Definition boff_enc (z : Z) : Z :=
  if Z.abs z <=? 32767 then 0 else if Z.abs z <=? 8388607 then 1 else 2.
Definition boff_bytes (z : Z) : bytes :=
  if Z.abs z <=? 32767 then le_bytes 2 z
  else if Z.abs z <=? 8388607 then le_bytes 3 z else le_bytes 4 z.

Lemma fbyte_eq op hi low :
  0 ≤ op < 8 → 0 ≤ hi < 4 → 0 ≤ low < 8 →
  u8 (Z.lor (Z.lor (Z.shiftl op 5) (Z.shiftl hi 3)) low) = fbyte op hi low.
Proof.
  intros. unfold fbyte.
  rewrite (Z.lor_comm (Z.shiftl op 5)), (Z.lor_comm _ low), Z.lor_assoc.
  rewrite (lor_shiftl_add low hi 3) by lia. rewrite (lor_shiftl_add _ op 5) by lia.
  rewrite wrap_small; lia.
Qed.

Lemma first_byte_of_eq op hi enc low :
  0 ≤ op < 8 → 0 ≤ hi < 4 → 0 ≤ enc < 4 → 0 ≤ low < 2 →
  first_byte_of op hi enc low = fbyte op hi (2 * enc + low).
Proof.
  intros. unfold first_byte_of. rewrite <- Z.lor_assoc.
  rewrite (Z.lor_comm _ low), (lor_shiftl_add low enc 1) by lia.
  rewrite fbyte_eq by lia. f_equal. lia.
Qed.

Lemma land_1 z : Z.land z 1 = z mod 2.
Proof. apply (land_ones_mod z 1). lia. Qed.
Lemma land_3 z : Z.land z 3 = z mod 4.
Proof. apply (land_ones_mod z 2). lia. Qed.
Lemma land_7 z : Z.land z 7 = z mod 8.
Proof. apply (land_ones_mod z 3). lia. Qed.

Ltac bit_fields :=
  rewrite ?land_1, ?land_3, ?land_7, ?Z.shiftr_div_pow2 by lia; unfold fbyte;
  change (2 ^ 5) with 32; change (2 ^ 3) with 8; change (2 ^ 1) with 2;
  Z.to_euclidean_division_equations; lia.

(** What the patcher extracts from a first byte. *)
Lemma fbyte_op op hi low :
  0 ≤ op < 8 → 0 ≤ hi < 4 → 0 ≤ low < 8 → Z.land (Z.shiftr (fbyte op hi low) 5) 7 = op.
Proof. intros. bit_fields. Qed.

Lemma fbyte_hi op hi low :
  0 ≤ op < 8 → 0 ≤ hi < 4 → 0 ≤ low < 8 → Z.land (Z.shiftr (fbyte op hi low) 3) 3 = hi.
Proof. intros. bit_fields. Qed.

Lemma fbyte_low op hi low :
  0 ≤ op < 8 → 0 ≤ hi < 4 → 0 ≤ low < 8 → Z.land (fbyte op hi low) 7 = low.
Proof. intros. bit_fields. Qed.

Lemma fbyte_enc op hi enc low :
  0 ≤ op < 8 → 0 ≤ hi < 4 → 0 ≤ enc < 4 → 0 ≤ low < 2 →
  Z.land (Z.shiftr (fbyte op hi (2 * enc + low)) 1) 3 = enc.
Proof. intros. bit_fields. Qed.

Lemma fbyte_flag op hi enc low :
  0 ≤ op < 8 → 0 ≤ hi < 4 → 0 ≤ enc < 4 → 0 ≤ low < 2 →
  Z.land (fbyte op hi (2 * enc + low)) 1 = low.
Proof. intros. bit_fields. Qed.

Lemma is_byte_fbyte op hi low :
  0 ≤ op < 8 → 0 ≤ hi < 4 → 0 ≤ low < 8 → is_byte (fbyte op hi low).
Proof. unfold is_byte, fbyte. lia. Qed.

(** * Reading the fields back *)

Lemma le2_eq z : le_bytes 2 z = [u8 z; u8 (z / 256)].
Proof. done. Qed.

Lemma le3_eq z : le_bytes 3 z = [u8 z; u8 (z / 256); u8 (z / 256 / 256)].
Proof. done. Qed.

Lemma le4_eq z :
  le_bytes 4 z = [u8 z; u8 (z / 256); u8 (z / 256 / 256); u8 (z / 256 / 256 / 256)].
Proof. done. Qed.

Lemma ld16_le z : ld16 (u8 z) (u8 (z / 256)) = u16 z.
Proof.
  rewrite ld16_val by apply is_byte_wrap. rewrite <- le2_eq, le_val_bytes. done.
Qed.

Lemma ld24_le z : le_val [u8 z; u8 (z / 256); u8 (z / 256 / 256)] = wrap 24 z.
Proof. rewrite <- le3_eq, le_val_bytes. done. Qed.

Lemma ld32_le z :
  ld32 (u8 z) (u8 (z / 256)) (u8 (z / 256 / 256)) (u8 (z / 256 / 256 / 256)) = u32 z.
Proof.
  rewrite ld32_val by apply is_byte_wrap. rewrite <- le4_eq, le_val_bytes. done.
Qed.

Lemma bytes_ok_one b : 0 ≤ b < 256 → bytes_ok [b].
Proof. intros. apply List.Forall_cons; [done | apply List.Forall_nil]. Qed.

Ltac field_goals :=
  split_and!; first [ done | apply is_byte_fbyte; lia | apply le_bytes_ok | apply fbyte_op; lia
                    | by apply Forall_nil_2 | apply bytes_ok_one; lia | idtac ].

(** A count of 1 to 2^32 - 1 blocks is read back, after any of its encodings. *)
Lemma read_count_bytes op n :
  0 ≤ op < 8 → 1 ≤ n < 2 ^ 32 →
  ∃ fb o, count_bytes op n = fb :: o ∧ is_byte fb ∧ bytes_ok o ∧ zlen o ≤ 4 ∧
    Z.land (Z.shiftr fb 5) 7 = op ∧ ∀ k, read_count (o ++ k) fb = Ok (n, k).
Proof.
  intros Hop Hn. unfold count_bytes. repeat case_bool.
  - exists (fbyte op 3 (n - 1)), []. field_goals. intros k. unfold read_count.
    rewrite fbyte_hi, fbyte_low by lia. cbn. do 2 f_equal. lia.
  - exists (fbyte op 0 0), [n - 1]. field_goals. intros k. unfold read_count.
    rewrite fbyte_hi by lia. cbn. do 2 f_equal. lia.
  - exists (fbyte op 1 0), (le_bytes 2 (n - 1)). field_goals. intros k. unfold read_count.
    rewrite fbyte_hi by lia. rewrite le2_eq. cbn -[wrap].
    rewrite ld16_le, wrap_small by lia. do 2 f_equal. lia.
  - exists (fbyte op 2 0), (le_bytes 4 n). field_goals. intros k. unfold read_count.
    rewrite fbyte_hi by lia. rewrite le4_eq. cbn -[wrap].
    rewrite ld32_le, wrap_small by lia. done.
Qed.

(** The count of COPY_RELOCATE and of COPY_ADD. *)
Lemma read_run_bytes op n low k :
  0 ≤ op < 8 → 0 ≤ low < 8 → 1 ≤ n < 2 ^ 32 →
  read_count (run_bytes n ++ k) (fbyte op (count_enc_of n) low) = Ok (n, k) ∧
  read_add_count (run_bytes n ++ k) (count_enc_of n) = Ok (n, k).
Proof.
  intros Hop Hlow Hn. unfold run_bytes, count_enc_of, read_count, read_add_count.
  destruct (Z.leb_spec n 256); [|destruct (Z.leb_spec n 65536)];
    rewrite fbyte_hi by lia; rewrite ?le2_eq, ?le4_eq; cbn -[wrap];
    rewrite ?ld16_le, ?ld32_le, ?wrap_small by lia; split; do 2 f_equal; lia.
Qed.

Lemma count_enc_of_range n : 0 ≤ count_enc_of n < 3.
Proof. unfold count_enc_of. repeat case_bool; lia. Qed.

Lemma reloc_enc_range a : 0 ≤ reloc_enc a < 3.
Proof. unfold reloc_enc. repeat case_bool; lia. Qed.

Lemma boff_enc_range a : 0 ≤ boff_enc a < 3.
Proof. unfold boff_enc. repeat case_bool; lia. Qed.

Lemma run_bytes_ok n : 1 ≤ n → bytes_ok (run_bytes n) ∧ zlen (run_bytes n) ≤ 4.
Proof.
  intros. unfold run_bytes. repeat case_bool; split; try apply le_bytes_ok; try done.
  apply bytes_ok_one; lia.
Qed.

Lemma reloc_bytes_ok a : 0 ≤ a → bytes_ok (reloc_bytes a) ∧ zlen (reloc_bytes a) ≤ 4.
Proof.
  intros. unfold reloc_bytes. repeat case_bool; split; try apply le_bytes_ok; try done.
  apply bytes_ok_one; lia.
Qed.

Lemma boff_bytes_ok z : bytes_ok (boff_bytes z) ∧ zlen (boff_bytes z) ≤ 4.
Proof. unfold boff_bytes. repeat case_bool; split; try apply le_bytes_ok; done. Qed.

Lemma read_reloc_bytes a k :
  0 ≤ a ≤ UINT32_MAX → read_reloc_offset (reloc_bytes a ++ k) (reloc_enc a) = Ok (a, k).
Proof.
  unfold UINT32_MAX. intros. unfold reloc_bytes, reloc_enc, read_reloc_offset.
  destruct (Z.leb_spec a 255); [|destruct (Z.leb_spec a 65535)];
    rewrite ?le2_eq, ?le4_eq; cbn -[wrap]; rewrite ?ld16_le, ?ld32_le, ?wrap_small by lia; done.
Qed.

Lemma read_boff_bytes z k :
  INT32_MIN ≤ z ≤ INT32_MAX → read_byte_offset (boff_bytes z ++ k) (boff_enc z) = Ok (z, k).
Proof.
  unfold INT32_MIN, INT32_MAX. intros. unfold boff_bytes, boff_enc.
  destruct (Z.leb_spec (Z.abs z) 32767); [|destruct (Z.leb_spec (Z.abs z) 8388607)].
  - rewrite le2_eq. unfold read_byte_offset. cbn -[wrap s16].
    rewrite ld16_le, sgn_wrap, sgn_small by lia. done.
  - rewrite le3_eq. cbn [app]. rewrite read_byte_offset_3 by apply is_byte_wrap.
    rewrite ld24_le, sgn_wrap, sgn_small by lia. done.
  - rewrite le4_eq. unfold read_byte_offset. cbn -[wrap s32].
    rewrite ld32_le, sgn_wrap, sgn_small by lia. done.
Qed.

Lemma read_diff_len_bytes n k :
  0 ≤ n ≤ UINT32_MAX → read_diff_len (le_bytes 4 n ++ k) = Ok (n, k).
Proof.
  unfold UINT32_MAX. intros. rewrite le4_eq. unfold read_diff_len. cbn -[wrap].
  rewrite ld32_le, wrap_small by lia. done.
Qed.

(** * Writing the fields *)

Lemma le_bytes_wrap n z : le_bytes n (wrap (8 * Z.of_nat n) z) = le_bytes n z.
Proof.
  unfold wrap. rewrite <- le_val_bytes. apply le_bytes_val; [apply le_bytes_ok|].
  apply length_le_bytes.
Qed.

Section Writing.
Context {W : Type} {BS : ByteSink W} {BSS : ByteSinkSpec W} {BSL : ByteSinkLaws W}.

(** Two writes in a row are one write of the concatenation. *)
Lemma sink_seq (w : W) d1 d2 (m k : ST W unit) :
  sink_step w d1 (m w) → (∀ w', snk_ok w' → sink_step w' d2 (k w')) →
  sink_step w (d1 ++ d2) ((m;; k) w).
Proof.
  intros H1 H2. unfold mbind, ST_bind. destruct (m w) as [r w1].
  destruct H1 as [(Hr1 & Hok & Hv & Hc)|(Hr & Hc)]; cbn in *.
  - subst r. destruct (H2 w1 Hok) as [(Hr & Hok2 & Hv2 & Hc2)|(Hr & Hc2)].
    + left. rewrite Hv2, Hv, app_assoc, Hc2. done.
    + right. rewrite Hv, Hc in Hc2. rewrite zlen_app in *. split; [done | lia].
  - subst r. right. cbn. split; [done|]. rewrite zlen_app. pose proof (zlen_nonneg d2). lia.
Qed.

Lemma write_u16_step (w : W) z :
  snk_ok w → sink_step w (le_bytes 2 z) (fsd_writer_write_u16_le (u16 z) w).
Proof.
  intros Hok. unfold fsd_writer_write_u16_le.
  assert ([u8 (Z.land (u16 z) 255); u8 (Z.land (u16 z ≫ 8) 255)] = le_bytes 2 z) as ->.
  { rewrite <- (le_bytes_wrap 2 z), le2_eq, !land_255, Z.shiftr_div_pow2 by lia.
    unfold wrap. by rewrite !Z.mod_mod by done. }
  by apply snk_write_law.
Qed.

Lemma write_u32_step (w : W) z :
  snk_ok w → sink_step w (le_bytes 4 z) (fsd_writer_write_u32_le (u32 z) w).
Proof.
  intros Hok. unfold fsd_writer_write_u32_le.
  assert ([u8 (Z.land (u32 z) 255); u8 (Z.land (u32 z ≫ 8) 255);
           u8 (Z.land (u32 z ≫ 16) 255); u8 (Z.land (u32 z ≫ 24) 255)] = le_bytes 4 z) as ->.
  { rewrite <- (le_bytes_wrap 4 z), le4_eq, !land_255, !Z.shiftr_div_pow2 by lia.
    rewrite !Z.div_div by lia. unfold wrap. by rewrite !(Z.mod_mod _ (2 ^ 8)) by done. }
  by apply snk_write_law.
Qed.

Lemma byte_step (w : W) b c : snk_ok w → b = c → sink_step w [c] (snk_byte b w).
Proof. intros Hok ->. by apply snk_byte_law. Qed.

Lemma encode_count_step (w : W) op n :
  snk_ok w → 0 ≤ op < 8 → 1 ≤ n →
  sink_step w (count_bytes op n) (encode_count (Z.shiftl op 5) n w).
Proof.
  intros Hok Hop Hn. unfold encode_count, count_bytes.
  assert (∀ hi, 0 ≤ hi < 4 → u8 (Z.lor (Z.shiftl op 5) (Z.shiftl hi 3)) = fbyte op hi 0) as Hfb.
  { intros hi Hhi. rewrite <- fbyte_eq by lia. by rewrite Z.lor_0_r. }
  repeat case_bool.
  - apply byte_step; [done|]. rewrite (wrap_small 64) by lia. rewrite land_7, Z.mod_small by lia.
    apply fbyte_eq; lia.
  - change [fbyte op 0 0; n - 1] with ([fbyte op 0 0] ++ [n - 1]).
    apply sink_seq; [apply byte_step; [done | apply Hfb; lia]|]. intros w' Hok'.
    apply byte_step; [done | apply wrap_small; lia].
  - change (fbyte op 1 0 :: le_bytes 2 (n - 1)) with ([fbyte op 1 0] ++ le_bytes 2 (n - 1)).
    apply sink_seq; [apply byte_step; [done | apply Hfb; lia]|]. intros w' Hok'.
    by apply write_u16_step.
  - change (fbyte op 2 0 :: le_bytes 4 n) with ([fbyte op 2 0] ++ le_bytes 4 n).
    apply sink_seq; [apply byte_step; [done | apply Hfb; lia]|]. intros w' Hok'.
    by apply write_u32_step.
Qed.

Lemma write_count_step (w : W) n :
  snk_ok w → 1 ≤ n → sink_step w (run_bytes n) (write_count (count_enc_of n) n w).
Proof.
  intros Hok Hn. unfold write_count, run_bytes, count_enc_of.
  destruct (Z.leb_spec n 256); [|destruct (Z.leb_spec n 65536)]; cbn [Z.eqb].
  - apply byte_step; [done | apply wrap_small; lia].
  - by apply write_u16_step.
  - by apply write_u32_step.
Qed.

Lemma write_reloc_step (w : W) a :
  snk_ok w → 0 ≤ a →
  sink_step w (reloc_bytes a)
    ((if reloc_enc a =? 0 then snk_byte (u8 a)
      else if reloc_enc a =? 1 then fsd_writer_write_u16_le (u16 a)
      else fsd_writer_write_u32_le (u32 a)) w).
Proof.
  intros Hok Ha. unfold reloc_bytes, reloc_enc.
  destruct (Z.leb_spec a 255); [|destruct (Z.leb_spec a 65535)]; cbn [Z.eqb].
  - apply byte_step; [done | apply wrap_small; lia].
  - by apply write_u16_step.
  - by apply write_u32_step.
Qed.

Lemma write_boff_step (w : W) z :
  snk_ok w → sink_step w (boff_bytes z) (write_byte_offset (boff_enc z) z w).
Proof.
  intros Hok. unfold write_byte_offset, boff_bytes, boff_enc.
  destruct (Z.leb_spec (Z.abs z) 32767); [|destruct (Z.leb_spec (Z.abs z) 8388607)]; cbn [Z.eqb].
  - by apply write_u16_step.
  - cbv zeta. assert (∀ k, 0 ≤ k ≤ 16 →
      u8 (Z.land (Z.shiftr (u32 z) k) 255) = u8 (z / 2 ^ k)) as Hb.
    { intros k Hk. rewrite land_255, Z.shiftr_div_pow2 by lia. unfold wrap.
      rewrite Z.mod_mod by done. replace (2 ^ 32) with (2 ^ k * 2 ^ (32 - k))
        by (rewrite <- Z.pow_add_r by lia; f_equal; lia).
      assert (0 < 2 ^ k) by (apply Z.pow_pos_nonneg; lia).
      assert (0 < 2 ^ (32 - k)) by (apply Z.pow_pos_nonneg; lia).
      rewrite Z.rem_mul_r by lia. rewrite (Z.mul_comm (2 ^ k)), Z.div_add by lia.
      rewrite (Z.div_small (z mod 2 ^ k)) by (apply Z.mod_pos_bound; lia). rewrite Z.add_0_l.
      replace (2 ^ (32 - k)) with (2 ^ 8 * 2 ^ (24 - k))
        by (rewrite <- Z.pow_add_r by lia; f_equal; lia).
      assert (0 < 2 ^ (24 - k)) by (apply Z.pow_pos_nonneg; lia).
      rewrite Z.rem_mul_r by lia. rewrite (Z.mul_comm (2 ^ 8)), Z.mod_add by lia.
      by rewrite Z.mod_mod by done. }
    rewrite le3_eq.
    change [u8 z; u8 (z / 256); u8 (z / 256 / 256)] with
      ([u8 z] ++ [u8 (z / 256)] ++ [u8 (z / 256 / 256)]).
    apply sink_seq; [apply byte_step; [done|]|].
    { pose proof (Hb 0 ltac:(lia)) as E0. rewrite Z.shiftr_0_r, Z.div_1_r in E0. exact E0. }
    intros w1 Hok1. apply sink_seq; [apply byte_step; [done|]; apply (Hb 8); lia|].
    intros w2 Hok2. apply byte_step; [done|]. rewrite Z.div_div by lia. apply (Hb 16). lia.
  - by apply write_u32_step.
Qed.

End Writing.

(** Every run length the format can carry, and every relocation distance and
    byte offset the encoder does not turn into literals, is read back by the
    patcher from the bytes the encoder writes for it, whatever follows. *)
Theorem operation_fields_roundtrip n a z k :
  1 ≤ n < 2 ^ 32 → 0 ≤ a ≤ UINT32_MAX → INT32_MIN ≤ z ≤ INT32_MAX →
  (∃ fb o, count_bytes FSD_OP_ZERO n = fb :: o ∧ read_count (o ++ k) fb = Ok (n, k)) ∧
  read_add_count (run_bytes n ++ k) (count_enc_of n) = Ok (n, k) ∧
  read_reloc_offset (reloc_bytes a ++ k) (reloc_enc a) = Ok (a, k) ∧
  read_byte_offset (boff_bytes z ++ k) (boff_enc z) = Ok (z, k).
Proof.
  intros Hn Ha Hz. split_and!.
  - destruct (read_count_bytes FSD_OP_ZERO n) as (fb & o & -> & _ & _ & _ & _ & Hr); [done..|].
    by eexists _, _.
  - apply (read_run_bytes 0 n 0 k); lia.
  - by apply read_reloc_bytes.
  - by apply read_boff_bytes.
Qed.

Lemma operation_fields_roundtrip_witness :
  (∃ fb o, count_bytes FSD_OP_ZERO 300 = fb :: o ∧ read_count (o ++ [9]) fb = Ok (300, [9])) ∧
  read_add_count (run_bytes 300 ++ [9]) (count_enc_of 300) = Ok (300, [9]) ∧
  read_reloc_offset (reloc_bytes 70000 ++ [9]) (reloc_enc 70000) = Ok (70000, [9]) ∧
  read_byte_offset (boff_bytes (-40000) ++ [9]) (boff_enc (-40000)) = Ok (-40000, [9]).
Proof. apply (operation_fields_roundtrip 300 70000 (-40000) [9]); split; done. Defined.

Definition demo_sink : fsd_buffered_writer_t := mkWriter (file_new 100) (fill 16 0) 16 0 0 false.

(** The four-byte count field holds the run length modulo 2^32: for a run of
    2^32 zero blocks the encoder writes, without an error, an operation the
    patcher reads as zero blocks. *)
Theorem long_run_truncated :
  ∃ w, encode_count (Z.shiftl FSD_OP_ZERO 5) (2 ^ 32) demo_sink = (Ok tt, w) ∧
    writer_view w = [80; 0; 0; 0; 0] ∧ read_count [0; 0; 0; 0] 80 = Ok (0, []).
Proof. eexists. split; [vm_compute; reflexivity|]. split; vm_compute; reflexivity. Qed.
