(* ===== verification/DiffData.v ===== *)
(** Diff data of COPY_ADD: what the encoder puts in diff_buf for a block, and
    that the patcher adds exactly that delta to the source block. *)

From S2P Require Import Prelude Stdio Varint Tracker Source Patch PatchSafety Encoder.
From stdpp Require Import base list numbers tactics.
From Stdlib Require Import ZArith Lia.
Open Scope Z_scope.

(** * Adding part of a delta *)

(** Bytes [lo, hi) of the delta [d] added to the block [sb]. *)
Definition add_range (lo hi : Z) (d sb : bytes) : bytes :=
  imap (fun i b => if (lo <=? Z.of_nat i) && (Z.of_nat i <? hi)
                   then u8 (b + default 0 (d !! i)) else b) sb.

Lemma zlen_add_range lo hi d sb : zlen (add_range lo hi d sb) = zlen sb.
Proof. unfold zlen, add_range. by rewrite length_imap. Qed.

Lemma lookup_add_range lo hi d sb i :
  add_range lo hi d sb !! i =
  (fun b => if (lo <=? Z.of_nat i) && (Z.of_nat i <? hi)
            then u8 (b + default 0 (d !! i)) else b) <$> sb !! i.
Proof. unfold add_range. by rewrite list_lookup_imap. Qed.

Lemma add_range_compose lo mid hi d sb :
  lo ≤ mid ≤ hi → add_range mid hi d (add_range lo mid d sb) = add_range lo hi d sb.
Proof.
  intros Hm. apply list_eq. intros i. rewrite !lookup_add_range.
  destruct (sb !! i) as [b|]; [|done]. cbn. f_equal.
  destruct (Z.leb_spec mid (Z.of_nat i)), (Z.ltb_spec (Z.of_nat i) hi),
    (Z.leb_spec lo (Z.of_nat i)), (Z.ltb_spec (Z.of_nat i) mid); cbn; try done; lia.
Qed.

Lemma add_range_empty lo d sb : add_range lo lo d sb = sb.
Proof.
  apply list_eq. intros i. rewrite lookup_add_range.
  destruct (sb !! i) as [b|]; [|done]. cbn. f_equal.
  destruct (Z.leb_spec lo (Z.of_nat i)), (Z.ltb_spec (Z.of_nat i) lo); done || lia.
Qed.

(** Where the delta is zero there is nothing to add. *)
Lemma add_range_zero lo hi d sb :
  bytes_ok sb → (∀ i, lo ≤ Z.of_nat i < hi → default 0 (d !! i) = 0) → add_range lo hi d sb = sb.
Proof.
  intros Hsb Hz. apply list_eq. intros i. rewrite lookup_add_range.
  destruct (sb !! i) as [b|] eqn:E; [|done]. cbn. f_equal.
  destruct (Z.leb_spec lo (Z.of_nat i)), (Z.ltb_spec (Z.of_nat i) hi); cbn; try done.
  rewrite Hz by lia. rewrite Z.add_0_r. apply wrap_small.
  apply (Forall_lookup_1 _ _ _ _ Hsb E).
Qed.

Lemma add_range_all d sb : zlen d = zlen sb → add_range 0 (zlen sb) d sb = add_bytes sb d.
Proof.
  intros Hl. apply list_eq. intros i. rewrite lookup_add_range. unfold add_bytes.
  rewrite lookup_zip_with. destruct (sb !! i) as [b|] eqn:E; [|done]. cbn.
  apply lookup_lt_Some in E as Hi.
  destruct (lookup_lt_is_Some_2 d i) as [x Hx]; [zl|]. rewrite Hx. cbn. f_equal.
  destruct (Z.ltb_spec (Z.of_nat i) (zlen sb)); [|unfold zlen in *; lia].
  destruct (Z.leb_spec 0 (Z.of_nat i)); [done | lia].
Qed.

Lemma bytes_ok_add_range lo hi d sb : bytes_ok sb → bytes_ok (add_range lo hi d sb).
Proof.
  intros Hsb. apply Forall_lookup_2. intros i x. rewrite lookup_add_range.
  destruct (sb !! i) as [b|] eqn:E; [|done]. cbn. intros [= <-].
  destruct (_ && _); [apply is_byte_wrap|]. apply (Forall_lookup_1 _ _ _ _ Hsb E).
Qed.

Lemma zput_add_range d sb pos b v :
  0 ≤ pos → zget sb pos = Some b → d !! Z.to_nat pos = Some v →
  zput sb pos (u8 (b + v)) = add_range pos (pos + 1) d sb.
Proof.
  intros Hp Hb Hv. unfold zget, zput in *. destruct (Z.leb_spec 0 pos); [|lia].
  apply list_eq. intros i. rewrite lookup_add_range.
  destruct (decide (i = Z.to_nat pos)) as [->|Hne].
  - rewrite list_lookup_insert_eq by (by eapply lookup_lt_Some). rewrite Hb, Hv. cbn.
    destruct (Z.leb_spec pos (Z.of_nat (Z.to_nat pos))), (Z.ltb_spec (Z.of_nat (Z.to_nat pos)) (pos + 1));
      cbn; done || lia.
  - rewrite list_lookup_insert_ne by done. destruct (sb !! i) as [x|]; [|done]. cbn. f_equal.
    destruct (Z.leb_spec pos (Z.of_nat i)), (Z.ltb_spec (Z.of_nat i) (pos + 1)); cbn; done || lia.
Qed.

(** The patcher's add loop on [n] bytes of the delta. *)
Lemma sparse_add_range bs d k n : ∀ pos sb,
  zlen d = bs → zlen sb = bs → 0 ≤ pos → pos + Z.of_nat n ≤ bs →
  sparse_add bs n (slice pos (Z.of_nat n) d ++ k) pos sb =
  Ok (k, pos + Z.of_nat n, add_range pos (pos + Z.of_nat n) d sb).
Proof.
  induction n as [|n IH]; intros pos sb Hd Hsb Hp Hn.
  { cbn [sparse_add]. rewrite slice_nil, Z.add_0_r, add_range_empty. done. }
  replace (Z.of_nat (S n)) with (1 + Z.of_nat n) by lia.
  rewrite slice_app_add by lia.
  destruct (lookup_lt_is_Some_2 d (Z.to_nat pos)) as [v Hv]; [zl|].
  assert (slice pos 1 d = [v]) as ->.
  { unfold slice. change (Z.to_nat 1) with 1%nat. apply list_eq. intros [|i]; cbn.
    - rewrite lookup_take_lt by lia. rewrite lookup_drop, Nat.add_0_r. done.
    - rewrite lookup_take_ge by lia. done. }
  cbn [app sparse_add]. destruct (Z.ltb_spec pos bs); [|lia].
  destruct (zget_in sb pos) as [b Hb]; [lia|]. rewrite Hb.
  rewrite (zput_add_range d sb pos b v) by done.
  rewrite IH by (rewrite ?zlen_add_range; lia).
  rewrite add_range_compose by lia. by rewrite Z.add_assoc.
Qed.

(** * Varint lengths *)

Lemma encode_varint_small v : 0 ≤ v < 2 ^ 64 → 1 ≤ zlen (encode_varint v) ≤ Z.max 1 v.
Proof.
  intros Hv. unfold encode_varint.
  assert (2 ^ 64 ≤ 2 ^ (7 * Z.of_nat 10)) as Hm by done.
  assert (∀ fuel v, fuel ≠ 0%nat → 0 ≤ v →
    1 ≤ zlen (encode_varint_loop fuel v) ≤ Z.max 1 v) as Hl; [|apply Hl; [done|lia]].
  clear. induction fuel as [|fuel IH]; intros v Hf Hv; [done|]. cbn [encode_varint_loop].
  destruct (Z.leb_spec 128 v); [|change (zlen [u8 (Z.land v 127)]) with 1; lia].
  rewrite zlen_cons, Z.shiftr_div_pow2 by lia. change (2 ^ 7) with 128.
  destruct fuel as [|fuel]; [cbn [encode_varint_loop]; change (zlen (@nil Z)) with 0; lia|].
  specialize (IH (v / 128) ltac:(done) ltac:(apply Z.div_pos; lia)).
  assert (v / 128 < v - 1) by (apply Z.div_lt_upper_bound; lia). lia.
Qed.

(** * The encoder's loops on a full delta *)

Section Sparse.
Context (bs : Z) (d : bytes) (Hd : zlen d = bs) (Hok : bytes_ok d) (Hbs : 0 < bs ≤ 2 ^ 24).

Abbreviation at_ i := (default 0 (d !! Z.to_nat i)).

Lemma zero_at_full pos : 0 ≤ pos < bs → zero_at (Some d) pos = Ok (at_ pos =? 0).
Proof using Hd.
  intros Hp. unfold zero_at. destruct (zget_in d pos) as [b Hb]; [lia|]. rewrite Hb.
  unfold zget in Hb. destruct (Z.leb_spec 0 pos); [|lia]. by rewrite Hb.
Qed.

(** The add run ends at the end of the block or at a zero. *)
Lemma add_run_spec fuel : ∀ pos acc,
  0 ≤ pos ≤ bs → (Z.to_nat (bs - pos) < fuel)%nat →
  ∃ pos', add_run fuel bs (Some d) pos acc = Ok (pos', acc + (pos' - pos)) ∧
    pos ≤ pos' ≤ bs ∧ (pos' < bs → at_ pos' = 0).
Proof using Hd.
  induction fuel as [|fuel IH]; intros pos acc Hp Hf; [lia|]. cbn [add_run].
  destruct (Z.ltb_spec pos bs).
  2:{ exists pos. split; [do 2 f_equal; lia|]. split; [lia | intros; lia]. }
  rewrite (zero_at_full pos) by lia. cbn [mbind outcome_bind].
  assert (∃ nz, (if bs <=? pos + 1 then Ok true else zero_at (Some d) (pos + 1)) = Ok nz) as [nz ->].
  { destruct (Z.leb_spec bs (pos + 1)); [by eexists|]. rewrite zero_at_full by lia. by eexists. }
  cbn [mbind outcome_bind]. destruct (Z.eqb_spec (at_ pos) 0) as [E|E]; [destruct nz|]; cbn [andb].
  - exists pos. split; [do 2 f_equal; lia|]. split; [lia | done].
  - destruct (IH (pos + 1) (acc + 1)) as (p' & -> & Hp' & Hz); [lia.. |].
    exists p'. split; [do 2 f_equal; lia|]. split; [lia | done].
  - destruct (IH (pos + 1) (acc + 1)) as (p' & -> & Hp' & Hz); [lia.. |].
    exists p'. split; [do 2 f_equal; lia|]. split; [lia | done].
Qed.

(** The copy run covers zeros only, and is not empty when it starts at one. *)
Lemma copy_run_spec fuel : ∀ pos acc,
  0 ≤ pos ≤ bs → (Z.to_nat (bs - pos) < fuel)%nat →
  ∃ pos', copy_run fuel bs (Some d) pos acc = Ok (pos', acc + (pos' - pos)) ∧
    pos ≤ pos' ≤ bs ∧ (∀ i, pos ≤ i < pos' → at_ i = 0) ∧
    (pos < bs → at_ pos = 0 → pos < pos').
Proof using Hd.
  induction fuel as [|fuel IH]; intros pos acc Hp Hf; [lia|]. cbn [copy_run].
  destruct (Z.ltb_spec pos bs).
  2:{ exists pos. split; [do 2 f_equal; lia|]. split_and!; intros; lia. }
  rewrite (zero_at_full pos) by lia. cbn [mbind outcome_bind].
  destruct (Z.eqb_spec (at_ pos) 0) as [E|E].
  - destruct (IH (pos + 1) (acc + 1)) as (p' & -> & Hp' & Hz & _); [lia.. |].
    exists p'. split; [do 2 f_equal; lia|]. split_and!; try lia.
    intros i Hi. destruct (decide (i = pos)) as [->|]; [done | apply Hz; lia].
  - exists pos. split; [do 2 f_equal; lia|]. split_and!; intros; lia || done.
Qed.

Lemma emit_ok cap buf x : zlen buf + zlen x ≤ cap → emit cap buf x = Ok (buf ++ x).
Proof. intros. unfold emit. destruct (Z.leb_spec (zlen buf + zlen x) cap); [done | lia]. Qed.

(** What the patcher makes of the encoding [e] of the delta from [pos] on. *)
Definition sparse_decodes (pos : Z) (e : bytes) : Prop :=
  ∀ k sb fuel, zlen sb = bs → bytes_ok sb → (length (e ++ k) < fuel)%nat →
    sparse_block fuel bs (e ++ k) pos sb = Ok (k, add_range pos bs d sb).

(** One pair of runs: [n] bytes to add, then [m] to keep. *)
Lemma sparse_decodes_add pos n :
  0 ≤ pos → 0 < n → pos + n = bs →
  sparse_decodes pos (encode_varint n ++ slice pos n d).
Proof using Hd Hbs.
  intros Hp Hn Hend k sb [|fuel] Hsb Hsbok Hf; [lia|]. cbn [sparse_block].
  destruct (Z.leb_spec bs pos); [lia|]. rewrite <- app_assoc, read_varint_encode by lia.
  cbn [mbind outcome_bind].
  destruct (Z.ltb_spec (zlen (slice pos n d ++ k)) n).
  { rewrite zlen_app, zlen_slice in *; pose proof (zlen_nonneg k); lia. }
  pose proof (sparse_add_range bs d k (Z.to_nat n) pos sb Hd Hsb Hp ltac:(lia)) as Ha.
  rewrite Z2Nat.id in Ha by lia. rewrite Ha. cbn [mbind outcome_bind].
  destruct (Z.leb_spec bs (pos + n)); [|lia]. by rewrite Hend.
Qed.

Lemma sparse_decodes_pair pos n m e :
  0 ≤ pos → 0 ≤ n → 0 < m → pos + n + m ≤ bs →
  (∀ i, pos + n ≤ i < pos + n + m → at_ i = 0) →
  sparse_decodes (pos + n + m) e →
  sparse_decodes pos (encode_varint n ++ slice pos n d ++ encode_varint m ++ e).
Proof using Hd Hbs.
  intros Hp Hn Hm Hend Hz He k sb [|fuel] Hsb Hsbok Hf; [lia|]. cbn [sparse_block].
  destruct (Z.leb_spec bs pos); [lia|]. rewrite <- !app_assoc, read_varint_encode by lia.
  cbn [mbind outcome_bind].
  destruct (Z.ltb_spec (zlen (slice pos n d ++ encode_varint m ++ e ++ k)) n).
  { rewrite zlen_app, zlen_slice in *; pose proof (zlen_nonneg (encode_varint m ++ e ++ k)); lia. }
  pose proof (sparse_add_range bs d (encode_varint m ++ e ++ k) (Z.to_nat n) pos sb
                Hd Hsb Hp ltac:(lia)) as Ha.
  rewrite Z2Nat.id in Ha by lia. rewrite Ha. cbn [mbind outcome_bind].
  destruct (Z.leb_spec bs (pos + n)); [lia|]. rewrite read_varint_encode by lia.
  cbn [mbind outcome_bind]. destruct (Z.ltb_spec (bs - (pos + n)) m); [lia|].
  destruct (Z.eqb_spec m 0); [lia|]. rewrite andb_false_r. cbn [andb].
  rewrite He; [|by rewrite zlen_add_range | by apply bytes_ok_add_range |].
  - do 2 f_equal. rewrite <- (add_range_compose pos (pos + n) bs d sb) by lia.
    rewrite <- (add_range_compose (pos + n) (pos + n + m) bs) by lia. f_equal.
    rewrite (add_range_zero (pos + n) (pos + n + m)); [done | by apply bytes_ok_add_range |].
    intros i Hi. rewrite <- (Nat2Z.id i). apply Hz. lia.
  - pose proof (encode_varint_small n ltac:(lia)). revert Hf. unfold zlen in *.
    rewrite !length_app. lia.
Qed.

Lemma sparse_decodes_end : sparse_decodes bs [].
Proof.
  intros k sb [|fuel] Hsb Hsbok Hf; [lia|]. cbn [sparse_block app].
  destruct (Z.leb_spec bs bs); [|lia]. by rewrite add_range_empty.
Qed.

(** The sparse encoding of a block never outgrows two bytes per byte, and decodes
    to the delta. *)
Lemma sparse_encode_spec fuel : ∀ cap pos buf,
  0 ≤ pos ≤ bs → (Z.to_nat (bs - pos) < fuel)%nat → zlen buf + 2 * (bs - pos) ≤ cap →
  ∃ e, sparse_encode fuel cap bs (Some d) pos buf = Ok (buf ++ e) ∧
    zlen e ≤ 2 * (bs - pos) ∧ bytes_ok e ∧ sparse_decodes pos e.
Proof using Hd Hok Hbs.
  induction fuel as [|fuel IH]; intros cap pos buf Hp Hf Hcap; [lia|]. cbn [sparse_encode].
  destruct (Z.ltb_spec pos bs).
  2:{ exists []. assert (pos = bs) as -> by lia. rewrite app_nil_r.
      split_and!; [done | change (zlen (@nil Z)) with 0; lia | by apply Forall_nil_2
                  | apply sparse_decodes_end]. }
  destruct (add_run_spec (S (Z.to_nat bs)) pos 0) as (p1 & -> & Hp1 & Hz1); [lia.. |].
  cbn [mbind outcome_bind]. rewrite Z.add_0_l. set (n := p1 - pos).
  pose proof (encode_varint_small n ltac:(lia)) as Hvn.
  assert (zlen (slice pos n d) = n) as Hsl by (apply zlen_slice; lia).
  rewrite emit_ok by lia. cbn [mbind outcome_bind].
  assert ((if 0 <? n then l ← load pos n d; emit cap (buf ++ encode_varint n) l
           else Ok (buf ++ encode_varint n)) =
          Ok (buf ++ encode_varint n ++ slice pos n d)) as ->.
  { destruct (Z.ltb_spec 0 n).
    - rewrite load_ok by lia. cbn [mbind outcome_bind].
      rewrite emit_ok by (rewrite zlen_app; lia). by rewrite <- app_assoc.
    - replace n with 0 by lia. rewrite slice_nil, app_nil_r. done. }
  cbn [mbind outcome_bind].
  assert (∀ v, bytes_ok (encode_varint v)) as Hvok by (intros; apply encode_varint_bytes_loop).
  assert (bytes_ok (slice pos n d)) by by apply bytes_ok_slice.
  destruct (Z.leb_spec bs p1).
  { exists (encode_varint n ++ slice pos n d). split_and!.
    - done.
    - rewrite zlen_app. lia.
    - apply bytes_ok_app. done.
    - apply sparse_decodes_add; lia. }
  destruct (copy_run_spec (S (Z.to_nat bs)) p1 0) as (p2 & -> & Hp2 & Hz2 & Hpos); [lia.. |].
  specialize (Hpos ltac:(lia) (Hz1 ltac:(lia))).
  cbn [mbind outcome_bind]. rewrite Z.add_0_l. set (m := p2 - p1).
  pose proof (encode_varint_small m ltac:(lia)) as Hvm.
  rewrite emit_ok by (rewrite !zlen_app; lia). cbn [mbind outcome_bind].
  destruct (IH cap p2 ((buf ++ encode_varint n ++ slice pos n d) ++ encode_varint m))
    as (e & -> & Hze & Hoke & Hdec); [lia | lia | rewrite !zlen_app; lia |].
  exists (encode_varint n ++ slice pos n d ++ encode_varint m ++ e). split_and!.
  - by rewrite <- !app_assoc.
  - rewrite !zlen_app. lia.
  - rewrite !bytes_ok_app. done.
  - apply sparse_decodes_pair; [lia.. | |].
    + intros i Hi. apply Hz2. lia.
    + by replace (pos + n + m) with p2 by lia.
Qed.
End Sparse.

(** C14: the sparse diff of a block fits the buffer allocated for it (two bytes per
    byte of the block), and the patcher, given the source block and the encoded
    diff followed by anything, rebuilds source plus delta and stops exactly after
    the diff. *)
Theorem sparse_roundtrip bs d sb k :
  0 < bs ≤ 2 ^ 24 → zlen d = bs → bytes_ok d → zlen sb = bs → bytes_ok sb →
  ∃ e, sparse_encode (S (Z.to_nat bs)) (2 * bs) bs (Some d) 0 [] = Ok e ∧
    zlen e ≤ 2 * bs ∧
    sparse_block (S (length (e ++ k))) bs (e ++ k) 0 sb = Ok (k, add_bytes sb d).
Proof.
  intros Hbs Hd Hok Hsb Hsbok.
  destruct (sparse_encode_spec bs d Hd Hok Hbs (S (Z.to_nat bs)) (2 * bs) 0 [])
    as (e & He & Hz & _ & Hdec); [lia | lia | change (zlen (@nil Z)) with 0; lia |].
  exists e. split_and!; [done | lia |].
  rewrite Hdec by (done || lia). rewrite <- Hsb, add_range_all by lia. done.
Qed.

Definition demo_delta : bytes := [0; 0; 5; 0; 7; 0; 0; 0; 9; 0].

Lemma sparse_roundtrip_witness :
  ∃ e, sparse_encode 11 20 10 (Some demo_delta) 0 [] = Ok e ∧ zlen e ≤ 20 ∧
    sparse_block (S (length (e ++ [1; 2]))) 10 (e ++ [1; 2]) 0 (fill 10 250)
      = Ok ([1; 2], add_bytes (fill 10 250) demo_delta).
Proof.
  apply (sparse_roundtrip 10 demo_delta (fill 10 250) [1; 2]); try done;
    by apply bytes_okb.
Defined.
