(* ===== verification/RoundTrip.v ===== *)
(** Encoding then patching rebuilds the destination image.

    The matching stages owe the encoder a truthful tracker ([block_sound] of
    Matches.v).  From it follows that the bytes the encoder emits for a run of blocks, consumed by one iteration of the
    patcher's loop, append exactly those blocks of the destination to the output
    ([decodes]); the theorems at the end put the runs together. *)

From S2P Require Import Prelude Stdio Header Writer Varint Tracker Source Patch PatchSafety.
From S2P Require Import Matches Encoder Codec DiffData.
From stdpp Require Import base list numbers tactics.
From Stdlib Require Import ZArith Lia.
Open Scope Z_scope.

(** * Slices of whole blocks *)

(** Two images agree on [n] blocks when they agree on each of them. *)
Lemma slice_blocks {A} bs n : ∀ a b (l k : list A),
  0 ≤ bs → 0 ≤ a → 0 ≤ b →
  (∀ j, (j < n)%nat → slice (a + Z.of_nat j * bs) bs l = slice (b + Z.of_nat j * bs) bs k) →
  slice a (Z.of_nat n * bs) l = slice b (Z.of_nat n * bs) k.
Proof.
  induction n as [|n IH]; intros a b l k Hbs Ha Hb Hj; [done|].
  replace (Z.of_nat (S n) * bs) with (bs + Z.of_nat n * bs) by lia.
  rewrite !slice_app_add by lia. f_equal.
  - specialize (Hj 0%nat ltac:(lia)). by rewrite !Z.mul_0_l, !Z.add_0_r in Hj.
  - apply IH; try lia. intros j Hjn. specialize (Hj (S j) ltac:(lia)).
    replace (a + bs + Z.of_nat j * bs) with (a + Z.of_nat (S j) * bs) by lia.
    by replace (b + bs + Z.of_nat j * bs) with (b + Z.of_nat (S j) * bs) by lia.
Qed.

(** [n] blocks, given one by one. *)
Lemma slice_concat bs (l : list bytes) : ∀ a (k : bytes),
  0 ≤ bs → 0 ≤ a →
  (∀ j b, l !! j = Some b → b = slice (a + Z.of_nat j * bs) bs k) →
  concat l = slice a (Z.of_nat (length l) * bs) k.
Proof.
  induction l as [|x l IH]; intros a k Hbs Ha Hj; [done|]. cbn [concat length].
  replace (Z.of_nat (S (length l)) * bs) with (bs + Z.of_nat (length l) * bs) by lia.
  rewrite slice_app_add by lia. f_equal.
  - specialize (Hj 0%nat x eq_refl). by rewrite Z.mul_0_l, Z.add_0_r in Hj.
  - apply IH; try lia. intros j b Hb. specialize (Hj (S j) b Hb). rewrite Hj. f_equal. lia.
Qed.

(** * The decoder on one operation *)

Section Decode.
Context {R : Type} {SR : SourceReader R} {SRS : SourceReaderSpec R} {SRL : SourceReaderLaws R}.
Context (bs dbs : Z) (hp : bool) (src dest : bytes).
Context (Hbs : 32 ≤ bs ≤ 2 ^ 24) (Hdbs : 0 ≤ dbs) (Hmax : dbs * bs ≤ 2 ^ 62).

Lemma Hmax' : dbs * bs ≤ INT64_MAX.
Proof. unfold INT64_MAX. lia. Qed.

(** The patcher is about to process block [i], with the right source. *)
Record dstate (i : Z) (s : pstate R) : Prop := {
  ds_ok : pok s;
  ds_block : dest_block s = i;
  ds_src : sr_contents (src_reader s) = src;
  ds_reliable : sr_reliable (src_reader s);
  ds_cap : f_cap (output s) ≤ 2 ^ 62;
  ds_data : i * bs ≤ zlen (f_data (output s))
}.

(** The bytes [o], [d] and [l] of the three streams, consumed by one operation at
    block [i], write blocks [i, i + n) of the destination. *)
Definition decodes (i n : Z) (o d l : bytes) : Prop :=
  ∃ fb o', o = fb :: o' ∧ ∀ s ops diffs lits,
    dstate i s → op_ptr s = o' ++ ops → diff_ptr s = d ++ diffs → lit_ptr s = l ++ lits →
    room True s (n * bs) →
    ∃ s', process_op bs dbs hp fb s = (Ok tt, s') ∧
      op_ptr s' = ops ∧ diff_ptr s' = diffs ∧ lit_ptr s' = lits ∧ dstate (i + n) s' ∧
      f_data (output s') = f_data (output s) ++ slice (i * bs) (n * bs) dest ∧
      f_cap (output s') = f_cap (output s).

(** What the part of an operation before the progress report must achieve. *)
Definition writes_blocks (i n : Z) (ops diffs lits : bytes) (c : Z) (s' : pstate R) (w : bytes) : Prop :=
  c = n ∧ op_ptr s' = ops ∧ diff_ptr s' = diffs ∧ lit_ptr s' = lits ∧
  w = slice (i * bs) (n * bs) dest.

Lemma advance_decodes i n s ops diffs lits (m : ST (pstate R) Z) :
  dstate i s → 0 ≤ i → 0 ≤ n → i + n ≤ dbs → zlen dest = dbs * bs →
  op_spec True s (m s) (writes_blocks i n ops diffs lits) →
  ∃ s', (c ← m; advance dbs hp c) s = (Ok tt, s') ∧
    op_ptr s' = ops ∧ diff_ptr s' = diffs ∧ lit_ptr s' = lits ∧ dstate (i + n) s' ∧
    f_data (output s') = f_data (output s) ++ slice (i * bs) (n * bs) dest ∧
    f_cap (output s') = f_cap (output s).
Proof.
  intros [Hok Hb Hs Hr Hc Hd] Hi Hn Hin Hdest Hspec. unfold mbind, ST_bind, op_spec in *.
  destruct (m s) as [[c|e| |] s1]; try tauto.
  destruct Hspec as (w & [Hok1 Hs1 Hr1 Hd1 Hdat Hcap _ _] & -> & Ho & Hdf & Hl & ->).
  eexists. split; [reflexivity|]. cbn. split_and!; try done.
  assert (zlen (slice (i * bs) (n * bs) dest) = n * bs) as Hz by (apply zlen_slice; nia).
  split; cbn.
  - by destruct Hok1.
  - rewrite Hd1, Hb. apply wrap_small. nia.
  - congruence.
  - auto.
  - lia.
  - rewrite Hdat, zlen_app, Hz. lia.
Qed.

(** The operations whose count comes first. *)
Lemma simple_decodes i n s fb ops rest diffs lits op :
  dstate i s → 0 ≤ i → 1 ≤ n → i + n ≤ dbs → zlen dest = dbs * bs →
  Z.land (Z.shiftr fb 5) 7 = op → op ≠ FSD_OP_COPY_ADD →
  read_count (op_ptr s) fb = Ok (n, rest) → bytes_ok rest → (length rest ≤ length (op_ptr s))%nat →
  (∀ s1, step s s1 [] → op_ptr s1 = rest → diff_ptr s1 = diff_ptr s → lit_ptr s1 = lit_ptr s →
     op_spec True s1 (op_other bs op fb n s1)
       (fun _ s' w => writes_blocks i n ops diffs lits n s' w)) →
  ∃ s', process_op bs dbs hp fb s = (Ok tt, s') ∧
    op_ptr s' = ops ∧ diff_ptr s' = diffs ∧ lit_ptr s' = lits ∧ dstate (i + n) s' ∧
    f_data (output s') = f_data (output s) ++ slice (i * bs) (n * bs) dest ∧
    f_cap (output s') = f_cap (output s).
Proof.
  intros Hds Hi Hn Hin Hdest Hop Hne Hrd Hrok Hrlen Hother.
  unfold process_op. rewrite Hop. apply advance_decodes; try done; [lia|].
  destruct (Z.eqb_spec op FSD_OP_COPY_ADD); [done|]. cbn [negb].
  pose proof Hds as [Hok Hb _ _ _ _].
  eapply spec_bind.
  { apply (spec_ops True s _ (fun c p => c = n ∧ p = rest)); [done|]. by rewrite Hrd. }
  intros c s1 w1 Hst1 (-> & [-> Hrest] & Hd1 & Hl1).
  apply spec_get. apply spec_when.
  { intros _. rewrite (step_dest _ _ _ Hst1), Hb, wrap_small; [apply Z.ltb_ge; lia|]. nia. }
  intros _. eapply spec_bind; [by apply Hother|].
  intros [] s2 w2 Hst2 Hw. apply spec_ret; [apply Hst2|]. cbn [app]. by rewrite app_nil_r.
Qed.

Context (Hdest : zlen dest = dbs * bs).

Lemma dstate_step i s s1 : dstate i s → step s s1 [] → dstate i s1.
Proof.
  intros [] []. rewrite app_nil_r in *. split; try congruence; auto.
Qed.

Lemma room_nil s s1 n : step s s1 [] → room True s n → room True s1 n.
Proof. intros Hst Hr. eapply room_step; [done..|]. change (zlen (@nil Z)) with 0. lia. Qed.

Lemma reader_facts i s : dstate i s → reliable True s ∧ dest_block s = i.
Proof. intros []. split; [by intros _ | done]. Qed.

(** An operation with a plain count. *)
Lemma count_op_decodes op i n d l :
  0 ≤ op < 8 → op ≠ FSD_OP_COPY_ADD → 0 ≤ i → 1 ≤ n < 2 ^ 32 → i + n ≤ dbs →
  (∀ fb s1 diffs lits, dstate i s1 → room True s1 (n * bs) →
     diff_ptr s1 = d ++ diffs → lit_ptr s1 = l ++ lits →
     op_spec True s1 (op_other bs op fb n s1) (fun _ s' w =>
       op_ptr s' = op_ptr s1 ∧ diff_ptr s' = diffs ∧ lit_ptr s' = lits ∧
       w = slice (i * bs) (n * bs) dest)) →
  decodes i n (count_bytes op n) d l.
Proof.
  intros Hop Hne Hi Hn Hin Hother.
  destruct (read_count_bytes op n Hop Hn) as (fb & o & Eo & _ & _ & _ & Efb & Hrd).
  exists fb, o. split; [done|]. intros s ops diffs lits Hds Hops Hdiffs Hlits Hroom.
  pose proof (pok_op s (ds_ok _ _ Hds)) as Hbok. rewrite Hops in Hbok. apply bytes_ok_app in Hbok as [_ Hbok].
  eapply simple_decodes with (rest := ops); try done; try lia.
  - rewrite Hops. apply Hrd.
  - rewrite Hops, length_app. lia.
  - intros s1 Hst Ho1 Hd1 Hl1.
    eapply spec_weaken; [apply (Hother fb s1 diffs lits)|].
    + by eapply dstate_step.
    + by eapply room_nil.
    + by rewrite Hd1.
    + by rewrite Hl1.
    + intros _ s' w _ (? & ? & ? & ?). rewrite <- Ho1. done.
Qed.

Lemma identity_decodes i n :
  0 ≤ i → 1 ≤ n < 2 ^ 32 → i + n ≤ dbs →
  (∀ j, i ≤ j < i + n →
     (j + 1) * bs ≤ zlen src ∧ slice (j * bs) bs dest = slice (j * bs) bs src) →
  decodes i n (count_bytes FSD_OP_COPY_IDENTITY n) [] [].
Proof.
  intros Hi Hn Hin Hj. assert (0 ≤ i * bs) by nia. apply count_op_decodes; try done.
  intros fb s1 diffs lits Hds Hroom Hd Hl. destruct (reader_facts _ _ Hds) as [Hrel Hb].
  change (op_other bs FSD_OP_COPY_IDENTITY fb n) with (copy_identity (R := R) bs (Z.to_nat n) 0).
  eapply spec_weaken.
  { apply (spec_copy_identity bs dbs Hbs Hmax' True); rewrite ?Hb, ?Z2Nat.id; try done; try lia.
    - apply Hds.
    - intros _. rewrite (ds_src _ _ Hds). destruct (Hj (i + n - 1)) as [Hlast _]; [lia|].
      by replace (i + 0 + n) with (i + n - 1 + 1) by lia. }
  intros _ s' w _ ((Ho & Hdf & Hlt) & _ & ->). cbn [app] in *. split_and!; try congruence.
  rewrite Hb, (ds_src _ _ Hds), Z.add_0_r.
  replace (n * bs) with (Z.of_nat (Z.to_nat n) * bs) by lia. symmetry. apply slice_blocks; [lia.. |].
  intros j Hjn. replace (i * bs + Z.of_nat j * bs) with ((i + Z.of_nat j) * bs) by lia.
  apply Hj. lia.
Qed.

Lemma filled_decodes op b i n :
  op = FSD_OP_ZERO ∧ b = 0 ∨ op = FSD_OP_ONE ∧ b = 255 →
  0 ≤ i → 1 ≤ n < 2 ^ 32 → i + n ≤ dbs →
  (∀ j, i ≤ j < i + n → slice (j * bs) bs dest = fill bs b) →
  decodes i n (count_bytes op n) [] [].
Proof.
  intros Hop Hi Hn Hin Hj. assert (0 ≤ i * bs) by nia. assert (0 ≤ n * bs) by nia.
  apply count_op_decodes; try done; [destruct Hop as [[-> _]|[-> _]]; done.. |].
  intros fb s1 diffs lits Hds Hroom Hd Hl.
  replace (op_other bs op fb n) with (write_filled (R := R) bs (Z.to_nat n) (fill bs b))
    by (destruct Hop as [[-> ->]|[-> ->]]; done).
  eapply spec_weaken.
  { apply (spec_write_filled bs Hbs True); rewrite ?Z2Nat.id; try done; try lia. apply Hds. }
  intros _ s' w _ ((Ho & Hdf & Hlt) & _ & ->). cbn [app] in *. split_and!; try congruence.
  rewrite <- (slice_fill 0 (Z.of_nat (Z.to_nat n) * bs) (n * bs)) by nia.
  rewrite Z2Nat.id by lia. replace (n * bs) with (Z.of_nat (Z.to_nat n) * bs) by lia.
  symmetry. apply slice_blocks; [lia.. |].
  intros j Hjn. replace (i * bs + Z.of_nat j * bs) with ((i + Z.of_nat j) * bs) by lia.
  rewrite Hj by lia. symmetry. apply slice_fill; nia.
Qed.

Lemma literal_decodes i n :
  0 ≤ i → 1 ≤ n < 2 ^ 32 → i + n ≤ dbs →
  decodes i n (count_bytes FSD_OP_LITERAL n) [] (slice (i * bs) (n * bs) dest).
Proof.
  intros Hi Hn Hin. assert (zlen (slice (i * bs) (n * bs) dest) = n * bs) as Hz
    by (apply zlen_slice; nia).
  apply count_op_decodes; try done.
  intros fb s1 diffs lits Hds Hroom Hd Hl.
  change (op_other bs FSD_OP_LITERAL fb n) with (write_literals (R := R) bs (Z.to_nat n)).
  eapply spec_weaken.
  { apply (spec_write_literals bs Hbs True); rewrite ?Z2Nat.id; try done; try lia; [apply Hds|].
    intros _. rewrite Hl, zlen_app, Hz. pose proof (zlen_nonneg lits). lia. }
  intros _ s' w _ (Ho & Hdf & Hlt & Hzw). rewrite Z2Nat.id in Hzw by lia. rewrite Hl in Hlt.
  apply app_inj_1 in Hlt as [<- <-]; [|unfold zlen in *; lia].
  cbn [app] in *. split_and!; congruence.
Qed.

(** The bytes of a COPY_RELOCATE over [n] blocks at block distance [off]. *)
Definition relocate_bytes (n off : Z) : bytes :=
  fbyte FSD_OP_COPY_RELOCATE (count_enc_of n)
    (2 * reloc_enc (Z.abs off) + (if off <? 0 then 1 else 0)) ::
  run_bytes n ++ reloc_bytes (Z.abs off).

(** Copying a relocated run from the source. *)
Lemma copy_relocate_blocks i n off s :
  dstate i s → room True s (n * bs) → 0 ≤ i → 1 ≤ n < 2 ^ 32 → i + n ≤ dbs → Z.abs off ≤ UINT32_MAX → 0 ≤ i + off →
  (i + off + n) * bs ≤ zlen src →
  (∀ j, i ≤ j < i + n → slice (j * bs) bs dest = slice ((j + off) * bs) bs src) →
  op_spec True s (copy_relocate bs (Z.to_nat n) 0 off s) (fun _ s' w =>
    same_ptrs s s' ∧ w = slice (i * bs) (n * bs) dest).
Proof.
  intros Hds Hroom Hi Hn Hin Hoff Hpos Hend Hj. destruct (reader_facts _ _ Hds) as [Hrel Hb].
  assert (0 ≤ i * bs) by nia. assert (0 ≤ (i + off) * bs) by nia. unfold UINT32_MAX in Hoff.
  eapply spec_weaken.
  { apply (spec_copy_relocate bs dbs Hbs Hdbs Hmax' True); rewrite ?Hb, ?Z2Nat.id; try done;
      unfold UINT32_MAX; try lia.
    - apply Hds.
    - intros _. rewrite (ds_src _ _ Hds). split; [lia|].
      by replace (i + 0 + off + n) with (i + off + n) by lia. }
  intros _ s' w _ (Hp & _ & ->). split; [done|]. rewrite Hb, (ds_src _ _ Hds), Z.add_0_r.
  replace (n * bs) with (Z.of_nat (Z.to_nat n) * bs) by lia. symmetry. apply slice_blocks; [lia.. |].
  intros j Hjn. replace (i * bs + Z.of_nat j * bs) with ((i + Z.of_nat j) * bs) by lia.
  replace ((i + off) * bs + Z.of_nat j * bs) with ((i + Z.of_nat j + off) * bs) by lia.
  apply Hj. lia.
Qed.

Lemma relocate_decodes i n off :
  0 ≤ i → 1 ≤ n < 2 ^ 32 → i + n ≤ dbs → Z.abs off ≤ UINT32_MAX → 0 ≤ i + off →
  (i + off + n) * bs ≤ zlen src →
  (∀ j, i ≤ j < i + n → slice (j * bs) bs dest = slice ((j + off) * bs) bs src) →
  decodes i n (relocate_bytes n off) [] [].
Proof.
  intros Hi Hn Hin Hoff Hpos Hend Hj. unfold relocate_bytes.
  assert (0 ≤ i * bs) by nia. assert (0 ≤ (i + off) * bs) by nia.
  pose proof (count_enc_of_range n) as Hce. pose proof (reloc_enc_range (Z.abs off)) as Hre.
  set (sg := if off <? 0 then 1 else 0). assert (0 ≤ sg < 2) as Hsg by (subst sg; case_bool; lia).
  set (fb := fbyte _ _ _). exists fb, (run_bytes n ++ reloc_bytes (Z.abs off)). split; [done|].
  intros s ops diffs lits Hds Hops Hdiffs Hlits Hroom.
  pose proof (pok_op s (ds_ok _ _ Hds)) as Hbok. rewrite Hops in Hbok.
  apply bytes_ok_app in Hbok as [Hb1 Hbok]. apply bytes_ok_app in Hb1 as [_ Hb1].
  rewrite <- app_assoc in Hops.
  eapply simple_decodes with (op := FSD_OP_COPY_RELOCATE) (rest := reloc_bytes (Z.abs off) ++ ops);
    try done; try lia.
  - apply fbyte_op; unfold FSD_OP_COPY_RELOCATE; lia.
  - rewrite Hops. apply (read_run_bytes FSD_OP_COPY_RELOCATE n); unfold FSD_OP_COPY_RELOCATE; lia.
  - by apply bytes_ok_app.
  - rewrite Hops, !length_app. lia.
  - intros s1 Hst Ho1 Hd1 Hl1.
    assert (dstate i s1) as Hds1 by (by eapply dstate_step).
    assert (room True s1 (n * bs)) as Hroom1 by (by eapply room_nil).
    destruct (reader_facts _ _ Hds1) as [Hrel Hb].
    unfold op_other. change (FSD_OP_COPY_RELOCATE =? FSD_OP_COPY_IDENTITY) with false.
    change (FSD_OP_COPY_RELOCATE =? FSD_OP_COPY_RELOCATE) with true. cbv iota zeta.
    subst fb. rewrite fbyte_enc, fbyte_flag by (unfold FSD_OP_COPY_RELOCATE; lia).
    eapply spec_bind.
    { apply (spec_ops True s1 _ (fun v p => v = Z.abs off ∧ p = ops)); [apply Hds1|].
      rewrite Ho1, read_reloc_bytes by lia. split_and!; [done | done | done |].
      rewrite length_app. lia. }
    intros v s2 w2 Hst2 (-> & [-> Hp2] & Hd2 & Hl2).
    assert (dstate i s2) as Hds2 by (by eapply dstate_step).
    assert ((if negb (sg =? 0) then - Z.abs off else Z.abs off) = off) as ->.
    { subst sg. destruct (Z.ltb_spec off 0); cbn; lia. }
    eapply spec_weaken; [apply (copy_relocate_blocks i n off); try done; by eapply room_nil|].
    intros _ s' w _ ((Ho & Hdf & Hlt) & ->). cbn [app] in *. split_and!; congruence.
Qed.

(** The bytes of a COPY_ADD over [n] blocks at byte distance [off], in format
    [fmt], with [len] bytes of diff data. *)
Definition copy_add_bytes (n off fmt len : Z) : bytes :=
  fbyte FSD_OP_COPY_ADD (count_enc_of n) (2 * boff_enc off + fmt) ::
  boff_bytes off ++ run_bytes n ++ le_bytes 4 len.

(** The region [d] decodes, block by block, to the destination. *)
Definition region_decodes (i n off fmt : Z) (d : bytes) : Prop :=
  if fmt =? 0 then
    zlen d = n * bs ∧
    ∀ j, 0 ≤ j < n → slice ((i + j) * bs) bs dest =
      add_bytes (slice ((i + j) * bs + off) bs src) (slice (j * bs) bs d)
  else
    ∃ es : list bytes, d = concat es ∧ length es = Z.to_nat n ∧
      ∀ j e k sb, es !! j = Some e → sb = slice ((i + Z.of_nat j) * bs + off) bs src → zlen sb = bs →
        sparse_block (S (length (e ++ k))) bs (e ++ k) 0 sb =
          Ok (k, slice ((i + Z.of_nat j) * bs) bs dest).

(** One block of the region, as the block loop of COPY_ADD sees it. *)
Definition region_cursor (fmt : Z) (es : list bytes) (blk : Z) (cursor : bytes) : Prop :=
  fmt = 0 ∨ cursor = concat (drop (Z.to_nat blk) es).

Definition region_walk (i n off fmt : Z) (d : bytes) (es : list bytes) : Prop :=
  ∀ blk cursor buf, 0 ≤ blk < n → region_cursor fmt es blk cursor → zlen buf = bs →
    buf = slice ((i + blk) * bs + off) bs src →
    match (if fmt =? 0
           then b ← dense_block bs (zlen d) blk d buf; Ok (cursor, b)
           else sparse_block (S (length cursor)) bs cursor 0 buf) with
    | Ok (c', b) => region_cursor fmt es (blk + 1) c' ∧ zlen b = bs ∧
                    b = slice ((i + blk) * bs) bs dest
    | Err _ => ¬ True
    | _ => False
    end.

Lemma region_block i n off fmt d es :
  0 ≤ fmt < 2 → 0 ≤ i → i + n ≤ dbs →
  (fmt = 0 → region_decodes i n off fmt d) →
  (fmt ≠ 0 → length es = Z.to_nat n ∧ ∀ j e k sb, es !! j = Some e →
     sb = slice ((i + Z.of_nat j) * bs + off) bs src → zlen sb = bs →
     sparse_block (S (length (e ++ k))) bs (e ++ k) 0 sb =
       Ok (k, slice ((i + Z.of_nat j) * bs) bs dest)) →
  region_walk i n off fmt d es.
Proof.
  intros Hfmt Hi Hin Hdense Hsparse blk cursor buf Hblk Hcur Hzb Hbuf.
  assert (0 ≤ (i + blk) * bs) by nia. assert ((i + blk) * bs + bs ≤ dbs * bs) by nia.
  assert (zlen (slice ((i + blk) * bs) bs dest) = bs) as Hzd by (apply zlen_slice; lia).
  destruct (Z.eqb_spec fmt 0) as [->|Hf].
  - destruct (Hdense eq_refl) as [Hz Hb]. cbn [Z.eqb] in *. unfold dense_block.
    assert (0 ≤ blk * bs) by nia. assert (blk * bs + bs ≤ n * bs) by nia.
    assert (n * bs ≤ dbs * bs) by nia.
    rewrite wrap_small by lia. destruct (_ || _) eqn:E; [lia|].
    rewrite load_ok by lia. cbn. rewrite Hbuf, <- Hb by lia. split_and!; [by left | done | done].
  - destruct (Hsparse Hf) as [Hlen Hdec]. destruct Hcur as [|Hcur]; [done|].
    destruct (lookup_lt_is_Some_2 es (Z.to_nat blk)) as [e He]; [lia|].
    rewrite (drop_S _ _ _ He) in Hcur. cbn [concat] in Hcur. rewrite Hcur.
    rewrite (Hdec (Z.to_nat blk) e _ buf He); rewrite ?Z2Nat.id by lia; [|done|done].
    split_and!; [|done|done]. right. do 2 f_equal. lia.
Qed.

(** A region that decodes can be walked block by block. *)
Lemma region_walks i n off fmt d :
  0 ≤ fmt < 2 → 0 ≤ i → i + n ≤ dbs → region_decodes i n off fmt d →
  ∃ es, (fmt ≠ 0 → d = concat es) ∧ region_walk i n off fmt d es.
Proof.
  intros Hfmt Hi Hin Hreg. destruct (decide (fmt = 0)) as [->|Hf].
  - exists []. split; [done|]. by apply (region_block i n off 0 d []).
  - assert ((fmt =? 0) = false) as Ef by lia. unfold region_decodes in Hreg. rewrite Ef in Hreg.
    destruct Hreg as (es & -> & Hl & Hdec). exists es. split; [done|].
    by apply (region_block i n off fmt (concat es) es).
Qed.

(** Applying the region of a COPY_ADD. *)
Lemma copy_add_blocks i n off fmt d s :
  dstate i s → room True s (n * bs) → 0 ≤ i → 1 ≤ n < 2 ^ 32 → i + n ≤ dbs → INT32_MIN ≤ off ≤ INT32_MAX → 0 ≤ fmt < 2 →
  (∀ j, 0 ≤ j < n → 0 ≤ (i + j) * bs + off ∧ (i + j) * bs + off + bs ≤ zlen src) →
  region_decodes i n off fmt d →
  op_spec True s (copy_add bs (Z.to_nat n) 0 off fmt (zlen d) d d s) (fun _ s' w =>
    same_ptrs s s' ∧ w = slice (i * bs) (n * bs) dest).
Proof.
  intros Hds Hroom Hi Hn Hin Hoff Hfmt Hrange Hreg. destruct (reader_facts _ _ Hds) as [Hrel Hb].
  destruct (region_walks i n off fmt d Hfmt Hi Hin Hreg) as (es & Hes & Hblock).
  eapply spec_weaken.
  { apply (spec_copy_add bs dbs Hbs Hmax' True off fmt (zlen d) d (region_cursor fmt es)
             (fun blk b => b = slice ((i + blk) * bs) bs dest)); rewrite ?Hb, ?Z2Nat.id; try lia.
    - intros blk cursor buf Hblk Hcur Hzb Hbuf. apply Hblock; [lia | done | done |].
      rewrite <- (ds_src _ _ Hds). apply Hbuf, Hrange. lia.
    - destruct (decide (fmt = 0)); [by left | right]. rewrite drop_0. by apply Hes.
    - apply Hds.
    - apply Hds.
    - rewrite Z.add_0_r. apply Hds.
    - done.
    - done.
    - intros _ j Hj. rewrite (ds_src _ _ Hds). apply Hrange. lia. }
  intros _ s' w _ (Hp & Hz & l & -> & Hll & HlE). split; [done|].
  rewrite (slice_concat bs l (i * bs) dest); [by rewrite Hll, Z2Nat.id by lia | lia | nia |].
  intros j b Hj. apply HlE in Hj as [_ ->]. f_equal. lia.
Qed.

Lemma copy_add_decodes i n off fmt d :
  0 ≤ i → 1 ≤ n < 2 ^ 32 → i + n ≤ dbs → INT32_MIN ≤ off ≤ INT32_MAX → 0 ≤ fmt < 2 →
  zlen d ≤ UINT32_MAX →
  (∀ j, 0 ≤ j < n → 0 ≤ (i + j) * bs + off ∧ (i + j) * bs + off + bs ≤ zlen src) →
  region_decodes i n off fmt d →
  decodes i n (copy_add_bytes n off fmt (zlen d)) d [].
Proof.
  intros Hi Hn Hin Hoff Hfmt Hlen Hrange Hreg. unfold copy_add_bytes.
  pose proof (count_enc_of_range n) as Hce. pose proof (boff_enc_range off) as Hbe.
  set (fb := fbyte _ _ _). eexists fb, _. split; [reflexivity|].
  intros s ops diffs lits Hds Hops Hdiffs Hlits Hroom.
  pose proof (pok_op s (ds_ok _ _ Hds)) as Hbok. rewrite Hops in Hbok.
  apply bytes_ok_app in Hbok as [Hb1 Hbok]. rewrite <- !app_assoc in Hops.
  apply bytes_ok_app in Hb1 as [_ Hb1]. apply bytes_ok_app in Hb1 as [Hb1 Hb2].
  assert (0 ≤ FSD_OP_COPY_ADD < 8) as Hop4 by done.
  unfold process_op. apply advance_decodes; try done; [lia|].
  subst fb. rewrite fbyte_op by lia. cbn [Z.eqb negb FSD_OP_COPY_ADD Pos.eqb].
  change (negb (FSD_OP_COPY_ADD =? FSD_OP_COPY_ADD)) with false. cbv iota.
  unfold op_copy_add. rewrite fbyte_hi, fbyte_enc, fbyte_flag by lia. cbv zeta.
  apply spec_when; [intros _; apply Z.eqb_neq; lia|]. intros _.
  eapply spec_bind.
  { apply (spec_ops True s _ (fun v p => v = off ∧ p = run_bytes n ++ le_bytes 4 (zlen d) ++ ops));
      [apply Hds|].
    rewrite Hops, read_boff_bytes by lia. split_and!; [done | done | by rewrite !bytes_ok_app |].
    rewrite !length_app. lia. }
  intros v s1 w1 Hst1 (-> & [-> Hp1] & Hd1 & Hl1).
  assert (dstate i s1) as Hds1 by (by eapply dstate_step).
  eapply spec_bind.
  { apply (spec_ops True s1 _ (fun v p => v = n ∧ p = le_bytes 4 (zlen d) ++ ops)); [apply Hds1|].
    rewrite Hp1. rewrite (proj2 (read_run_bytes 0 n 0 _ ltac:(lia) ltac:(lia) Hn)).
    split_and!; [done | done | by rewrite !bytes_ok_app |]. rewrite !length_app. lia. }
  intros v s2 w2 Hst2 (-> & [-> Hp2] & Hd2 & Hl2).
  assert (dstate i s2) as Hds2 by (by eapply dstate_step).
  apply spec_get. apply spec_when.
  { intros _. rewrite (ds_block _ _ Hds2), wrap_small; [apply Z.ltb_ge; lia|]. nia. }
  intros _. eapply spec_bind.
  { apply (spec_ops True s2 _ (fun v p => v = zlen d ∧ p = ops)); [apply Hds2|].
    rewrite Hp2. pose proof (zlen_nonneg d). rewrite read_diff_len_bytes by lia.
    split_and!; [done | done | done |]. rewrite !length_app. lia. }
  intros v s3 w3 Hst3 (-> & [-> Hp3] & Hd3 & Hl3).
  assert (dstate i s3) as Hds3 by (by eapply dstate_step).
  assert (diff_ptr s3 = d ++ diffs) as Hdp by congruence.
  assert (room True s3 (n * bs)) as Hroom3.
  { eapply room_nil; [done|]. eapply room_nil; [done|]. by eapply room_nil. }
  apply spec_get. apply spec_when.
  { intros _. apply Z.ltb_ge. rewrite Hdp, zlen_app. pose proof (zlen_nonneg diffs). lia. }
  intros _. pose proof (zlen_nonneg d). pose proof (zlen_nonneg diffs).
  apply spec_take_diff; [apply Hds3|rewrite Hdp, zlen_app; lia|]. intros s4 Hst4 Ho4 Hd4 Hl4.
  rewrite Hdp, slice_app_l, slice_full by lia || done.
  rewrite Hdp, drop_app_length' in Hd4 by (unfold zlen; lia).
  eapply spec_bind; [apply (copy_add_blocks i n off fmt d); try done; [by eapply dstate_step|by eapply room_nil]|].
  intros [] s5 w5 Hst5 ((Ho5 & Hd5 & Hl5) & ->).
  apply spec_ret; [apply Hst5|]. cbn [app]. rewrite app_nil_r. split; [done|]. cbn [app] in Hlits. split_and!; congruence.
Qed.

End Decode.
