(* ===== verification/EncoderSpec.v ===== *)
(** The encoder meets its contract: on a sound tracker every operation it emits
    decodes to the blocks it covers. *)

From S2P Require Import Prelude Stdio Header Writer Varint Tracker Source Patch PatchSafety.
From S2P Require Import Encoder Codec DiffData Matches RoundTrip.
From stdpp Require Import base list numbers tactics.
From Stdlib Require Import ZArith Lia.
Open Scope Z_scope.

(** * Runs *)

(** A run extends as long as [same] holds, within the tracker and its limit. *)
Lemma run_loop_spec t i more same fuel : ∀ rc,
  zlen (blocks t) = count t → count t < 2 ^ 32 → 0 ≤ i → 1 ≤ rc → i + rc ≤ count t →
  (∀ j st, i ≤ j < count t → blocks t !! Z.to_nat j = Some st → ∃ b, same st j = Ok b) →
  (Z.to_nat (count t - (i + rc)) < fuel)%nat →
  ∃ n, run_loop fuel t i more same rc = Ok n ∧ rc ≤ n ∧ i + n ≤ count t ∧
    (n = rc ∨ more (n - 1) = true) ∧
    ∀ j, i + rc ≤ j < i + n → ∃ st, blocks t !! Z.to_nat j = Some st ∧ same st j = Ok true.
Proof.
  induction fuel as [|fuel IH]; intros rc Hl Hc Hi Hrc Hin Hsame Hf; [lia|]. cbn [run_loop].
  rewrite (wrap_small 64) by lia.
  destruct (Z.ltb_spec (i + rc) (count t)); cbn [andb].
  2:{ exists rc. split_and!; first [done | lia | by left | intros; lia]. }
  destruct (more rc) eqn:Em.
  2:{ exists rc. split_and!; first [done | lia | by left | intros; lia]. }
  destruct (tracker_get_some t (i + rc) Hl) as (st & -> & Hst); [lia|].
  destruct (Hsame (i + rc) st) as [b Hb]; [lia | done |]. rewrite Hb. cbn [mbind outcome_bind].
  destruct b.
  2:{ exists rc. split_and!; first [done | lia | by left | intros; lia]. }
  destruct (IH (rc + 1)) as (n & -> & Hn & Hcn & Hm & Hall); [done || lia..|].
  exists n. split_and!; try done; try lia.
  - right. destruct Hm as [->|Hm]; [|done]. by replace (rc + 1 - 1) with rc by lia.
  - intros j Hj. destruct (decide (j = i + rc)) as [->|]; [by exists st | apply Hall; lia].
Qed.

Lemma run_from_spec t i more same :
  zlen (blocks t) = count t → count t < 2 ^ 32 → 0 ≤ i < count t →
  (∀ j st, i ≤ j < count t → blocks t !! Z.to_nat j = Some st → ∃ b, same st j = Ok b) →
  ∃ n, run_from t i more same = Ok n ∧ 1 ≤ n ∧ i + n ≤ count t ∧
    (n = 1 ∨ more (n - 1) = true) ∧
    ∀ j, i + 1 ≤ j < i + n → ∃ st, blocks t !! Z.to_nat j = Some st ∧ same st j = Ok true.
Proof. intros. apply run_loop_spec; try done; try lia. unfold zlen in *. lia. Qed.

(** A loop over the blocks of a run keeps an invariant. *)
Lemma over_run_spec {A} t i (f : fsd_block_state_t → A → outcome A) (I : Z → A → Prop) n : ∀ j a,
  zlen (blocks t) = count t → count t < 2 ^ 32 → 0 ≤ i → 0 ≤ j → i + j + Z.of_nat n ≤ count t →
  (∀ k st a, j ≤ k < j + Z.of_nat n → blocks t !! Z.to_nat (i + k) = Some st → I k a →
     ∃ a', f st a = Ok a' ∧ I (k + 1) a') →
  I j a → ∃ a', over_run t i f n j a = Ok a' ∧ I (j + Z.of_nat n) a'.
Proof.
  induction n as [|n IH]; intros j a Hl Hc Hi Hj Hn Hf Ha; cbn [over_run].
  { exists a. split; [done|]. by rewrite Z.add_0_r. }
  rewrite wrap_small by lia. destruct (tracker_get_some t (i + j) Hl) as (st & -> & Hst); [lia|].
  destruct (Hf j st a) as (a1 & -> & Ha1); [lia | done | done |]. cbn [mbind outcome_bind].
  destruct (IH (j + 1) a1) as (a2 & -> & Ha2); try done; try lia.
  - intros k st' a' Hk. apply Hf. lia.
  - exists a2. split; [done|]. by replace (j + Z.of_nat (S n)) with (j + 1 + Z.of_nat n) by lia.
Qed.

(** * Specifications over the three writers *)

Section Writers.
Context {W : Type} {BS : ByteSink W} {BSS : ByteSinkSpec W} {BSL : ByteSinkLaws W}.

Record wok (s : writers W) : Prop := {
  wk_op : snk_ok (op_writer s);
  wk_diff : snk_ok (diff_writer s);
  wk_lit : snk_ok (lit_writer s)
}.

(** The three streams grew by [o], [d] and [l]. *)
Record wext (s s' : writers W) (o d l : bytes) : Prop := {
  we_ok : wok s';
  we_op : snk_view (op_writer s') = snk_view (op_writer s) ++ o;
  we_diff : snk_view (diff_writer s') = snk_view (diff_writer s) ++ d;
  we_lit : snk_view (lit_writer s') = snk_view (lit_writer s) ++ l;
  we_op_cap : snk_cap (op_writer s') = snk_cap (op_writer s);
  we_diff_cap : snk_cap (diff_writer s') = snk_cap (diff_writer s);
  we_lit_cap : snk_cap (lit_writer s') = snk_cap (lit_writer s)
}.

Definition enc_spec {A} (good : Prop) (s : writers W) (rs : outcome A * writers W)
    (Q : A → bytes → bytes → bytes → Prop) : Prop :=
  match rs with
  | (Ok a, s') => ∃ o d l, wext s s' o d l ∧ Q a o d l
  | (Err _, _) => ¬ good
  | _ => False
  end.

Lemma wext_refl s : wok s → wext s s [] [] [].
Proof. intros. split; try done; by rewrite app_nil_r. Qed.

Lemma wext_trans s1 s2 s3 o1 d1 l1 o2 d2 l2 :
  wext s1 s2 o1 d1 l1 → wext s2 s3 o2 d2 l2 → wext s1 s3 (o1 ++ o2) (d1 ++ d2) (l1 ++ l2).
Proof.
  intros [] []. split; try done; try congruence; rewrite app_assoc; congruence.
Qed.

Lemma enc_ret {A} good s (a : A) (Q : A → bytes → bytes → bytes → Prop) :
  wok s → Q a [] [] [] → enc_spec good s ((mret a : ST _ A) s) Q.
Proof. intros. exists [], [], []. split; [by apply wext_refl | done]. Qed.

Lemma enc_bind {A B} good s (m : ST (writers W) A) (f : A → ST (writers W) B) Q1 Q :
  enc_spec good s (m s) Q1 →
  (∀ a s' o d l, wext s s' o d l → Q1 a o d l →
     enc_spec good s' (f a s') (fun b o' d' l' => Q b (o ++ o') (d ++ d') (l ++ l'))) →
  enc_spec good s ((m ≫= f) s) Q.
Proof.
  intros H1 H2. unfold mbind, ST_bind, enc_spec in *.
  destruct (m s) as [[a|e| |] s']; try done.
  destruct H1 as (o & d & l & Hw & Hq). specialize (H2 a s' o d l Hw Hq).
  destruct (f a s') as [[b|e| |] s'']; try done.
  destruct H2 as (o' & d' & l' & Hw' & Hq'). exists (o ++ o'), (d ++ d'), (l ++ l').
  split; [by eapply wext_trans | done].
Qed.

Lemma enc_weaken {A} good s (rs : outcome A * writers W) (Q1 Q2 : A → bytes → bytes → bytes → Prop) :
  enc_spec good s rs Q1 → (∀ a o d l, Q1 a o d l → Q2 a o d l) → enc_spec good s rs Q2.
Proof. unfold enc_spec. destruct rs as [[] ?]; naive_solver. Qed.

Lemma enc_lift {A B} good s (m : outcome A) (f : A → ST (writers W) B) Q :
  match m with Ok a => enc_spec good s (f a s) Q | Err _ => ¬ good | _ => False end →
  enc_spec good s ((st_lift m ≫= f) s) Q.
Proof. by destruct m. Qed.

Lemma enc_on_op good s (m : ST W unit) o :
  wok s → sink_step (op_writer s) o (m (op_writer s)) →
  (good → zlen (snk_view (op_writer s)) + zlen o ≤ snk_cap (op_writer s)) →
  enc_spec good s (on_op m s) (fun _ o' d l => o' = o ∧ d = [] ∧ l = []).
Proof.
  intros [] Hst Hg. unfold on_op. destruct (m (op_writer s)) as [r w].
  destruct Hst as [(Hr & Hok & Hv & Hc)|(Hr & Hc)]; cbn in *; subst r.
  - exists o, [], []. split; [|done]. split; cbn; rewrite ?app_nil_r; done || by split.
  - cbn. intros Hgood. specialize (Hg Hgood). lia.
Qed.

Lemma enc_on_diff good s (m : ST W unit) d :
  wok s → sink_step (diff_writer s) d (m (diff_writer s)) →
  (good → zlen (snk_view (diff_writer s)) + zlen d ≤ snk_cap (diff_writer s)) →
  enc_spec good s (on_diff m s) (fun _ o d' l => o = [] ∧ d' = d ∧ l = []).
Proof.
  intros [] Hst Hg. unfold on_diff. destruct (m (diff_writer s)) as [r w].
  destruct Hst as [(Hr & Hok & Hv & Hc)|(Hr & Hc)]; cbn in *; subst r.
  - exists [], d, []. split; [|done]. split; cbn; rewrite ?app_nil_r; done || by split.
  - cbn. intros Hgood. specialize (Hg Hgood). lia.
Qed.

Lemma enc_on_lit good s (m : ST W unit) l :
  wok s → sink_step (lit_writer s) l (m (lit_writer s)) →
  (good → zlen (snk_view (lit_writer s)) + zlen l ≤ snk_cap (lit_writer s)) →
  enc_spec good s (on_lit m s) (fun _ o d l' => o = [] ∧ d = [] ∧ l' = l).
Proof.
  intros [] Hst Hg. unfold on_lit. destruct (m (lit_writer s)) as [r w].
  destruct Hst as [(Hr & Hok & Hv & Hc)|(Hr & Hc)]; cbn in *; subst r.
  - exists [], [], l. split; [|done]. split; cbn; rewrite ?app_nil_r; done || by split.
  - cbn. intros Hgood. specialize (Hg Hgood). lia.
Qed.

End Writers.

(** * Operations *)

Section Op.
Context {W : Type} {BS : ByteSink W} {BSS : ByteSinkSpec W} {BSL : ByteSinkLaws W}.
Context {R : Type} {SR : SourceReader R} {SRS : SourceReaderSpec R} {SRL : SourceReaderLaws R}.
Context (bs dbs : Z) (hp : bool) (src dest : bytes) (t : fsd_block_tracker_t) (malloc_ok : allocator).
Context (Hts : tracker_sound bs dbs src dest t) (Hmax : dbs * bs ≤ 2 ^ 62).

Lemma dbs_nonneg : 0 ≤ dbs.
Proof. rewrite <- (ts_blocks _ _ _ _ _ Hts). apply zlen_nonneg. Qed.

(** What one iteration of the encoder's loop at block [i] produces. *)
Definition op_post (i n : Z) (o d l : bytes) : Prop :=
  1 ≤ n ∧ i + n ≤ dbs ∧ zlen o ≤ 13 ∧ zlen d ≤ 2 * bs * n ∧ zlen l ≤ bs * n ∧
  bytes_ok o ∧ bytes_ok d ∧ bytes_ok l ∧ decodes (R := R) bs dbs hp src dest i n o d l.

(** Room for one operation at block [i] and for the data of all blocks left. *)
Definition roomy (good : Prop) (s : writers W) (i : Z) : Prop :=
  good → (∀ z, malloc_ok z = true) ∧
    zlen (snk_view (op_writer s)) + 13 ≤ snk_cap (op_writer s) ∧
    zlen (snk_view (diff_writer s)) + 2 * bs * (dbs - i) ≤ snk_cap (diff_writer s) ∧
    zlen (snk_view (lit_writer s)) + bs * (dbs - i) ≤ snk_cap (lit_writer s).

Lemma count_bytes_ok op n :
  0 ≤ op < 8 → 1 ≤ n < 2 ^ 32 → bytes_ok (count_bytes op n) ∧ zlen (count_bytes op n) ≤ 13.
Proof.
  intros Hop Hn. destruct (read_count_bytes op n Hop Hn) as (fb & o & -> & Hfb & Hok & Hz & _).
  split; [by apply bytes_ok_cons|]. rewrite zlen_cons. lia.
Qed.

(** An operation that is only a count. *)
Lemma enc_count_op good s op i n :
  wok s → 0 ≤ op < 8 → 0 ≤ i → 1 ≤ n → i + n ≤ dbs → roomy good s i →
  decodes (R := R) bs dbs hp src dest i n (count_bytes op n) [] [] →
  enc_spec good s (on_op (encode_count (Z.shiftl op 5) n) s) (fun _ => op_post i n).
Proof.
  intros Hw Hop Hi Hn Hin Hg Hdec. pose proof (ts_max _ _ _ _ _ Hts). pose proof (ts_size _ _ _ _ _ Hts).
  destruct (count_bytes_ok op n) as [Hok Hz]; [done | lia |].
  eapply enc_weaken.
  - apply enc_on_op; [done | apply encode_count_step; [apply Hw | done | done] |].
    intros Hgood. destruct (Hg Hgood) as (_ & ? & _). lia.
  - intros _ o d l (-> & -> & ->). unfold op_post. change (zlen (@nil Z)) with 0.
    split_and!; try done; try nia; by apply Forall_nil_2.
Qed.

Lemma enc_literal good s i n :
  wok s → 0 ≤ i → 1 ≤ n → i + n ≤ dbs → roomy good s i →
  enc_spec good s (emit_literal_run dest bs i n s) (fun _ => op_post i n).
Proof.
  intros Hw Hi Hn Hin Hg. pose proof Hts as []. unfold emit_literal_run.
  assert (0 ≤ i * bs) by nia. assert (0 ≤ n * bs) by nia.
  assert (i * bs + n * bs ≤ dbs * bs) by nia.
  destruct (count_bytes_ok FSD_OP_LITERAL n) as [Hok Hz]; [done | lia |].
  eapply enc_bind.
  { apply enc_on_op; [done | apply encode_count_step; [apply Hw | done | done] |].
    intros Hgood. destruct (Hg Hgood) as (_ & ? & _). lia. }
  intros _ s1 o d l Hx (-> & -> & ->).
  rewrite !wrap_small by lia. rewrite load_ok by lia. apply enc_lift.
  assert (zlen (slice (i * bs) (n * bs) dest) = n * bs) as Hzl by (apply zlen_slice; lia).
  eapply enc_weaken.
  - apply enc_on_lit; [apply Hx | apply snk_write_law, Hx |].
    intros Hgood. destruct (Hg Hgood) as (_ & _ & _ & Hl).
    rewrite (we_lit _ _ _ _ _ Hx), (we_lit_cap _ _ _ _ _ Hx), app_nil_r, Hzl. nia.
  - intros _ o d l (-> & -> & ->). cbn [app]. rewrite app_nil_r.
    unfold op_post. change (zlen (@nil Z)) with 0. pose proof dbs_nonneg.
    split_and!; try done; try lia; [by apply Forall_nil_2 | by apply bytes_ok_slice |].
    apply literal_decodes; try done; lia.
Qed.

(** * Relocated runs *)

Lemma reloc_offset_sound j st :
  0 ≤ j < dbs → blocks t !! Z.to_nat j = Some st → match_type st = FSD_MATCH_RELOCATE →
  reloc_offset st j = Ok (src_index st - j).
Proof.
  intros Hj Hst Hm. pose proof Hts as [].
  pose proof (ts_sound j st ltac:(lia) Hst) as Hs. unfold block_sound in Hs.
  rewrite Hm in Hs. destruct Hs as (H0 & H1 & _). assert (src_index st ≤ 2 ^ 62) by nia.
  unfold reloc_offset. rewrite !sgn_small by lia.
  apply chk64_ok. unfold INT64_MIN, INT64_MAX. lia.
Qed.

Lemma enc_relocate good s i n st :
  wok s → 0 ≤ i → 1 ≤ n → i + n ≤ dbs → roomy good s i →
  blocks t !! Z.to_nat i = Some st → match_type st = FSD_MATCH_RELOCATE →
  (∀ j, i ≤ j < i + n → ∃ st', blocks t !! Z.to_nat j = Some st' ∧
     match_type st' = FSD_MATCH_RELOCATE ∧ src_index st' - j = src_index st - i) →
  enc_spec good s (encode_relocate dest bs st i n s) (fun _ => op_post i n).
Proof.
  intros Hw Hi Hn Hin Hg Hst Hm Hrun. pose proof Hts as [].
  unfold encode_relocate. rewrite (reloc_offset_sound i st) by (done || lia). apply enc_lift.
  set (off := src_index st - i).
  assert (∀ j, i ≤ j < i + n → 0 ≤ j + off ∧ (j + off + 1) * bs ≤ zlen src ∧
            slice (j * bs) bs dest = slice ((j + off) * bs) bs src) as Hj.
  { intros j Hj. destruct (Hrun j Hj) as (st' & Hst' & Hm' & Ho').
    pose proof (ts_sound j st' ltac:(lia) Hst') as Hs. unfold block_sound in Hs.
    rewrite Hm' in Hs. by replace (j + off) with (src_index st') by lia. }
  destruct (Hj i) as (Hp & He & _); [lia|]. assert (- 2 ^ 32 ≤ off ≤ 2 ^ 62) by nia.
  assert ((if off <? 0 then a ← chk64 (- off); Ok (u64 a) else Ok (u64 off)) = Ok (Z.abs off)) as ->.
  { destruct (Z.ltb_spec off 0); [rewrite chk64_ok by (unfold INT64_MIN, INT64_MAX; lia)|];
      cbn; rewrite wrap_small by lia; f_equal; lia. }
  apply enc_lift. destruct (Z.ltb_spec UINT32_MAX (Z.abs off)) as [|Hsmall]; [by apply enc_literal|].
  fold (reloc_enc (Z.abs off)). cbv zeta.
  pose proof (count_enc_of_range n). pose proof (reloc_enc_range (Z.abs off)).
  set (sg := if off <? 0 then 1 else 0). assert (0 ≤ sg < 2) by (subst sg; case_bool; lia).
  rewrite first_byte_of_eq by (unfold FSD_OP_COPY_RELOCATE; lia).
  destruct (run_bytes_ok n) as [Hrok Hrz]; [done|].
  destruct (reloc_bytes_ok (Z.abs off)) as [Hook Hoz]; [lia|].
  eapply enc_weaken.
  - apply (enc_on_op _ _ _ (relocate_bytes n off)); [done| |].
    + unfold relocate_bytes. fold sg. change (?a :: ?b) with ([a] ++ b).
      apply sink_seq; [apply byte_step; [apply Hw | done]|]. intros w1 Hw1.
      apply sink_seq; [by apply write_count_step|]. intros w2 Hw2. apply write_reloc_step; [done | lia].
    + intros Hgood. destruct (Hg Hgood) as (_ & ? & _).
      unfold relocate_bytes. rewrite zlen_cons, zlen_app. lia.
  - intros _ o d l (-> & -> & ->). unfold op_post. change (zlen (@nil Z)) with 0.
    pose proof dbs_nonneg. assert (0 ≤ bs * n) by nia. split_and!; try done; try lia; try by apply Forall_nil_2.
    + unfold relocate_bytes. rewrite zlen_cons, zlen_app. lia.
    + unfold relocate_bytes. apply bytes_ok_cons. split; [|by apply bytes_ok_app].
      fold sg. apply is_byte_fbyte; unfold FSD_OP_COPY_RELOCATE; lia.
    + apply relocate_decodes; try done; try lia.
      * destruct (Hj (i + n - 1)) as (_ & Hend & _); [lia|].
        by replace (i + off + n) with (i + n - 1 + off + 1) by lia.
      * intros j Hjr. by apply Hj.
Qed.

(** * Partial matches *)

(** The source position and the delta of a partial match. *)
Lemma partial_sound j st :
  0 ≤ j < dbs → blocks t !! Z.to_nat j = Some st → match_type st = FSD_MATCH_PARTIAL →
  let p := src_index st * bs + byte_offset st in
  partial_offset bs st j = Ok (p - j * bs) ∧ 0 ≤ p ∧ p + bs ≤ zlen src ∧
  ∃ d, delta st = Some d ∧ delta_size st = bs ∧ zlen d = bs ∧ bytes_ok d ∧
       slice (j * bs) bs dest = add_bytes (slice p bs src) d.
Proof.
  intros Hj Hst Hm. pose proof Hts as [].
  pose proof (ts_sound j st ltac:(lia) Hst) as Hs. unfold block_sound in Hs. rewrite Hm in Hs.
  destruct Hs as (H0 & H1 & Hd). cbv zeta. split; [|done].
  assert (0 ≤ j * bs) by nia. assert (j * bs ≤ dbs * bs) by nia.
  unfold partial_offset. rewrite !(wrap_small 64) by lia. rewrite !sgn_small by lia.
  apply chk64_ok. unfold INT64_MIN, INT64_MAX. lia.
Qed.

(** A run of partial matches at byte distance [off]. *)
Definition partial_run (i n off : Z) : Prop :=
  ∀ j, 0 ≤ j < n → ∃ st, blocks t !! Z.to_nat (i + j) = Some st ∧
    match_type st = FSD_MATCH_PARTIAL ∧ src_index st * bs + byte_offset st = (i + j) * bs + off.

Lemma dense_region i n off cap :
  0 ≤ i → 0 ≤ n → i + n ≤ dbs → n * bs ≤ cap → partial_run i n off →
  ∃ d, over_run t i (fun st buf => dense_encode cap bs st buf) (Z.to_nat n) 0 [] = Ok d ∧
    zlen d = n * bs ∧ bytes_ok d ∧ region_decodes bs src dest i n off 0 d.
Proof.
  intros Hi Hn Hin Hcap Hrun. pose proof Hts as [].
  destruct (over_run_spec t i (fun st buf => dense_encode cap bs st buf)
    (fun k buf => zlen buf = k * bs ∧ bytes_ok buf ∧ ∀ j, 0 ≤ j < k →
       slice ((i + j) * bs) bs dest =
         add_bytes (slice ((i + j) * bs + off) bs src) (slice (j * bs) bs buf))
    (Z.to_nat n) 0 []) as (d & Hd & Hz & Hok & Hdec); try congruence; try lia.
  - intros k st buf Hk Hst (Hz & Hok & Hprev).
    destruct (Hrun k) as (st' & Hst' & Hm & Hp); [lia|]. rewrite Hst' in Hst. injection Hst as ->.
    destruct (partial_sound (i + k) st) as (_ & _ & _ & dl & Ed & Es & Hzd & Hdok & Hb); [lia | done | done |].
    assert (k * bs + bs ≤ n * bs) by nia. assert (0 ≤ k * bs) by nia.
    unfold dense_encode. rewrite Ed, Es. destruct (Z.leb_spec bs bs); [|lia].
    rewrite load_ok, slice_full by lia. cbn [mbind outcome_bind].
    rewrite emit_ok by lia. exists (buf ++ dl). split; [done|]. split_and!.
    + rewrite zlen_app. lia.
    + by apply bytes_ok_app.
    + intros j Hj. destruct (decide (j = k)) as [->|].
      * rewrite slice_app_r by lia. by rewrite Hb, Hp.
      * rewrite slice_app_l by nia. apply Hprev. lia.
  - split_and!; [done | by apply Forall_nil_2 | intros; lia].
  - exists d. split; [done|]. rewrite Z2Nat.id in * by lia. rewrite Z.add_0_l in *. done.
Qed.

Lemma sparse_region i n off cap :
  0 ≤ i → 0 ≤ n → i + n ≤ dbs → n * bs * 2 ≤ cap → partial_run i n off →
  ∃ d, over_run t i (fun st buf =>
         sparse_encode (S (Z.to_nat bs)) cap bs (delta st) 0 buf) (Z.to_nat n) 0 [] = Ok d ∧
    zlen d ≤ n * bs * 2 ∧ bytes_ok d ∧ region_decodes bs src dest i n off 1 d.
Proof.
  intros Hi Hn Hin Hcap Hrun. pose proof Hts as [].
  destruct (over_run_spec t i (fun st buf => sparse_encode (S (Z.to_nat bs)) cap bs (delta st) 0 buf)
    (fun k buf => zlen buf ≤ k * bs * 2 ∧ bytes_ok buf ∧
       ∃ es : list bytes, buf = concat es ∧ length es = Z.to_nat k ∧
       ∀ j e x sb, es !! j = Some e → sb = slice ((i + Z.of_nat j) * bs + off) bs src → zlen sb = bs →
         sparse_block (S (length (e ++ x))) bs (e ++ x) 0 sb =
           Ok (x, slice ((i + Z.of_nat j) * bs) bs dest))
    (Z.to_nat n) 0 []) as (d & Hd & Hz & Hok & Hdec); try congruence; try lia.
  - intros k st buf Hk Hst (Hz & Hok & es & -> & Hlen & Hprev).
    destruct (Hrun k) as (st' & Hst' & Hm & Hp); [lia|]. rewrite Hst' in Hst. injection Hst as ->.
    destruct (partial_sound (i + k) st) as (_ & _ & _ & dl & Ed & Es & Hzd & Hdok & Hb); [lia | done | done |].
    assert (k * bs + bs ≤ n * bs) by nia.
    destruct (sparse_encode_spec bs dl Hzd Hdok ltac:(lia) (S (Z.to_nat bs)) cap 0 (concat es))
      as (e & He & Hze & Heok & Hsd); [lia.. |].
    rewrite Ed, He. exists (concat es ++ e). split; [done|]. split_and!.
    + rewrite zlen_app. lia.
    + by apply bytes_ok_app.
    + exists (es ++ [e]). rewrite concat_app. cbn [concat]. rewrite app_nil_r. split; [done|].
      rewrite length_app. cbn [length]. split; [lia|].
      intros j e' x sb Hj Hsb Hzsb. apply lookup_app_Some in Hj as [Hj|[Hge Hj]].
      { by apply Hprev. }
      apply list_lookup_singleton_Some in Hj as [Hj <-].
      assert (k = Z.of_nat j) as -> by lia.
      rewrite Hsd; [|done | subst sb; by apply bytes_ok_slice | lia].
      rewrite <- Hzsb, add_range_all by lia. by rewrite Hzsb, Hb, Hp, <- Hsb.
  - split_and!; [done | by apply Forall_nil_2 |]. by exists [].
  - exists d. split; [done|]. rewrite Z2Nat.id in * by lia. rewrite Z.add_0_l in *. done.
Qed.

(** The diff data of a run fits its buffer and its 32-bit length field. *)
Lemma partial_diff_spec i n off :
  0 ≤ i → 1 ≤ n → i + n ≤ dbs → n * bs * 2 ≤ UINT32_MAX → partial_run i n off →
  match partial_diff malloc_ok t bs i n with
  | Ok (fmt, d) => 0 ≤ fmt < 2 ∧ zlen d ≤ n * bs * 2 ∧ bytes_ok d ∧
                   region_decodes bs src dest i n off fmt d
  | Err _ => ¬ (∀ z, malloc_ok z = true)
  | _ => False
  end.
Proof.
  intros Hi Hn Hin Hlim Hrun. pose proof Hts as []. unfold partial_diff, UINT32_MAX in *.
  destruct (over_run_spec t i (fun st n => k ← block_nonzero bs st; Ok (u64 (n + k)))
    (fun _ _ => True) (Z.to_nat n) 0 0) as (nz & -> & _); try congruence; try done; try lia.
  { intros k st a Hk Hst _. destruct (Hrun k) as (st' & Hst' & Hm & Hp); [lia|].
    rewrite Hst' in Hst. injection Hst as ->.
    destruct (partial_sound (i + k) st) as (_ & _ & _ & dl & Ed & Es & Hzd & Hdok & Hb); [lia | done | done |].
    unfold block_nonzero. rewrite Ed, Es, Z.min_id, load_ok by lia. by eexists. }
  cbn [mbind outcome_bind]. cbv zeta. assert (0 ≤ n * bs) by nia.
  assert (n ≤ SIZE_MAX / bs / 2) as Hsz.
  { rewrite Z.div_div by lia. apply Z.div_le_lower_bound; unfold SIZE_MAX; lia. }
  destruct (Z.ltb_spec (SIZE_MAX / bs / 2) n); [lia|].
  destruct (malloc_ok _) eqn:Em; cbn [negb]; [|intros Hall; by rewrite Hall in Em].
  destruct (nz <? _); cbn [Z.eqb].
  - destruct (sparse_region i n off (n * bs * 2)) as (d & -> & ? & ? & ?); [lia.. | done |].
    cbn. split_and!; try done; lia.
  - destruct (dense_region i n off (n * bs * 2)) as (d & -> & Hz & ? & ?); [lia.. | done |].
    split; [lia|]. split; [lia | done].
Qed.

(** The run limit keeps the diff length inside its field. *)
Lemma max_run_bound n :
  (n = 1 ∨ (n - 1 <? (if UINT32_MAX / u64 (bs * 2) =? 0 then 1 else UINT32_MAX / u64 (bs * 2))) = true) →
  n * bs * 2 ≤ UINT32_MAX.
Proof.
  intros Hn. pose proof (ts_size _ _ _ _ _ Hts) as Hb. rewrite wrap_small in Hn by lia.
  unfold UINT32_MAX in *. set (q := (2 ^ 32 - 1) / (bs * 2)) in *.
  assert (1 ≤ q) by (apply Z.div_le_lower_bound; lia).
  assert (bs * 2 * q ≤ 2 ^ 32 - 1) by (apply Z.mul_div_le; lia).
  destruct (Z.eqb_spec q 0); [lia|]. assert (n ≤ q) by lia. nia.
Qed.

Lemma copy_add_step (w : W) n off fmt len :
  snk_ok w → 1 ≤ n → 0 ≤ fmt < 2 → 0 ≤ len ≤ UINT32_MAX →
  sink_step w (copy_add_bytes n off fmt len)
    ((snk_byte (first_byte_of FSD_OP_COPY_ADD (count_enc_of n) (boff_enc off) fmt);;
      write_byte_offset (boff_enc off) off;;
      write_count (count_enc_of n) n;;
      (if UINT32_MAX <? len then st_fail FSD_ERR_OUT_OF_MEMORY
       else fsd_writer_write_u32_le (u32 len))) w).
Proof.
  intros Hw Hn Hf Hl. pose proof (count_enc_of_range n). pose proof (boff_enc_range off).
  unfold copy_add_bytes. change (?a :: ?b) with ([a] ++ b).
  apply sink_seq; [apply byte_step; [done | apply first_byte_of_eq; unfold FSD_OP_COPY_ADD; lia]|].
  intros w1 Hw1. apply sink_seq; [by apply write_boff_step|]. intros w2 Hw2.
  apply sink_seq; [by apply write_count_step|]. intros w3 Hw3.
  destruct (Z.ltb_spec UINT32_MAX len); [lia|]. by apply write_u32_step.
Qed.

Lemma copy_add_bytes_ok n off fmt len :
  1 ≤ n → 0 ≤ fmt < 2 →
  bytes_ok (copy_add_bytes n off fmt len) ∧ zlen (copy_add_bytes n off fmt len) ≤ 13.
Proof.
  intros Hn Hf. pose proof (count_enc_of_range n). pose proof (boff_enc_range off).
  destruct (run_bytes_ok n Hn) as [? ?]. destruct (boff_bytes_ok off) as [? ?].
  unfold copy_add_bytes. split.
  - apply bytes_ok_cons. split; [apply is_byte_fbyte; unfold FSD_OP_COPY_ADD; lia|].
    rewrite !bytes_ok_app. split_and!; [done | done | apply le_bytes_ok].
  - rewrite zlen_cons, !zlen_app. change (zlen (le_bytes 4 len)) with 4. lia.
Qed.

(** The run the encoder finds from a partial match at [i]. *)
Lemma partial_run_spec more i st off :
  0 ≤ i < dbs → blocks t !! Z.to_nat i = Some st → match_type st = FSD_MATCH_PARTIAL →
  off = src_index st * bs + byte_offset st - i * bs →
  ∃ n, run_from t i more (same_partial bs off) = Ok n ∧ 1 ≤ n ∧ i + n ≤ dbs ∧
    (n = 1 ∨ more (n - 1) = true) ∧ partial_run i n off.
Proof.
  intros Hi Hst Hm Hoff. pose proof Hts as [].
  destruct (run_from_spec t i more (same_partial bs off)) as (n & Hn & H1 & Hin & Hmore & Hall);
    [lia | lia | lia | |].
  - intros j st' Hj Hst'. unfold same_partial. destruct (bool_decide_reflect (match_type st' = FSD_MATCH_PARTIAL)) as [Hm'|]; [|by eexists].
    destruct (partial_sound j st') as (-> & _); [lia | done | done |]. by eexists.
  - exists n. split_and!; try done; [lia|]. intros k Hk.
    destruct (decide (k = 0)) as [->|Hk0].
    { exists st. rewrite Z.add_0_r. split_and!; [done | done | lia]. }
    destruct (Hall (i + k)) as (st' & Hst' & Hsame); [lia|]. exists st'. split; [done|].
    unfold same_partial in Hsame.
    destruct (bool_decide_reflect (match_type st' = FSD_MATCH_PARTIAL)) as [Hm'|]; [|done].
    split; [done|]. destruct (partial_sound (i + k) st') as (Ho & _); [lia | done | done |].
    rewrite Ho in Hsame. cbn in Hsame. injection Hsame as Hsame%Z.eqb_eq. lia.
Qed.

Lemma enc_partial good s i st :
  wok s → 0 ≤ i < dbs → roomy good s i →
  blocks t !! Z.to_nat i = Some st → match_type st = FSD_MATCH_PARTIAL →
  enc_spec good s (encode_partial malloc_ok t dest bs st i s) (op_post i).
Proof.
  intros Hw Hi Hg Hst Hm. pose proof Hts as []. unfold encode_partial.
  destruct (partial_sound i st Hi Hst Hm) as (-> & _). apply enc_lift.
  set (off := src_index st * bs + byte_offset st - i * bs). cbv zeta.
  set (more := fun n => n <? _).
  destruct (partial_run_spec more i st off Hi Hst Hm eq_refl) as (n & -> & Hn & Hin & Hmore & Hrun).
  apply enc_lift. destruct (_ || _) eqn:Ebig.
  { eapply enc_bind; [by apply enc_literal; try done; lia|].
    intros [] s1 o d l Hx Hpost. apply enc_ret; [apply Hx|]. by rewrite !app_nil_r. }
  assert (n * bs * 2 ≤ UINT32_MAX) as Hlim by by apply max_run_bound.
  pose proof (partial_diff_spec i n off ltac:(lia) Hn Hin Hlim Hrun) as Hpd.
  apply enc_lift. destruct (partial_diff malloc_ok t bs i n) as [[fmt d]| | |];
    [|intros Hgood; apply Hpd, (Hg Hgood) | done | done].
  destruct Hpd as (Hfmt & Hz & Hdok & Hreg).
  assert ((if off <? 0 then chk64 (- off) else Ok off) = Ok (Z.abs off)) as ->.
  { unfold INT32_MIN, INT32_MAX in Ebig. destruct (Z.ltb_spec off 0);
      [rewrite chk64_ok by (unfold INT64_MIN, INT64_MAX; lia)|]; f_equal; lia. }
  apply enc_lift. fold (boff_enc off). pose proof (zlen_nonneg d).
  destruct (copy_add_bytes_ok n off fmt (zlen d) Hn Hfmt) as [Hook Hoz].
  eapply enc_bind.
  { apply enc_on_op; [done | apply copy_add_step; [apply Hw | done | done | lia] |].
    intros Hgood. destruct (Hg Hgood) as (_ & ? & _). lia. }
  intros _ s1 o1 d1 l1 Hx1 (-> & -> & ->).
  eapply enc_bind.
  { apply enc_on_diff; [apply Hx1 | apply snk_write_law, Hx1 |].
    intros Hgood. destruct (Hg Hgood) as (_ & _ & Hdr & _).
    rewrite (we_diff _ _ _ _ _ Hx1), (we_diff_cap _ _ _ _ _ Hx1), app_nil_r. nia. }
  intros _ s2 o2 d2 l2 Hx2 (-> & -> & ->). apply enc_ret; [apply Hx2|].
  cbn [app]. rewrite !app_nil_r. unfold op_post. change (zlen (@nil Z)) with 0.
  pose proof dbs_nonneg. assert (0 ≤ bs * n) by nia.
  split_and!; try done; try lia; [by apply Forall_nil_2|].
  apply copy_add_decodes; try done; try lia.
  intros j Hj. destruct (Hrun j Hj) as (st' & Hst' & Hm' & Hp').
  destruct (partial_sound (i + j) st') as (_ & ? & ? & _); [lia | done | done |]. lia.
Qed.

(** * One iteration *)

Lemma type_run_spec m i st :
  0 ≤ i < dbs → blocks t !! Z.to_nat i = Some st → match_type st = m →
  ∃ n, run_from t i no_limit (same_type m) = Ok n ∧ 1 ≤ n ∧ i + n ≤ dbs ∧
    ∀ j, i ≤ j < i + n → ∃ st', blocks t !! Z.to_nat j = Some st' ∧ match_type st' = m.
Proof.
  intros Hi Hst Hm. pose proof Hts as [].
  destruct (run_from_spec t i no_limit (same_type m)) as (n & Hn & H1 & Hin & _ & Hall);
    [lia | lia | lia | by intros; eexists |].
  exists n. split_and!; try done; [lia|]. intros j Hj.
  destruct (decide (j = i)) as [->|]; [by exists st|].
  destruct (Hall j) as (st' & Hst' & Hs); [lia|]. exists st'. split; [done|].
  unfold same_type in Hs. injection Hs as Hs. by apply bool_decide_eq_true in Hs.
Qed.

Lemma reloc_run_spec i st off :
  0 ≤ i < dbs → blocks t !! Z.to_nat i = Some st → match_type st = FSD_MATCH_RELOCATE →
  off = src_index st - i →
  ∃ n, run_from t i no_limit (same_reloc off) = Ok n ∧ 1 ≤ n ∧ i + n ≤ dbs ∧
    ∀ j, i ≤ j < i + n → ∃ st', blocks t !! Z.to_nat j = Some st' ∧
      match_type st' = FSD_MATCH_RELOCATE ∧ src_index st' - j = off.
Proof.
  intros Hi Hst Hm Hoff. pose proof Hts as [].
  destruct (run_from_spec t i no_limit (same_reloc off)) as (n & Hn & H1 & Hin & _ & Hall);
    [lia | lia | lia | |].
  - intros j st' Hj Hst'. unfold same_reloc.
    destruct (bool_decide_reflect (match_type st' = FSD_MATCH_RELOCATE)) as [Hm'|]; [|by eexists].
    rewrite (reloc_offset_sound j st') by (done || lia). by eexists.
  - exists n. split_and!; try done; [lia|]. intros j Hj.
    destruct (decide (j = i)) as [->|]; [by exists st|].
    destruct (Hall j) as (st' & Hst' & Hs); [lia|]. exists st'. split; [done|].
    unfold same_reloc in Hs.
    destruct (bool_decide_reflect (match_type st' = FSD_MATCH_RELOCATE)) as [Hm'|]; [|done].
    split; [done|]. rewrite (reloc_offset_sound j st') in Hs by (done || lia).
    cbn in Hs. injection Hs as Hs%Z.eqb_eq. lia.
Qed.

Lemma enc_then_ret good s i n (m : ST (writers W) unit) :
  enc_spec good s (m s) (fun _ => op_post i n) →
  enc_spec good s ((m;; mret n) s) (op_post i).
Proof.
  intros Hm. eapply enc_bind; [done|]. intros [] s1 o d l Hx Hpost.
  apply enc_ret; [apply Hx|]. by rewrite !app_nil_r.
Qed.

Lemma encode_op_spec good s i :
  wok s → 0 ≤ i < dbs → roomy good s i →
  enc_spec good s (encode_op malloc_ok t dest bs i s) (op_post i).
Proof.
  intros Hw Hi Hg. pose proof Hts as []. pose proof dbs_nonneg. unfold encode_op.
  destruct (tracker_get_some t i) as (st & -> & Hst); [lia.. |].
  assert (∀ j st', i ≤ j → blocks t !! Z.to_nat j = Some st' → block_sound bs src dest j st') as Hsnd.
  { intros j st' Hj. apply ts_sound. lia. }
  destruct (match_type st) eqn:Em.
  - destruct (type_run_spec _ i st Hi Hst Em) as (n & -> & Hn & Hin & Hall). apply enc_lift.
    apply enc_then_ret, enc_literal; done || lia.
  - destruct (type_run_spec _ i st Hi Hst Em) as (n & -> & Hn & Hin & Hall). apply enc_lift.
    apply enc_then_ret, enc_count_op; try done; try lia.
    apply identity_decodes; try done; try lia. intros j Hj.
    destruct (Hall j Hj) as (st' & Hst' & Hm'). pose proof (Hsnd j st' ltac:(lia) Hst') as Hs.
    unfold block_sound in Hs. by rewrite Hm' in Hs.
  - rewrite (reloc_offset_sound i st) by done. apply enc_lift.
    destruct (reloc_run_spec i st _ Hi Hst Em eq_refl) as (n & -> & Hn & Hin & Hall). apply enc_lift.
    apply enc_then_ret, enc_relocate; done || lia.
  - by apply enc_partial.
  - destruct (type_run_spec _ i st Hi Hst Em) as (n & -> & Hn & Hin & Hall). apply enc_lift.
    apply enc_then_ret, enc_count_op; try done; try lia.
    apply (filled_decodes bs dbs hp src dest ltac:(done) ltac:(done) ltac:(done) ltac:(done) FSD_OP_ZERO 0);
      try done; try lia. intros j Hj.
    destruct (Hall j Hj) as (st' & Hst' & Hm'). pose proof (Hsnd j st' ltac:(lia) Hst') as Hs.
    unfold block_sound in Hs. by rewrite Hm' in Hs.
  - destruct (type_run_spec _ i st Hi Hst Em) as (n & -> & Hn & Hin & Hall). apply enc_lift.
    apply enc_then_ret, enc_count_op; try done; try lia.
    apply (filled_decodes bs dbs hp src dest ltac:(done) ltac:(done) ltac:(done) ltac:(done) FSD_OP_ONE 255);
      try done; try lia. intros j Hj.
    destruct (Hall j Hj) as (st' & Hst' & Hm'). pose proof (Hsnd j st' ltac:(lia) Hst') as Hs.
    unfold block_sound in Hs. by rewrite Hm' in Hs.
Qed.

(** * The loops *)

(** Streams that decode, operation by operation, to blocks [i] onwards. *)
Inductive decodes_all : Z → bytes → bytes → bytes → Prop :=
| decodes_nil : decodes_all dbs [] [] []
| decodes_cons i n o d l o2 d2 l2 :
    0 ≤ i → 1 ≤ n → i + n ≤ dbs → decodes (R := R) bs dbs hp src dest i n o d l →
    decodes_all (i + n) o2 d2 l2 → decodes_all i (o ++ o2) (d ++ d2) (l ++ l2).

(** Room for everything from block [i] on. *)
Definition roomy_all (good : Prop) (s : writers W) (i : Z) : Prop :=
  good → (∀ z, malloc_ok z = true) ∧
    zlen (snk_view (op_writer s)) + 13 * (dbs - i) ≤ snk_cap (op_writer s) ∧
    zlen (snk_view (diff_writer s)) + 2 * bs * (dbs - i) ≤ snk_cap (diff_writer s) ∧
    zlen (snk_view (lit_writer s)) + bs * (dbs - i) ≤ snk_cap (lit_writer s).

Lemma encode_loop_spec good fuel : ∀ s i,
  wok s → 0 ≤ i ≤ dbs → roomy_all good s i → (Z.to_nat (dbs - i) < fuel)%nat →
  enc_spec good s (encode_loop fuel malloc_ok t dest bs i s) (fun _ o d l =>
    decodes_all i o d l ∧ bytes_ok o ∧ bytes_ok d ∧ bytes_ok l ∧
    zlen o ≤ 13 * (dbs - i) ∧ zlen d ≤ 2 * bs * (dbs - i) ∧ zlen l ≤ bs * (dbs - i)).
Proof.
  induction fuel as [|fuel IH]; intros s i Hw Hi Hg Hf; [lia|]. cbn [encode_loop].
  pose proof Hts as []. rewrite ts_count. destruct (Z.ltb_spec i dbs) as [Hlt|Hge].
  2:{ apply enc_ret; [done|]. assert (i = dbs) as -> by lia.
      rewrite Z.sub_diag. change (zlen (@nil Z)) with 0.
      split_and!; [constructor | by apply Forall_nil_2.. | lia | lia | lia]. }
  eapply enc_bind.
  { apply encode_op_spec; [done | lia |]. intros Hgood. destruct (Hg Hgood) as (? & ? & ? & ?).
    split_and!; try done; lia. }
  intros n s1 o d l Hx (Hn & Hin & Hzo & Hzd & Hzl & Hook & Hdok & Hlok & Hdec).
  rewrite wrap_small by lia.
  eapply enc_weaken.
  - apply IH; [apply Hx | lia | | lia].
    intros Hgood. destruct (Hg Hgood) as (? & ? & ? & ?).
    destruct Hx as [_ Eo Ed El Eco Ecd Ecl]. rewrite Eo, Ed, El, Eco, Ecd, Ecl, !zlen_app.
    split_and!; try done; nia.
  - intros _ o2 d2 l2 (Hall & ? & ? & ? & ? & ? & ?). rewrite !bytes_ok_app, !zlen_app.
    split_and!; try done; try lia. apply (decodes_cons i n); done || lia.
Qed.

(** The patcher's loop on such streams writes the rest of the destination. *)
Lemma op_loop_decodes i o d l :
  decodes_all i o d l → ∀ fuel s,
  0 ≤ i ≤ dbs → dstate (R := R) bs src i s → op_ptr s = o → diff_ptr s = d → lit_ptr s = l →
  room True s ((dbs - i) * bs) → (length o < fuel)%nat →
  ∃ s', op_loop bs dbs hp fuel s = (Ok tt, s') ∧ dest_block s' = dbs ∧
    f_data (output s') = f_data (output s) ++ slice (i * bs) ((dbs - i) * bs) dest.
Proof.
  induction 1 as [|i n o d l o2 d2 l2 Hi Hn Hin Hdec Hall IH];
    intros fuel s Hr Hds Ho Hd Hl Hroom Hf; (destruct fuel as [|fuel]; [lia|]); cbn [op_loop];
    rewrite (ds_block _ _ _ _ Hds).
  - destruct (Z.leb_spec dbs dbs); [|lia]. exists s. rewrite Z.sub_diag, Z.mul_0_l, slice_nil, app_nil_r.
    split_and!; try done. apply Hds.
  - destruct (Z.leb_spec dbs i); [lia|]. destruct Hdec as (fb & o' & -> & Hdec).
    rewrite Ho. cbn [app].
    set (s1 := mkP (o' ++ o2) (diff_ptr s) (lit_ptr s) (dest_block s) (src_reader s) (output s) (progress s)).
    change (∃ s', (process_op bs dbs hp fb ;; op_loop bs dbs hp fuel) s1 = (Ok tt, s') ∧
      dest_block s' = dbs ∧
      f_data (output s') = f_data (output s) ++ slice (i * bs) ((dbs - i) * bs) dest).
    pose proof (ts_size _ _ _ _ _ Hts).
    destruct (Hdec s1 o2 d2 l2) as (s2 & Hp & Ho2 & Hd2 & Hl2 & Hds2 & Hdata & Hcap); try done.
    + destruct Hds as [[? ? Hpo ? ?] ? ? ? ? ?]. split; try done. split; try done.
      rewrite Ho in Hpo. cbn [app] in Hpo. by apply bytes_ok_cons in Hpo as [_ ?].
    + intros _. specialize (Hroom I). cbn. nia.
    + unfold mbind, ST_bind. rewrite Hp.
      destruct (IH fuel s2) as (s3 & -> & Hb3 & Hdata3); try done; try lia.
      * intros _. rewrite Hdata, Hcap, zlen_app. specialize (Hroom I). cbn.
        rewrite zlen_slice; [nia.. |]. rewrite (ts_dest _ _ _ _ _ Hts). nia.
      * cbn [length app] in Hf. rewrite length_app in Hf. lia.
      * exists s3. split_and!; try done. rewrite Hdata3, Hdata. cbn [output s1].
        rewrite <- app_assoc. f_equal.
        replace ((dbs - i) * bs) with (n * bs + (dbs - (i + n)) * bs) by lia.
        rewrite slice_app_add by nia. do 2 f_equal. lia.
Qed.

End Op.
