(* ===== verification/EndToEnd.v ===== *)
(** The encoder and the patcher together: patching with an encoded image gives
    the image back. *)

From S2P Require Import Prelude Stdio Header Writer Varint Tracker Source Patch PatchSafety PatchClose.
From S2P Require Import Encoder Codec DiffData Matches RoundTrip EncoderSpec.
From stdpp Require Import base list numbers tactics.
From Stdlib Require Import ZArith Lia.
Open Scope Z_scope.

Section EndToEnd.
Context {W : Type} {BS : ByteSink W} {BSS : ByteSinkSpec W} {BSL : ByteSinkLaws W}.
Implicit Types ws : writers W.

(** Three fresh streams. *)
Definition fresh ws : Prop :=
  wok ws ∧ snk_view (op_writer ws) = [] ∧ snk_view (diff_writer ws) = [] ∧
  snk_view (lit_writer ws) = [].

(** Capacity that no encoding of [dbs] blocks can exceed. *)
Definition enough_room (bs dbs : Z) ws : Prop :=
  13 * dbs ≤ snk_cap (op_writer ws) ∧ 2 * bs * dbs ≤ snk_cap (diff_writer ws) ∧
  bs * dbs ≤ snk_cap (lit_writer ws).

(** The patch file: header, operations, diff data, literals. *)
Definition patch_file (dbs lg : Z) (enc : fsd_op_encoder) ws : bytes :=
  header_buf dbs lg (op_bytes enc) (diff_bytes enc) ++
  snk_view (op_writer ws) ++ snk_view (diff_writer ws) ++ snk_view (lit_writer ws).

Context {R : Type} {SR : SourceReader R} {SRS : SourceReaderSpec R} {SRL : SourceReaderLaws R}.

(** The encoder on a sound tracker. *)
Lemma encode_spec bs dbs hp src dest t malloc_ok encoder ws :
  tracker_sound bs dbs src dest t → dbs * bs ≤ 2 ^ 62 → enc_block_size encoder = bs → fresh ws →
  match fsd_op_encoder_encode malloc_ok encoder t dest ws with
  | (Ok enc, ws') => wok ws' ∧
      op_bytes enc = zlen (snk_view (op_writer ws')) ∧
      diff_bytes enc = zlen (snk_view (diff_writer ws')) ∧
      literal_bytes enc = zlen (snk_view (lit_writer ws')) ∧
      decodes_all (R := R) bs dbs hp src dest 0 (snk_view (op_writer ws'))
        (snk_view (diff_writer ws')) (snk_view (lit_writer ws')) ∧
      bytes_ok (snk_view (op_writer ws')) ∧ bytes_ok (snk_view (diff_writer ws')) ∧
      bytes_ok (snk_view (lit_writer ws')) ∧
      zlen (snk_view (op_writer ws')) ≤ 13 * dbs ∧ zlen (snk_view (diff_writer ws')) ≤ 2 * bs * dbs ∧
      zlen (snk_view (lit_writer ws')) ≤ bs * dbs ∧
      snk_cap (op_writer ws') = snk_cap (op_writer ws) ∧ snk_cap (diff_writer ws') = snk_cap (diff_writer ws) ∧
      snk_cap (lit_writer ws') = snk_cap (lit_writer ws)
  | (Err _, _) => ¬ ((∀ z, malloc_ok z = true) ∧ enough_room bs dbs ws)
  | _ => False
  end.
Proof.
  intros Hts Hmax Hbs (Hw & Eo & Ed & El). unfold fsd_op_encoder_encode. rewrite Hbs.
  pose proof (dbs_nonneg _ _ _ _ _ Hts). pose proof (ts_blocks _ _ _ _ _ Hts).
  pose proof (encode_loop_spec (R := R) bs dbs hp src dest t malloc_ok Hts Hmax
    ((∀ z, malloc_ok z = true) ∧ enough_room bs dbs ws) (S (length (blocks t))) ws 0) as Hl.
  unfold mbind, ST_bind, st_get.
  assert (enc_spec ((∀ z, malloc_ok z = true) ∧ enough_room bs dbs ws) ws
    (encode_loop (S (length (blocks t))) malloc_ok t dest bs 0 ws) (fun _ o d l =>
      decodes_all (R := R) bs dbs hp src dest 0 o d l ∧ bytes_ok o ∧ bytes_ok d ∧ bytes_ok l ∧
      zlen o ≤ 13 * (dbs - 0) ∧ zlen d ≤ 2 * bs * (dbs - 0) ∧ zlen l ≤ bs * (dbs - 0))) as He.
  { apply Hl; [done | lia | | unfold zlen in *; lia].
    intros [Hm (? & ? & ?)]. rewrite Eo, Ed, El, Z.sub_0_r.
    change (zlen (@nil Z)) with 0. split_and!; done || lia. }
  unfold enc_spec in He. rewrite Z.sub_0_r in He.
  destruct (encode_loop _ malloc_ok t dest bs 0 ws) as [[u|e| |] ws']; try done.
  destruct He as (o & d & l & [[Hk1 Hk2 Hk3] Ho Hd Hl' ? ? ?] & He).
  rewrite Eo in Ho. rewrite Ed in Hd. rewrite El in Hl'. cbn [app] in Ho, Hd, Hl'.
  rewrite <- Ho, <- Hd, <- Hl' in He. destruct He as (? & ? & ? & ? & ? & ? & ?).
  cbn [op_bytes diff_bytes literal_bytes mret ST_ret].
  rewrite !snk_size_law by done. by split_and!.
Qed.

(** The streams of a patch file are found again behind its header. *)
Lemma open_streams_file dbs lg bs o d l :
  5 ≤ lg ≤ 24 → bs = 2 ^ lg → 0 ≤ dbs → dbs * bs ≤ 2 ^ 62 → bytes_ok (o ++ d ++ l) →
  zlen o < 2 ^ 64 → zlen d < 2 ^ 64 →
  open_streams (Some (header_buf dbs lg (zlen o) (zlen d) ++ o ++ d ++ l)) =
  Ok (header_of dbs lg (zlen o) (zlen d), bs, o, d, l).
Proof.
  intros Hlg Hbs Hdbs Hmax Hok Ho Hd. unfold open_streams.
  set (k := o ++ d ++ l). set (p := header_buf dbs lg (zlen o) (zlen d) ++ k).
  change (default [] (Some p)) with p. cbv zeta.
  assert (zlen p = FSD_HEADER_SIZE + zlen k) as Hp by (subst p; rewrite zlen_app, zlen_header_buf; done).
  pose proof (zlen_nonneg k). pose proof (zlen_nonneg o). pose proof (zlen_nonneg d).
  assert (1 ≤ bs) by (subst bs; apply (Z.pow_le_mono_r 2 0); lia).
  subst p. rewrite header_read_buf; [|lia | unfold u64_ok; nia | done | done | done | lia].
  cbn [mbind outcome_bind header_of block_size_log2 Header.dest_blocks op_stream_len diff_stream_len].
  rewrite Z.shiftl_mul_pow2, Z.mul_1_l, <- Hbs by lia.
  assert (dbs ≤ INT64_MAX / bs) by (apply Z.div_le_lower_bound; unfold INT64_MAX; lia).
  destruct (Z.ltb_spec (INT64_MAX / bs) dbs); [lia|].
  rewrite Hp. destruct (Z.ltb_spec (FSD_HEADER_SIZE + zlen k) FSD_HEADER_SIZE); [lia|].
  assert (zlen k = zlen o + (zlen d + zlen l)) as Hk by (subst k; by rewrite !zlen_app).
  pose proof (zlen_nonneg l).
  destruct (Z.ltb_spec (FSD_HEADER_SIZE + zlen k - FSD_HEADER_SIZE) (zlen o)); [lia|].
  destruct (Z.ltb_spec (FSD_HEADER_SIZE + zlen k - FSD_HEADER_SIZE - zlen o) (zlen d)); [lia|].
  rewrite (drop_app_length' (header_buf _ _ _ _)) by (pose proof (zlen_header_buf dbs lg (zlen o) (zlen d)); unfold zlen in *; lia).
  subst k. replace (Z.to_nat (zlen o)) with (length o) by (unfold zlen; lia).
  replace (Z.to_nat (zlen d)) with (length d) by (unfold zlen; lia).
  rewrite (drop_app_length o), (take_app_length o), (drop_app_length d), (take_app_length d). done.
Qed.

End EndToEnd.

Section Theorems.
Context {W : Type} {BS : ByteSink W} {BSS : ByteSinkSpec W} {BSL : ByteSinkLaws W}.
Implicit Types ws : writers W.

(** The encoder never reaches undefined behaviour on a tracker that describes
    the images truthfully: it overruns no buffer and no run or diff length
    overflows; and when the allocator answers and the three streams have room for
    13, [2 * bs] and [bs] bytes per block it succeeds. *)
Theorem encode_total bs dbs src dest t malloc_ok encoder ws :
  tracker_sound bs dbs src dest t → dbs * bs ≤ 2 ^ 62 → enc_block_size encoder = bs → fresh ws →
  defined (fst (fsd_op_encoder_encode malloc_ok encoder t dest ws)) ∧
  ((∀ z, malloc_ok z = true) → enough_room bs dbs ws →
   ∃ enc, fst (fsd_op_encoder_encode malloc_ok encoder t dest ws) = Ok enc).
Proof.
  intros Hts Hmax Hbs Hf.
  pose proof (encode_spec (R := fsd_source_reader) bs dbs false src dest t malloc_ok encoder ws Hts Hmax Hbs Hf) as He.
  destruct (fsd_op_encoder_encode _ _ _ _ _) as [[enc|e| |] ws']; cbn; try done.
  - split; [done|]. intros _ _. by exists enc.
  - split; [done|]. intros Hm Hr. by destruct He.
Qed.

Context {R : Type} {SR : SourceReader R} {SRS : SourceReaderSpec R} {SRL : SourceReaderLaws R}.

(** A patch file whose streams decode to the destination is applied exactly. *)
Lemma patch_applies bs dbs lg src dest t o d l (r : R) out reg malloc_ok' hp :
  tracker_sound bs dbs src dest t → 5 ≤ lg ≤ 24 → bs = 2 ^ lg → dbs * bs ≤ 2 ^ 62 →
  decodes_all (R := R) bs dbs hp src dest 0 o d l → bytes_ok o → bytes_ok d → bytes_ok l →
  zlen o ≤ 13 * dbs → zlen d ≤ 2 * bs * dbs →
  sr_ok r → sr_contents r = src → sr_reliable r →
  f_data out = [] → dbs * bs ≤ f_room out ≤ 2 ^ 62 → malloc_ok' bs = true →
  let env := mkEnv (Ok r) (Ok (Some (header_buf dbs lg (zlen o) (zlen d) ++ o ++ d ++ l)))
               reg (Some out) malloc_ok' hp in
  pr_status (fsd_patch_apply env) = Ok tt ∧
  f_data <$> pr_output (fsd_patch_apply env) = Some dest ∧
  pr_file (fsd_patch_apply env) = (if fclose out then Some dest else None) ∧
  pr_unlinked (fsd_patch_apply env) = false.
Proof.
  intros Hts Hlg Hbs Hmax Hall Hob Hdb Hlb Hzo Hzd Hok Hsrc Hrel Hdata Hroom Hmal. cbv zeta.
  pose proof (dbs_nonneg _ _ _ _ _ Hts). pose proof (ts_size _ _ _ _ _ Hts).
  pose proof (ts_max _ _ _ _ _ Hts).
  set (env := mkEnv _ _ _ _ _ _).
  cut (pr_status (fsd_patch_apply env) = Ok tt ∧ f_data <$> pr_output (fsd_patch_apply env) = Some dest ∧
    pr_unlinked (fsd_patch_apply env) = false).
  { intros (Hst & Hdata' & Hun). split_and!; [done|done|by apply patch_file_left|done]. }
  subst env. unfold fsd_patch_apply. cbn [pe_source pe_patch pe_fopen pe_malloc pe_has_progress pe_output_regular].
  rewrite (open_streams_file dbs lg bs); [|done | done | lia | done | | nia | nia].
  2:{ rewrite !bytes_ok_app. done. }
  rewrite Hmal. cbn [negb header_of Header.dest_blocks].
  set (s0 := mkP _ _ _ 0 r out []).
  assert (f_cap out = f_room out) as Hcap.
  { unfold f_cap. rewrite Hdata. change (zlen (@nil Z)) with 0. lia. }
  destruct (op_loop_decodes bs dbs hp src dest t Hts Hmax 0 _ _ _ Hall
              (S (length o)) s0) as (s' & Hloop & Hb & Hd'); try done; try lia.
  - pose proof (zlen_nonneg (f_data out)). split; cbn; try done; try lia. split; cbn; done || lia.
  - intros _. cbn. rewrite Hcap, Hdata, Z.sub_0_r. change (zlen (@nil Z)) with 0. lia.
  - unfold apply_ops, mbind, ST_bind, st_get. cbn [op_ptr s0].
    rewrite Hloop. rewrite Hb. destruct (Z.eqb_spec dbs dbs); [|done]. cbn.
    split_and!; try done. rewrite Hd'. cbn. rewrite Hdata. cbn.
    rewrite Z.sub_0_r, slice_full by (symmetry; apply (ts_dest _ _ _ _ _ Hts)). done.
Qed.

(** C4: end to end: encode a destination image against a truthful tracker, put
    header and streams in a file, apply that patch to the source: the stream gets
    the destination image, byte for byte, and the file holds it when fclose does not
    fail. *)
Theorem encode_apply_roundtrip bs dbs lg src dest t malloc_ok encoder ws enc ws'
    (r : R) out reg malloc_ok' hp :
  tracker_sound bs dbs src dest t → 5 ≤ lg ≤ 24 → bs = 2 ^ lg → dbs * bs ≤ 2 ^ 62 →
  enc_block_size encoder = bs → fresh ws →
  fsd_op_encoder_encode malloc_ok encoder t dest ws = (Ok enc, ws') →
  sr_ok r → sr_contents r = src → sr_reliable r →
  f_data out = [] → dbs * bs ≤ f_room out ≤ 2 ^ 62 → malloc_ok' bs = true →
  let env := mkEnv (Ok r) (Ok (Some (patch_file dbs lg enc ws'))) reg (Some out) malloc_ok' hp in
  pr_status (fsd_patch_apply env) = Ok tt ∧
  f_data <$> pr_output (fsd_patch_apply env) = Some dest ∧
  pr_file (fsd_patch_apply env) = (if fclose out then Some dest else None) ∧
  pr_unlinked (fsd_patch_apply env) = false.
Proof.
  intros Hts Hlg Hbs Hmax Heb Hf Henc Hok Hsrc Hrel Hdata Hroom Hmal. cbv zeta.
  pose proof (encode_spec (R := R) bs dbs hp src dest t malloc_ok encoder ws Hts Hmax Heb Hf) as He.
  rewrite Henc in He. destruct He as (_ & Eo & Ed & _ & Hall & Hob & Hdb & Hlb & Hzo & Hzd & _).
  unfold patch_file. rewrite Eo, Ed. by apply (patch_applies bs dbs lg src dest t).
Qed.

End Theorems.

(** * An example: three blocks through real buffered writers *)

Definition demo_diff : bytes := [1; 2] ++ fill 30 0.

Definition demo_tracker : fsd_block_tracker_t :=
  mkTracker
    [ mkState 0 0 0 0 FSD_MATCH_ZERO None 0;
      mkState 1 0 0 0 FSD_MATCH_RELOCATE None 0;
      mkState 2 1 0 0 FSD_MATCH_PARTIAL (Some demo_diff) 32 ]
    3 32 [0] 1 0 1 1 1 0 0.

Definition demo_writer : fsd_buffered_writer_t := mkWriter (file_new 1000) (fill 16 0) 16 0 0 false.
Definition demo_writers : writers fsd_buffered_writer_t := mkWriters demo_writer demo_writer demo_writer.

Definition demo_encoded : outcome fsd_op_encoder * writers fsd_buffered_writer_t :=
  fsd_op_encoder_encode (fun _ => true) (mkEncoder 32 0 0 0) demo_tracker demo_dest demo_writers.
Definition demo_encoder : fsd_op_encoder := mkEncoder 32 12 4 0.

Lemma demo_tracker_sound : tracker_sound 32 3 demo_src demo_dest demo_tracker.
Proof.
  split; try done; try (by apply bytes_okb).
  intros j st Hj. destruct (Z.to_nat j) as [|[|[|n]]] eqn:Ej; cbn; intros Hst; simplify_eq.
  - replace j with 0 by lia. reflexivity.
  - replace j with 1 by lia. split_and!; done.
  - replace j with 2 by lia. split_and!; try done. exists demo_diff. split_and!; try done.
    by apply bytes_okb.
Qed.

Lemma demo_fresh : fresh demo_writers.
Proof. split; [|done]. split; split; done. Qed.

Lemma encode_total_witness :
  defined (fst demo_encoded) ∧
  ((∀ z : Z, true = true) → enough_room 32 3 demo_writers → ∃ enc, fst demo_encoded = Ok enc).
Proof.
  apply (encode_total 32 3 demo_src demo_dest demo_tracker (fun _ => true) (mkEncoder 32 0 0 0)
           demo_writers demo_tracker_sound); [done | done | apply demo_fresh].
Defined.

Lemma demo_source_ok :
  sr_ok (mkReader FSD_BACKEND_MMAP 64 (Some demo_src) no_device 0 [] 0 0 0 None).
Proof. split; try done. by apply bytes_okb. Qed.

Lemma encode_apply_roundtrip_witness :
  let env := mkEnv (Ok (mkReader FSD_BACKEND_MMAP 64 (Some demo_src) no_device 0 [] 0 0 0 None))
    (Ok (Some (patch_file 3 5 demo_encoder (snd demo_encoded)))) true (Some (file_new 1000))
    (fun _ => true) false in
  pr_status (fsd_patch_apply env) = Ok tt ∧
  f_data <$> pr_output (fsd_patch_apply env) = Some demo_dest ∧
  pr_file (fsd_patch_apply env) = Some demo_dest ∧
  pr_unlinked (fsd_patch_apply env) = false.
Proof.
  apply (encode_apply_roundtrip 32 3 5 demo_src demo_dest demo_tracker (fun _ => true)
           (mkEncoder 32 0 0 0) demo_writers demo_encoder (snd demo_encoded)).
  - apply demo_tracker_sound.
  - done.
  - done.
  - done.
  - done.
  - apply demo_fresh.
  - vm_compute. reflexivity.
  - apply demo_source_ok.
  - done.
  - done.
  - done.
  - done.
  - done.
Defined.
