(* ===== verification/MatchLog.v ===== *)
(** The diagnostic match log of src/diff.c (fsd_write_match_log).

    With FSDIFF_MATCH_LOG set, a diff writes one line of comma separated numbers
    for every destination block: what the stages decided and, for a block with a
    source, where it comes from and how many bytes it shares with that place.  A
    line is the list of its columns, [None] an empty one; %llu, %d, %zu and %lld
    all print a number in decimal.  The results of fprintf and fclose are ignored
    by the code: on a full device the log stops early.

    Shown here: on the tracker of a finished run the log is defined, it has a line
    for every block in order, and a line with a source tells the truth. *)

From stdpp Require Import base list numbers tactics strings pretty.
From Stdlib Require Import ZArith Lia Ascii.
From S2P Require Import Prelude Stdio MemoryPool Simd Tracker Patch Matches BlockSearch StagePartial StageController.
Open Scope Z_scope.

(** * The program *)

Definition csv_column (c : option Z) : bytes := match c with Some z => bytes_of (pretty z) | None => [] end.

Fixpoint csv_columns (columns : list (option Z)) : bytes :=
  match columns with
  | [] => []
  | [c] => csv_column c
  | c :: columns => csv_column c ++ [44] ++ csv_columns columns
  end.

Definition csv_line (columns : list (option Z)) : bytes := csv_columns columns ++ [10].

Definition log_header : bytes :=
  bytes_of "dest_index,match_type,src_index,byte_offset,rel_offset,match_bytes" ++ [10].

(** The value of the enum. *)
Definition match_code (m : fsd_match_type_t) : Z :=
  match m with
  | FSD_MATCH_NONE => 0
  | FSD_MATCH_IDENTITY => 1
  | FSD_MATCH_RELOCATE => 2
  | FSD_MATCH_PARTIAL => 3
  | FSD_MATCH_ZERO => 4
  | FSD_MATCH_ONE => 5
  end.

Section Log.
Context (count_fn : count_matches_fn) (src : bytes) (src_size : Z) (dest : bytes) (block_size : Z).

(** The switch: the columns of block [i]. *)
Definition log_columns (i : Z) (st : fsd_block_state_t) : outcome (list (option Z)) :=
  let dest_pos := s64 (u64 (i * block_size)) in
  match match_type st with
  | FSD_MATCH_IDENTITY | FSD_MATCH_RELOCATE =>
      let src_pos := s64 (u64 (src_index st * block_size)) in
      rel ← chk64 (src_pos - dest_pos);
      Ok [Some i; Some (match_code (match_type st)); Some (src_index st); Some 0; Some rel; Some block_size]
  | FSD_MATCH_PARTIAL =>
      src_pos ← chk64 (s64 (u64 (src_index st * block_size)) + byte_offset st);
      match_bytes ← (if (0 <=? src_pos) && (u64 (src_pos + block_size) <=? src_size)
                     then count_fn src src_pos dest dest_pos block_size else Ok 0);
      rel ← chk64 (src_pos - dest_pos);
      Ok [Some i; Some (match_code (match_type st)); Some (src_index st); Some (byte_offset st); Some rel;
          Some match_bytes]
  | m => Ok [Some i; Some (match_code m); None; None; None; None]
  end.

(** for (i = 0; i < tracker->count; i++) *)
Fixpoint log_loop (t : fsd_block_tracker_t) (n : nat) (i : Z) (f : FILE) : outcome FILE :=
  match n with
  | O => Ok f
  | S n =>
      match fsd_block_tracker_get t i with
      | None => UB
      | Some st =>
          columns ← log_columns i st;
          log_loop t n (i + 1) (snd (fwrite (csv_line columns) f))
      end
  end.

End Log.

(** [fopen] is the stream on the path, or a failure that is only reported. *)
Definition fsd_write_match_log (g : fsd_simd_dispatch_t) (fopen : option FILE) (t : fsd_block_tracker_t)
    (src : bytes) (src_size : Z) (dest : bytes) (block_size : Z) : outcome (option FILE) :=
  match fopen with
  | None => Ok None
  | Some f =>
      f ← log_loop (fsd_block_search_count_fn g) src src_size dest block_size t (Z.to_nat (count t)) 0
            (snd (fwrite log_header f));
      Ok (Some f)
  end.

(** * What a line says *)

(** The source byte position that a line names. *)
Definition place (bs : Z) (st : fsd_block_state_t) : Z := src_index st * bs + byte_offset st.

Definition line_of (bs : Z) (src dest : bytes) (i : Z) (st : fsd_block_state_t) : list (option Z) :=
  Some i :: Some (match_code (match_type st)) ::
  match match_type st with
  | FSD_MATCH_IDENTITY | FSD_MATCH_RELOCATE | FSD_MATCH_PARTIAL =>
      [Some (src_index st); Some (byte_offset st); Some (place bs st - i * bs);
       Some (count_eq (slice (place bs st) bs src) (slice (i * bs) bs dest))]
  | _ => [None; None; None; None]
  end.

Definition log_lines (bs : Z) (src dest : bytes) (t : fsd_block_tracker_t) : list (list (option Z)) :=
  imap (fun i st => line_of bs src dest (Z.of_nat i) st) (blocks t).

Lemma count_eq_refl l : count_eq l l = zlen l.
Proof. induction l as [|x l IH]; [done|]. cbn [count_eq]. rewrite IH, zlen_cons, Z.eqb_refl. cbn. lia. Qed.

(** Writes on a device that fills up: what fits of all of them. *)
Lemma fwrite_data d f :
  f_data (snd (fwrite d f)) = f_data f ++ take (Z.to_nat (f_room f)) d ∧
  f_room (snd (fwrite d f)) = f_room f - Z.min (zlen d) (Z.max 0 (f_room f)).
Proof.
  unfold fwrite. cbn. split; [|done]. f_equal. unfold zlen.
  destruct (decide (Z.of_nat (length d) ≤ f_room f)).
  - rewrite !take_ge by lia. done.
  - f_equal. lia.
Qed.

Section Proofs.
Context {bs dbs : Z} {src dest : bytes} {t : fsd_block_tracker_t} {g : fsd_simd_dispatch_t}.
Context (Hts : tracker_sound bs dbs src dest t) (Ho : offsets_ok bs t) (Hg : simd_ok g).

Abbreviation count_fn := (fsd_block_search_count_fn g).

Lemma log_columns_spec i st :
  0 ≤ i < dbs → blocks t !! Z.to_nat i = Some st →
  log_columns count_fn src (zlen src) dest bs i st = Ok (line_of bs src dest i st).
Proof.
  intros Hi Hst. pose proof Hts as []. pose proof (Ho _ _ Hst) as Hof.
  pose proof (ts_sound i st ltac:(lia) Hst) as Hs. unfold block_sound, offset_ok in *.
  assert (Hib : 0 ≤ i * bs ∧ i * bs + bs ≤ zlen dest ∧ i * bs ≤ 2 ^ 56) by nia.
  unfold log_columns, line_of, place. rewrite (wrap_small 64 (i * bs)), (sgn_small 64 (i * bs)) by lia. cbv zeta.
  destruct (match_type st) eqn:Em; try done.
  - destruct Hof as [Hsi ->]. rewrite Z2Nat.id in Hsi by lia. destruct Hs as [Hin He].
    rewrite Hsi, Z.add_0_r, wrap_small, sgn_small, chk64_ok by (unfold INT64_MIN, INT64_MAX; lia). cbn.
    rewrite <- He, count_eq_refl, zlen_slice by lia. done.
  - rewrite Hof. destruct Hs as (H0 & Hin & He). assert (0 ≤ src_index st * bs) by nia.
    rewrite Z.add_0_r, wrap_small, sgn_small, chk64_ok by (unfold INT64_MIN, INT64_MAX; lia). cbn.
    rewrite <- He, count_eq_refl, zlen_slice by lia. done.
  - destruct Hs as (H0 & Hin & _). assert (0 ≤ src_index st * bs ≤ 2 ^ 62) by nia.
    rewrite (wrap_small 64 (src_index st * bs)), (sgn_small 64 (src_index st * bs)) by lia.
    rewrite chk64_ok by (unfold INT64_MIN, INT64_MAX; lia). cbn [mbind outcome_bind].
    rewrite wrap_small by lia. destruct (Z.leb_spec 0 (src_index st * bs + byte_offset st)); [|lia].
    destruct (Z.leb_spec (src_index st * bs + byte_offset st + bs) (zlen src)); [|lia]. cbn [andb].
    rewrite (search_count_fn_ok g Hg) by (done || lia). cbn [mbind outcome_bind].
    rewrite chk64_ok by (unfold INT64_MIN, INT64_MAX; lia). done.
Qed.

(** The lines of the last [n] blocks. *)
Lemma log_loop_spec n i f :
  0 ≤ i → i + Z.of_nat n = dbs →
  ∃ f', log_loop count_fn src (zlen src) dest bs t n i f = Ok f' ∧
    f_data f' = f_data f ++
      take (Z.to_nat (f_room f)) (concat (csv_line <$> drop (Z.to_nat i) (log_lines bs src dest t))).
Proof.
  revert i f. induction n as [|n IH]; intros i f Hi Hn; cbn [log_loop].
  - exists f. split; [done|]. rewrite drop_ge; [cbn; by rewrite take_nil, app_nil_r|].
    unfold log_lines. rewrite length_imap. pose proof (ts_blocks _ _ _ _ _ Hts). unfold zlen in *. lia.
  - pose proof (ts_blocks _ _ _ _ _ Hts). pose proof (ts_count _ _ _ _ _ Hts).
    destruct (tracker_get_some t i) as (st & -> & Hst); [lia|lia|].
    rewrite (log_columns_spec i st) by (done || lia). cbn [mbind outcome_bind].
    set (line := csv_line (line_of bs src dest i st)).
    destruct (fwrite_data line f) as [Hd Hr].
    destruct (IH (i + 1) (snd (fwrite line f))) as (f' & -> & Hd'); [lia|lia|].
    exists f'. split; [done|]. rewrite Hd', Hd, Hr, <- app_assoc. f_equal.
    assert (Hdrop : drop (Z.to_nat i) (log_lines bs src dest t) =
      line_of bs src dest i st :: drop (Z.to_nat (i + 1)) (log_lines bs src dest t)).
    { replace (Z.to_nat (i + 1)) with (S (Z.to_nat i)) by lia. apply drop_S.
      unfold log_lines. rewrite list_lookup_imap, Hst. cbn. by rewrite Z2Nat.id by lia. }
    rewrite Hdrop, fmap_cons. cbn [concat]. fold line. rewrite take_app. f_equal. f_equal. unfold zlen. lia.
Qed.

Lemma write_match_log_spec fopen :
  ∃ f', fsd_write_match_log g fopen t src (zlen src) dest bs = Ok f' ∧
    f_data <$> f' = (fun f => f_data f ++
      take (Z.to_nat (f_room f)) (log_header ++ concat (csv_line <$> log_lines bs src dest t))) <$> fopen.
Proof.
  unfold fsd_write_match_log. destruct fopen as [f|]; [|by exists None].
  pose proof (ts_count _ _ _ _ _ Hts). pose proof (ts_blocks _ _ _ _ _ Hts). pose proof (zlen_nonneg (blocks t)).
  destruct (fwrite_data log_header f) as [Hd Hr].
  destruct (log_loop_spec (Z.to_nat (count t)) 0 (snd (fwrite log_header f))) as (f' & -> & Hd'); [lia|lia|].
  exists (Some f'). split; [done|]. cbn [fmap option_fmap option_map]. f_equal.
  rewrite Hd', Hd, Hr, <- app_assoc, take_app. f_equal. f_equal. change (Z.to_nat 0) with 0%nat. rewrite drop_0.
  f_equal. unfold zlen. lia.
Qed.

End Proofs.

(** * Reading a log back *)

(** A byte of a number, as opposed to a comma or a newline. *)
Definition number_byte (b : Z) : Prop := b ≠ 44 ∧ b ≠ 10.

#[local] Instance bytes_of_inj : Inj (=) (=) bytes_of.
Proof.
  intros s s' H. unfold bytes_of in H. apply list_fmap_eq_inj in H.
  - by rewrite <- (String.string_of_list_ascii_of_string s), <- (String.string_of_list_ascii_of_string s'), H.
  - intros a b Hab. apply N2Z.inj in Hab. by rewrite <- (ascii_N_embedding a), <- (ascii_N_embedding b), Hab.
Qed.

(** What a prefix of digits inherits from the rest of a number. *)
Lemma pretty_go_ind (P : string → Prop) :
  (∀ n s, P s → P (String (pretty_N_char n) s)) → ∀ x s, P s → P (pretty_N_go x s).
Proof.
  intros HP x. induction (N.lt_wf_0 x) as [x _ IH]. intros s Hs.
  destruct (decide (x = 0)%N) as [->|Hx]; [by rewrite pretty_N_go_0|].
  rewrite pretty_N_go_step by lia. apply IH; [apply N.div_lt; lia|by apply HP].
Qed.

Lemma number_bytes (z : Z) : Forall number_byte (bytes_of (pretty z)) ∧ pretty z ≠ ""%string.
Proof.
  assert (HN : ∀ n : N, Forall number_byte (bytes_of (pretty n)) ∧ pretty n ≠ ""%string).
  { intros n. unfold pretty, pretty_N. case_decide; [split; [by repeat constructor|done]|].
    rewrite pretty_N_go_step by lia.
    apply (pretty_go_ind (fun s => Forall number_byte (bytes_of s) ∧ s ≠ ""%string)).
    - intros k s [Hs _]. split; [|done]. constructor; [|done]. unfold pretty_N_char. by repeat case_match.
    - split; [|done]. constructor; [|constructor]. unfold pretty_N_char. by repeat case_match. }
  destruct z as [|p|p]; [split; [by repeat constructor|done]|apply HN|].
  split; [|done]. constructor; [done|]. apply (HN (Npos p)).
Qed.

Lemma column_bytes c : Forall number_byte (csv_column c).
Proof. destruct c; [apply number_bytes|constructor]. Qed.

#[local] Instance column_inj : Inj (=) (=) csv_column.
Proof.
  assert (Hne : ∀ z : Z, bytes_of (pretty z) ≠ bytes_of ""%string).
  { intros z H%(inj bytes_of). by apply (number_bytes z) in H. }
  intros [z|] [z'|]; cbn; intros H; [|by apply Hne in H|symmetry in H; by apply Hne in H|done].
  apply (inj bytes_of), (inj pretty) in H. congruence.
Qed.

(** The first comma or newline is found again. *)
Lemma first_stop x y a b r r' :
  Forall number_byte x → Forall number_byte y → ¬ number_byte a → ¬ number_byte b →
  x ++ a :: r = y ++ b :: r' → x = y ∧ a = b ∧ r = r'.
Proof.
  revert y. induction x as [|c x IH]; intros [|d y] Hx Hy Ha Hb; cbn; intros [= -> H]; try done.
  - inversion_clear Hy. done.
  - inversion_clear Hx. done.
  - inversion_clear Hx. inversion_clear Hy. destruct (IH y) as (-> & -> & ->); done.
Qed.

Lemma not_number_byte b : b = 44 ∨ b = 10 → ¬ number_byte b.
Proof. unfold number_byte. lia. Qed.

Lemma csv_line_split l l' r r' :
  l ≠ [] → l' ≠ [] → csv_line l ++ r = csv_line l' ++ r' → l = l' ∧ r = r'.
Proof.
  unfold csv_line. rewrite <- !app_assoc. cbn [app]. revert l'.
  induction l as [|c l IH]; intros l' Hl Hl' H; [done|]. destruct l' as [|c' l']; [done|].
  assert (Hcons : ∀ c l k, ∃ a r, csv_columns (c :: l) ++ 10 :: k = csv_column c ++ a :: r ∧ ¬ number_byte a ∧
    match l with [] => a = 10 ∧ r = k | _ => a = 44 ∧ r = csv_columns l ++ 10 :: k end).
  { intros d [|e m] k.
    - exists 10, k. split_and!; [done|apply not_number_byte; lia|done|done].
    - exists 44, (csv_columns (e :: m) ++ 10 :: k). split_and!; [|apply not_number_byte; lia|done|done].
      change (csv_columns (d :: e :: m)) with (csv_column d ++ [44] ++ csv_columns (e :: m)). by rewrite <- !app_assoc. }
  destruct (Hcons c l r) as (a & k & E & Ha & Hk), (Hcons c' l' r') as (a' & k' & E' & Ha' & Hk').
  rewrite E, E' in H. apply first_stop in H as (Hc%(inj csv_column) & -> & ->); [|apply column_bytes|apply column_bytes|done|done].
  subst c'. destruct l as [|d l], l' as [|d' l']; destruct Hk as [-> ->], Hk' as [? Hk']; try done.
  destruct (IH (d' :: l')) as [-> ->]; done.
Qed.

Lemma csv_lines_inj ls ls' :
  Forall (.≠ []) ls → Forall (.≠ []) ls' → concat (csv_line <$> ls) = concat (csv_line <$> ls') → ls = ls'.
Proof.
  assert (Hne : ∀ l k, csv_line l ++ k ≠ []).
  { intros l k. unfold csv_line. rewrite <- app_assoc. cbn. by destruct (csv_columns l). }
  revert ls'. induction ls as [|l ls IH]; intros [|l' ls'] H1 H2 H; cbn in H.
  - done.
  - symmetry in H. by apply Hne in H.
  - by apply Hne in H.
  - inversion_clear H1. inversion_clear H2. apply csv_line_split in H as [-> H]; [|done|done]. f_equal. by apply IH.
Qed.

Lemma log_lines_nonempty bs src dest t : Forall (.≠ []) (log_lines bs src dest t).
Proof.
  apply Forall_lookup. intros i l. unfold log_lines. rewrite list_lookup_imap.
  destruct (blocks t !! i); [|done]. by intros [= <-].
Qed.

(** * Properties *)

(** C28: the match log of a tracker that describes the images is written without
    undefined behaviour and tells the truth: on a device with room for it, it is
    the header and one line for every destination block, in order; a line with a
    source names a place of the source, the distance to it and the number of bytes
    the block shares with it, which is the whole block unless the match is partial;
    and no other lines give the same file, so a reader recovers them. *)
Theorem match_log_truthful bs dbs src dest t g f :
  tracker_sound bs dbs src dest t → offsets_ok bs t → simd_ok g →
  let lines := log_lines bs src dest t in
  zlen (log_header ++ concat (csv_line <$> lines)) ≤ f_room f →
  ∃ f', fsd_write_match_log g (Some f) t src (zlen src) dest bs = Ok (Some f') ∧
    f_data f' = f_data f ++ log_header ++ concat (csv_line <$> lines) ∧
    (∀ lines', Forall (.≠ []) lines' → f_data f' = f_data f ++ log_header ++ concat (csv_line <$> lines') →
       lines' = lines) ∧
    zlen lines = dbs ∧
    ∀ i st, 0 ≤ i < dbs → fsd_block_tracker_get t i = Some st →
      ∃ rest, lines !! Z.to_nat i = Some (Some i :: Some (match_code (match_type st)) :: rest) ∧
        match match_type st with
        | FSD_MATCH_NONE | FSD_MATCH_ZERO | FSD_MATCH_ONE => rest = [None; None; None; None]
        | m => ∃ rel n, rest = [Some (src_index st); Some (byte_offset st); Some rel; Some n] ∧
            src_index st * bs + byte_offset st = i * bs + rel ∧ 0 ≤ i * bs + rel ∧ i * bs + rel + bs ≤ zlen src ∧
            n = count_eq (slice (i * bs + rel) bs src) (slice (i * bs) bs dest) ∧
            (m = FSD_MATCH_PARTIAL ∨ n = bs)
        end.
Proof.
  intros Hts Ho Hg lines Hroom. destruct (write_match_log_spec Hts Ho Hg (Some f)) as (f' & Hw & Hd).
  destruct f' as [f'|]; [|done]. injection Hd as Hd. fold lines in Hd. set (all := log_header ++ concat (csv_line <$> lines)) in *.
  rewrite (take_ge all) in Hd by (unfold zlen in Hroom; lia).
  exists f'. split; [done|]. split; [done|]. split; [|split].
  - intros lines' Hne Hd'. rewrite Hd in Hd'. apply app_inv_head, app_inv_head in Hd'. symmetry.
    apply csv_lines_inj; [apply log_lines_nonempty|done|done].
  - unfold lines, log_lines, zlen. rewrite length_imap. apply (ts_blocks _ _ _ _ _ Hts).
  - intros i st Hi Hget. pose proof Hts as [].
    destruct (tracker_get_some t i) as (st' & Hget' & Hst); [lia|lia|]. rewrite Hget in Hget'. injection Hget' as <-.
    eexists. split.
    { unfold lines, log_lines. rewrite list_lookup_imap, Hst. cbn. unfold line_of. rewrite Z2Nat.id by lia. done. }
    pose proof (ts_sound i st ltac:(lia) Hst) as Hs. pose proof (Ho _ _ Hst) as Hof. unfold block_sound, offset_ok in *.
    assert (Hfull : ∀ p, 0 ≤ p → p + bs ≤ zlen src → slice (i * bs) bs dest = slice p bs src →
      count_eq (slice p bs src) (slice (i * bs) bs dest) = bs).
    { intros p Hp Hin ->. rewrite count_eq_refl. apply zlen_slice; lia. }
    unfold place. destruct (match_type st) eqn:Em; try done; eexists _, _; (split; [reflexivity|]);
      rewrite !(Z.add_comm (i * bs) (_ - _)), !Z.sub_add.
    + destruct Hof as [Hsi ->]. rewrite Hsi, Z2Nat.id, Z.add_0_r in * by lia.
      split_and!; [done|nia|lia|done|right; apply Hfull; [nia|lia|apply Hs]].
    + rewrite Hof, Z.add_0_r in *. destruct Hs as (H0 & Hin & He).
      split_and!; [done|nia|lia|done|right; apply Hfull; [nia|lia|done]].
    + destruct Hs as (H0 & Hin & _). split_and!; [done|done|done|done|by left].
Qed.

(** ** The log of the small images *)

Lemma match_log_truthful_witness :
  ∃ f', fsd_write_match_log setup_scalar_dispatch (Some (file_new 1000)) (sc_tracker (snd demo_run)) demo_src
      (zlen demo_src) demo_dest 32 = Ok (Some f') ∧
    f_data f' = log_header ++ bytes_of "0,4,,,," ++ [10] ++ bytes_of "1,2,0,0,-32,32" ++ [10] ++
      bytes_of "2,3,1,0,-32,30" ++ [10].
Proof.
  destruct demo_run_finished as [Hs Ho].
  destruct (match_log_truthful 32 3 demo_src demo_dest (sc_tracker (snd demo_run)) setup_scalar_dispatch (file_new 1000)
    Hs Ho scalar_ok) as (f' & Hw & Hd & _).
  - vm_compute. discriminate.
  - exists f'. split; [exact Hw|]. rewrite Hd. vm_compute. reflexivity.
Defined.
