(* ===== verification/Diff.v ===== *)
(** The diff driver (src/diff.c).

    fsd_diff_files opens the images, runs the stage controller, encodes the
    tracker into three temporary streams, writes header and streams to the output
    and updates the statistics.  What the surroundings answer (the opened images,
    the temporary streams, the output stream, the allocations, the cancel requests
    of other threads) is the record [diff_env], any of which may be a failure.

    The buffer of a direct source can be longer than the source; the stages get
    its first [src_size] bytes, so that a read beyond them is undefined in the
    model.  The match log of FSDIFF_MATCH_LOG is the one of MatchLog.v.  The
    elapsed time and the verbose switch are not modelled.

    Shown here: whatever the images and the surroundings, a diff finishes without
    undefined behaviour, an error leaves no partial patch in a regular output
    file, and a successful diff leaves a patch that turns the source into the
    destination, with statistics that describe it. *)

From stdpp Require Import base list numbers tactics.
From Stdlib Require Import ZArith Lia.
From S2P Require Import Prelude Stdio Header Writer Varint Crc32 MemoryPool HashTable Simd Tracker Source.
From S2P Require Import Patch Matches StageIdentity StageRelocation BlockSearch StagePartial ExtReader.
From S2P Require Import StageFsmap StageController PatchSafety Encoder Codec DiffData RoundTrip EncoderSpec.
From S2P Require Import EndToEnd MatchLog.
Open Scope Z_scope.

(** * The program *)

(** while ((n = fread(copy_buf, 1, sizeof(copy_buf), src)) > 0): every iteration
    takes at least one byte of [src]. *)
Fixpoint copy_loop (fuel : nat) (src dst : FILE) (copied : Z) : outcome Z * FILE :=
  match fuel with
  | O => (NoFuel, dst)
  | S fuel =>
      let '(copy_buf, src) := fread 65536 src in
      let n := zlen copy_buf in
      if n =? 0 then (Ok copied, dst) else
      let '(written, dst) := fwrite copy_buf dst in
      if negb (written =? n) then (Err FSD_ERR_IO, dst)
      else copy_loop fuel src dst (u64 (copied + n))
  end.

(** Reads of a stream that was just written do not fail here; a short stream is
    caught by the length. *)
Definition fsd_copy_stream (src dst : FILE) (expected : Z) : outcome unit * FILE :=
  match copy_loop (S (length (f_data src))) (rewind src) dst 0 with
  | (Ok copied, dst) => (if negb (copied =? expected) then Err FSD_ERR_IO else Ok tt, dst)
  | (Err e, dst) => (Err e, dst)
  | (UB, dst) => (UB, dst)
  | (NoFuel, dst) => (NoFuel, dst)
  end.

Definition fsd_diff_options_init : fsd_diff_options_t := mkOptions 12 true true true half 8 false true.

Record fsd_diff_stats_t := mkStats {
  total_blocks : Z;
  identity_matches : Z;
  relocate_matches : Z;
  partial_matches : Z;
  zero_blocks : Z;
  one_blocks : Z;
  literal_blocks : Z;
  patch_size : Z
}.

Record fsd_diff_ctx := mkCtx {
  dc_opts : fsd_diff_options_t;
  dc_stats : fsd_diff_stats_t;
  dc_progress_cb : bool;
  dc_cancelled : bool
}.

Definition sizeof_diff_ctx : Z := 168.

Definition fsd_diff_create (malloc_ok : allocator) (opts : option fsd_diff_options_t) : outcome fsd_diff_ctx :=
  if negb (malloc_ok sizeof_diff_ctx) then Err FSD_ERR_OUT_OF_MEMORY else
  let opts := match opts with Some o => o | None => fsd_diff_options_init end in
  if (opt_block_size_log2 opts <? 5) || (24 <? opt_block_size_log2 opts) then Err FSD_ERR_BAD_BLOCK_SIZE else
  Ok (mkCtx opts (mkStats 0 0 0 0 0 0 0 0) false false).

(** A temporary file: not created, not opened as a stream, or open. *)
Inductive temp_file : Type :=
| NoTemp
| NoStream
| Temp (f : FILE).

Definition temp_created (t : temp_file) : bool := match t with NoTemp => false | _ => true end.

Record diff_env (A : Type) := mkDiffEnv {
  de_malloc : allocator;
  de_memory : memory A;
  de_simd : fsd_simd_dispatch_t;
  de_source : outcome fsd_source_reader;
  de_dest : outcome (option bytes);
  de_cancel : cancel_flag;              (** fsd_diff_cancel called by then *)
  de_match_log : option (option FILE);  (** FSDIFF_MATCH_LOG, and its fopen *)
  de_op_temp : temp_file;
  de_diff_temp : temp_file;
  de_lit_temp : temp_file;
  de_output_regular : bool;
  de_fopen : option FILE
}.
Arguments mkDiffEnv {A}.
Arguments de_malloc {A}.
Arguments de_memory {A}.
Arguments de_simd {A}.
Arguments de_source {A}.
Arguments de_dest {A}.
Arguments de_cancel {A}.
Arguments de_match_log {A}.
Arguments de_op_temp {A}.
Arguments de_diff_temp {A}.
Arguments de_lit_temp {A}.
Arguments de_output_regular {A}.
Arguments de_fopen {A}.

(** The return code, the context, the output stream if it was created, whether
    the output path was unlinked, the progress reports and the match log. *)
Record diff_result := mkDiffResult {
  df_status : outcome unit;
  df_ctx : fsd_diff_ctx;
  df_output : option FILE;
  df_unlinked : bool;
  df_reports : list (Z * Z);
  df_match_log : option FILE
}.

(** The error part of an outcome. *)
Definition status_of {B} (o : outcome B) : outcome unit :=
  match o with Ok _ => Ok tt | Err e => Err e | UB => UB | NoFuel => NoFuel end.

Definition set_cancelled (b : bool) (ctx : fsd_diff_ctx) : fsd_diff_ctx :=
  mkCtx (dc_opts ctx) (dc_stats ctx) (dc_progress_cb ctx) b.

Definition set_stats (s : fsd_diff_stats_t) (ctx : fsd_diff_ctx) : fsd_diff_ctx :=
  mkCtx (dc_opts ctx) s (dc_progress_cb ctx) (dc_cancelled ctx).

(** The header, then the three streams; the result of the writes and of fclose. *)
Definition write_output (output op_file diff_file lit_file : FILE)
    (dest_blocks block_size_log2 op_size diff_size lit_size : Z) : outcome unit * FILE :=
  let '(e, o) := fsd_header_write (Some output) dest_blocks block_size_log2 op_size diff_size in
  let output := default output o in
  let copy (r : outcome unit * FILE) (src : FILE) (size : Z) :=
    match r with (Ok _, output) => fsd_copy_stream src output size | r => r end in
  let r := (match e with FSD_SUCCESS => Ok tt | e => Err e end, output) in
  let r := copy r op_file op_size in
  let r := copy r diff_file diff_size in
  let r := copy r lit_file lit_size in
  match r with
  | (Ok _, output) => (if fclose output then Ok tt else Err FSD_ERR_IO, output)
  | r => r
  end.

(** Encoding into the three writers; those that could not be created are null. *)
Definition encode_streams (malloc_ok : allocator) (block_size : Z) (t : fsd_block_tracker_t) (dest_data : bytes)
    (op_writer diff_writer lit_writer : outcome fsd_buffered_writer_t) : outcome (writers fsd_buffered_writer_t) :=
  encoder ← fsd_op_encoder_create malloc_ok block_size;
  match op_writer, diff_writer, lit_writer with
  | Ok op_writer, Ok diff_writer, Ok lit_writer =>
      match fsd_op_encoder_encode malloc_ok encoder t dest_data (mkWriters op_writer diff_writer lit_writer) with
      | (Ok _, ws) =>
          let flush w := match fsd_writer_flush w with
                         | (Ok _, w) => Ok w | (Err e, _) => Err e | (UB, _) => UB | (NoFuel, _) => NoFuel end in
          op_writer ← flush (Encoder.op_writer ws);
          diff_writer ← flush (Encoder.diff_writer ws);
          lit_writer ← flush (Encoder.lit_writer ws);
          if negb (fflush (file op_writer)) || negb (fflush (file diff_writer)) || negb (fflush (file lit_writer))
          then Err FSD_ERR_IO else Ok (mkWriters op_writer diff_writer lit_writer)
      | (Err e, _) => Err e
      | (UB, _) => UB
      | (NoFuel, _) => NoFuel
      end
  | _, _, _ => Err FSD_ERR_INVALID_ARG
  end.

(** From the temporary files on. *)
Definition emit_patch {A} (env : diff_env A) (ctx : fsd_diff_ctx) (block_size dest_blocks : Z) (t : fsd_block_tracker_t)
    (dest_data : bytes) (reports : list (Z * Z)) (log : option FILE) : diff_result :=
  let fail status := mkDiffResult status ctx None false reports log in
  if negb (temp_created (de_op_temp env)) || negb (temp_created (de_diff_temp env)) ||
     negb (temp_created (de_lit_temp env)) then fail (Err FSD_ERR_IO) else
  match de_op_temp env, de_diff_temp env, de_lit_temp env with
  | Temp op_file, Temp diff_file, Temp lit_file =>
      let writer f := fsd_writer_create_from_file (de_malloc env) (Some f) 0 in
      match encode_streams (de_malloc env) block_size t dest_data (writer op_file) (writer diff_file) (writer lit_file) with
      | Ok ws =>
          let op_size := fsd_writer_bytes_written (Encoder.op_writer ws) in
          let diff_size := fsd_writer_bytes_written (Encoder.diff_writer ws) in
          let lit_size := fsd_writer_bytes_written (Encoder.lit_writer ws) in
          match de_fopen env with
          | None => fail (Err FSD_ERR_IO)
          | Some output =>
              match write_output output (file (Encoder.op_writer ws)) (file (Encoder.diff_writer ws))
                      (file (Encoder.lit_writer ws)) dest_blocks (opt_block_size_log2 (dc_opts ctx))
                      op_size diff_size lit_size with
              | (Ok _, output) =>
                  let stats := mkStats dest_blocks (identity_count t) (relocate_count t) (partial_count t)
                    (zero_count t) (one_count t) (literal_count t)
                    (u64 (FSD_HEADER_SIZE + op_size + diff_size + lit_size)) in
                  mkDiffResult (Ok tt) (set_stats stats ctx) (Some output) false reports log
              | (err, output) => mkDiffResult err ctx (Some output) (de_output_regular env) reports log
              end
          end
      | e => fail (status_of e)
      end
  | _, _, _ => fail (Err FSD_ERR_IO)
  end.

Definition fsd_diff_files {A} `{Allocator A} (env : diff_env A) (ctx : fsd_diff_ctx) : diff_result :=
  let fail status := mkDiffResult status ctx None false [] None in
  let g := if opt_force_scalar (dc_opts ctx) then fsd_simd_force_scalar else de_simd env in
  match de_source env with
  | Ok src_reader =>
      match de_dest env with
      | Ok dest_data =>
          match fsd_source_reader_data (de_malloc env) src_reader with
          | (Ok src_data, src_reader) =>
              let src_size := fsd_source_reader_size src_reader in
              let dest_size := zlen (default [] dest_data) in
              let block_size := u64 (Z.shiftl 1 (opt_block_size_log2 (dc_opts ctx))) in
              let src_blocks := src_size / block_size in
              let dest_blocks := dest_size / block_size in
              if negb (dest_size mod block_size =? 0) then fail (Err FSD_ERR_SIZE_MISMATCH) else
              match fsd_stage_controller_create (de_malloc env) (de_memory env) (Some (dc_opts ctx))
                      src_blocks dest_blocks with
              | Ok controller =>
                  let cancelled at_ := dc_cancelled ctx || de_cancel env at_ in
                  let controller := fsd_stage_controller_set_cancel_flag controller (Some cancelled) in
                  let controller := if dc_progress_cb ctx then fsd_stage_controller_set_progress controller true
                                    else controller in
                  match fsd_stage_controller_run g (de_malloc env) (de_memory env)
                          (slice 0 src_size <$> src_data) dest_data src_size dest_size controller with
                  | (Ok _, controller) =>
                      let tracker := fsd_stage_controller_get_tracker controller in
                      match match de_match_log env with
                            | Some log => fsd_write_match_log g log tracker (slice 0 src_size (default [] src_data))
                                            src_size (default [] dest_data) block_size
                            | None => Ok None
                            end with
                      | Ok log => emit_patch env ctx block_size dest_blocks tracker (default [] dest_data)
                                    (sc_reports controller) log
                      | e => mkDiffResult (status_of e) ctx None false (sc_reports controller) None
                      end
                  | (e, controller) =>
                      mkDiffResult e
                        (match e with Err FSD_ERR_CANCELLED => set_cancelled false ctx | _ => ctx end)
                        None false (sc_reports controller) None
                  end
              | e => fail (status_of e)
              end
          | (e, _) => fail (status_of e)
          end
      | e => fail (status_of e)
      end
  | e => fail (status_of e)
  end.

Definition fsd_diff_set_progress (ctx : fsd_diff_ctx) (callback : bool) : fsd_diff_ctx :=
  mkCtx (dc_opts ctx) (dc_stats ctx) callback (dc_cancelled ctx).

Definition fsd_diff_cancel (ctx : fsd_diff_ctx) : fsd_diff_ctx := set_cancelled true ctx.

Definition fsd_diff_get_stats (ctx : fsd_diff_ctx) : fsd_diff_stats_t := dc_stats ctx.

(** * Copying streams *)

(** A complete fwrite appends everything. *)
Lemma fwrite_all d f n f' : fwrite d f = (n, f') → n = zlen d → f_data f' = f_data f ++ d.
Proof.
  unfold fwrite. intros [= Hn <-] ->. cbn. rewrite Hn. unfold zlen. by rewrite Nat2Z.id, firstn_all.
Qed.

Lemma copy_loop_spec fuel src dst copied :
  0 ≤ f_pos src ≤ zlen (f_data src) → zlen (f_data src) - f_pos src < Z.of_nat fuel → 0 ≤ copied →
  copied + (zlen (f_data src) - f_pos src) < 2 ^ 64 →
  match copy_loop fuel src dst copied with
  | (Ok n, dst') => n = copied + (zlen (f_data src) - f_pos src) ∧
      f_data dst' = f_data dst ++ slice (f_pos src) (zlen (f_data src) - f_pos src) (f_data src)
  | (Err e, _) => e = FSD_ERR_IO
  | _ => False
  end.
Proof.
  revert src dst copied. induction fuel as [|fuel IH]; intros src dst copied Hp Hf Hc Hmax; [lia|].
  cbn [copy_loop fread]. set (chunk := slice (f_pos src) 65536 (f_data src)).
  assert (Hchunk : chunk = slice (f_pos src) (zlen chunk) (f_data src) ∧
    0 ≤ zlen chunk ≤ zlen (f_data src) - f_pos src ∧ (zlen chunk = 0 → zlen (f_data src) = f_pos src)).
  { assert (Hz : zlen chunk = Z.min 65536 (zlen (f_data src) - f_pos src)) 
      by (unfold chunk, slice, zlen in *; rewrite length_take, length_drop; lia).
    split; [|lia]. unfold chunk at 1. unfold slice. rewrite Hz.
    destruct (decide (65536 ≤ zlen (f_data src) - f_pos src)); [by rewrite Z.min_l by lia|].
    rewrite Z.min_r by lia. unfold zlen in *. rewrite !take_ge; [done|rewrite length_drop; lia..]. }
  destruct Hchunk as (Hch & Hlen & Hzero). clearbody chunk.
  destruct (Z.eqb_spec (zlen chunk) 0) as [E|E].
  { rewrite Hzero by done. rewrite Z.sub_diag, slice_nil, app_nil_r. split; [lia|done]. }
  destruct (fwrite chunk dst) as [written dst1] eqn:Hw. destruct (Z.eqb_spec written (zlen chunk)) as [Hwl|]; [|done].
  cbn [negb]. apply fwrite_all in Hw; [|done]. rewrite wrap_small by lia.
  specialize (IH (mkFILE (f_data src) (f_pos src + zlen chunk) (f_room src) (f_flush_ok src) (f_close_ok src))
    dst1 (copied + zlen chunk)). cbn [f_data f_pos] in IH.
  destruct (copy_loop fuel _ dst1 (copied + zlen chunk)) as [[n|e| |] dst'];
    (assert (H := IH ltac:(lia) ltac:(lia) ltac:(lia) ltac:(lia))); [|done|done|done].
  destruct H as [-> ->]. split; [lia|]. rewrite Hw, <- app_assoc. f_equal.
  replace (zlen (f_data src) - f_pos src) with (zlen chunk + (zlen (f_data src) - (f_pos src + zlen chunk))) by lia.
  rewrite slice_app_add by lia. by rewrite <- Hch.
Qed.

Lemma copy_stream_spec src dst expected :
  zlen (f_data src) < 2 ^ 64 →
  match fsd_copy_stream src dst expected with
  | (Ok _, dst') => expected = zlen (f_data src) ∧ f_data dst' = f_data dst ++ f_data src
  | (Err e, _) => e = FSD_ERR_IO
  | _ => False
  end.
Proof.
  intros Hm. unfold fsd_copy_stream. pose proof (zlen_nonneg (f_data src)).
  pose proof (copy_loop_spec (S (length (f_data src))) (rewind src) dst 0) as Hl. cbn [rewind f_data f_pos] in Hl.
  destruct (copy_loop _ (rewind src) dst 0) as [[n|e| |] dst']; (assert (Hs := Hl ltac:(lia) ltac:(unfold zlen; lia) ltac:(lia) ltac:(lia)));
    [|done|done|done].
  destruct Hs as [-> Hd]. destruct (Z.eqb_spec (0 + (zlen (f_data src) - 0)) expected) as [<-|]; [|done]. cbn [negb].
  split; [lia|]. rewrite Hd. f_equal. apply slice_full. lia.
Qed.

(** * The output file *)

Lemma write_output_spec output op diff lit dbs lg ops diffs lits :
  zlen (f_data op) < 2 ^ 64 → zlen (f_data diff) < 2 ^ 64 → zlen (f_data lit) < 2 ^ 64 →
  match write_output output op diff lit dbs lg ops diffs lits with
  | (Ok _, output') =>
      f_data output' = f_data output ++ header_buf dbs lg ops diffs ++ f_data op ++ f_data diff ++ f_data lit ∧
      fclose output' = true
  | (Err e, _) => e = FSD_ERR_IO
  | _ => False
  end.
Proof.
  intros H1 H2 H3. unfold write_output, fsd_header_write.
  destruct (fwrite (header_buf dbs lg ops diffs) output) as [n f] eqn:Hw.
  destruct (Z.eqb_spec n FSD_HEADER_SIZE) as [->|]; [|done]. cbv beta iota zeta delta [negb default from_option id].
  apply fwrite_all in Hw; [|by rewrite zlen_header_buf].
  pose proof (copy_stream_spec op f ops H1) as Ho. destruct (fsd_copy_stream op f ops) as [[[]|e| |] f1]; [|done..].
  pose proof (copy_stream_spec diff f1 diffs H2) as Hd. destruct (fsd_copy_stream diff f1 diffs) as [[[]|e| |] f2]; [|done..].
  pose proof (copy_stream_spec lit f2 lits H3) as Hl. destruct (fsd_copy_stream lit f2 lits) as [[[]|e| |] f3]; [|done..].
  destruct Ho as [_ Ho], Hd as [_ Hd], Hl as [_ Hl]. destruct (fclose f3) eqn:Hclose; [|done].
  split; [|done]. rewrite Hl, Hd, Ho, Hw, <- !app_assoc. done.
Qed.

(** * Encoding *)

(** A stream on a new temporary file, whose size an off_t can hold. *)
Record temp_ok (t : temp_file) : Prop := {
  tp_file f : t = Temp f → f_data f = [] ∧ 0 ≤ f_room f ≤ 2 ^ 62
}.

(** The writers hold an encoding of [t] that has reached their files. *)
Record encoded (bs : Z) (dest : bytes) (t : fsd_block_tracker_t) (ws : writers fsd_buffered_writer_t) : Prop := {
  en_stream : ∃ malloc_ok encoder ws0 enc ws1, enc_block_size encoder = bs ∧ fresh ws0 ∧
    fsd_op_encoder_encode malloc_ok encoder t dest ws0 = (Ok enc, ws1) ∧
    f_data (file (op_writer ws)) = snk_view (op_writer ws1) ∧
    f_data (file (diff_writer ws)) = snk_view (diff_writer ws1) ∧
    f_data (file (lit_writer ws)) = snk_view (lit_writer ws1);
  en_op : fsd_writer_bytes_written (op_writer ws) = zlen (f_data (file (op_writer ws))) ∧
    zlen (f_data (file (op_writer ws))) ≤ 2 ^ 62;
  en_diff : fsd_writer_bytes_written (diff_writer ws) = zlen (f_data (file (diff_writer ws))) ∧
    zlen (f_data (file (diff_writer ws))) ≤ 2 ^ 62;
  en_lit : fsd_writer_bytes_written (lit_writer ws) = zlen (f_data (file (lit_writer ws))) ∧
    zlen (f_data (file (lit_writer ws))) ≤ 2 ^ 62
}.

(** A flush that succeeds puts everything in the file. *)
Lemma flush_spec w :
  writer_ok w → writer_cap w ≤ 2 ^ 62 →
  match fsd_writer_flush w with
  | (Ok _, w') => f_data (file w') = writer_view w ∧
      fsd_writer_bytes_written w' = zlen (f_data (file w')) ∧ zlen (f_data (file w')) ≤ 2 ^ 62
  | (Err _, _) => True
  | _ => False
  end.
Proof.
  intros Hw Hcap. destruct (fsd_writer_flush w) as [r w'] eqn:Hf.
  destruct (writer_flush_spec w r w' Hw Hf) as [(-> & [] & _ & Hc & Hpos & _ & Hd)|(-> & _)]; [|done].
  split; [done|]. unfold fsd_writer_bytes_written. rewrite Hpos, Z.add_0_r, wok_total. unfold writer_cap, f_cap in *.
  pose proof (zlen_nonneg (f_data (file w'))). rewrite wrap_small by lia. split; [done|lia].
Qed.

Lemma writer_create_returns malloc_ok f :
  temp_ok (Temp f) →
  returns (fun w => writer_ok w ∧ writer_view w = [] ∧ writer_cap w ≤ 2 ^ 62) (fun _ => True)
    (fsd_writer_create_from_file malloc_ok (Some f) 0).
Proof.
  intros [Hf]. destruct (Hf f eq_refl) as (H0 & H1).
  destruct (fsd_writer_create_from_file malloc_ok (Some f) 0) as [w|e| |] eqn:E; cbn;
    [|done|unfold fsd_writer_create_from_file in E; by repeat case_match..].
  destruct (writer_create_ok malloc_ok f 0 w H0 (proj1 H1) ltac:(lia)) as (Hok & Hv & Hc); [|exact E|split_and!; [done|done|lia]].
  unfold FSD_WRITER_DEFAULT_BUFFER in *. lia.
Qed.

Lemma encode_streams_spec malloc_ok bs dbs src dest t op diff lit :
  tracker_sound bs dbs src dest t →
  temp_ok (Temp op) → temp_ok (Temp diff) → temp_ok (Temp lit) →
  let writer f := fsd_writer_create_from_file malloc_ok (Some f) 0 in
  returns (encoded bs dest t) (fun _ => True)
    (encode_streams malloc_ok bs t dest (writer op) (writer diff) (writer lit)).
Proof.
  intros Hts Ho Hd Hl writer. unfold encode_streams.
  assert (Hmax : dbs * bs ≤ 2 ^ 62).
  { pose proof (ts_max _ _ _ _ _ Hts). pose proof (ts_size _ _ _ _ _ Hts). nia. }
  eapply (returns_bind (fun encoder => enc_block_size encoder = bs)).
  { unfold fsd_op_encoder_create. repeat case_match; done. }
  intros encoder Henc.
  pose proof (writer_create_returns malloc_ok op Ho) as Ro. pose proof (writer_create_returns malloc_ok diff Hd) as Rd.
  pose proof (writer_create_returns malloc_ok lit Hl) as Rl. fold (writer op) in Ro. fold (writer diff) in Rd.
  fold (writer lit) in Rl.
  destruct (writer op) as [wo|e| |], (writer diff) as [wd|e'| |], (writer lit) as [wl|e''| |]; try done. cbn in Ro, Rd, Rl.
  assert (Hfresh : fresh (mkWriters wo wd wl)) by (split; [split|split]; naive_solver).
  pose proof (encode_spec (R := fsd_source_reader) bs dbs false src dest t malloc_ok encoder _ Hts Hmax Henc Hfresh) as He.
  destruct (fsd_op_encoder_encode malloc_ok encoder t dest (mkWriters wo wd wl)) as [[enc|e| |] ws] eqn:Eenc; [|done|done|done].
  destruct He as ([Wo Wd Wl] & _ & _ & _ & _ & _ & _ & _ & _ & _ & Co & Cd & Cl).
  destruct Ro as (_ & _ & Ro), Rd as (_ & _ & Rd), Rl as (_ & _ & Rl). cbn [snk_cap] in Co, Cd, Cl. cbn in Co, Cd, Cl.
  pose proof (flush_spec _ Wo ltac:(lia)) as Fo. pose proof (flush_spec _ Wd ltac:(lia)) as Fd.
  pose proof (flush_spec _ Wl ltac:(lia)) as Fl.
  destruct (fsd_writer_flush (op_writer ws)) as [[[]|e| |] w1]; try done.
  destruct (fsd_writer_flush (diff_writer ws)) as [[[]|e| |] w2]; try done.
  destruct (fsd_writer_flush (lit_writer ws)) as [[[]|e| |] w3]; try done.
  destruct Fo as [Vo Fo], Fd as [Vd Fd], Fl as [Vl Fl]. cbn [mbind outcome_bind]. case_match; [done|].
  split; [|done|done|done]. by exists malloc_ok, encoder, (mkWriters wo wd wl), enc, ws.
Qed.

(** * The whole diff *)

(** A context as fsd_diff_create makes it. *)
Record ctx_ok (ctx : fsd_diff_ctx) : Prop := {
  cx_block_size : 5 ≤ opt_block_size_log2 (dc_opts ctx) ≤ 24;
  cx_radius : opt_search_radius (dc_opts ctx) < 2 ^ 31
}.

Definition ctx_block_size (ctx : fsd_diff_ctx) : Z := 2 ^ opt_block_size_log2 (dc_opts ctx).

(** What the surroundings promise about the images [src] and [dest]: streams on new
    files are empty, opened readers deliver the images, and every part may fail. *)
Record diff_env_ok {A} `{AllocatorSpec A} (bs : Z) (src dest : bytes) (env : diff_env A) : Prop := {
  ev_simd : simd_ok (de_simd env);
  ev_memory : memory_ok (de_memory env);
  ev_source : returns (fun r => reader_ok r ∧ reader_contents r = src) (fun _ => True) (de_source env);
  ev_dest : returns (fun d => default [] d = dest) (fun _ => True) (de_dest env);
  ev_dest_ok : bytes_ok dest;
  ev_blocks : zlen dest / bs < 2 ^ 32;
  ev_op_temp : temp_ok (de_op_temp env);
  ev_diff_temp : temp_ok (de_diff_temp env);
  ev_lit_temp : temp_ok (de_lit_temp env);
  ev_output f : de_fopen env = Some f → f_data f = []
}.

(** What a successful diff has made of its images. *)
Record patched (ctx : fsd_diff_ctx) (src dest : bytes) (r : diff_result) (dbs : Z) (t : fsd_block_tracker_t)
    (ws : writers fsd_buffered_writer_t) (output : FILE) : Prop := {
  pt_sound : tracker_sound (ctx_block_size ctx) dbs src dest t;
  pt_account : identity_count t + relocate_count t + partial_count t + zero_count t + one_count t +
    literal_count t = dbs;
  pt_encoded : encoded (ctx_block_size ctx) dest t ws;
  pt_output : df_output r = Some output;
  pt_kept : df_unlinked r = false;
  pt_data : f_data output =
    header_buf dbs (opt_block_size_log2 (dc_opts ctx)) (zlen (f_data (file (op_writer ws))))
      (zlen (f_data (file (diff_writer ws)))) ++
    f_data (file (op_writer ws)) ++ f_data (file (diff_writer ws)) ++ f_data (file (lit_writer ws));
  pt_ctx : df_ctx r = set_stats (mkStats dbs (identity_count t) (relocate_count t) (partial_count t)
    (zero_count t) (one_count t) (literal_count t) (zlen (f_data output))) ctx;
  pt_left : file_left output = Some (f_data output)
}.

(** What a failed diff leaves. *)
Definition diff_failed {A} (env : diff_env A) (ctx : fsd_diff_ctx) (e : fsd_error_t) (r : diff_result) : Prop :=
  (df_unlinked r = match df_output r with Some _ => de_output_regular env | None => false end) ∧
  (df_ctx r = ctx ∨
   e = FSD_ERR_CANCELLED ∧ df_output r = None ∧ df_ctx r = set_cancelled false ctx ∧
   ∃ at_, dc_cancelled ctx || de_cancel env at_ = true).

Definition diff_ok {A} (env : diff_env A) (ctx : fsd_diff_ctx) (src dest : bytes) (r : diff_result) : Prop :=
  match df_status r with
  | Ok _ => ∃ dbs t ws output, patched ctx src dest r dbs t ws output
  | Err e => diff_failed env ctx e r
  | _ => False
  end.

Section Spec.
Context {A : Type} {AL : Allocator A} {ALS : AllocatorSpec A} {ALL : AllocatorLaws A}.
Context (ctx : fsd_diff_ctx) (Hctx : ctx_ok ctx) (env : diff_env A) (src dest : bytes).
Context (Henv : diff_env_ok (ctx_block_size ctx) src dest env).

Lemma emit_patch_spec dbs t reports log :
  tracker_sound (ctx_block_size ctx) dbs src dest t →
  identity_count t + relocate_count t + partial_count t + zero_count t + one_count t + literal_count t = dbs →
  diff_ok env ctx src dest (emit_patch env ctx (ctx_block_size ctx) dbs t dest reports log).
Proof.
  intros Hts Hacc. unfold emit_patch. destruct Henv as [_ _ _ _ _ _ Hot Hdt Hlt Hout].
  assert (Hfail : ∀ e, diff_ok env ctx src dest (mkDiffResult (Err e) ctx None false reports log)) by (split; [done|by left]).
  destruct (de_op_temp env) as [| |op], (de_diff_temp env) as [| |diff], (de_lit_temp env) as [| |lit]; try apply Hfail.
  cbn [temp_created negb orb].
  pose proof (encode_streams_spec (de_malloc env) _ dbs src dest t op diff lit Hts Hot Hdt Hlt) as He.
  cbv zeta in He |- *. destruct (encode_streams _ _ _ _ _ _ _) as [ws|e| |]; [|apply Hfail|done|done]. cbn in He.
  destruct (de_fopen env) as [f|] eqn:Ef; [|apply Hfail].
  pose proof He as [_ [Eo Mo] [Ed Md] [El Ml]]. rewrite Eo, Ed, El.
  pose proof (write_output_spec f (file (op_writer ws)) (file (diff_writer ws)) (file (lit_writer ws)) dbs
    (opt_block_size_log2 (dc_opts ctx)) (zlen (f_data (file (op_writer ws)))) (zlen (f_data (file (diff_writer ws))))
    (zlen (f_data (file (lit_writer ws)))) ltac:(lia) ltac:(lia) ltac:(lia)) as Hw.
  destruct (write_output _ _ _ _ _ _ _ _ _) as [[[]|e| |] output]; [|split; [done|by left]|done|done].
  rewrite (Hout f eq_refl) in Hw. cbn [app] in Hw. destruct Hw as [Hw Hclose]. exists dbs, t, ws, output.
  constructor; try done; [|unfold file_left; by rewrite Hclose].
  cbn [df_ctx]. do 2 f_equal. rewrite Hw, !zlen_app, zlen_header_buf.
  unfold FSD_HEADER_SIZE in *. rewrite wrap_small; [lia|].
  pose proof (zlen_nonneg (f_data (file (op_writer ws)))). pose proof (zlen_nonneg (f_data (file (diff_writer ws)))).
  pose proof (zlen_nonneg (f_data (file (lit_writer ws)))). lia.
Qed.

Lemma block_size_pow : u64 (Z.shiftl 1 (opt_block_size_log2 (dc_opts ctx))) = ctx_block_size ctx.
Proof.
  destruct Hctx. unfold ctx_block_size. rewrite Z.shiftl_mul_pow2, Z.mul_1_l by lia. apply wrap_small.
  split; [apply Z.pow_nonneg; lia|]. apply Z.pow_lt_mono_r; lia.
Qed.

Lemma ctx_block_size_range : 32 ≤ ctx_block_size ctx ≤ 2 ^ 24.
Proof.
  destruct Hctx. unfold ctx_block_size. split; [apply (Z.pow_le_mono_r 2 5)|apply Z.pow_le_mono_r]; lia.
Qed.

(** ** Up to the patch *)

Abbreviation bs := (ctx_block_size ctx).
Abbreviation dbs := (zlen dest / bs).

Lemma diff_images r : reader_ok r → reader_contents r = src → dbs ≠ 0 → zlen dest mod bs = 0 → images bs dbs src dest.
Proof.
  intros Hr Hrc Hne Hmod. pose proof ctx_block_size_range as Hbs. destruct Henv as [_ _ _ _ Hbytes Hblocks _ _ _ _].
  pose proof (Z.div_pos (zlen dest) bs (zlen_nonneg _) ltac:(lia)). pose proof (Z.div_mod (zlen dest) bs ltac:(lia)).
  split; [done|lia|lia|done| |rewrite <- Hrc; apply (rk_bytes _ Hr)].
  rewrite <- Hrc, <- (rk_size _ Hr). apply (rk_max _ Hr).
Qed.

(** The match log never stops a diff. *)
Lemma log_defined t (g : fsd_simd_dispatch_t) :
  tracker_sound bs dbs src dest t → offsets_ok bs t → simd_ok g →
  ∃ log, match de_match_log env with
         | Some log => fsd_write_match_log g log t src (zlen src) dest bs
         | None => Ok None
         end = Ok log.
Proof.
  intros Hs Ho Hg. destruct (de_match_log env) as [f|]; [|by exists None].
  destruct (write_match_log_spec Hs Ho Hg f) as (log & -> & _). by exists log.
Qed.

(** The dispatch table of the run, and the controller as it is run. *)
Abbreviation run_simd := (if opt_force_scalar (dc_opts ctx) then fsd_simd_force_scalar else de_simd env).
Abbreviation run_cancel := (fun at_ => dc_cancelled ctx || de_cancel env at_).
Abbreviation run_controller c := (prepared c (sc_cancelled c) (Some run_cancel) (if dc_progress_cb ctx then true else sc_progress_cb c)).

(** The run of the stages with errors in [E]. *)
Definition stages_ok (E : fsd_error_t → Prop) (c : fsd_stage_controller A) : Prop :=
  run_ok E (run_controller c)
    (finished (bs := bs) (dbs := dbs) (src := src) (dest := dest) (run_controller c))
    (run_stages run_simd (de_malloc env) (de_memory env) src dest (zlen src) (zlen dest) (run_controller c)).

Lemma run_simd_ok : simd_ok run_simd.
Proof. destruct Henv. case_match; [apply scalar_ok|done]. Qed.

(** The images of a diff whose controller could be made. *)
Lemma created_images r c :
  de_source env = Ok r → zlen dest mod bs = 0 →
  fsd_stage_controller_create (de_malloc env) (de_memory env) (Some (dc_opts ctx)) (zlen src / bs) dbs = Ok c →
  images bs dbs src dest.
Proof.
  intros Es Hmod Ec. pose proof Henv as [_ Hmem Hsrc _ _ _ _ _ _ _]. rewrite Es in Hsrc. destruct Hsrc as [Hr Hrc].
  pose proof (controller_create_returns (de_malloc env) (de_memory env) (Some (dc_opts ctx)) (zlen src / bs) dbs Hmem
    ltac:(destruct Hctx; cbn; lia)) as Hcr. rewrite Ec in Hcr. by apply (diff_images r).
Qed.

Lemma stages_ok_oom r c :
  de_source env = Ok r → zlen dest mod bs = 0 →
  fsd_stage_controller_create (de_malloc env) (de_memory env) (Some (dc_opts ctx)) (zlen src / bs) dbs = Ok c →
  stages_ok oom c.
Proof.
  intros Es Hmod Ec. pose proof (created_images r c Es Hmod Ec) as Him. pose proof Henv as [_ Hmem _ _ _ _ _ _ _ _].
  assert (Hob : opts_block_size (Some (dc_opts ctx)) = bs) by apply block_size_pow.
  pose proof (prepared_run_spec run_simd (de_malloc env) (de_memory env) (Some (dc_opts ctx)) dbs src dest c (sc_cancelled c)
    (Some run_cancel) (if dc_progress_cb ctx then true else sc_progress_cb c) run_simd_ok) as Hrun.
  rewrite Hob in Hrun. exact (Hrun Him (cx_radius _ Hctx) Hmem Ec).
Qed.

(** With the images open and a controller made, only what stops the stages keeps a
    diff from writing its patch. *)
Lemma diff_run_spec E r p r' c :
  de_source env = Ok r → de_dest env = Ok (Some dest) →
  fsd_source_reader_data (de_malloc env) r = (Ok (Some p), r') → zlen dest mod bs = 0 →
  fsd_stage_controller_create (de_malloc env) (de_memory env) (Some (dc_opts ctx)) (zlen src / bs) dbs = Ok c →
  stages_ok E c →
  (∃ t reports log, tracker_sound bs dbs src dest t ∧
     identity_count t + relocate_count t + partial_count t + zero_count t + one_count t + literal_count t = dbs ∧
     fsd_diff_files env ctx = emit_patch env ctx bs dbs t dest reports log) ∨
  (∃ e reports, fsd_diff_files env ctx =
       mkDiffResult (Err e) (match e with FSD_ERR_CANCELLED => set_cancelled false ctx | _ => ctx end) None false reports None ∧
     (E e ∨ e = FSD_ERR_CANCELLED ∧ ∃ at_, dc_cancelled ctx || de_cancel env at_ = true)).
Proof.
  intros Es Ed Ep Hmod Ec Hrun. unfold stages_ok in Hrun.
  pose proof Henv as [_ _ Hsrc _ _ _ _ _ _ _]. rewrite Es in Hsrc. destruct Hsrc as [Hr Hrc].
  pose proof (source_data_spec (de_malloc env) r Hr) as Hsd. rewrite Ep in Hsd. destruct Hsd as (Hp & Hr' & Hrc').
  assert (Hsz : fsd_source_reader_size r' = zlen src) by (unfold fsd_source_reader_size; rewrite (rk_size _ Hr'); congruence).
  assert (Hss : fsd_source_reader_size r = zlen src) by (unfold fsd_source_reader_size; rewrite (rk_size _ Hr); congruence).
  rewrite Hss, Hrc in Hp. cbn [default from_option id] in Hp.
  unfold fsd_diff_files. rewrite Es, Ed, Ep, block_size_pow, Hsz. cbv zeta. change (default [] (Some dest)) with dest.
  rewrite Hmod, Z.eqb_refl. cbn [negb]. rewrite Ec.
  set (c1 := if dc_progress_cb ctx then _ else _).
  assert (Hc1 : c1 = run_controller c) by (subst c1; by destruct (dc_progress_cb ctx)).
  rewrite Hc1. clear c1 Hc1. cbn [fmap option_fmap option_map fsd_stage_controller_run].
  change (default [] (Some p)) with p. rewrite Hp.
  destruct (controller_create_flags _ _ _ _ _ _ Ec) as (Hown & _).
  destruct (run_stages _ _ _ _ _ _ _ _) as [[u|e| |] c2]; [left|right|done|done].
  - destruct Hrun as [Hs Ho _ Ha _ _ _].
    destruct (log_defined (sc_tracker c2) run_simd Hs Ho run_simd_ok) as [log Hl].
    exists (sc_tracker c2), (sc_reports c2), log. split_and!; [done|done|].
    unfold fsd_stage_controller_get_tracker. by rewrite Hl.
  - exists e, (sc_reports c2). split; [done|]. destruct Hrun as [He|[-> [at_ Hat]]]; [by left|right]. split; [done|].
    exists at_. unfold controller_cancelled in Hat. cbn in Hat. by rewrite Hown in Hat.
Qed.

(** ** The whole diff *)

Lemma diff_files_spec : diff_ok env ctx src dest (fsd_diff_files env ctx).
Proof.
  pose proof Henv as [_ Hmem Hsrc Hdest _ _ _ _ _ _].
  assert (Hfail : ∀ e, diff_ok env ctx src dest (mkDiffResult (Err e) ctx None false [] None)) by (split; [done|by left]).
  destruct (de_source env) as [r|e| |] eqn:Es; [|unfold fsd_diff_files; rewrite Es; apply Hfail|done|done].
  destruct Hsrc as [Hr Hrc].
  destruct (de_dest env) as [d|e| |] eqn:Ed; [|unfold fsd_diff_files; rewrite Es, Ed; apply Hfail|done|done].
  cbn in Hdest. pose proof (source_data_spec (de_malloc env) r Hr) as Hsd.
  destruct (fsd_source_reader_data (de_malloc env) r) as [[p|e| |] r'] eqn:Ep;
    [|unfold fsd_diff_files; rewrite Es, Ed, Ep; apply Hfail|done|done].
  destruct Hsd as (_ & Hr' & Hrc').
  assert (Hsz : fsd_source_reader_size r' = zlen src) by (unfold fsd_source_reader_size; rewrite (rk_size _ Hr'); congruence).
  pose proof (controller_create_returns (de_malloc env) (de_memory env) (Some (dc_opts ctx)) (zlen src / bs) dbs Hmem
    ltac:(destruct Hctx; cbn; lia)) as Hcr.
  destruct (decide (zlen dest mod bs = 0)) as [Hmod|Hmod].
  2:{ unfold fsd_diff_files. rewrite Es, Ed, Ep, block_size_pow, Hdest. cbv zeta. apply Z.eqb_neq in Hmod.
      rewrite Hmod. apply Hfail. }
  destruct (fsd_stage_controller_create _ _ _ _ _) as [c|e| |] eqn:Ec; [| |done|done].
  2:{ unfold fsd_diff_files. rewrite Es, Ed, Ep, block_size_pow, Hdest, Hsz, Hmod. cbv zeta. rewrite Z.eqb_refl, Ec. apply Hfail. }
  destruct p as [p|]; [destruct d as [d|]|].
  2,3: unfold fsd_diff_files; rewrite Es, Ed, Ep, block_size_pow, Hdest, Hsz, Hmod; cbv zeta; rewrite Z.eqb_refl, Ec; apply Hfail.
  cbn in Hdest. subst d.
  destruct (diff_run_spec oom r p r' c Es Ed Ep Hmod Ec (stages_ok_oom r c Es Hmod Ec)) as [(t & reports & log & Hts & Hacc & ->)|(e & reports & -> & Hcause)].
  - by apply emit_patch_spec.
  - split; [done|]. cbn [df_ctx df_output]. destruct Hcause as [->|[-> Hc]]; [by left|right]. by split_and!.
Qed.

End Spec.

Section Applies.
Context {A : Type} {AL : Allocator A} {ALS : AllocatorSpec A} {ALL : AllocatorLaws A}.

(** The patch of a successful diff applies. *)
Lemma diff_applies {R} `{SRL : SourceReaderLaws R} ctx (env : diff_env A) src dest (r : R) out reg malloc_ok hp :
  ctx_ok ctx → diff_env_ok (ctx_block_size ctx) src dest env → df_status (fsd_diff_files env ctx) = Ok tt →
  sr_ok r → sr_contents r = src → sr_reliable r →
  f_data out = [] → zlen dest ≤ f_room out ≤ 2 ^ 62 → malloc_ok (ctx_block_size ctx) = true →
  ∃ patch, df_output (fsd_diff_files env ctx) = Some patch ∧ file_left patch = Some (f_data patch) ∧
    df_unlinked (fsd_diff_files env ctx) = false ∧
    let applied := fsd_patch_apply (mkEnv (Ok r) (Ok (Some (f_data patch))) reg (Some out) malloc_ok hp) in
    pr_status applied = Ok tt ∧ f_data <$> pr_output applied = Some dest ∧
    pr_file applied = (if fclose out then Some dest else None) ∧ pr_unlinked applied = false.
Proof.
  intros Hctx Henv Hok Hr Hrc Hrel Hout Hroom Hmal. pose proof (diff_files_spec ctx Hctx env src dest Henv) as Hd.
  unfold diff_ok in Hd. rewrite Hok in Hd. destruct Hd as (dbs & t & ws & patch & [Hts _ Henc Hpo Hk Hpd _ Hleft]).
  exists patch. split; [done|]. split; [done|]. split; [done|]. cbv zeta.
  destruct Henc as [(m & encoder & ws0 & enc & ws1 & Hbs & Hfr & He & Vo & Vd & Vl) _ _ _].
  pose proof (ts_size _ _ _ _ _ Hts). pose proof (ts_max _ _ _ _ _ Hts). pose proof (ts_dest _ _ _ _ _ Hts).
  assert (Hmax : dbs * ctx_block_size ctx ≤ 2 ^ 62) by nia.
  pose proof (encode_spec (R := R) _ dbs hp src dest t m encoder ws0 Hts Hmax Hbs Hfr) as Hs. rewrite He in Hs.
  destruct Hs as (_ & _ & _ & _ & Hall & Bo & Bd & Bl & Zo & Zd & _). rewrite <- Vo, <- Vd, <- Vl in *. rewrite Hpd.
  eapply (patch_applies (ctx_block_size ctx)); try eassumption; [apply (cx_block_size _ Hctx)|done|lia].
Qed.

(** The file of a successful diff, with the streams its header locates. *)
Lemma diff_output_streams ctx (env : diff_env A) src dest :
  ctx_ok ctx → diff_env_ok (ctx_block_size ctx) src dest env → df_status (fsd_diff_files env ctx) = Ok tt →
  ∃ patch dbs ops diffs lits,
    df_output (fsd_diff_files env ctx) = Some patch ∧ dbs * ctx_block_size ctx = zlen dest ∧ zlen dest ≤ 2 ^ 62 ∧
    f_data patch = header_buf dbs (opt_block_size_log2 (dc_opts ctx)) (zlen ops) (zlen diffs) ++ ops ++ diffs ++ lits ∧
    bytes_ok (ops ++ diffs ++ lits) ∧ 0 ≤ dbs ∧
    zlen ops ≤ 13 * dbs ∧ zlen diffs ≤ 2 * zlen dest ∧ zlen lits ≤ zlen dest.
Proof.
  intros Hctx Henv Hok. pose proof (diff_files_spec ctx Hctx env src dest Henv) as Hd.
  unfold diff_ok in Hd. rewrite Hok in Hd. destruct Hd as (dbs & t & ws & patch & [Hts _ Henc Hpo _ Hpd _ _]).
  destruct Henc as [(m & encoder & ws0 & enc & ws1 & Hbs & Hfr & He & Vo & Vd & Vl) _ _ _].
  pose proof (ts_size _ _ _ _ _ Hts). pose proof (ts_max _ _ _ _ _ Hts). pose proof (ts_dest _ _ _ _ _ Hts) as Hdest.
  assert (Hmax : dbs * ctx_block_size ctx ≤ 2 ^ 62) by nia.
  pose proof (encode_spec (R := fsd_source_reader) _ dbs false src dest t m encoder ws0 Hts Hmax Hbs Hfr) as Hs.
  rewrite He in Hs. destruct Hs as (_ & _ & _ & _ & _ & Bo & Bd & Bl & Zo & Zd & Zl & _). rewrite <- Vo, <- Vd, <- Vl in *.
  exists patch, dbs, (f_data (file (op_writer ws))), (f_data (file (diff_writer ws))), (f_data (file (lit_writer ws))).
  split_and!; try done; try lia; [by rewrite !bytes_ok_app|by apply (dbs_nonneg _ _ _ _ _ Hts)].
Qed.

(** Its header, found by the patcher and by fsd_patch_read_header. *)
Lemma diff_output_header ctx (env : diff_env A) src dest :
  ctx_ok ctx → diff_env_ok (ctx_block_size ctx) src dest env → df_status (fsd_diff_files env ctx) = Ok tt →
  ∃ patch dbs ops diffs lits,
    let header := header_of dbs (opt_block_size_log2 (dc_opts ctx)) (zlen ops) (zlen diffs) in
    df_output (fsd_diff_files env ctx) = Some patch ∧ bytes_ok (f_data patch) ∧
    open_streams (Some (f_data patch)) = Ok (header, ctx_block_size ctx, ops, diffs, lits) ∧
    fsd_patch_read_header (Some (file_of (f_data patch))) = Ok header ∧
    dbs * ctx_block_size ctx = zlen dest ∧ 0 ≤ dbs ∧ zlen dest ≤ 2 ^ 62 ∧
    zlen (f_data patch) = FSD_HEADER_SIZE + zlen ops + zlen diffs + zlen lits ∧
    zlen ops ≤ 13 * dbs ∧ zlen diffs ≤ 2 * zlen dest ∧ zlen lits ≤ zlen dest.
Proof.
  intros Hctx Henv Hok.
  destruct (diff_output_streams ctx env src dest Hctx Henv Hok) as (patch & dbs & o & d & l & Hp & Hdest & Hmax & Hdata & Hb & H0 & Ho & Hd & Hl).
  pose proof (cx_block_size _ Hctx) as Hlg. pose proof (ctx_block_size_range ctx Hctx) as Hbs.
  assert (Hdbs : dbs ≤ zlen dest) by nia.
  set (lg := opt_block_size_log2 (dc_opts ctx)) in *.
  pose proof (open_streams_file dbs lg (ctx_block_size ctx) o d l Hlg eq_refl H0 ltac:(lia) Hb ltac:(lia) ltac:(lia)) as Hs.
  rewrite <- Hdata in Hs. exists patch, dbs, o, d, l.
  assert (Hok2 : bytes_ok (f_data patch)).
  { rewrite Hdata, bytes_ok_app. split; [|done]. apply header_buf_ok. unfold is_byte. lia. }
  split_and!; try done; [|rewrite Hdata, !zlen_app, zlen_header_buf; lia].
  change (fsd_patch_read_header ?f) with (fst (fsd_header_read f)). apply (header_read_file _ _ Hok2).
  rewrite Hdata. pose proof (zlen_nonneg o). pose proof (zlen_nonneg d).
  apply header_read_buf; try done; unfold u64_ok; try lia.
  rewrite zlen_app, zlen_header_buf. pose proof (zlen_nonneg (o ++ d ++ l)). lia.
Qed.

End Applies.

(** * Properties *)

Section Theorems.
Context {A : Type} {AL : Allocator A} {ALS : AllocatorSpec A} {ALL : AllocatorLaws A}.

(** C1: the whole program: when a diff of two images succeeds, with any options
    and whatever the surroundings did, it left a complete file, and that file,
    applied by the patcher to any reader of the source image, recreates the
    destination image byte for byte; it is in the output file when fclose does not
    fail. *)
Theorem diff_patch_roundtrip {R} `{SRL : SourceReaderLaws R} ctx (env : diff_env A) src dest (r : R) out reg malloc_ok hp :
  ctx_ok ctx → diff_env_ok (ctx_block_size ctx) src dest env → df_status (fsd_diff_files env ctx) = Ok tt →
  sr_ok r → sr_contents r = src → sr_reliable r →
  f_data out = [] → zlen dest ≤ f_room out ≤ 2 ^ 62 → malloc_ok (ctx_block_size ctx) = true →
  ∃ patch, df_output (fsd_diff_files env ctx) = Some patch ∧ file_left patch = Some (f_data patch) ∧
    df_unlinked (fsd_diff_files env ctx) = false ∧
    let applied := fsd_patch_apply (mkEnv (Ok r) (Ok (Some (f_data patch))) reg (Some out) malloc_ok hp) in
    pr_status applied = Ok tt ∧ f_data <$> pr_output applied = Some dest ∧
    pr_file applied = (if fclose out then Some dest else None) ∧ pr_unlinked applied = false.
Proof.
  intros. eapply diff_applies; eassumption.
Qed.

(** C3: the file a successful diff leaves is a well-formed patch: it holds bytes,
    its header can be read and carries the block size of the options and the number
    of blocks of the destination, so that fsd_patch_output_size announces the size
    of the destination; the three streams lie behind it one after the other, and
    they are small: 13 bytes of operations a block, twice the destination for the
    differences, the destination for the literals. *)
Theorem diff_output_wellformed ctx (env : diff_env A) src dest :
  ctx_ok ctx → diff_env_ok (ctx_block_size ctx) src dest env → df_status (fsd_diff_files env ctx) = Ok tt →
  ∃ patch header ops diffs lits,
    df_output (fsd_diff_files env ctx) = Some patch ∧ bytes_ok (f_data patch) ∧
    open_streams (Some (f_data patch)) = Ok (header, ctx_block_size ctx, ops, diffs, lits) ∧
    block_size_log2 header = opt_block_size_log2 (dc_opts ctx) ∧
    Header.dest_blocks header * ctx_block_size ctx = zlen dest ∧
    fsd_patch_output_size (Some (file_of (f_data patch))) = Ok (zlen dest) ∧
    zlen (f_data patch) = FSD_HEADER_SIZE + zlen ops + zlen diffs + zlen lits ∧
    zlen ops ≤ 13 * Header.dest_blocks header ∧ zlen diffs ≤ 2 * zlen dest ∧ zlen lits ≤ zlen dest.
Proof.
  intros Hctx Henv Hok.
  destruct (diff_output_header ctx env src dest Hctx Henv Hok)
    as (patch & dbs & o & d & l & Hp & Hb & Hs & Hh & Hdest & H0 & Hmax & Hlen & Hsizes).
  exists patch. eexists. exists o, d, l. split_and!; [done|done|exact Hs|done|done| |done|apply Hsizes..].
  pose proof (cx_block_size _ Hctx) as Hlg. pose proof (ctx_block_size_range ctx Hctx) as Hbs. unfold ctx_block_size in *.
  unfold fsd_patch_output_size. rewrite Hh. cbn [mbind outcome_bind header_of block_size_log2 Header.dest_blocks].
  rewrite Z.shiftl_mul_pow2, Z.mul_1_l by lia. set (bs := 2 ^ _) in *.
  assert (dbs ≤ UINT64_MAX / bs) by (apply Z.div_le_lower_bound; unfold UINT64_MAX; lia).
  destruct (Z.ltb_spec (UINT64_MAX / bs) dbs); [lia|]. rewrite Hdest, wrap_small; [done|]. pose proof (zlen_nonneg dest). lia.
Qed.

(** C7: a diff never reaches undefined behaviour, whatever the images hold and
    whichever call of the surroundings fails; and a diff that fails leaves nothing
    behind: an output file that it created is removed unless it is a special
    file, the statistics are those of before, and the context is unchanged but for
    a cancel request that was honoured, which is cleared. *)
Theorem diff_fails_clean ctx (env : diff_env A) src dest :
  ctx_ok ctx → diff_env_ok (ctx_block_size ctx) src dest env →
  let r := fsd_diff_files env ctx in
  defined (df_status r) ∧
  ∀ e, df_status r = Err e →
    (df_unlinked r = match df_output r with Some _ => de_output_regular env | None => false end) ∧
    fsd_diff_get_stats (df_ctx r) = fsd_diff_get_stats ctx ∧
    (df_ctx r = ctx ∨
     e = FSD_ERR_CANCELLED ∧ df_output r = None ∧ df_ctx r = set_cancelled false ctx ∧
     ∃ at_, dc_cancelled ctx || de_cancel env at_ = true).
Proof.
  intros Hctx Henv. cbv zeta. pose proof (diff_files_spec ctx Hctx env src dest Henv) as Hd. unfold diff_ok in Hd.
  destruct (df_status (fsd_diff_files env ctx)) as [u|e| |]; [done| |done|done]. split; [done|].
  intros ? [= <-]. destruct Hd as [Hu Hc]. split; [done|]. split; [|done].
  by destruct Hc as [->|(_ & _ & -> & _)].
Qed.

(** C27: the statistics of a successful diff describe its result: the blocks of
    the six kinds add up to the total, the total covers the destination exactly,
    and the patch size is the length of the file written. *)
Theorem diff_stats_describe ctx (env : diff_env A) src dest :
  ctx_ok ctx → diff_env_ok (ctx_block_size ctx) src dest env → df_status (fsd_diff_files env ctx) = Ok tt →
  let s := fsd_diff_get_stats (df_ctx (fsd_diff_files env ctx)) in
  identity_matches s + relocate_matches s + partial_matches s + zero_blocks s + one_blocks s + literal_blocks s =
    total_blocks s ∧
  total_blocks s * ctx_block_size ctx = zlen dest ∧
  (zlen ∘ f_data <$> df_output (fsd_diff_files env ctx)) = Some (patch_size s).
Proof.
  intros Hctx Henv Hok. pose proof (diff_files_spec ctx Hctx env src dest Henv) as Hd.
  unfold diff_ok in Hd. rewrite Hok in Hd. destruct Hd as (dbs & t & ws & patch & [Hts Ha _ Hpo _ _ Hst]).
  cbv zeta. rewrite Hst, Hpo. cbn. split_and!; [done|symmetry; apply (ts_dest _ _ _ _ _ Hts)|done].
Qed.

End Theorems.

(** ** The small images *)

Definition demo_ctx : fsd_diff_ctx := mkCtx demo_options (mkStats 0 0 0 0 0 0 0 0) true false.

Definition demo_reader : fsd_source_reader := mkReader FSD_BACKEND_MMAP 64 (Some demo_src) no_device 0 [] 0 0 0 None.

Definition demo_diff_env : diff_env bump :=
  mkDiffEnv (fun _ => true) demo_memory setup_scalar_dispatch (Ok demo_reader) (Ok (Some demo_dest)) (fun _ => false) (Some (Some (file_new 1000)))
    (Temp (file_new 1000)) (Temp (file_new 1000)) (Temp (file_new 1000)) true (Some (file_new 1000)).

Lemma demo_ctx_ok : ctx_ok demo_ctx.
Proof. split; cbn; lia. Qed.

Lemma demo_diff_env_ok : diff_env_ok (ctx_block_size demo_ctx) demo_src demo_dest demo_diff_env.
Proof.
  assert (Ht : temp_ok (Temp (file_new 1000))) by (split; intros f [= <-]; cbn; lia || done).
  constructor; try exact Ht.
  - exact scalar_ok.
  - exact demo_memory_ok.
  - split; [exact demo_source_ok|done].
  - reflexivity.
  - exact (im_dest_ok _ _ _ _ demo_images).
  - vm_compute. reflexivity.
  - intros f [= <-]. reflexivity.
Qed.

Lemma demo_diff_ok : df_status (fsd_diff_files demo_diff_env demo_ctx) = Ok tt.
Proof. vm_compute. reflexivity. Qed.

(** Comparing terms of the examples unfolds these last. *)
Local Strategy 100 [fsd_diff_files fsd_patch_apply].

Lemma diff_output_wellformed_witness :
  ∃ patch header ops diffs lits,
    df_output (fsd_diff_files demo_diff_env demo_ctx) = Some patch ∧ bytes_ok (f_data patch) ∧
    open_streams (Some (f_data patch)) = Ok (header, ctx_block_size demo_ctx, ops, diffs, lits) ∧
    block_size_log2 header = 5 ∧
    Header.dest_blocks header * ctx_block_size demo_ctx = zlen demo_dest ∧
    fsd_patch_output_size (Some (file_of (f_data patch))) = Ok (zlen demo_dest) ∧
    zlen (f_data patch) = FSD_HEADER_SIZE + zlen ops + zlen diffs + zlen lits ∧
    zlen ops ≤ 13 * Header.dest_blocks header ∧ zlen diffs ≤ 2 * zlen demo_dest ∧ zlen lits ≤ zlen demo_dest.
Proof.
  exact (diff_output_wellformed demo_ctx demo_diff_env demo_src demo_dest demo_ctx_ok demo_diff_env_ok demo_diff_ok).
Defined.

Lemma diff_patch_roundtrip_witness :
  ∃ patch, df_output (fsd_diff_files demo_diff_env demo_ctx) = Some patch ∧
    let applied := fsd_patch_apply
      (mkEnv (Ok demo_reader) (Ok (Some (f_data patch))) true (Some (file_new 1000)) (fun _ => true) false) in
    f_data <$> pr_output applied = Some demo_dest.
Proof.
  destruct (diff_patch_roundtrip demo_ctx demo_diff_env demo_src demo_dest demo_reader (file_new 1000) true (fun _ => true) false
    demo_ctx_ok demo_diff_env_ok demo_diff_ok demo_source_ok) as (patch & H1 & _ & _ & _ & H2 & _).
  - reflexivity.
  - done.
  - reflexivity.
  - vm_compute. split; discriminate.
  - reflexivity.
  - exists patch. exact (conj H1 H2).
Defined.

(** A full output device: the diff fails, the partial patch is removed. *)
Definition full_env : diff_env bump :=
  mkDiffEnv (fun _ => true) demo_memory setup_scalar_dispatch (Ok demo_reader) (Ok (Some demo_dest)) (fun _ => false) (Some (Some (file_new 1000)))
    (Temp (file_new 1000)) (Temp (file_new 1000)) (Temp (file_new 1000)) true (Some (file_new 40)).

Lemma full_env_ok : diff_env_ok (ctx_block_size demo_ctx) demo_src demo_dest full_env.
Proof. destruct demo_diff_env_ok. constructor; try assumption. intros f [= <-]. reflexivity. Qed.

Lemma diff_fails_clean_witness :
  df_status (fsd_diff_files full_env demo_ctx) = Err FSD_ERR_IO ∧
  is_Some (df_output (fsd_diff_files full_env demo_ctx)) ∧
  fsd_diff_get_stats (df_ctx (fsd_diff_files full_env demo_ctx)) = mkStats 0 0 0 0 0 0 0 0.
Proof.
  assert (H : df_status (fsd_diff_files full_env demo_ctx) = Err FSD_ERR_IO) by (vm_compute; reflexivity).
  split; [exact H|]. split; [vm_compute; eexists; reflexivity|].
  exact (proj1 (proj2 (proj2 (diff_fails_clean demo_ctx full_env demo_src demo_dest demo_ctx_ok full_env_ok) _ H))).
Defined.

Lemma diff_stats_describe_witness :
  let s := fsd_diff_get_stats (df_ctx (fsd_diff_files demo_diff_env demo_ctx)) in
  total_blocks s = 3 ∧ total_blocks s * ctx_block_size demo_ctx = zlen demo_dest.
Proof.
  cbv zeta. split; [vm_compute; reflexivity|].
  exact (proj1 (proj2 (diff_stats_describe demo_ctx demo_diff_env demo_src demo_dest demo_ctx_ok demo_diff_env_ok demo_diff_ok))).
Defined.
