(* ===== verification/Delivery.v ===== *)
(** What a success says of the output file (src/diff.c, src/patch.c).

    Both programs write their output through stdio and close it at the end.
    fsd_diff_files takes a failing fclose for an error, as its comment explains;
    fsd_patch_apply does not look.  Shown here: after a diff that succeeds the file
    is complete; what the patcher reports does not depend on fclose at all, so that
    it also reports success, and removes nothing, when the close fails and the end of
    the image is lost. *)

From stdpp Require Import base list numbers tactics.
From Stdlib Require Import ZArith Lia.
From S2P Require Import Prelude Stdio Header Writer MemoryPool Tracker Source Patch PatchSafety PatchClose.
From S2P Require Import Encoder StageController EndToEnd Diff.
Open Scope Z_scope.

(** * A diff that succeeds *)

Lemma write_output_closed output op diff lit dbs lg ops diffs lits u output' :
  write_output output op diff lit dbs lg ops diffs lits = (Ok u, output') → fclose output' = true.
Proof.
  unfold write_output. destruct (fsd_header_write _ _ _ _ _) as [e o].
  match goal with |- match ?m with _ => _ end = _ → _ => destruct m as [[[]|e'| |] f] end; [|done..].
  destruct (fclose f) eqn:Hf; [|done]. by intros [= _ <-].
Qed.

Section Closed.
Context {A : Type} {AL : Allocator A}.
Implicit Types env : diff_env A.

Definition complete_output (r : diff_result) : Prop :=
  df_status r = Ok tt → ∃ f, df_output r = Some f ∧ file_left f = Some (f_data f).

Lemma emit_patch_complete env ctx bs dbs t dest reports log :
  complete_output (emit_patch env ctx bs dbs t dest reports log).
Proof.
  unfold emit_patch. destruct (_ || _ || _); [done|].
  destruct (de_op_temp env) as [| |op], (de_diff_temp env) as [| |diff], (de_lit_temp env) as [| |lit]; try done.
  cbv zeta. destruct (encode_streams _ _ _ _ _ _ _) as [ws|e| |]; [|done..].
  destruct (de_fopen env) as [output|]; [|done].
  destruct (write_output _ _ _ _ _ _ _ _ _) as [[[]|e| |] f] eqn:Hw; [|done..].
  apply write_output_closed in Hw. intros _. exists f. split; [done|]. unfold file_left. by rewrite Hw.
Qed.

Lemma diff_files_complete env ctx : complete_output (fsd_diff_files env ctx).
Proof.
  unfold fsd_diff_files. cbv zeta. destruct (de_source env) as [r|e| |]; [|done..].
  destruct (de_dest env) as [d|e| |]; [|done..].
  destruct (fsd_source_reader_data _ r) as [[p|e| |] r']; [|done..]. destruct (negb _); [done|].
  destruct (fsd_stage_controller_create _ _ _ _ _) as [c|e| |]; [|done..].
  destruct (fsd_stage_controller_run _ _ _ _ _ _ _ _) as [[[]|e| |] c']; [|done..].
  match goal with |- complete_output (match ?m with _ => _ end) => destruct m as [log|e| |] end; [|done..].
  apply emit_patch_complete.
Qed.

End Closed.

(** * Properties *)

(** C8: what success means for the output file: a diff that returns FSD_SUCCESS has
    closed its output without an error, so that the file holds the whole patch; the
    patcher returns the same code, reports the same progress, has written the same
    bytes and removes the output in the same cases whether fclose fails or not, so
    that a success of the patcher says nothing about the file when it does. *)
Theorem success_and_fclose {A R} `{Allocator A} `{SourceReader R} (env : diff_env A) ctx (penv : patch_env R) :
  (df_status (fsd_diff_files env ctx) = Ok tt →
   ∃ f, df_output (fsd_diff_files env ctx) = Some f ∧ file_left f = Some (f_data f)) ∧
  let failing := fsd_patch_apply (env_closing false penv) in
  let other := fsd_patch_apply penv in
  pr_status failing = pr_status other ∧ pr_progress failing = pr_progress other ∧
  pr_unlinked failing = pr_unlinked other ∧ f_data <$> pr_output failing = f_data <$> pr_output other ∧
  pr_file failing = None.
Proof.
  split; [apply diff_files_complete|]. cbv zeta. rewrite patch_apply_closing.
  destruct (fsd_patch_apply penv) as [status [f|] unlinked reports]; done.
Qed.

(** What the patcher leaves when it fails: nothing was created, or the output was
    removed unless it is a special file, or, when there is no memory for the block
    buffer, the output stays behind as it was opened. *)
Theorem patch_failure_leaves {R} `{SourceReader R} (penv : patch_env R) e :
  pr_status (fsd_patch_apply penv) = Err e →
  let r := fsd_patch_apply penv in
  pr_output r = None ∨
  (is_Some (pr_output r) ∧ pr_unlinked r = pe_output_regular penv) ∨
  (e = FSD_ERR_OUT_OF_MEMORY ∧ pr_output r = pe_fopen penv ∧ pr_unlinked r = false).
Proof.
  unfold fsd_patch_apply. destruct (pe_source penv) as [r|e1| |]; [|by left..].
  destruct (pe_patch penv) as [d|e1| |]; [|by left..].
  destruct (open_streams d) as [[[[[h bs] ops] diffs] lits]|e1| |]; [|by left..].
  destruct (pe_fopen penv) as [out|]; [|by left].
  destruct (negb _); [intros [= <-]; right; by right|].
  destruct (apply_ops _ _ _ _) as [[u|e1| |] s]; cbn; [done|right; left; split; [by eexists|done]|done..].
Qed.

(** A patch that applies, to an output whose last buffer does not reach the disk. *)
Definition full_disk_env : patch_env fsd_source_reader := env_closing false demo_env.

Lemma success_and_fclose_witness :
  (∃ f, df_output (fsd_diff_files demo_diff_env demo_ctx) = Some f ∧ file_left f = Some (f_data f)) ∧
  pr_status (fsd_patch_apply full_disk_env) = Ok tt ∧ pr_unlinked (fsd_patch_apply full_disk_env) = false ∧
  pr_file (fsd_patch_apply full_disk_env) = None.
Proof.
  destruct (success_and_fclose demo_diff_env demo_ctx demo_env) as (Hd & Hs & _ & Hu & _ & Hf).
  split; [exact (Hd demo_diff_ok)|]. unfold full_disk_env. rewrite Hs, Hu.
  split_and!; [vm_compute; reflexivity|vm_compute; reflexivity|exact Hf].
Defined.
