(* ===== verification/Resources.v ===== *)
(** What the stage controller, the patcher and the diff acquire and release.

    The functions of stage_controller.c, patch.c and diff.c with their resources,
    in the style of Ledger.v: for each function of the other files the same
    function again, with the acquisitions and releases of the source, and the
    result it is shown to share.  A source reader, a mapped file, a memory pool and
    a whole controller are one resource for their user.  The paths of the temporary
    files count as resources, because they have to be removed.

    Shown here: creating a controller fails holding nothing or succeeds holding what
    destroying it releases; the patcher releases everything on every path; and so
    does the diff, but for a temporary stream whose writer could not be allocated,
    which stays open.  The statement about the diff is exact: that is the only leak. *)

From stdpp Require Import base list numbers tactics.
From Stdlib Require Import ZArith Lia.
From S2P Require Import Prelude Stdio Header Writer MemoryPool Simd Tracker Source Ledger Patch Matches StageIdentity.
From S2P Require Import StageRelocation StagePartial StageFsmap StageController Encoder MatchLog Diff.
Open Scope Z_scope.

(** if (err != FSD_SUCCESS) { give up [undo]; return err; } *)
Definition guard {R A B} (m : traced R (outcome A)) (undo : list R) (k : A → traced R (outcome B))
    : traced R (outcome B) :=
  o ← m;
  match o with
  | Ok a => k a
  | Err e => release_all undo;; mret (Err e)
  | UB => mret UB
  | NoFuel => mret NoFuel
  end.

(** A function that allocates [r] and nothing else, if it succeeds. *)
Definition owner {R A} (r : R) (o : outcome A) : traced R (outcome A) :=
  match o with Ok _ => acquire r;; mret o | _ => mret o end.

Lemma snd_guard {R A B} (m : traced R (outcome A)) undo (k : A → traced R (outcome B)) :
  snd (guard m undo k) = a ← snd m; snd (k a).
Proof. unfold guard. rewrite snd_bind. by destruct (snd m). Qed.

Lemma snd_owner {R A} (r : R) (o : outcome A) : snd (owner r o) = o.
Proof. by destruct o. Qed.

(** What an outcome leaves: [holds a] on success, [held] on an error. *)
Definition leaves {R A} `{EqDecision R} (held : list R) (m : traced R (outcome A)) (holds : A → list R)
    (failed : list R) : Prop :=
  match snd m with
  | Ok a => books held m (holds a)
  | Err _ => books held m failed
  | _ => True
  end.

Lemma leaves_guard {R A B} `{EqDecision R} held (m : traced R (outcome A)) undo (k : A → traced R (outcome B))
    (holds1 : A → list R) (holds2 : B → list R) failed failed1 :
  leaves held m holds1 failed1 → books failed1 (release_all undo) failed →
  (∀ a, leaves (holds1 a) (k a) holds2 failed) → leaves held (guard m undo k) holds2 failed.
Proof.
  unfold leaves. intros Hm Hu Hk. rewrite snd_guard. destruct (snd m) as [a|e| |] eqn:E; cbn [mbind outcome_bind]; [|..].
  - specialize (Hk a). unfold guard. destruct (snd (k a)) as [b|e| |] eqn:Eb; [| |done|done];
      (eapply books_bind; [exact Hm|rewrite E; exact Hk]).
  - unfold guard. eapply books_bind; [exact Hm|]. rewrite E. eapply books_bind; [exact Hu|apply books_ret].
  - done.
  - done.
Qed.

Lemma leaves_owner {R A} `{EqDecision R} (r : R) (o : outcome A) held : r ∉ held →
  leaves held (owner r o) (fun _ => r :: held) held.
Proof. intros Hr. destruct o; try done. unfold leaves. cbn [snd owner mbind traced_bind mret traced_ret].
  eapply books_bind; [by apply books_acquire|apply books_ret].
Qed.

Lemma leaves_ok {R A} `{EqDecision R} (held : list R) (a : A) holds failed : held = holds a → leaves held (mret (Ok a)) holds failed.
Proof. intros ->. done. Qed.

(** * The stage controller *)

Inductive controller_resource : Type :=
| CtlStruct | CtlTracker | CtlBlocks | CtlBitmap | CtlPool | CtlIdentity | CtlRelocation | CtlRelocationPool | CtlFsmap | CtlPartial.

#[global] Instance controller_resource_eq_dec : EqDecision controller_resource.
Proof. solve_decision. Defined.

Definition tracker_create_traced (malloc_ok : allocator) (dest_blocks block_size : Z)
    : traced controller_resource (outcome fsd_block_tracker_t) :=
  if (dest_blocks =? 0) || (block_size =? 0) then mret (Err FSD_ERR_INVALID_ARG) else
  if negb (malloc_ok SIZEOF_TRACKER) then mret (Err FSD_ERR_OUT_OF_MEMORY) else
  acquire CtlTracker;;
  if negb (malloc_ok (dest_blocks * SIZEOF_STATE)) then release CtlTracker;; mret (Err FSD_ERR_OUT_OF_MEMORY) else
  acquire CtlBlocks;;
  let words := u64 (dest_blocks + 63) / 64 in
  if negb (malloc_ok (words * 8)) then release_all [CtlBlocks; CtlTracker];; mret (Err FSD_ERR_OUT_OF_MEMORY) else
  acquire CtlBitmap;;
  mret (fsd_block_tracker_create malloc_ok dest_blocks block_size).

(** fsd_block_tracker_destroy *)
Definition tracker_parts : list controller_resource := [CtlBitmap; CtlBlocks; CtlTracker].

Section Controller.
Context {A : Type} {AL : Allocator A}.

Definition relocation_create_traced (malloc_ok : allocator) (block_size src_blocks : Z) (w : @world A)
    : traced controller_resource (outcome (fsd_relocation_stage_t (fsd_memory_pool_t * @world A))) :=
  if block_size =? 0 then mret (Err FSD_ERR_INVALID_ARG) else
  if negb (malloc_ok sizeof_reloc_stage) then mret (Err FSD_ERR_OUT_OF_MEMORY) else
  acquire CtlRelocation;;
  guard (owner CtlRelocationPool (new_pool (1024 * 1024) w)) [CtlRelocation]
    (fun pool => mret (Ok (mkReloc block_size src_blocks None pool))).

(** if (enabled) create the stage; its parts are [parts]. *)
Definition stage_traced {B} (enabled : bool) (create : traced controller_resource (outcome B))
    : traced controller_resource (outcome (option B)) :=
  if enabled then guard create [] (fun b => mret (Ok (Some b))) else mret (Ok None).

Definition parts {B} (stage : option B) (l : list controller_resource) : list controller_resource :=
  match stage with Some _ => l | None => [] end.

(** fsd_relocation_stage_destroy *)
Definition relocation_parts : list controller_resource := [CtlRelocationPool; CtlRelocation].

Definition controller_create_traced (malloc_ok : allocator) (mem : memory A) (opts : option fsd_diff_options_t)
    (src_blocks dest_blocks : Z) : traced controller_resource (outcome (fsd_stage_controller A)) :=
  if match opts with Some o => opt_enable_relocation o && negb (opt_enable_identity o) | None => false end
  then mret (Err FSD_ERR_INVALID_ARG) else
  if negb (malloc_ok sizeof_controller) then mret (Err FSD_ERR_OUT_OF_MEMORY) else
  acquire CtlStruct;;
  guard (mret match opts with
              | Some o => if 64 <=? opt_block_size_log2 o then UB else Ok (u64 (Z.shiftl 1 (opt_block_size_log2 o)))
              | None => Ok FSD_DEFAULT_BLOCK_SIZE
              end) [CtlStruct] (fun block_size =>
  let enable field := match opts with Some o => field o | None => true end in
  let threshold := match opts with Some o => opt_partial_threshold o | None => half end in
  let radius := match opts with Some o => opt_search_radius o | None => 0 end in
  guard (tracker_create_traced malloc_ok dest_blocks block_size) [CtlStruct] (fun tracker =>
  guard (owner CtlPool (new_pool (4 * 1024 * 1024) (m_delta mem))) (tracker_parts ++ [CtlStruct]) (fun pool =>
  guard (stage_traced (enable opt_enable_identity) (owner CtlIdentity (fsd_identity_stage_create malloc_ok block_size)))
    ([CtlPool] ++ tracker_parts ++ [CtlStruct]) (fun identity =>
  guard (stage_traced (enable opt_enable_relocation)
           (relocation_create_traced malloc_ok block_size src_blocks (m_relocation mem)))
    (parts identity [CtlIdentity] ++ [CtlPool] ++ tracker_parts ++ [CtlStruct]) (fun relocation =>
  guard (stage_traced (enable opt_enable_fsmap)
           (owner CtlFsmap (fsd_fsmap_stage_create malloc_ok block_size threshold radius)))
    (parts relocation relocation_parts ++ parts identity [CtlIdentity] ++ [CtlPool] ++ tracker_parts ++ [CtlStruct])
    (fun fsmap =>
  guard (stage_traced (enable opt_enable_partial)
           (owner CtlPartial (fsd_partial_stage_create malloc_ok block_size threshold radius)))
    (parts fsmap [CtlFsmap] ++ parts relocation relocation_parts ++ parts identity [CtlIdentity] ++ [CtlPool] ++
     tracker_parts ++ [CtlStruct])
    (fun partial =>
  mret (Ok (mkController block_size (enable opt_enable_identity) (enable opt_enable_relocation) (enable opt_enable_fsmap)
        (enable opt_enable_partial) identity relocation fsmap partial tracker pool (fun _ => false) None false []))))))))).

(** What an open controller holds. *)
Definition controller_parts (ctrl : fsd_stage_controller A) : list controller_resource :=
  parts (sc_partial ctrl) [CtlPartial] ++ parts (sc_fsmap ctrl) [CtlFsmap] ++
  parts (sc_relocation ctrl) relocation_parts ++ parts (sc_identity ctrl) [CtlIdentity] ++ [CtlPool] ++
  tracker_parts ++ [CtlStruct].

(** The order of the source: stages, tracker, pool, controller. *)
Definition fsd_stage_controller_destroy (ctrl : fsd_stage_controller A) : traced controller_resource unit :=
  release_all (parts (sc_partial ctrl) [CtlPartial]);;
  release_all (parts (sc_fsmap ctrl) [CtlFsmap]);;
  release_all (parts (sc_relocation ctrl) relocation_parts);;
  release_all (parts (sc_identity ctrl) [CtlIdentity]);;
  release_all tracker_parts;;
  release CtlPool;;
  release CtlStruct.

End Controller.

Section ControllerProofs.
Context {A : Type} {AL : Allocator A}.

Lemma tracker_create_result malloc_ok dest_blocks block_size :
  snd (tracker_create_traced malloc_ok dest_blocks block_size) = fsd_block_tracker_create malloc_ok dest_blocks block_size.
Proof.
  unfold tracker_create_traced, fsd_block_tracker_create. destruct (_ || _); [done|].
  destruct (malloc_ok SIZEOF_TRACKER) eqn:E1; [|done]. destruct (malloc_ok (dest_blocks * _)) eqn:E2; [|done].
  cbv zeta. by destruct (malloc_ok (_ * 8)) eqn:E3.
Qed.

Lemma tracker_create_leaves malloc_ok dest_blocks block_size :
  leaves [CtlStruct] (tracker_create_traced malloc_ok dest_blocks block_size) (fun _ => tracker_parts ++ [CtlStruct]) [CtlStruct].
Proof.
  unfold leaves. rewrite tracker_create_result. unfold tracker_create_traced, fsd_block_tracker_create.
  destruct (_ || _); [done|]. destruct (malloc_ok SIZEOF_TRACKER); [|done].
  destruct (malloc_ok (dest_blocks * _)); [|done]. cbv zeta. by destruct (malloc_ok (_ * 8)).
Qed.

Lemma relocation_create_result malloc_ok block_size src_blocks (w : @world A) :
  snd (relocation_create_traced malloc_ok block_size src_blocks w) =
  ('(_, stage) ← fsd_relocation_stage_create malloc_ok block_size src_blocks w; Ok stage).
Proof.
  unfold relocation_create_traced, fsd_relocation_stage_create. destruct (block_size =? 0); [done|].
  destruct (malloc_ok _); [|done]. cbn [negb]. rewrite snd_bind, snd_guard, snd_owner. unfold new_pool.
  by destruct (fsd_pool_create _ _ w) as [[[? ?]|?| |] ?].
Qed.

Lemma relocation_create_leaves malloc_ok block_size src_blocks (w : @world A) held :
  CtlRelocation ∉ held → CtlRelocationPool ∉ held →
  leaves held (relocation_create_traced malloc_ok block_size src_blocks w) (fun _ => relocation_parts ++ held) held.
Proof.
  intros H1 H2. unfold relocation_create_traced. destruct (block_size =? 0); [done|].
  destruct (malloc_ok _); [|done]. cbn [negb].
  set (k := guard _ _ _).
  assert (Hk : leaves (CtlRelocation :: held) k (fun _ => relocation_parts ++ held) held).
  { apply (leaves_guard _ _ _ _ (fun _ => CtlRelocationPool :: CtlRelocation :: held) _ _ (CtlRelocation :: held)).
    - apply leaves_owner. by apply not_elem_of_cons.
    - by apply books_release.
    - intros pool. by apply leaves_ok. }
  clearbody k. unfold leaves in *. rewrite snd_bind. cbn [snd acquire].
  assert (Ha : books held (acquire CtlRelocation) (CtlRelocation :: held)) by by apply books_acquire.
  destruct (snd k) eqn:E; try done; by (eapply books_bind; [exact Ha|]).
Qed.

Lemma snd_stage {B} enabled (create : traced controller_resource (outcome B)) :
  snd (stage_traced enabled create) = when enabled (snd create).
Proof. destruct enabled; [|done]. cbn. rewrite snd_guard. by destruct (snd create). Qed.

Lemma stage_leaves {B} enabled (create : traced controller_resource (outcome B)) l held :
  leaves held create (fun _ => l ++ held) held →
  leaves held (stage_traced enabled create) (fun o => parts o l ++ held) held.
Proof.
  intros H. destruct enabled; [|done]. cbn. eapply leaves_guard; [exact H|done|]. intros b. by apply leaves_ok.
Qed.

Lemma controller_create_result malloc_ok (mem : memory A) opts src_blocks dest_blocks :
  snd (controller_create_traced malloc_ok mem opts src_blocks dest_blocks) =
  fsd_stage_controller_create malloc_ok mem opts src_blocks dest_blocks.
Proof.
  unfold controller_create_traced, fsd_stage_controller_create. destruct (match opts with Some _ => _ | None => _ end); [done|].
  destruct (malloc_ok _); [|done]. cbn [negb]. cbv zeta. rewrite snd_bind, snd_guard, snd_ret.
  destruct (match opts with Some o => if 64 <=? opt_block_size_log2 o then UB else _ | None => _ end) as [bs|e| |]; [|done..].
  cbn [mbind outcome_bind]. rewrite snd_guard, tracker_create_result.
  destruct (fsd_block_tracker_create _ _ _); [|done..]. cbn [mbind outcome_bind]. rewrite snd_guard, snd_owner.
  destruct (new_pool _ _); [|done..]. cbn [mbind outcome_bind]. rewrite snd_guard, snd_stage, snd_owner.
  destruct (when _ (fsd_identity_stage_create _ _)); [|done..]. cbn [mbind outcome_bind].
  rewrite snd_guard, snd_stage, relocation_create_result.
  destruct (when _ (_ ≫= _)); [|done..]. cbn [mbind outcome_bind]. rewrite snd_guard, snd_stage, snd_owner.
  destruct (when _ (fsd_fsmap_stage_create _ _ _ _)); [|done..]. cbn [mbind outcome_bind]. rewrite snd_guard, snd_stage, snd_owner.
  by destruct (when _ (fsd_partial_stage_create _ _ _ _)).
Qed.

Lemma controller_create_leaves malloc_ok (mem : memory A) opts src_blocks dest_blocks :
  leaves [] (controller_create_traced malloc_ok mem opts src_blocks dest_blocks) controller_parts [].
Proof.
  unfold controller_create_traced. destruct (match opts with Some _ => _ | None => _ end); [done|].
  destruct (malloc_ok _); [|done]. cbn [negb]. cbv zeta.
  set (k := guard _ _ _).
  assert (Hk : leaves [CtlStruct] k controller_parts []).
  { subst k. apply (leaves_guard _ _ _ _ (fun _ => [CtlStruct]) _ _ [CtlStruct]); [|settle|].
    { by destruct (match opts with Some o => if 64 <=? opt_block_size_log2 o then UB else _ | None => _ end). }
    intros bs. eapply leaves_guard; [apply tracker_create_leaves|settle|]. intros tracker.
    eapply leaves_guard; [apply leaves_owner|settle|]; [by apply (bool_decide_eq_true_1 _)|]. intros pool.
    eapply leaves_guard; [apply (stage_leaves _ _ [CtlIdentity])|settle|].
    { apply leaves_owner. by apply (bool_decide_eq_true_1 _). }
    intros identity.
    eapply leaves_guard; [apply (stage_leaves _ _ relocation_parts)|destruct identity; settle|].
    { apply relocation_create_leaves; destruct identity; by apply (bool_decide_eq_true_1 _). }
    intros relocation.
    eapply leaves_guard; [apply (stage_leaves _ _ [CtlFsmap])|destruct identity, relocation; settle|].
    { apply leaves_owner. destruct identity, relocation; by apply (bool_decide_eq_true_1 _). }
    intros fsmap.
    eapply leaves_guard; [apply (stage_leaves _ _ [CtlPartial])|destruct identity, relocation, fsmap; settle|].
    { apply leaves_owner. destruct identity, relocation, fsmap; by apply (bool_decide_eq_true_1 _). }
    intros partial. by apply leaves_ok. }
  clearbody k. unfold leaves in *. rewrite snd_bind. cbn [snd acquire].
  destruct (snd k) eqn:E; try done; (eapply books_bind; [by apply books_acquire, not_elem_of_nil|done]).
Qed.

Lemma controller_destroy_books (ctrl : fsd_stage_controller A) :
  books (controller_parts ctrl) (fsd_stage_controller_destroy ctrl) [].
Proof.
  unfold controller_parts, fsd_stage_controller_destroy.
  destruct (sc_partial ctrl), (sc_fsmap ctrl), (sc_relocation ctrl), (sc_identity ctrl); settle.
Qed.

End ControllerProofs.

(** * The patcher *)

Inductive patch_resource : Type := PatchSource | PatchMap | PatchOutput | PatchBuffer.

#[global] Instance patch_resource_eq_dec : EqDecision patch_resource.
Proof. solve_decision. Defined.

(** fsd_patch_apply: the source and the patch are opened, the output created, one
    block allocated. *)
Definition patch_apply_traced {R} `{SourceReader R} (env : patch_env R) : traced patch_resource patch_result :=
  match pe_source env with
  | Ok src_reader =>
      acquire PatchSource;;
      match pe_patch env with
      | Ok patch_data =>
          acquire PatchMap;;
          match open_streams patch_data with
          | Ok (header, block_size, ops, diffs, lits) =>
              match pe_fopen env with
              | None => release_all [PatchMap; PatchSource];; mret (mkResult (Err FSD_ERR_IO) None false [])
              | Some out =>
                  acquire PatchOutput;;
                  if negb (pe_malloc env block_size)
                  then release_all [PatchOutput; PatchMap; PatchSource];;
                       mret (mkResult (Err FSD_ERR_OUT_OF_MEMORY) (Some out) false []) else
                  acquire PatchBuffer;;
                  let s := mkP ops diffs lits 0 src_reader out [] in
                  let '(r, s) := apply_ops block_size (dest_blocks header) (pe_has_progress env) s in
                  release_all [PatchBuffer; PatchOutput; PatchMap; PatchSource];;
                  mret (mkResult r (Some (output s)) (match r with Ok _ => false | _ => pe_output_regular env end) (progress s))
              end
          | e => release_all [PatchMap; PatchSource];; mret (early e)
          end
      | e => release PatchSource;; mret (early e)
      end
  | e => mret (early e)
  end.

Lemma patch_apply_result {R} `{SourceReader R} (env : patch_env R) : snd (patch_apply_traced env) = fsd_patch_apply env.
Proof.
  unfold patch_apply_traced, fsd_patch_apply. destruct (pe_source env) as [r|e| |]; [|done..].
  destruct (pe_patch env) as [p|e| |]; [|done..].
  destruct (open_streams p) as [[[[[h bs] ops] diffs] lits]|e| |]; [|done..].
  destruct (pe_fopen env); [|done]. destruct (pe_malloc env bs); [|done]. cbn [negb]. rewrite !snd_bind. cbv zeta.
  by destruct (apply_ops _ _ _ _).
Qed.

Lemma patch_apply_books {R} `{SourceReader R} (env : patch_env R) : books [] (patch_apply_traced env) [].
Proof.
  unfold patch_apply_traced. destruct (pe_source env) as [r|e| |]; [|settle..].
  destruct (pe_patch env) as [p|e| |]; [|settle..].
  destruct (open_streams p) as [[[[[h bs] ops] diffs] lits]|e| |]; [|settle..].
  destruct (pe_fopen env); [|settle]. destruct (pe_malloc env bs); [|settle]. cbn [negb]. cbv zeta.
  by destruct (apply_ops _ _ _ _).
Qed.

(** * The diff *)

Inductive stream : Type := OpStream | DiffStream | LitStream.

(** A temporary file is a descriptor and a path; fdopen makes the descriptor part
    of the stream. *)
Inductive diff_resource : Type :=
| DiffSource | DiffDest | DiffController
| TempFd (s : stream) | TempPath (s : stream) | TempFile (s : stream) | TempWriter (s : stream)
| DiffEncoder | DiffOutput.

#[global] Instance stream_eq_dec : EqDecision stream.
Proof. solve_decision. Defined.

#[global] Instance diff_resource_eq_dec : EqDecision diff_resource.
Proof. solve_decision. Defined.

Definition fsd_create_temp_file (s : stream) (t : temp_file) : traced diff_resource unit :=
  if temp_created t then acquire (TempFd s);; acquire (TempPath s) else mret tt.

(** if (fd >= 0) { fsd_close(fd); fsd_unlink(tmp); } *)
Definition drop_temp_file (s : stream) (t : temp_file) : traced diff_resource unit :=
  if temp_created t then release (TempFd s);; release (TempPath s) else mret tt.

Definition temp_fdopen (s : stream) (t : temp_file) : traced diff_resource unit :=
  match t with Temp _ => release (TempFd s);; acquire (TempFile s) | _ => mret tt end.

(** if (file) fclose(file); else if (fd >= 0) fsd_close(fd); *)
Definition close_temp_file (s : stream) (t : temp_file) : traced diff_resource unit :=
  match t with Temp _ => release (TempFile s) | NoStream => release (TempFd s) | NoTemp => mret tt end.

(** fsd_writer_create_from_file, whose result is not looked at. *)
Definition writer_create (s : stream) (w : outcome fsd_buffered_writer_t) : traced diff_resource unit :=
  match w with Ok _ => acquire (TempWriter s) | _ => mret tt end.

(** if (writer) writer->owns_file = true; fsd_writer_close(writer); *)
Definition writer_close (s : stream) (w : outcome fsd_buffered_writer_t) : traced diff_resource unit :=
  match w with Ok _ => release (TempFile s);; release (TempWriter s) | _ => mret tt end.

Definition unlink_temp_files : traced diff_resource unit :=
  release_all [TempPath OpStream; TempPath DiffStream; TempPath LitStream].

Definition close_images : traced diff_resource unit := release DiffDest;; release DiffSource.

Definition close_all : traced diff_resource unit := release DiffController;; close_images.

(** The return code of a step is not of interest here, only what it holds. *)
Definition emit_patch_traced {A} (env : diff_env A) (ctx : fsd_diff_ctx) (block_size dest_blocks : Z)
    (t : fsd_block_tracker_t) (dest_data : bytes) (reports : list (Z * Z)) (log : option FILE)
    : traced diff_resource diff_result :=
  let fail status := mkDiffResult status ctx None false reports log in
  let each (f : stream → temp_file → traced diff_resource unit) : traced diff_resource unit :=
    f OpStream (de_op_temp env);; f DiffStream (de_diff_temp env);; f LitStream (de_lit_temp env) in
  each fsd_create_temp_file;;
  if negb (temp_created (de_op_temp env)) || negb (temp_created (de_diff_temp env)) ||
     negb (temp_created (de_lit_temp env))
  then each drop_temp_file;; close_all;; mret (fail (Err FSD_ERR_IO)) else
  each temp_fdopen;;
  match de_op_temp env, de_diff_temp env, de_lit_temp env with
  | Temp op_file, Temp diff_file, Temp lit_file =>
      let writer f := fsd_writer_create_from_file (de_malloc env) (Some f) 0 in
      let op_writer := writer op_file in
      let diff_writer := writer diff_file in
      let lit_writer := writer lit_file in
      writer_create OpStream op_writer;; writer_create DiffStream diff_writer;; writer_create LitStream lit_writer;;
      let encoder := fsd_op_encoder_create (de_malloc env) block_size in
      (if is_ok encoder then acquire DiffEncoder else mret tt);;
      r ← match encode_streams (de_malloc env) block_size t dest_data op_writer diff_writer lit_writer with
          | Ok ws =>
              let op_size := fsd_writer_bytes_written (Encoder.op_writer ws) in
              let diff_size := fsd_writer_bytes_written (Encoder.diff_writer ws) in
              let lit_size := fsd_writer_bytes_written (Encoder.lit_writer ws) in
              match de_fopen env with
              | None => mret (fail (Err FSD_ERR_IO))
              | Some output =>
                  acquire DiffOutput;;
                  let r := write_output output (file (Encoder.op_writer ws)) (file (Encoder.diff_writer ws))
                             (file (Encoder.lit_writer ws)) dest_blocks (opt_block_size_log2 (dc_opts ctx))
                             op_size diff_size lit_size in
                  release DiffOutput;;
                  mret match r with
                       | (Ok _, output) =>
                           let stats := mkStats dest_blocks (identity_count t) (relocate_count t) (partial_count t)
                             (zero_count t) (one_count t) (literal_count t)
                             (u64 (FSD_HEADER_SIZE + op_size + diff_size + lit_size)) in
                           mkDiffResult (Ok tt) (set_stats stats ctx) (Some output) false reports log
                       | (err, output) => mkDiffResult err ctx (Some output) (de_output_regular env) reports log
                       end
              end
          | e => mret (fail (status_of e))
          end;
      (if is_ok encoder then release DiffEncoder else mret tt);;
      writer_close OpStream op_writer;; writer_close DiffStream diff_writer;; writer_close LitStream lit_writer;;
      unlink_temp_files;;
      close_all;;
      mret r
  | _, _, _ => each close_temp_file;; unlink_temp_files;; close_all;; mret (fail (Err FSD_ERR_IO))
  end.

Definition diff_files_traced {A} `{Allocator A} (env : diff_env A) (ctx : fsd_diff_ctx)
    : traced diff_resource diff_result :=
  let fail status := mkDiffResult status ctx None false [] None in
  let g := if opt_force_scalar (dc_opts ctx) then fsd_simd_force_scalar else de_simd env in
  match de_source env with
  | Ok src_reader =>
      acquire DiffSource;;
      match de_dest env with
      | Ok dest_data =>
          acquire DiffDest;;
          match fsd_source_reader_data (de_malloc env) src_reader with
          | (Ok src_data, src_reader) =>
              let src_size := fsd_source_reader_size src_reader in
              let dest_size := zlen (default [] dest_data) in
              let block_size := u64 (Z.shiftl 1 (opt_block_size_log2 (dc_opts ctx))) in
              let src_blocks := src_size / block_size in
              let dest_blocks := dest_size / block_size in
              if negb (dest_size mod block_size =? 0) then close_images;; mret (fail (Err FSD_ERR_SIZE_MISMATCH)) else
              match fsd_stage_controller_create (de_malloc env) (de_memory env) (Some (dc_opts ctx))
                      src_blocks dest_blocks with
              | Ok controller =>
                  acquire DiffController;;
                  let cancelled at_ := dc_cancelled ctx || de_cancel env at_ in
                  let controller := fsd_stage_controller_set_cancel_flag controller (Some cancelled) in
                  let controller := if dc_progress_cb ctx then fsd_stage_controller_set_progress controller true
                                    else controller in
                  match fsd_stage_controller_run g (de_malloc env) (de_memory env)
                          (slice 0 src_size <$> src_data) dest_data src_size dest_size controller with
                  | (Ok _, controller) =>
                      let tracker := fsd_stage_controller_get_tracker controller in
                      match match de_match_log env with
                            | Some log => fsd_write_match_log g log tracker (slice 0 src_size (default [] src_data))
                                            src_size (default [] dest_data) block_size
                            | None => Ok None
                            end with
                      | Ok log => emit_patch_traced env ctx block_size dest_blocks tracker (default [] dest_data)
                                    (sc_reports controller) log
                      | e => close_all;; mret (mkDiffResult (status_of e) ctx None false (sc_reports controller) None)
                      end
                  | (e, controller) =>
                      close_all;;
                      mret (mkDiffResult e
                              (match e with Err FSD_ERR_CANCELLED => set_cancelled false ctx | _ => ctx end)
                              None false (sc_reports controller) None)
                  end
              | e => close_images;; mret (fail (status_of e))
              end
          | (e, _) => close_images;; mret (fail (status_of e))
          end
      | e => release DiffSource;; mret (fail (status_of e))
      end
  | e => mret (fail (status_of e))
  end.

(** The writer of a stream could not be made. *)
Definition writer_failed {A} (env : diff_env A) (t : temp_file) : bool :=
  match t with Temp f => negb (is_ok (fsd_writer_create_from_file (de_malloc env) (Some f) 0)) | _ => false end.

Lemma emit_patch_result {A} (env : diff_env A) ctx block_size dest_blocks t dest_data reports log :
  snd (emit_patch_traced env ctx block_size dest_blocks t dest_data reports log) =
  emit_patch env ctx block_size dest_blocks t dest_data reports log.
Proof.
  unfold emit_patch_traced, emit_patch. rewrite snd_bind. destruct (_ || _); [done|]. rewrite snd_bind.
  destruct (de_op_temp env), (de_diff_temp env), (de_lit_temp env); try done. cbv zeta. rewrite !snd_bind, snd_ret.
  destruct (encode_streams _ _ _ _ _ _ _) as [ws|e| |]; [|done..]. destruct (de_fopen env); [|done].
  rewrite !snd_bind, snd_ret. done.
Qed.

Lemma diff_files_result {A} `{Allocator A} (env : diff_env A) ctx : snd (diff_files_traced env ctx) = fsd_diff_files env ctx.
Proof.
  unfold diff_files_traced, fsd_diff_files. destruct (de_source env) as [r|e| |]; [|done..]. rewrite snd_bind.
  destruct (de_dest env) as [d|e| |]; [|done..]. rewrite snd_bind.
  destruct (fsd_source_reader_data _ r) as [[s|e| |] r']; [|done..]. cbv zeta. destruct (negb _); [done|].
  destruct (fsd_stage_controller_create _ _ _ _ _) as [c|e| |]; [|done..]. rewrite snd_bind.
  destruct (fsd_stage_controller_run _ _ _ _ _ _ _ _) as [[u|e| |] c']; [|done..].
  destruct (match de_match_log env with Some _ => _ | None => _ end); [|done..]. apply emit_patch_result.
Qed.

(** What the streams leave when every step was taken. *)
Definition leaked {A} (env : diff_env A) : list diff_resource :=
  let one s t := if writer_failed env t then [TempFile s] else [] in
  one LitStream (de_lit_temp env) ++ one DiffStream (de_diff_temp env) ++ one OpStream (de_op_temp env).

Definition images_held : list diff_resource := [DiffController; DiffDest; DiffSource].

Definition streams_open {A} (env : diff_env A) : bool :=
  match de_op_temp env, de_diff_temp env, de_lit_temp env with Temp _, Temp _, Temp _ => true | _, _, _ => false end.

Lemma emit_patch_books {A} (env : diff_env A) ctx block_size dest_blocks t dest_data reports log :
  books images_held (emit_patch_traced env ctx block_size dest_blocks t dest_data reports log)
    (if streams_open env then leaked env else []).
Proof.
  unfold emit_patch_traced, leaked, writer_failed. destruct (streams_open env) eqn:E; unfold streams_open in E.
  2: by destruct (de_op_temp env), (de_diff_temp env), (de_lit_temp env); first [discriminate E|settle].
  destruct (de_op_temp env) as [| |op], (de_diff_temp env) as [| |diff], (de_lit_temp env) as [| |lit];
    try discriminate E. cbn [temp_created negb orb]. cbv zeta.
  generalize (fsd_writer_create_from_file (de_malloc env) (Some op) 0) as wo.
  generalize (fsd_writer_create_from_file (de_malloc env) (Some diff) 0) as wd.
  generalize (fsd_writer_create_from_file (de_malloc env) (Some lit) 0) as wl. intros wl wd wo.
  generalize (encode_streams (de_malloc env) block_size t dest_data wo wd wl) as enc.
  generalize (fsd_op_encoder_create (de_malloc env) block_size) as encoder. intros encoder enc.
  destruct enc as [ws|e| |]; [destruct (de_fopen env) as [out|]|..].
  all: destruct wo, wd, wl, encoder; settle.
Qed.

Lemma diff_files_books {A} `{Allocator A} (env : diff_env A) ctx :
  books [] (diff_files_traced env ctx) [] ∨
  books [] (diff_files_traced env ctx) (leaked env) ∧
    (df_status (fsd_diff_files env ctx) = Ok tt → leaked env = []).
Proof.
  unfold diff_files_traced, fsd_diff_files. destruct (de_source env) as [r|e| |]; [|left; settle..].
  destruct (de_dest env) as [d|e| |]; [|left; settle..].
  destruct (fsd_source_reader_data _ r) as [[s|e| |] r']; [|left; settle..]. cbv zeta.
  destruct (negb _); [left; settle|].
  destruct (fsd_stage_controller_create _ _ _ _ _) as [c|e| |]; [|left; settle..].
  destruct (fsd_stage_controller_run _ _ _ _ _ _ _ _) as [[u|e| |] c']; [|left; settle..].
  destruct (match de_match_log env with Some _ => _ | None => _ end) as [log|e| |]; [|left; settle..].
  set (emit := emit_patch_traced _ _ _ _ _ _ _ _).
  assert (Hb : books [] (acquire DiffSource;; acquire DiffDest;; acquire DiffController;; emit)
                 (if streams_open env then leaked env else [])).
  { eapply books_bind; [by apply books_acquire, not_elem_of_nil|].
    eapply books_bind; [by apply books_acquire, (bool_decide_eq_true_1 _)|].
    eapply books_bind; [by apply books_acquire, (bool_decide_eq_true_1 _)|]. apply emit_patch_books. }
  destruct (streams_open env) eqn:E; [|by left]. right. split; [exact Hb|]. unfold streams_open in E.
  unfold emit_patch, leaked, writer_failed. destruct (de_op_temp env), (de_diff_temp env), (de_lit_temp env); try done.
  cbn [temp_created negb orb]. cbv zeta. unfold encode_streams.
  destruct (fsd_op_encoder_create _ _); [|done..]. cbn [mbind outcome_bind].
  destruct (fsd_writer_create_from_file _ _ _), (fsd_writer_create_from_file _ _ _), (fsd_writer_create_from_file _ _ _); done.
Qed.

(** * Properties *)

(** The life of a controller that is not run. *)
Definition controller_session {A} `{Allocator A} (malloc_ok : allocator) (mem : memory A) (opts : option fsd_diff_options_t)
    (src_blocks dest_blocks : Z) : traced controller_resource unit :=
  o ← controller_create_traced malloc_ok mem opts src_blocks dest_blocks;
  match o with Ok ctrl => fsd_stage_controller_destroy ctrl | _ => mret tt end.

(** Creating a controller gives back what it took when one of its parts cannot
    be made, and destroying a controller that was created releases each of its parts
    once: the tracker's arrays, the pools, the stages that were enabled. *)
Theorem controller_balanced {A} `{Allocator A} malloc_ok (mem : memory A) opts src_blocks dest_blocks :
  snd (controller_create_traced malloc_ok mem opts src_blocks dest_blocks) =
    fsd_stage_controller_create malloc_ok mem opts src_blocks dest_blocks ∧
  match fsd_stage_controller_create malloc_ok mem opts src_blocks dest_blocks with
  | Ok _ | Err _ => books [] (controller_session malloc_ok mem opts src_blocks dest_blocks) []
  | _ => True
  end.
Proof.
  split; [apply controller_create_result|].
  pose proof (controller_create_leaves malloc_ok mem opts src_blocks dest_blocks) as H1. unfold leaves in H1.
  rewrite <- controller_create_result. unfold controller_session.
  destruct (snd (controller_create_traced _ _ _ _ _)) as [ctrl|e| |] eqn:E; [| |done|done];
    (eapply books_bind; [exact H1|rewrite E]); [apply controller_destroy_books|apply books_ret].
Qed.

(** C10: applying a patch and making one give back what they take, on every path,
    whatever the files and the surroundings: the readers, the controller, the
    output, the buffers, and the temporary files with their paths, streams and
    writers, each once.  There is one exception: when the temporary streams are
    open and the writer of one could not be allocated, that stream stays open;
    a diff that succeeds leaves nothing. *)
Theorem diff_and_patch_release {A R} `{Allocator A} `{SourceReader R} (denv : diff_env A) ctx (penv : patch_env R) :
  snd (diff_files_traced denv ctx) = fsd_diff_files denv ctx ∧
  (∃ held, books [] (diff_files_traced denv ctx) held ∧ (held = [] ∨ held = leaked denv) ∧
           (df_status (fsd_diff_files denv ctx) = Ok tt → held = [])) ∧
  snd (patch_apply_traced penv) = fsd_patch_apply penv ∧ books [] (patch_apply_traced penv) [].
Proof.
  split_and!; [apply diff_files_result| |apply patch_apply_result|apply patch_apply_books].
  destruct (diff_files_books denv ctx) as [Hb|[Hb Hok]]; [exists []|exists (leaked denv)]; by split_and!; auto.
Qed.

(** The buffers of the writers cannot be allocated. *)
Definition no_buffers : diff_env bump :=
  mkDiffEnv (fun n => negb (n =? FSD_WRITER_DEFAULT_BUFFER)) demo_memory setup_scalar_dispatch (Ok demo_reader) (Ok (Some demo_dest))
    (fun _ => false) None (Temp (file_new 1000)) (Temp (file_new 1000)) (Temp (file_new 1000)) true (Some (file_new 1000)).

(** A diff that has opened its temporary streams and cannot allocate the
    buffers of their writers returns an error and leaves the three streams open:
    the cleanup closes a stream only through its writer. *)
Theorem writer_failure_leaks :
  df_status (fsd_diff_files no_buffers demo_ctx) = Err FSD_ERR_INVALID_ARG ∧
  books [] (diff_files_traced no_buffers demo_ctx) [TempFile LitStream; TempFile DiffStream; TempFile OpStream].
Proof. split; vm_compute; reflexivity. Qed.
