(* ===== verification/Platform.v ===== *)
(** The portability layer (src/platform.h): temporary paths and files, and the test
    whether an output may be removed.

    The system calls are parameters: stat and GetFileAttributesA for a path,
    GetTempPathA, GetTempFileNameA, open and mkstemp.  C strings are lists of bytes
    without the terminating zero; snprintf and strncpy cut them at the size of the
    buffer.  The macros for atomics, file flags and close are not modelled.

    Shown here: an output that is a special file is never removed, whatever goes
    wrong; a path that fsd_temp_path returned is overwritten by the fourth later
    call; the templates for mkstemp are whole for every prefix the program uses, and
    the name that fsd_create_temp_file hands back on Windows is cut when it is longer
    than 255 bytes. *)

From stdpp Require Import base list numbers tactics strings.
From Stdlib Require Import ZArith Lia.
From S2P Require Import Prelude Stdio Header MemoryPool Source Patch Matches StageController Diff.
Open Scope Z_scope.

(** * Which outputs may be removed *)

(** fsd_path_is_regular_or_missing on a Unix host, by the answer of stat. *)
Definition fsd_path_is_regular_or_missing (stat : errno + file_stat) : bool :=
  match stat with
  | inl ENOENT => true
  | inl _ => false
  | inr st => match st_kind st with S_ISREG => true | _ => false end
  end.

Definition FILE_ATTRIBUTE_DIRECTORY : Z := 0x10.
Definition FILE_ATTRIBUTE_DEVICE : Z := 0x40.
Definition FILE_ATTRIBUTE_REPARSE_POINT : Z := 0x400.

(** On Windows, by the answer of GetFileAttributesA: the attributes, or the error
    code. *)
Definition path_is_regular_or_missing_windows (attrs : Z + Z) : bool :=
  match attrs with
  | inl err => (err =? 2) || (err =? 3)
  | inr attrs =>
      Z.land attrs (Z.lor (Z.lor FILE_ATTRIBUTE_DIRECTORY FILE_ATTRIBUTE_REPARSE_POINT) FILE_ATTRIBUTE_DEVICE) =? 0
  end.

(** * Temporary paths *)

(** snprintf(buf, size, ...) and strncpy with the zero written behind. *)
Definition cut (size : Z) (s : bytes) : bytes := take (Z.to_nat (size - 1)) s.

(** fsd_get_temp_dir on Windows: [dir] is what GetTempPathA wrote, without a
    buffer if it failed. *)
Definition get_temp_dir_windows (dir : option bytes) : option bytes :=
  match dir with
  | Some d =>
      if (zlen d =? 0) || (256 <=? zlen d) then None else
      Some (if bool_decide (list.last d = Some 92) then take (length d - 1) d else d)
  | None => None
  end.

Definition fsd_get_temp_dir : option bytes := Some (bytes_of "/tmp").

(** The static variables of fsd_temp_path. *)
Record temp_path_state := mkTempPaths {
  path_bufs : list bytes;
  buf_index : Z;
  temp_dir : bytes;
  initialized : bool
}.

Definition temp_path_init : temp_path_state := mkTempPaths [[]; []; []; []] 0 [] false.

(** The index of the buffer returned, and the variables after the call. *)
Definition fsd_temp_path (get_temp_dir : option bytes) (filename : bytes) (s : temp_path_state) : Z * temp_path_state :=
  let dir := if initialized s then temp_dir s else match get_temp_dir with Some d => d | None => bytes_of "." end in
  let buf := buf_index s in
  (buf, mkTempPaths (<[Z.to_nat buf := cut 512 (dir ++ bytes_of "/" ++ filename)]> (path_bufs s)) ((buf + 1) mod 4) dir true).

(** fsd_create_temp_file on a Unix host: the path and the descriptor, if mkstemp
    makes one. *)
Definition temp_template (prefix : bytes) : bytes := cut 256 (bytes_of "/tmp/" ++ prefix ++ bytes_of "_XXXXXX").

Definition create_temp_file {D} (mkstemp : bytes → option (bytes * D)) (prefix : bytes) : option (bytes * D) :=
  mkstemp (temp_template prefix).

(** On Windows: the file that GetTempFileNameA made, whether it was opened, and the
    path handed back; on a failure the file is removed again. *)
Definition create_temp_file_windows (temp_dir : option bytes) (get_temp_file_name : bytes → option bytes) (open : bytes → bool)
    : option (bytes * bytes) :=
  match temp_dir with
  | None => None
  | Some d =>
      if (zlen d =? 0) || (260 <? zlen d) then None else
      match get_temp_file_name d with
      | None => None
      | Some path => if open path then Some (path, cut 256 path) else None
      end
  end.

(** * Properties of the paths *)

Definition next_buf (b : Z) : Z := (b + 1) mod 4.

(** The state after calls for the names. *)
Definition temp_paths (get_temp_dir : option bytes) (names : list bytes) (s : temp_path_state) : temp_path_state :=
  fold_left (fun s name => snd (fsd_temp_path get_temp_dir name s)) names s.

Record temp_paths_ok (s : temp_path_state) : Prop := {
  tp_bufs : length (path_bufs s) = 4%nat;
  tp_index : 0 ≤ buf_index s < 4
}.

Lemma temp_path_step get_temp_dir name s : temp_paths_ok s →
  let s' := snd (fsd_temp_path get_temp_dir name s) in
  temp_paths_ok s' ∧ initialized s' = true ∧ buf_index s' = next_buf (buf_index s) ∧
  zget (path_bufs s') (buf_index s) = Some (cut 512 (temp_dir s' ++ bytes_of "/" ++ name)) ∧
  (∀ b, 0 ≤ b → b ≠ buf_index s → zget (path_bufs s') b = zget (path_bufs s) b) ∧
  (initialized s = true → temp_dir s' = temp_dir s).
Proof.
  intros [Hl Hi]. unfold fsd_temp_path, next_buf. cbn -[cut bytes_of Z.modulo]. split_and!; try done.
  - constructor; cbn -[cut bytes_of Z.modulo]; [by rewrite length_insert|apply Z.mod_pos_bound; lia].
  - unfold zget. destruct (Z.leb_spec 0 (buf_index s)); [|lia]. apply list_lookup_insert_eq. lia.
  - intros b Hb Hne. unfold zget. destruct (Z.leb_spec 0 b); [|done]. apply list_lookup_insert_ne. lia.
  - by intros ->.
Qed.

(** A path stays readable during three more calls and is overwritten by the fourth;
    the comment in platform.h promises four. *)
Lemma temp_path_lifetime get_temp_dir s name n1 n2 n3 n4 : temp_paths_ok s →
  let b := fst (fsd_temp_path get_temp_dir name s) in
  let s1 := snd (fsd_temp_path get_temp_dir name s) in
  let path n := cut 512 (temp_dir s1 ++ bytes_of "/" ++ n) in
  (∀ k, (k ≤ 3)%nat → zget (path_bufs (temp_paths get_temp_dir (take k [n1; n2; n3]) s1)) b = Some (path name)) ∧
  zget (path_bufs (temp_paths get_temp_dir [n1; n2; n3; n4] s1)) b = Some (path n4).
Proof.
  intros Hs b s1 path.
  destruct (temp_path_step get_temp_dir name s Hs) as (H1 & I1 & B1 & P1 & _ & _). fold s1 in H1, I1, B1, P1.
  assert (Hb : b = buf_index s) by done. clearbody s1.
  set (s2 := snd (fsd_temp_path get_temp_dir n1 s1)). set (s3 := snd (fsd_temp_path get_temp_dir n2 s2)).
  set (s4 := snd (fsd_temp_path get_temp_dir n3 s3)). set (s5 := snd (fsd_temp_path get_temp_dir n4 s4)).
  destruct (temp_path_step get_temp_dir n1 s1 H1) as (H2 & I2 & B2 & _ & K2 & D2). fold s2 in H2, I2, B2, K2, D2.
  destruct (temp_path_step get_temp_dir n2 s2 H2) as (H3 & I3 & B3 & _ & K3 & D3). fold s3 in H3, I3, B3, K3, D3.
  destruct (temp_path_step get_temp_dir n3 s3 H3) as (H4 & I4 & B4 & _ & K4 & D4). fold s4 in H4, I4, B4, K4, D4.
  destruct (temp_path_step get_temp_dir n4 s4 H4) as (_ & _ & _ & P5 & _ & D5). fold s5 in P5, D5.
  rewrite B1 in B2, K2. rewrite B2 in B3, K3. rewrite B3 in B4, K4.
  destruct Hs as [_ Hi]. assert (Hcase : buf_index s = 0 ∨ buf_index s = 1 ∨ buf_index s = 2 ∨ buf_index s = 3) by lia.
  rewrite Hb. split.
  - intros k Hk.
    assert (k = 0 ∨ k = 1 ∨ k = 2 ∨ k = 3)%nat as [->|[->|[->| ->]]] by lia;
      cbn [take temp_paths fold_left]; fold s2; fold s3; fold s4;
      rewrite ?K4, ?K3, ?K2; try exact P1; try lia;
      destruct Hcase as [->|[->|[->| ->]]]; by vm_compute.
  - cbn [temp_paths fold_left]. fold s2. fold s3. fold s4. fold s5. rewrite B4 in P5.
    replace (next_buf (next_buf (next_buf (next_buf (buf_index s))))) with (buf_index s) in P5
      by (destruct Hcase as [->|[->|[->| ->]]]; reflexivity).
    rewrite P5. unfold path. by rewrite D5, D4, D3, D2.
Qed.

(** The templates of the diff are whole, so that mkstemp finds the six X it
    replaces. *)
Lemma temp_template_whole prefix : zlen prefix ≤ 243 →
  temp_template prefix = bytes_of "/tmp/" ++ prefix ++ bytes_of "_XXXXXX".
Proof.
  intros Hp. unfold temp_template, cut. apply take_ge. rewrite !length_app.
  change (length (bytes_of "/tmp/")) with 5%nat. change (length (bytes_of "_XXXXXX")) with 7%nat. unfold zlen in Hp. lia.
Qed.

(** On Windows a path of up to 255 bytes is handed back as it is; a longer one
    names another file, which the cleanup then tries to remove. *)
Lemma create_temp_file_windows_path dir name open path handed :
  create_temp_file_windows dir name open = Some (path, handed) → handed = path ↔ zlen path ≤ 255.
Proof.
  unfold create_temp_file_windows. destruct dir as [d|]; [|done]. destruct (_ || _); [done|].
  destruct (name d) as [p|]; [|done]. destruct (open p); [|done]. intros [= <- <-]. unfold cut.
  split; intros H; [|apply take_ge; unfold zlen in H; lia].
  apply (f_equal zlen) in H. unfold zlen in *. rewrite length_take in H. lia.
Qed.

(** * Properties *)

(** The surroundings of a diff and of the patcher, whose output path is tested. *)
Definition diff_output_at {A} (removable : bool) (env : diff_env A) : diff_env A :=
  mkDiffEnv (de_malloc env) (de_memory env) (de_simd env) (de_source env) (de_dest env) (de_cancel env)
    (de_match_log env) (de_op_temp env) (de_diff_temp env) (de_lit_temp env) removable (de_fopen env).

Definition patch_output_at {R} (removable : bool) (env : patch_env R) : patch_env R :=
  mkEnv (pe_source env) (pe_patch env) removable (pe_fopen env) (pe_malloc env) (pe_has_progress env).

(** Something that is there and is not a regular file. *)
Definition special_file (stat : errno + file_stat) : Prop :=
  match stat with inr st => st_kind st ≠ S_ISREG | inl _ => False end.

Definition special_file_windows (attrs : Z + Z) : Prop :=
  match attrs with
  | inr attrs => ∃ i, i ∈ [4; 6; 10] ∧ Z.testbit attrs i = true
  | inl _ => False
  end.

Lemma special_file_kept stat : special_file stat → fsd_path_is_regular_or_missing stat = false.
Proof. destruct stat as [e|st]; [done|]. unfold fsd_path_is_regular_or_missing. cbn. by destruct (st_kind st). Qed.

Lemma special_file_windows_kept attrs : special_file_windows attrs → path_is_regular_or_missing_windows attrs = false.
Proof.
  destruct attrs as [e|attrs]; [done|]. intros (i & Hi & Ht). apply Z.eqb_neq. intros H0.
  apply (f_equal (fun z => Z.testbit z i)) in H0. rewrite Z.land_spec, Ht, Z.bits_0 in H0. cbn [andb] in H0.
  rewrite !elem_of_cons, elem_of_nil in Hi. destruct Hi as [->|[->|[->|[]]]]; by vm_compute in H0.
Qed.

Lemma emit_patch_kept {A} (env : diff_env A) ctx block_size dest_blocks t dest_data reports log :
  df_unlinked (emit_patch (diff_output_at false env) ctx block_size dest_blocks t dest_data reports log) = false.
Proof.
  unfold emit_patch. destruct (_ || _); [done|]. cbn [de_op_temp de_diff_temp de_lit_temp de_malloc diff_output_at].
  destruct (de_op_temp env), (de_diff_temp env), (de_lit_temp env); try done. cbv zeta.
  destruct (encode_streams _ _ _ _ _ _ _); [|done..]. cbn [de_fopen diff_output_at]. destruct (de_fopen env); [|done].
  by destruct (write_output _ _ _ _ _ _ _ _ _) as [[[]|e| |] out].
Qed.

Lemma diff_kept {A} `{Allocator A} (env : diff_env A) ctx :
  df_unlinked (fsd_diff_files (diff_output_at false env) ctx) = false.
Proof.
  unfold fsd_diff_files.
  cbn [de_source de_dest de_malloc de_memory de_simd de_cancel de_match_log diff_output_at].
  destruct (de_source env) as [r|e| |]; [|done..]. destruct (de_dest env) as [d|e| |]; [|done..].
  destruct (fsd_source_reader_data _ r) as [[s|e| |] r']; [|done..]. cbv zeta. destruct (negb _); [done|].
  destruct (fsd_stage_controller_create _ _ _ _ _) as [c|e| |]; [|done..].
  destruct (fsd_stage_controller_run _ _ _ _ _ _ _ _) as [[u|e| |] c']; [|done..].
  destruct (match de_match_log env with Some _ => _ | None => _ end); [|done..]. apply emit_patch_kept.
Qed.

Lemma patch_kept {R} `{SourceReader R} (env : patch_env R) : pr_unlinked (fsd_patch_apply (patch_output_at false env)) = false.
Proof.
  unfold fsd_patch_apply. cbn [pe_source pe_patch pe_fopen pe_malloc pe_has_progress pe_output_regular patch_output_at].
  destruct (pe_source env) as [r|e| |]; [|done..]. destruct (pe_patch env) as [p|e| |]; [|done..].
  destruct (open_streams p) as [[[[[h bs] ops] diffs] lits]|e| |]; [|done..]. destruct (pe_fopen env); [|done].
  destruct (negb _); [done|]. cbv zeta. by destruct (apply_ops _ _ _ _) as [[[]|e| |] s].
Qed.

(** C11: an output that is a special file is never removed: when the path names
    something that is not a regular file (on Windows: a directory, a reparse point
    or a device) neither the diff nor the patcher unlinks it, whatever fails. *)
Theorem special_output_kept {A R} `{Allocator A} `{SourceReader R} (denv : diff_env A) ctx (penv : patch_env R) :
  (∀ stat, special_file stat →
     df_unlinked (fsd_diff_files (diff_output_at (fsd_path_is_regular_or_missing stat) denv) ctx) = false ∧
     pr_unlinked (fsd_patch_apply (patch_output_at (fsd_path_is_regular_or_missing stat) penv)) = false) ∧
  (∀ attrs, special_file_windows attrs →
     df_unlinked (fsd_diff_files (diff_output_at (path_is_regular_or_missing_windows attrs) denv) ctx) = false ∧
     pr_unlinked (fsd_patch_apply (patch_output_at (path_is_regular_or_missing_windows attrs) penv)) = false).
Proof.
  split; [intros stat ->%special_file_kept|intros attrs ->%special_file_windows_kept];
    split; (apply diff_kept || apply patch_kept).
Qed.

(** A diff whose output device is too small, on a block device and on a file. *)
Definition small_output : diff_env bump :=
  mkDiffEnv (fun _ => true) demo_memory Simd.setup_scalar_dispatch (Ok demo_reader) (Ok (Some demo_dest)) (fun _ => false) None
    (Temp (file_new 1000)) (Temp (file_new 1000)) (Temp (file_new 1000)) true (Some (file_new 10)).

Local Strategy 100 [fsd_diff_files fsd_patch_apply].

Lemma special_output_kept_witness :
  df_unlinked (fsd_diff_files (diff_output_at (fsd_path_is_regular_or_missing (inr (mkStat S_ISBLK 0))) small_output) demo_ctx) = false ∧
  df_unlinked (fsd_diff_files (diff_output_at (fsd_path_is_regular_or_missing (inr (mkStat S_ISREG 0))) small_output) demo_ctx) = true.
Proof.
  split; [|by vm_compute].
  assert (Hs : special_file (inr (mkStat S_ISBLK 0))) by done.
  exact (proj1 (proj1 (special_output_kept small_output demo_ctx
    (mkEnv (R := fsd_source_reader) (Err FSD_ERR_IO) (Err FSD_ERR_IO) true None (fun _ => true) false))
    (inr (mkStat S_ISBLK 0)) Hs)).
Defined.
