(* ===== verification/DiffSuccess.v ===== *)
(** A diff succeeds when nothing fails.

    Diff.v says what a diff guarantees when it returns; here it is shown that it
    returns a patch whenever its images and options are acceptable, no call of its
    surroundings fails and its pools have memory.  The room asked of the files is
    what the encoder can need: 13 bytes of operations, two blocks of diff data and
    one of literals per block; the budget asked of the allocators is worked out in
    Budget.v and FsmapBudget.v. *)

From stdpp Require Import base list numbers tactics.
From Stdlib Require Import ZArith Lia.
From S2P Require Import Prelude Stdio Header Writer MemoryPool HashTable Budget Simd Tracker Source Patch Matches StageIdentity.
From S2P Require Import StageRelocation StagePartial ExtReader StageFsmap FsmapBudget StageController PatchSafety Encoder EncoderSpec.
From S2P Require Import EndToEnd MatchLog Diff.
Open Scope Z_scope.

(** * Creating the controller *)

(** Memory for the pools of a diff of [src]: the delta pool is created, the table of
    the relocation stage and the index of the filesystem stage fit their pools. *)
Record provisioned {A} `{AllocatorBudget A} (malloc_ok : allocator) (mem : memory A) (opts : fsd_diff_options_t)
    (src_blocks : Z) (src : bytes) : Prop := {
  pv_delta : pool_bytes (4 * 1024 * 1024) 0 0 ≤ mem_budget (w_alloc (m_delta mem));
  pv_relocation : opt_enable_relocation opts = true →
    pool_bytes (1024 * 1024) (table_bytes src_blocks) 2 ≤ mem_budget (w_alloc (m_relocation mem));
  pv_fsmap d : opt_enable_fsmap opts = true → fsmap_tally malloc_ok src = Ok d →
    pool_bytes (1024 * 1024) (index_bytes d) (index_requests d) ≤ mem_budget (w_alloc (m_fsmap mem))
}.

Section Create.
Context {A : Type} {AL : Allocator A} {ALS : AllocatorSpec A} {ALL : AllocatorLaws A}.
Context {AB : AllocatorBudget A} {ABL : AllocatorBudgetLaws A}.

Lemma new_pool_served chunk n r (w : @world A) :
  alloc_ok (w_alloc w) → 0 < chunk < 2 ^ 63 → 0 ≤ n → 0 ≤ r → pool_bytes chunk n r ≤ mem_budget (w_alloc w) →
  ∃ p, new_pool chunk w = Ok p ∧ arena_room n r p.
Proof.
  intros Hw Hc Hn Hr Hb. destruct (pool_create_room chunk n r w Hw Hc Hn Hr Hb) as (self & pool & w' & E & Hp).
  exists (pool, w'). unfold new_pool. by rewrite E.
Qed.

(** A stage that is wanted is created. *)
Lemma when_served {B} (P : B → Prop) enabled (create : outcome B) :
  (enabled = true → returns P (fun _ => False) create) →
  returns (fun o => ∀ b, o = Some b → enabled = true ∧ P b) (fun _ => False) (when enabled create).
Proof.
  intros H. unfold when. destruct enabled; [|done]. specialize (H eq_refl). destruct create as [b|e| |]; try done.
  cbn. by intros b' [= <-].
Qed.

(** What the stages that need memory start from. *)
Definition stages_served (opts : fsd_diff_options_t) (src_blocks : Z) (c : fsd_stage_controller A) : Prop :=
  (∀ st, sc_relocation c = Some st → arena_room (table_bytes src_blocks) 2 (rl_pool st)) ∧
  (∀ st, sc_fsmap c = Some st → opt_enable_fsmap opts = true).

Lemma table_bytes_range n : 0 ≤ n ≤ 2 ^ 58 → 0 ≤ table_bytes n.
Proof. intros Hn. pose proof (bucket_bytes_range n Hn). unfold table_bytes, sizeof_table. lia. Qed.

Lemma controller_create_served malloc_ok (mem : memory A) opts src src_blocks dbs :
  memory_ok mem → provisioned malloc_ok mem opts src_blocks src → (∀ z, malloc_ok z = true) → dbs ≠ 0 →
  0 ≤ src_blocks ≤ 2 ^ 58 →
  opt_block_size_log2 opts < 64 → u64 (Z.shiftl 1 (opt_block_size_log2 opts)) ≠ 0 →
  (opt_enable_relocation opts = true → opt_enable_identity opts = true) →
  returns (stages_served opts src_blocks) (fun _ => False)
    (fsd_stage_controller_create malloc_ok mem (Some opts) src_blocks dbs).
Proof.
  intros (Hw1 & Hw2 & _) Hpv Hm Hdbs Hsb Hlg Hbs Hopts. unfold fsd_stage_controller_create.
  assert (Hc : opt_enable_relocation opts && negb (opt_enable_identity opts) = false).
  { destruct (opt_enable_relocation opts); [|done]. by rewrite Hopts. }
  rewrite Hc, Hm. cbn [negb]. destruct (Z.leb_spec 64 (opt_block_size_log2 opts)); [lia|]. cbn [mbind outcome_bind].
  set (bs := u64 _) in *. apply Z.eqb_neq in Hbs, Hdbs.
  eapply (returns_bind (fun _ => True)).
  { unfold fsd_block_tracker_create. by rewrite Hbs, Hdbs, !Hm. }
  intros t _. destruct (new_pool_served (4 * 1024 * 1024) 0 0 (m_delta mem) Hw1) as (p & -> & _);
    [lia|lia|lia|apply (pv_delta _ _ _ _ _ Hpv)|]. cbn [mbind outcome_bind].
  eapply returns_bind; [apply (when_served (fun _ => True)); intros _; unfold fsd_identity_stage_create; by rewrite Hbs, Hm|].
  intros id _. eapply returns_bind; [apply (when_served (fun st => arena_room (table_bytes src_blocks) 2 (rl_pool st)))|intros re Hre].
  { intros Hen. unfold fsd_relocation_stage_create. rewrite Hbs, Hm. cbn [negb].
    destruct (pool_create_room (1024 * 1024) (table_bytes src_blocks) 2 (m_relocation mem) Hw2 ltac:(lia)
      (table_bytes_range _ Hsb) ltac:(lia) (pv_relocation _ _ _ _ _ Hpv Hen)) as (self & pool & w' & -> & Hp). exact Hp. }
  eapply returns_bind; [apply (when_served (fun _ => True)); intros _; unfold fsd_fsmap_stage_create; by rewrite Hbs, Hm|].
  intros fs Hfs.
  eapply returns_bind; [apply (when_served (fun _ => True)); intros _; unfold fsd_partial_stage_create; by rewrite Hbs, Hm|].
  intros pa _. split; cbn; intros st Hst; [apply (Hre st Hst)|apply (Hfs st Hst)].
Qed.

End Create.

(** * The streams *)

(** A writer whose stream will flush. *)
Definition flushes (w : fsd_buffered_writer_t) : Prop := writer_ok w ∧ f_flush_ok (file w) = true.

Lemma fwrite_flags d f :
  f_flush_ok (snd (fwrite d f)) = f_flush_ok f ∧ f_close_ok (snd (fwrite d f)) = f_close_ok f.
Proof. done. Qed.

Lemma flush_keeps w : f_flush_ok (file (snd (fsd_writer_flush w))) = f_flush_ok (file w).
Proof. unfold fsd_writer_flush, fwrite. by repeat case_match. Qed.

Lemma write_loop_keeps fuel src w : f_flush_ok (file (snd (writer_write_loop fuel src w))) = f_flush_ok (file w).
Proof.
  revert src w. induction fuel as [|fuel IH]; intros src w; cbn [writer_write_loop]; [done|].
  destruct (zlen src =? 0); [done|]. destruct (_ <=? _); [by destruct (store _ _ _)|].
  destruct (store _ _ _) as [b|e| |]; try done. unfold mbind, ST_bind.
  pose proof (flush_keeps (set_buffer b (buffer_size w) w)) as Hf.
  destruct (fsd_writer_flush _) as [[[]|e| |] w']; try done. rewrite IH. exact Hf.
Qed.

Lemma write_byte_keeps b w : f_flush_ok (file (snd (fsd_writer_write_byte b w))) = f_flush_ok (file w).
Proof.
  unfold fsd_writer_write_byte. pose proof (flush_keeps w) as Hf. destruct (_ <=? _); [|by destruct (store _ _ _)].
  destruct (fsd_writer_flush w) as [[[]|e| |] w']; try done. by destruct (store _ _ _).
Qed.

(** The same sinks with an invariant that remembers the flag. *)
Definition flushing_spec : ByteSinkSpec fsd_buffered_writer_t :=
  {| snk_ok := flushes; snk_view := writer_view; snk_cap := writer_cap |}.

Lemma flushing_laws : @ByteSinkLaws fsd_buffered_writer_t _ flushing_spec.
Proof.
  split.
  - intros b w [Hok Hf]. destruct (writer_write_byte_spec b w Hok) as [(? & ? & ? & ?)|?]; [left|by right].
    split_and!; try done. split; [done|]. rewrite <- Hf. apply write_byte_keeps.
  - intros d w [Hok Hf]. destruct (@snk_write_law _ _ writer_sink_spec _ d w Hok) as [(? & ? & ? & ?)|?]; [left|by right].
    split_and!; try done. split; [done|]. rewrite <- Hf. apply write_loop_keeps.
  - intros w [Hok _]. by apply (@snk_size_law _ _ writer_sink_spec _).
Qed.

(** A temporary stream with room for [n] bytes. *)
Definition temp_room (n : Z) (t : temp_file) : Prop :=
  ∃ f, t = Temp f ∧ f_flush_ok f = true ∧ n ≤ f_room f.

Lemma writer_create_flushes malloc_ok f :
  temp_ok (Temp f) → f_flush_ok f = true → (∀ z, malloc_ok z = true) →
  ∃ w, fsd_writer_create_from_file malloc_ok (Some f) 0 = Ok w ∧ flushes w ∧ writer_view w = [] ∧
    writer_cap w = f_room f.
Proof.
  intros [Hf] Hfl Hm. destruct (Hf f eq_refl) as (H0 & H1).
  assert (Hc : fsd_writer_create_from_file malloc_ok (Some f) 0 =
    Ok (mkWriter f (fill FSD_WRITER_DEFAULT_BUFFER 0) FSD_WRITER_DEFAULT_BUFFER 0 0 false))
    by (unfold fsd_writer_create_from_file; by rewrite !Hm).
  destruct (writer_create_ok malloc_ok f 0 _ H0 (proj1 H1) ltac:(lia) ltac:(unfold FSD_WRITER_DEFAULT_BUFFER; lia) Hc)
    as (Hok & Hv & Hcap).
  eexists. split; [exact Hc|]. by split_and!.
Qed.

(** A flush with room. *)
Lemma flush_succeeds w :
  flushes w → zlen (writer_view w) ≤ writer_cap w →
  ∃ w', fsd_writer_flush w = (Ok tt, w') ∧ fflush (file w') = true ∧ f_data (file w') = writer_view w.
Proof.
  intros [Hok Hf] Hroom. pose proof (flush_keeps w) as Hk.
  destruct (fsd_writer_flush w) as [r w'] eqn:E. cbn in Hk.
  destruct (writer_flush_spec w r w' Hok E) as [(-> & _ & _ & _ & _ & _ & Hd)|(_ & ?)]; [|lia].
  exists w'. split_and!; [done|unfold fflush; congruence|done].
Qed.

(** Encoding with room for everything. *)
Lemma encode_streams_succeeds malloc_ok bs dbs src dest t op diff lit :
  tracker_sound bs dbs src dest t → (∀ z, malloc_ok z = true) →
  temp_ok (Temp op) → temp_ok (Temp diff) → temp_ok (Temp lit) →
  temp_room (13 * dbs) (Temp op) → temp_room (2 * bs * dbs) (Temp diff) → temp_room (bs * dbs) (Temp lit) →
  let writer f := fsd_writer_create_from_file malloc_ok (Some f) 0 in
  ∃ ws, encode_streams malloc_ok bs t dest (writer op) (writer diff) (writer lit) = Ok ws ∧
    zlen (f_data (file (op_writer ws))) ≤ 13 * dbs ∧ zlen (f_data (file (diff_writer ws))) ≤ 2 * bs * dbs ∧
    zlen (f_data (file (lit_writer ws))) ≤ bs * dbs.
Proof.
  intros Hts Hm Ho Hd Hl (? & [= <-] & Fo & Ro) (? & [= <-] & Fd & Rd) (? & [= <-] & Fl & Rl) writer.
  pose proof (ts_size _ _ _ _ _ Hts). pose proof (ts_max _ _ _ _ _ Hts).
  assert (Hmax : dbs * bs ≤ 2 ^ 62) by nia.
  destruct (writer_create_flushes malloc_ok op Ho Fo Hm) as (wo & Ewo & Oo & Vo & Co).
  destruct (writer_create_flushes malloc_ok diff Hd Fd Hm) as (wd & Ewd & Od & Vd & Cd).
  destruct (writer_create_flushes malloc_ok lit Hl Fl Hm) as (wl & Ewl & Ol & Vl & Cl).
  unfold writer. rewrite Ewo, Ewd, Ewl. unfold encode_streams, fsd_op_encoder_create.
  destruct (Z.eqb_spec bs 0); [lia|]. rewrite Hm. cbn [negb mbind outcome_bind].
  pose proof (encode_spec (BSS := flushing_spec) (BSL := flushing_laws) (R := fsd_source_reader) bs dbs false src dest t
    malloc_ok (mkEncoder bs 0 0 0) (mkWriters wo wd wl) Hts Hmax eq_refl) as He.
  assert (Hf : fresh (BSS := flushing_spec) (mkWriters wo wd wl)) by (by split_and!; [split|..]).
  specialize (He Hf). destruct (fsd_op_encoder_encode _ _ _ _ _) as [[enc|e| |] ws]; [| |done|done].
  2:{ destruct He. split; [done|]. unfold enough_room. cbn. lia. }
  destruct He as ([Wo Wd Wl] & _ & _ & _ & _ & _ & _ & _ & Zo & Zd & Zl & Ko & Kd & Kl). cbn in *.
  destruct (flush_succeeds (op_writer ws) Wo ltac:(lia)) as (w1 & -> & Hf1 & D1).
  destruct (flush_succeeds (diff_writer ws) Wd ltac:(lia)) as (w2 & -> & Hf2 & D2).
  destruct (flush_succeeds (lit_writer ws) Wl ltac:(lia)) as (w3 & -> & Hf3 & D3). cbn [mbind outcome_bind].
  rewrite Hf1, Hf2, Hf3. cbn [negb orb]. eexists. split; [reflexivity|]. cbn. by rewrite D1, D2, D3.
Qed.

(** * The output *)

(** A copy into a stream with room. *)
Lemma copy_loop_succeeds fuel src dst copied :
  0 ≤ f_pos src ≤ zlen (f_data src) → zlen (f_data src) - f_pos src < Z.of_nat fuel →
  zlen (f_data src) - f_pos src ≤ f_room dst →
  ∃ n dst', copy_loop fuel src dst copied = (Ok n, dst') ∧ f_close_ok dst' = f_close_ok dst ∧
    f_room dst' = f_room dst - (zlen (f_data src) - f_pos src).
Proof.
  revert src dst copied. induction fuel as [|fuel IH]; intros src dst copied Hp Hf Hr; [lia|].
  cbn [copy_loop fread]. set (chunk := slice (f_pos src) 65536 (f_data src)).
  assert (Hc : zlen chunk = Z.min 65536 (zlen (f_data src) - f_pos src))
    by (unfold chunk, slice, zlen in *; rewrite length_take, length_drop; lia).
  destruct (Z.eqb_spec (zlen chunk) 0) as [E|E].
  { eexists _, dst. split; [reflexivity|]. split; [done|lia]. }
  rewrite (fwrite_fits chunk dst) by lia. rewrite Z.eqb_refl. cbn [negb].
  match goal with |- context [copy_loop fuel ?s ?d ?c] =>
    destruct (IH s d c) as (n & dst' & -> & Hcl & Hro) end; cbn [f_data f_pos f_room f_close_ok] in *; [lia..|].
  exists n, dst'. split_and!; [done|done|lia].
Qed.

Lemma copy_stream_succeeds src dst :
  zlen (f_data src) ≤ f_room dst → zlen (f_data src) < 2 ^ 64 →
  ∃ dst', fsd_copy_stream src dst (zlen (f_data src)) = (Ok tt, dst') ∧ f_close_ok dst' = f_close_ok dst ∧
    f_room dst' = f_room dst - zlen (f_data src).
Proof.
  intros Hr Hm. unfold fsd_copy_stream. pose proof (zlen_nonneg (f_data src)).
  assert (Hp : 0 ≤ f_pos (rewind src) ≤ zlen (f_data (rewind src))) by (cbn; lia).
  assert (Hf : zlen (f_data (rewind src)) - f_pos (rewind src) < Z.of_nat (S (length (f_data src))))
    by (cbn; unfold zlen; lia).
  destruct (copy_loop_succeeds _ (rewind src) dst 0 Hp Hf) as (n & dst' & E & Hc & Hro); [cbn; lia|].
  pose proof (copy_loop_spec _ (rewind src) dst 0 Hp Hf ltac:(lia) ltac:(cbn; lia)) as Hs. rewrite E in Hs |- *.
  destruct Hs as [-> _]. cbn [rewind f_data f_pos] in *. rewrite Z.add_0_l, Z.sub_0_r, Z.eqb_refl. cbn [negb].
  exists dst'. split_and!; [done|done|lia].
Qed.

Lemma write_output_succeeds output op diff lit dbs lg :
  f_close_ok output = true →
  FSD_HEADER_SIZE + zlen (f_data op) + zlen (f_data diff) + zlen (f_data lit) ≤ f_room output →
  zlen (f_data op) + zlen (f_data diff) + zlen (f_data lit) < 2 ^ 64 →
  fst (write_output output op diff lit dbs lg (zlen (f_data op)) (zlen (f_data diff)) (zlen (f_data lit))) = Ok tt.
Proof.
  intros Hc Hr Hm. unfold write_output, fsd_header_write.
  pose proof (zlen_nonneg (f_data op)). pose proof (zlen_nonneg (f_data diff)). pose proof (zlen_nonneg (f_data lit)).
  rewrite fwrite_fits by (rewrite zlen_header_buf; lia). rewrite zlen_header_buf, Z.eqb_refl.
  cbv beta iota zeta delta [negb default from_option id]. set (f0 := mkFILE _ _ _ _ _).
  assert (R0 : f_room f0 = f_room output - FSD_HEADER_SIZE) by done.
  destruct (copy_stream_succeeds op f0) as (f1 & -> & C1 & R1); [lia..|].
  destruct (copy_stream_succeeds diff f1) as (f2 & -> & C2 & R2); [lia..|].
  destruct (copy_stream_succeeds lit f2) as (f3 & -> & C3 & R3); [lia..|].
  unfold fclose. rewrite C3, C2, C1. change (f_close_ok f0) with (f_close_ok output). by rewrite Hc.
Qed.

(** * The diff *)

(** Surroundings in which nothing fails, for images of [dbs] blocks of [bs] bytes. *)
Record smooth {A} (ctx : fsd_diff_ctx) (bs dbs : Z) (dest : bytes) (env : diff_env A) : Prop := {
  sm_malloc z : de_malloc env z = true;
  sm_source : ∃ r, de_source env = Ok r ∧ reader_reliable r;
  sm_dest : de_dest env = Ok (Some dest);
  sm_cancel at_ : dc_cancelled ctx || de_cancel env at_ = false;
  sm_op : temp_room (13 * dbs) (de_op_temp env);
  sm_diff : temp_room (2 * bs * dbs) (de_diff_temp env);
  sm_lit : temp_room (bs * dbs) (de_lit_temp env);
  sm_output : ∃ f, de_fopen env = Some f ∧ f_close_ok f = true ∧ FSD_HEADER_SIZE + (13 + 3 * bs) * dbs ≤ f_room f
}.

Section Spec.
Context {A : Type} {AL : Allocator A} {ALS : AllocatorSpec A} {ALL : AllocatorLaws A}.
Context (ctx : fsd_diff_ctx) (Hctx : ctx_ok ctx) (env : diff_env A) (src dest : bytes).
Context (Henv : diff_env_ok (ctx_block_size ctx) src dest env).

Abbreviation bs := (ctx_block_size ctx).
Abbreviation dbs := (zlen dest / bs).

Context (Hsm : smooth ctx bs dbs dest env).
Context {AB : AllocatorBudget A} {ABL : AllocatorBudgetLaws A}.
Context (Hpv : provisioned (de_malloc env) (de_memory env) (dc_opts ctx) (zlen src / bs) src).

Lemma emit_patch_succeeds t reports log :
  tracker_sound bs dbs src dest t → df_status (emit_patch env ctx bs dbs t dest reports log) = Ok tt.
Proof.
  intros Hts. unfold emit_patch. destruct Henv as [_ _ _ _ _ _ Hot Hdt Hlt _].
  destruct Hsm as [Hm _ _ _ (op & Eo & Ro) (diff & Ed & Rd) (lit & El & Rl) (f & Ef & Hc & Hr)].
  rewrite Eo in *. rewrite Ed in *. rewrite El in *. cbn [temp_created negb orb].
  assert (Hop : temp_room (13 * dbs) (Temp op)) by (by exists op).
  assert (Hdi : temp_room (2 * bs * dbs) (Temp diff)) by (by exists diff).
  assert (Hli : temp_room (bs * dbs) (Temp lit)) by (by exists lit).
  destruct (encode_streams_succeeds (de_malloc env) bs dbs src dest t op diff lit Hts Hm Hot Hdt Hlt Hop Hdi Hli)
    as (ws & E & Zo & Zd & Zl).
  pose proof (encode_streams_spec (de_malloc env) bs dbs src dest t op diff lit Hts Hot Hdt Hlt) as He.
  cbv beta zeta in He, E |- *. rewrite E in He |- *. destruct He as [_ [Bo Mo] [Bd Md] [Bl Ml]].
  rewrite Ef, Bo, Bd, Bl.
  pose proof (write_output_succeeds f (file (op_writer ws)) (file (diff_writer ws)) (file (lit_writer ws)) dbs
    (opt_block_size_log2 (dc_opts ctx)) Hc ltac:(lia) ltac:(lia)) as Hw.
  destruct (write_output _ _ _ _ _ _ _ _ _) as [r output]. cbn in Hw. by subst r.
Qed.

(** No stage is stopped. *)
Lemma stages_ok_served r c :
  de_source env = Ok r → zlen dest mod bs = 0 →
  fsd_stage_controller_create (de_malloc env) (de_memory env) (Some (dc_opts ctx)) (zlen src / bs) dbs = Ok c →
  stages_served (dc_opts ctx) (zlen src / bs) c → stages_ok ctx env src dest (fun _ => False) c.
Proof.
  intros Es Hmod Ec [Hre Hfs]. pose proof (created_images ctx Hctx env src dest Henv r c Es Hmod Ec) as Him.
  pose proof Henv as [_ Hmem _ _ _ _ _ _ _ _]. pose proof (im_size _ _ _ _ Him). pose proof (src_blocks_range Him) as Hsb.
  assert (Hob : opts_block_size (Some (dc_opts ctx)) = bs) by by apply block_size_pow.
  assert (Hsm' : zlen src / bs ≤ 2 ^ 58) by (pose proof (im_src _ _ _ _ Him); apply Z.div_le_upper_bound; nia).
  pose proof (controller_create_spec (de_malloc env) (de_memory env) (Some (dc_opts ctx)) (zlen src / bs) dbs src dest c) as Hcs.
  rewrite Hob in Hcs. destruct (Hcs Him Hmem Ec) as ([Cb Cid Cre Cfs Cpa] & [] & Hun).
  apply (run_stages_spec (run_simd_ok ctx env src dest Henv) (malloc_ok := de_malloc env) Him (de_memory env)
    (radius := opts_radius (Some (dc_opts ctx))) (thr := opts_threshold (Some (dc_opts ctx))) (cx_radius _ Hctx));
    [exact Cb|by constructor|exact Hun|exact Cid| | |exact Cpa].
  - intros st Hst. destruct (Cre st Hst) as (p & -> & Hp). apply (relocation_stage_ok Him); [done|right].
    destruct (hash_table_create_room _ 2 (zlen src / bs) p ltac:(lia) (Hre _ Hst) ltac:(lia) ltac:(lia)) as (t & p' & -> & _). done.
  - intros st Hst. eapply (fsmap_work_ok (run_simd_ok ctx env src dest Henv) Him); [exact (cx_radius _ Hctx)|exact (Cfs st Hst)|].
    intros c1 c2 t st'. pose proof (images_dest_max Him).
    destruct (fsmap_stage_ready (de_malloc env) bs _ _ st c1 c2 ltac:(lia) (cx_radius _ Hctx) (Cfs st Hst)) as (Hb & Hi & Hh & _).
    destruct Hmem as (_ & _ & Hw3). destruct Him. apply fsmap_build_served; try done.
    + apply (sm_malloc _ _ _ _ _ Hsm).
    + unfold st'. lia.
    + apply new_pool_returns; [done|lia].
    + intros d Hd. apply new_pool_served; [done|lia| | |by apply (pv_fsmap _ _ _ _ _ Hpv), Hd; apply (Hfs st Hst)].
      all: destruct (tally_range (de_malloc env) src d) as [? ?]; try done; [apply (sm_malloc _ _ _ _ _ Hsm)|].
      all: pose proof (table_bytes_range 16384); unfold index_bytes, index_requests; lia.
Qed.

Lemma diff_files_succeeds :
  src ≠ [] → dest ≠ [] → zlen dest mod bs = 0 →
  (opt_enable_relocation (dc_opts ctx) = true → opt_enable_identity (dc_opts ctx) = true) →
  df_status (fsd_diff_files env ctx) = Ok tt.
Proof.
  intros Hsrc0 Hdest0 Hmod Hopts. pose proof Henv as [_ Hmem Hsrc Hdest _ _ _ _ _ _].
  destruct Hsm as [Hm (r & Es & Hrel) Ed Hcan _ _ _ _]. rewrite Es in Hsrc. destruct Hsrc as [Hr Hrc].
  pose proof (source_data_spec (de_malloc env) r Hr) as Hsd.
  destruct (fsd_source_reader_data (de_malloc env) r) as [[p|e| |] r'] eqn:Ep; [|by destruct Hsd|done|done].
  destruct p as [p|].
  2:{ destruct Hsd as (Hp & _). cbn in Hp. unfold slice in Hp. rewrite drop_nil, take_nil, Hrc in Hp. congruence. }
  pose proof (ctx_block_size_range ctx Hctx) as Hbs.
  assert (Hdbs : dbs ≠ 0).
  { intros H0. pose proof (Z.div_mod (zlen dest) bs ltac:(lia)). destruct dest as [|b l]; [done|].
    rewrite zlen_cons in *. pose proof (zlen_nonneg l). lia. }
  assert (Hsb : 0 ≤ zlen src / bs ≤ 2 ^ 58).
  { pose proof (rk_max _ Hr). rewrite (rk_size _ Hr), Hrc in *. pose proof (zlen_nonneg src).
    split; [apply Z.div_pos; lia|apply Z.div_le_upper_bound; nia]. }
  pose proof (controller_create_served (de_malloc env) (de_memory env) (dc_opts ctx) src (zlen src / bs) dbs Hmem Hpv Hm Hdbs Hsb
    ltac:(destruct Hctx; lia)) as Hcr. rewrite (block_size_pow ctx Hctx) in Hcr. specialize (Hcr ltac:(lia) Hopts).
  destruct (fsd_stage_controller_create _ _ _ _ _) as [c|e| |] eqn:Ec; [|done..].
  destruct (diff_run_spec ctx Hctx env src dest Henv (fun _ => False) r p r' c Es Ed Ep Hmod Ec
    (stages_ok_served r c Es Hmod Ec Hcr)) as [(t & reports & log & Hts & _ & ->)|(e & reports & -> & [[]|[-> [at_ Hc]]])].
  - by apply emit_patch_succeeds.
  - by rewrite Hcan in Hc.
Qed.

End Spec.

(** * Properties *)

(** C9: a diff goes through: when the source has at least one byte, the
    destination is a positive number of whole blocks, relocation is not asked for
    without identity, the surroundings are [smooth] (the images open and the source
    reads without I/O error, no allocation of the driver fails, nobody cancels, the
    temporary streams have room for 13, [2 * bs] and [bs] bytes per block and flush,
    the output has room and closes), and the allocators behind the three pools have
    the budget that [provisioned] works out from the options and the source (the
    chunk of the delta pool, twice the bytes of the relocation table, twice the bytes
    that the files of the source need in the path index), then the diff returns
    FSD_SUCCESS and a patch, which stays on disk. *)
Theorem diff_succeeds {A} `{ALL : AllocatorLaws A} `{AB : AllocatorBudget A} `{!AllocatorBudgetLaws A} ctx (env : diff_env A) src dest :
  ctx_ok ctx → diff_env_ok (ctx_block_size ctx) src dest env →
  smooth ctx (ctx_block_size ctx) (zlen dest / ctx_block_size ctx) dest env →
  provisioned (de_malloc env) (de_memory env) (dc_opts ctx) (zlen src / ctx_block_size ctx) src →
  src ≠ [] → dest ≠ [] → zlen dest mod ctx_block_size ctx = 0 →
  (opt_enable_relocation (dc_opts ctx) = true → opt_enable_identity (dc_opts ctx) = true) →
  let r := fsd_diff_files env ctx in
  df_status r = Ok tt ∧ is_Some (df_output r) ∧ df_unlinked r = false.
Proof.
  intros Hctx Henv Hsm Hpv Hs Hd Hmod Hopts. cbv zeta.
  pose proof (diff_files_succeeds ctx Hctx env src dest Henv Hsm Hpv Hs Hd Hmod Hopts) as H.
  pose proof (diff_files_spec ctx Hctx env src dest Henv) as Hspec. unfold diff_ok in Hspec. rewrite H in Hspec.
  destruct Hspec as (dbs & t & ws & output & [_ _ _ Ho Hk _ _]). split_and!; [done| |done]. rewrite Ho. by eexists.
Qed.

Lemma diff_succeeds_witness :
  df_status (fsd_diff_files demo_diff_env demo_ctx) = Ok tt ∧ is_Some (df_output (fsd_diff_files demo_diff_env demo_ctx)).
Proof.
  destruct (diff_succeeds demo_ctx demo_diff_env demo_src demo_dest demo_ctx_ok demo_diff_env_ok) as (H & Ho & _).
  - constructor; try reflexivity.
    + exists demo_reader. split; [reflexivity|]. discriminate.
    + exists (file_new 1000). split; [reflexivity|]. split; [reflexivity|]. vm_compute. discriminate.
    + exists (file_new 1000). split; [reflexivity|]. split; [reflexivity|]. vm_compute. discriminate.
    + exists (file_new 1000). split; [reflexivity|]. split; [reflexivity|]. vm_compute. discriminate.
    + exists (file_new 1000). split; [reflexivity|]. split; [reflexivity|]. vm_compute. discriminate.
  - constructor.
    + vm_compute. discriminate.
    + intros _. vm_compute. discriminate.
    + intros d _ Hd. vm_compute in Hd. discriminate Hd.
  - discriminate.
  - discriminate.
  - vm_compute. reflexivity.
  - reflexivity.
  - split; [exact H|exact Ho].
Defined.
