(* ===== verification/Library.v ===== *)
(** The entry points of the library (src/patch.c): contexts and options of the
    patcher, error strings, and the start-up that threads may race for.

    fsd_init picks a SIMD implementation and fills the dispatch table g_fsd_simd,
    which other threads read without a lock.  Threads are step-wise programs here:
    a state holds g_init_state, the table and where each thread stands, and [init_step]
    is one atomic access of one thread, interleaved arbitrarily.  Each assignment
    to a field of the table is a step of its own, so that a table in the making can
    be observed.  Memory orders weaker than sequential consistency are not
    modelled: the accesses of fsd_init are an acquire/release pair on
    g_init_state.

    Shown here: under any interleaving whatever, every routine that the table
    offers is correct, even in a half-written table; if fsd_cleanup and the switch
    to scalar code are left to moments when no other thread uses the library,
    one thread at a time writes the table, a thread that returned from fsd_init
    sees the complete one, and every call of fsd_init can finish; fsd_init does not
    bring vector code back after the switch. *)

From stdpp Require Import base list numbers tactics strings gmap relations.
From Stdlib Require Import ZArith Lia.
From S2P Require Import Prelude Source Simd.
Open Scope Z_scope.

(** * Contexts and error strings *)

Record fsd_patch_options_t := mkPatchOptions {
  po_verify_output : bool;
  po_source_mode : fsd_source_mode_t
}.

Record fsd_patch_ctx := mkPatchCtx { pc_opts : fsd_patch_options_t; pc_progress_cb : bool }.

Definition fsd_patch_options_init : fsd_patch_options_t := mkPatchOptions false FSD_SOURCE_AUTO.

Definition sizeof_patch_ctx : Z := 40.

Definition fsd_patch_create (malloc_ok : Z → bool) (opts : option fsd_patch_options_t) : outcome fsd_patch_ctx :=
  if negb (malloc_ok sizeof_patch_ctx) then Err FSD_ERR_OUT_OF_MEMORY else
  Ok (mkPatchCtx (default fsd_patch_options_init opts) false).

Definition fsd_patch_set_progress (ctx : fsd_patch_ctx) (callback : bool) : fsd_patch_ctx :=
  mkPatchCtx (pc_opts ctx) callback.

Definition fsd_strerror (err : fsd_error_t) : string :=
  match err with
  | FSD_SUCCESS => "Success"
  | FSD_ERR_INVALID_ARG => "Invalid argument"
  | FSD_ERR_OUT_OF_MEMORY => "Out of memory"
  | FSD_ERR_IO => "I/O error"
  | FSD_ERR_CORRUPT_DATA => "Corrupt data"
  | FSD_ERR_BAD_MAGIC => "Invalid magic number"
  | FSD_ERR_BAD_VERSION => "Unsupported version"
  | FSD_ERR_BAD_BLOCK_SIZE => "Invalid block size"
  | FSD_ERR_SIZE_MISMATCH => "Size mismatch"
  | FSD_ERR_NOT_INITIALIZED => "Not initialized"
  | FSD_ERR_CANCELLED => "Operation cancelled"
  | FSD_ERR_FILE_NOT_FOUND => "File not found"
  | FSD_ERR_PERMISSION => "Permission denied"
  | FSD_ERR_MMAP_FAILED => "Memory mapping failed"
  | FSD_ERR_TRUNCATED => "Unexpected end of file"
  | FSD_ERR_BAD_OPERATION => "Unknown operation"
  end%string.

Definition fsd_version : string := "1.0.0".

(** * The writes of fsd_simd_init *)

(** One assignment to a field of g_fsd_simd. *)
Inductive table_write : Type :=
| WCaps (caps : Z)
| WName (name : option string)
| WIsZero (f : option (bytes → Z → Z → outcome bool))
| WIsOne (f : option (bytes → Z → Z → outcome bool))
| WCountMatches (f : option (bytes → Z → bytes → Z → Z → outcome Z)).

Definition assign (g : fsd_simd_dispatch_t) (w : table_write) : fsd_simd_dispatch_t :=
  match w with
  | WCaps c => mkDispatch c (sd_name g) (sd_is_zero g) (sd_is_one g) (sd_count_matches g)
  | WName n => mkDispatch (sd_caps g) n (sd_is_zero g) (sd_is_one g) (sd_count_matches g)
  | WIsZero f => mkDispatch (sd_caps g) (sd_name g) f (sd_is_one g) (sd_count_matches g)
  | WIsOne f => mkDispatch (sd_caps g) (sd_name g) (sd_is_zero g) f (sd_count_matches g)
  | WCountMatches f => mkDispatch (sd_caps g) (sd_name g) (sd_is_zero g) (sd_is_one g) f
  end.

(** The body of one of the setup functions. *)
Definition table_writes (d : fsd_simd_dispatch_t) : list table_write :=
  [WCaps (sd_caps d); WName (sd_name d); WIsZero (sd_is_zero d); WIsOne (sd_is_one d);
   WCountMatches (sd_count_matches d)].

Section Start.
Context `{Avx2} `{Neon} (has_avx2 has_neon : bool) (tg : target).

(** fsd_simd_init: the scalar table first, then perhaps another one over it. *)
Definition simd_init_writes : list table_write :=
  table_writes setup_scalar_dispatch ++
  match tg with
  | X86 cpu =>
      if has_avx2 && negb (Z.land (detect_x86_caps cpu) FSD_SIMD_AVX2 =? 0)
      then table_writes setup_avx2_dispatch else []
  | ARM64 | ARM32_LINUX _ | ARM32_OTHER =>
      if has_neon && negb (Z.land (detect_arm_caps tg) FSD_SIMD_NEON =? 0)
      then table_writes setup_neon_dispatch else []
  | OTHER_TARGET => []
  end.

(** * Threads *)

(** Where a thread stands. *)
Inductive place : Type :=
| Outside                               (** not using the library *)
| AtLoad                                (** fsd_init called *)
| AtExchange                            (** the load did not give 2 *)
| Writing (todo : list table_write)     (** in fsd_simd_init; then the store of 2 *)
| Spinning
| Using                                 (** fsd_init returned *)
| Forcing (todo : list table_write).    (** in fsd_simd_force_scalar *)

Record init_state := mkInit {
  is_flag : Z;                          (** g_init_state *)
  is_table : fsd_simd_dispatch_t;       (** g_fsd_simd *)
  is_threads : gmap nat place
}.

Definition put (i : nat) (p : place) (s : init_state) : init_state :=
  mkInit (is_flag s) (is_table s) (<[i := p]> (is_threads s)).

Definition set_flag (z : Z) (s : init_state) : init_state := mkInit z (is_table s) (is_threads s).

Definition write (w : table_write) (s : init_state) : init_state :=
  mkInit (is_flag s) (assign (is_table s) w) (is_threads s).

(** What a thread does next. *)
Inductive action : Type := Init | Cleanup | Force | Leave.

(** One access of thread [i], in the course of [a]. *)
Inductive init_step (i : nat) : action → init_state → init_state → Prop :=
| step_call p s : is_threads s !! i = Some p → p = Outside ∨ p = Using → init_step i Init s (put i AtLoad s)
| step_load_done s : is_threads s !! i = Some AtLoad → is_flag s = 2 → init_step i Init s (put i Using s)
| step_load_other s : is_threads s !! i = Some AtLoad → is_flag s ≠ 2 → init_step i Init s (put i AtExchange s)
| step_exchange_won s : is_threads s !! i = Some AtExchange → is_flag s = 0 →
    init_step i Init s (put i (Writing simd_init_writes) (set_flag 1 s))
| step_exchange_lost s : is_threads s !! i = Some AtExchange → is_flag s ≠ 0 → init_step i Init s (put i Spinning s)
| step_write w todo s : is_threads s !! i = Some (Writing (w :: todo)) →
    init_step i Init s (put i (Writing todo) (write w s))
| step_publish s : is_threads s !! i = Some (Writing []) → init_step i Init s (put i Using (set_flag 2 s))
| step_spin s : is_threads s !! i = Some Spinning → is_flag s ≠ 2 → init_step i Init s s
| step_spin_done s : is_threads s !! i = Some Spinning → is_flag s = 2 → init_step i Init s (put i Using s)
| step_cleanup p s : is_threads s !! i = Some p → p = Outside ∨ p = Using →
    init_step i Cleanup s (put i Outside (set_flag 0 s))
| step_force s : is_threads s !! i = Some Using →
    init_step i Force s (put i (Forcing (table_writes setup_scalar_dispatch)) s)
| step_force_write w todo s : is_threads s !! i = Some (Forcing (w :: todo)) →
    init_step i Force s (put i (Forcing todo) (write w s))
| step_force_done s : is_threads s !! i = Some (Forcing []) → init_step i Force s (put i Using s)
| step_leave s : is_threads s !! i = Some Using → init_step i Leave s (put i Outside s).

(** Any interleaving. *)
Definition any_step (s s' : init_state) : Prop := ∃ i a, init_step i a s s'.

(** The documented use: fsd_cleanup when the library is no longer used, and no
    switch to scalar code. *)
Definition quiet (i : nat) (s : init_state) : Prop :=
  ∀ j p, j ≠ i → is_threads s !! j = Some p → p = Outside.

Definition good_step (s s' : init_state) : Prop :=
  ∃ i a, init_step i a s s' ∧ a ≠ Force ∧ (a = Cleanup → quiet i s).

(** The program starts with [n] threads. *)
Definition boot (n : nat) : init_state :=
  mkInit 0 simd_uninitialized (list_to_map ((fun i => (i, Outside)) <$> seq 0 n)).

(** * The table *)

Lemma assign_writes d g : foldl assign g (table_writes d) = d.
Proof. by destruct d. Qed.

Lemma init_writes_final g : foldl assign g simd_init_writes = fsd_simd_init has_avx2 has_neon tg.
Proof.
  unfold simd_init_writes, fsd_simd_init. rewrite foldl_app, assign_writes.
  destruct tg; [destruct (_ && _)|destruct (_ && _)|destruct (_ && _)|destruct (_ && _)|]; try apply assign_writes; done.
Qed.

(** A field may be replaced by that of a correct table. *)
Definition write_ok (w : table_write) : Prop := ∀ g, simd_ok g → simd_ok (assign g w).

Lemma table_writes_ok d : simd_ok d → Forall write_ok (table_writes d).
Proof.
  intros [Hz Ho Hc]. repeat (apply List.Forall_cons; [intros g [Hz' Ho' Hc']; constructor; cbn; assumption|]).
  apply List.Forall_nil.
Qed.

(** What is left to write. *)
Definition todo_of (p : place) : list table_write :=
  match p with Writing todo | Forcing todo => todo | _ => [] end.

Record usable (s : init_state) : Prop := {
  us_table : simd_ok (is_table s);
  us_todo j p : is_threads s !! j = Some p → Forall write_ok (todo_of p)
}.

Lemma usable_put s i p : usable s → Forall write_ok (todo_of p) → usable (put i p s).
Proof.
  intros [Ht Hd] Hp. constructor; [done|]. intros j q Hq. cbn in Hq.
  apply lookup_insert_Some in Hq as [[-> ->]|[_ Hq]]; eauto.
Qed.

Lemma usable_flag s z : usable s → usable (set_flag z s).
Proof. by intros [Ht Hd]; constructor. Qed.

Lemma usable_write s w : usable s → write_ok w → usable (write w s).
Proof. intros [Ht Hd] Hw. constructor; cbn; [by apply Hw|done]. Qed.

(** * The flag *)

(** A thread that has not looked at the flag to any purpose. *)
Definition uncommitted (p : place) : bool :=
  match p with Outside | AtLoad | AtExchange => true | _ => false end.

Definition waiting (p : place) : bool := uncommitted p || match p with Spinning => true | _ => false end.

Definition idle (p : place) : bool := waiting p || match p with Using => true | _ => false end.

(** All threads but [i] stand where [f] says. *)
Definition others (f : place → bool) (i : nat) (s : init_state) : Prop :=
  ∀ j p, j ≠ i → is_threads s !! j = Some p → f p.

Definition all (f : place → bool) (s : init_state) : Prop := ∀ j p, is_threads s !! j = Some p → f p.

(** Nothing set up yet; thread [i] at it; all set up. *)
Inductive phase (s : init_state) : Prop :=
| Unset : is_flag s = 0 → all uncommitted s → phase s
| Busy i todo : is_flag s = 1 → is_threads s !! i = Some (Writing todo) →
    foldl assign (is_table s) todo = fsd_simd_init has_avx2 has_neon tg → others waiting i s → phase s
| Ready : is_flag s = 2 → is_table s = fsd_simd_init has_avx2 has_neon tg → all idle s → phase s.

Lemma others_put f i j p s : others f i s → (j ≠ i → f p) → others f i (put j p s).
Proof. intros Ho Hp k q Hk Hq. cbn in Hq. apply lookup_insert_Some in Hq as [[<- <-]|[_ Hq]]; eauto. Qed.

Lemma all_put f j p s : others f j s → f p → all f (put j p s).
Proof.
  intros Ho Hp k q Hq. cbn in Hq. apply lookup_insert_Some in Hq as [[_ <-]|[Hne Hq]]; [done|]. by eapply Ho.
Qed.

Lemma all_others f i s : all f s → others f i s.
Proof. intros Ha k q _. apply Ha. Qed.

Lemma others_mono (f h : place → bool) i s : others f i s → (∀ p, f p → h p) → others h i s.
Proof. intros Ho Hm k q Hk Hq. eapply Hm, Ho; eauto. Qed.

Lemma early_waiting p : uncommitted p → waiting p.
Proof. by destruct p. Qed.

Lemma waiting_idle p : waiting p → idle p.
Proof. by destruct p. Qed.

Lemma put_lookup i p s : is_threads (put i p s) !! i = Some p.
Proof. apply lookup_insert_eq. Qed.

Lemma put_lookup_ne i j p s : i ≠ j → is_threads (put i p s) !! j = is_threads s !! j.
Proof. apply lookup_insert_ne. Qed.

Lemma unset_step i a s s' :
  init_step i a s s' → a ≠ Force → is_flag s = 0 → all uncommitted s → phase s'.
Proof.
  intros Hs Ha Hf He. pose proof (all_others _ i _ He) as Ho.
  destruct Hs as [p s Hp Hpl|s Hp Hl|s Hp Hl|s Hp Hl|s Hp Hl|w todo s Hp|s Hp|s Hp Hl|s Hp Hl|p s Hp Hpl|s Hp|w todo s Hp|
    s Hp|s Hp]; try (by destruct (He _ _ Hp)); try done; try congruence; try (by apply Unset; [|apply all_put]).
  eapply (Busy _ i simd_init_writes); [done|apply put_lookup|apply init_writes_final|].
  apply others_put; [|done]. eapply others_mono; [exact Ho|apply early_waiting].
Qed.

Lemma busy_step i a s s' k todo :
  init_step i a s s' → a ≠ Force → (a = Cleanup → quiet i s) → is_flag s = 1 → is_threads s !! k = Some (Writing todo) →
  foldl assign (is_table s) todo = fsd_simd_init has_avx2 has_neon tg → others waiting k s → phase s'.
Proof.
  intros Hs Ha Hq Hf Hk Hfin Ho.
  assert (Hkeep : ∀ p, i ≠ k → waiting p → phase (put i p s)).
  { intros p Hne Hw. eapply (Busy _ k todo); [done|by rewrite put_lookup_ne|done|by apply others_put]. }
  assert (Hik : ∀ p, is_threads s !! i = Some p → (∀ t, p ≠ Writing t) → i ≠ k).
  { intros p Hp Hnw ->. rewrite Hk in Hp. injection Hp as <-. by eapply Hnw. }
  destruct Hs as [p s Hp Hpl|s Hp Hl|s Hp Hl|s Hp Hl|s Hp Hl|w ws s Hp|s Hp|s Hp Hl|s Hp Hl|p s Hp Hpl|s Hp|w ws s Hp|
    s Hp|s Hp]; try congruence.
  - apply Hkeep; [|done]. eapply Hik; [exact Hp|]. by destruct Hpl as [-> | ->].
  - apply Hkeep; [by eapply Hik|done].
  - apply Hkeep; [by eapply Hik|done].
  - destruct (decide (i = k)) as [->|Hne]; [|by specialize (Ho _ _ Hne Hp)].
    rewrite Hk in Hp. injection Hp as ->.
    eapply (Busy _ k ws); [done|apply put_lookup|done|]. apply others_put; [exact Ho|done].
  - destruct (decide (i = k)) as [->|Hne]; [|by specialize (Ho _ _ Hne Hp)].
    rewrite Hk in Hp. injection Hp as ->. apply Ready; [done|done|]. apply all_put; [|done].
    eapply others_mono; [exact Ho|apply waiting_idle].
  - by eapply (Busy _ k todo).
  - exfalso. assert (Hne : i ≠ k) by (eapply Hik; [exact Hp|by destruct Hpl as [-> | ->]]).
    pose proof (Hq eq_refl k _ (not_eq_sym Hne) Hk). done.
  - by specialize (Ho _ _ (Hik _ Hp ltac:(done)) Hp).
Qed.

Lemma ready_step i a s s' :
  init_step i a s s' → a ≠ Force → (a = Cleanup → quiet i s) → is_flag s = 2 →
  is_table s = fsd_simd_init has_avx2 has_neon tg → all idle s → phase s'.
Proof.
  intros Hs Ha Hq Hf Hfin Hal. pose proof (all_others _ i _ Hal) as Ho.
  destruct Hs as [p s Hp Hpl|s Hp Hl|s Hp Hl|s Hp Hl|s Hp Hl|w todo s Hp|s Hp|s Hp Hl|s Hp Hl|p s Hp Hpl|s Hp|w todo s Hp|
    s Hp|s Hp]; try (by destruct (Hal _ _ Hp)); try done; try congruence; try (by apply Ready; [| |apply all_put]).
  apply Unset; [done|]. apply all_put; [|done]. intros j q Hj Hjq. by rewrite (Hq eq_refl j q Hj Hjq).
Qed.

Lemma good_step_phase s s' : good_step s s' → phase s → phase s'.
Proof.
  intros (i & a & Hs & Ha & Hq) [Hf He|k todo Hf Hk Hfin Ho|Hf Ht Hal];
    eauto using unset_step, busy_step, ready_step.
Qed.

Lemma boot_threads n j p : is_threads (boot n) !! j = Some p → p = Outside.
Proof.
  intros Hj%elem_of_list_to_map_2. apply list_elem_of_fmap in Hj as (k & [= -> ->] & _). done.
Qed.

Lemma boot_phase n : phase (boot n).
Proof. apply Unset; [done|]. intros j p Hj. by rewrite (boot_threads n j p Hj). Qed.

Lemma reachable_phase n s : rtc good_step (boot n) s → phase s.
Proof.
  intros Hr. revert Hr. generalize (boot_phase n). generalize (boot n). intros s0 Hp0 Hr.
  induction Hr as [|s0 s1 s2 Hs _ IH]; [done|]. by eapply IH, good_step_phase.
Qed.

(** * A call can finish *)

Lemma init_good i s s' : init_step i Init s s' → rtc good_step s s'.
Proof. intros Hs. apply rtc_once. by exists i, Init. Qed.

Lemma finish_writing i todo s :
  is_threads s !! i = Some (Writing todo) →
  ∃ s', rtc good_step s s' ∧ is_flag s' = 2 ∧ is_threads s' = <[i := Using]> (is_threads s).
Proof.
  revert s. induction todo as [|w todo IH]; intros s Hi.
  - eexists. split; [apply (init_good i), step_publish, Hi|]. done.
  - destruct (IH (put i (Writing todo) (write w s)) (put_lookup i _ _)) as (s' & Hr & Hf & Ht).
    exists s'. split; [|split; [done|]].
    + etrans; [apply (init_good i), step_write, Hi|exact Hr].
    + rewrite Ht. cbn. by rewrite insert_insert_eq.
Qed.

Lemma call_finishes_ready i p s :
  is_flag s = 2 → is_threads s !! i = Some p → idle p → p ≠ Outside →
  ∃ s', rtc good_step s s' ∧ is_threads s' !! i = Some Using.
Proof.
  intros Hf Hi Hp Ho. destruct p; try done.
  - eexists. split; [by apply (init_good i), step_load_done|apply put_lookup].
  - eexists. split; [|apply put_lookup]. etrans.
    + apply (init_good i), step_exchange_lost; [exact Hi|by rewrite Hf].
    + apply (init_good i), step_spin_done; [apply put_lookup|done].
  - eexists. split; [by apply (init_good i), step_spin_done|apply put_lookup].
  - exists s. by split.
Qed.

Lemma call_finishes_busy i k p todo s :
  is_threads s !! k = Some (Writing todo) → others waiting k s →
  is_threads s !! i = Some p → p ≠ Outside →
  ∃ s', rtc good_step s s' ∧ is_threads s' !! i = Some Using.
Proof.
  intros Hk Ho Hi Hp. destruct (finish_writing k todo s Hk) as (s1 & Hr & Hf & Ht).
  destruct (decide (i = k)) as [->|Hne].
  - exists s1. split; [done|]. rewrite Ht. apply lookup_insert_eq.
  - destruct (call_finishes_ready i p s1 Hf) as (s2 & Hr2 & Hu); [by rewrite Ht, lookup_insert_ne| |done|].
    + apply waiting_idle. by eapply Ho.
    + exists s2. split; [by etrans|done].
Qed.

Lemma call_finishes_unset i p s :
  is_flag s = 0 → all uncommitted s → is_threads s !! i = Some p → p ≠ Outside →
  ∃ s', rtc good_step s s' ∧ is_threads s' !! i = Some Using.
Proof.
  intros Hf He Hi Hp.
  assert (Hat : ∀ s0, is_flag s0 = 0 → is_threads s0 !! i = Some AtExchange →
    ∃ s', rtc good_step s0 s' ∧ is_threads s' !! i = Some Using).
  { intros s0 Hf0 Hi0. destruct (finish_writing i simd_init_writes
      (put i (Writing simd_init_writes) (set_flag 1 s0)) (put_lookup i _ _)) as (s' & Hr & _ & Ht).
    exists s'. split; [|rewrite Ht; apply lookup_insert_eq].
    etrans; [apply (init_good i), step_exchange_won; done|exact Hr]. }
  pose proof (He _ _ Hi) as Hep. destruct p; try done.
  - destruct (Hat (put i AtExchange s)) as (s' & Hr & Hu); [done|apply put_lookup|].
    exists s'. split; [|done]. etrans; [|exact Hr]. apply (init_good i), step_load_other; [done|by rewrite Hf].
  - by apply Hat.
Qed.

(** * Properties *)

Context {AVL : Avx2Laws} {NEL : NeonLaws}.

Lemma init_writes_ok : Forall write_ok simd_init_writes.
Proof.
  unfold simd_init_writes. apply Forall_app. split; [apply table_writes_ok, scalar_ok|].
  destruct tg; repeat case_match;
    first [apply table_writes_ok, avx2_ok | apply table_writes_ok, neon_ok | apply List.Forall_nil].
Qed.

Lemma any_step_usable s s' : any_step s s' → usable s → usable s'.
Proof.
  intros (i & a & Hs) Hu. pose proof (us_todo s Hu i) as Hi.
  destruct Hs as [p s Hp Hpl|s Hp Hl|s Hp Hl|s Hp Hl|s Hp Hl|w ws s Hp|s Hp|s Hp Hl|s Hp Hl|p s Hp Hpl|s Hp|w ws s Hp|
    s Hp|s Hp]; try (by repeat first [done|apply usable_put|apply usable_flag]).
  - apply usable_put; [by apply usable_flag|apply init_writes_ok].
  - destruct (proj1 (Forall_cons_iff _ _ _) (Hi _ Hp)). apply usable_put; [by apply usable_write|done].
  - apply usable_put; [done|apply table_writes_ok, scalar_ok].
  - destruct (proj1 (Forall_cons_iff _ _ _) (Hi _ Hp)). apply usable_put; [by apply usable_write|done].
Qed.

Lemma reachable_usable n s : rtc any_step (boot n) s → usable s.
Proof.
  intros Hr. assert (Hb : usable (boot n)).
  { constructor; [apply simd_uninitialized_ok|]. intros j p Hj. rewrite (boot_threads n j p Hj). apply List.Forall_nil. }
  revert Hb Hr. generalize (boot n). intros s0 Hs0 Hr.
  induction Hr as [|s0 s1 s2 Hs _ IH]; [done|]. by eapply IH, any_step_usable.
Qed.

(** C24: start-up is safe however the threads interleave.  In every reachable
    state, half-written tables included, each routine of the table computes its
    specification.  When fsd_cleanup is only called while no other thread uses the
    library and nobody switches to scalar code, the table that a thread sees after
    fsd_init is the complete one that the detection selects, nobody is writing it,
    and never do two threads write it at once. *)
Theorem init_safe n s :
  (rtc any_step (boot n) s → simd_ok (is_table s)) ∧
  (rtc good_step (boot n) s →
   (∀ i, is_threads s !! i = Some Using →
      is_table s = fsd_simd_init has_avx2 has_neon tg ∧ ∀ j todo, is_threads s !! j ≠ Some (Writing todo)) ∧
   (∀ i j todo todo', is_threads s !! i = Some (Writing todo) → is_threads s !! j = Some (Writing todo') → i = j)).
Proof.
  split; [intros Hr; apply (us_table s), (reachable_usable n), Hr|]. intros Hr.
  destruct (reachable_phase n s Hr) as [Hf He|k todo Hf Hk Hfin Ho|Hf Ht Hal]; split.
  - intros i Hi. by destruct (He _ _ Hi).
  - intros i j t t' Hi. by destruct (He _ _ Hi).
  - intros i Hi. destruct (decide (i = k)) as [->|Hne]; [congruence|]. by destruct (Ho _ _ Hne Hi).
  - intros i j t t' Hi Hj. destruct (decide (i = k)) as [->|Hne]; [|by destruct (Ho _ _ Hne Hi)].
    destruct (decide (j = k)) as [->|Hne]; [done|by destruct (Ho _ _ Hne Hj)].
  - intros i Hi. split; [done|]. intros j t Hj. by destruct (Hal _ _ Hj).
  - intros i j t t' Hi. by destruct (Hal _ _ Hi).
Qed.

(** C25: no call of fsd_init is stuck: from every state that documented use reaches
    (no switch to scalar code, fsd_cleanup only when no other thread uses the
    library), a thread that
    has called it can be brought to return, by steps of itself and of the thread
    that is writing the table. *)
Theorem init_can_finish n s i p :
  rtc good_step (boot n) s → is_threads s !! i = Some p → p ≠ Outside →
  ∃ s', rtc good_step s s' ∧ is_threads s' !! i = Some Using.
Proof.
  intros Hr Hi Hp. destruct (reachable_phase n s Hr) as [Hf He|k todo Hf Hk Hfin Ho|Hf Ht Hal].
  - by eapply call_finishes_unset.
  - by eapply call_finishes_busy.
  - eapply call_finishes_ready; eauto.
Qed.

(** Once the library is set up, fsd_init only looks at the flag: a call is two
    steps that leave the table alone.  After a switch to scalar code it therefore
    does not bring the vector code back. *)
Theorem reinit_keeps_table s i s1 s2 :
  is_flag s = 2 → is_threads s !! i = Some Using → init_step i Init s s1 → init_step i Init s1 s2 →
  is_threads s2 !! i = Some Using ∧ is_table s2 = is_table s.
Proof.
  intros Hf Hi Hs1 Hs2.
  assert (s1 = put i AtLoad s) as ->.
  { inversion Hs1; subst; try congruence. }
  inversion Hs2 as [p s' Hp Hpl|s' Hp Hl|s' Hp Hl|s' Hp Hl|s' Hp Hl|w ws s' Hp|s' Hp|s' Hp Hl|s' Hp Hl| | | | |]; subst;
    rewrite put_lookup in Hp; try congruence; try done.
  - injection Hp as <-. by destruct Hpl.
  - split; [apply put_lookup|done].
Qed.

End Start.

(** ** Two threads on a processor with AVX2 *)

Abbreviation demo_good := (good_step true false (X86 demo_cpu)).

Lemma demo_start : rtc demo_good (boot 2) (put 0 AtLoad (boot 2)).
Proof. apply rtc_once. exists 0%nat, Init. split; [|done]. apply (step_call _ _ _ _ Outside); [reflexivity|by left]. Qed.

Lemma demo_started : ∃ s, rtc demo_good (boot 2) s ∧ is_threads s !! 0%nat = Some Using.
Proof.
  destruct (call_finishes_unset true false (X86 demo_cpu) 0 AtLoad (put 0 AtLoad (boot 2))) as (s & Hr & Hu);
    [done| |apply put_lookup|done|].
  - apply all_put; [|done]. intros j p _ Hp. by rewrite (boot_threads 2 j p Hp).
  - exists s. split; [|done]. etrans; [apply demo_start|exact Hr].
Qed.

Lemma init_safe_witness :
  ∃ s, rtc demo_good (boot 2) s ∧ is_threads s !! 0%nat = Some Using ∧ sd_caps (is_table s) = FSD_SIMD_AVX2.
Proof.
  destruct demo_started as (s & Hr & Hu). exists s. split; [exact Hr|]. split; [exact Hu|].
  destruct (init_safe true false (X86 demo_cpu) 2 s) as [_ Hs].
  destruct (proj1 (Hs Hr) 0%nat Hu) as [Ht _]. rewrite Ht. reflexivity.
Defined.

Lemma init_can_finish_witness :
  ∃ s', rtc demo_good (put 0 AtLoad (boot 2)) s' ∧ is_threads s' !! 0%nat = Some Using.
Proof.
  exact (init_can_finish true false (X86 demo_cpu) 2 (put 0 AtLoad (boot 2)) 0 AtLoad demo_start
           (put_lookup _ _ _) ltac:(discriminate)).
Defined.

(** The first thread has set up the library, then switched to scalar code. *)
Definition demo_forced : init_state := mkInit 2 setup_scalar_dispatch {[0%nat := Using]}.

Lemma reinit_keeps_table_witness :
  is_table (put 0 Using (put 0 AtLoad demo_forced)) = setup_scalar_dispatch.
Proof.
  apply (reinit_keeps_table true false (X86 demo_cpu) demo_forced 0 (put 0 AtLoad demo_forced)).
  - reflexivity.
  - reflexivity.
  - apply (step_call _ _ _ _ Using); [reflexivity|by right].
  - apply step_load_done; reflexivity.
Defined.
