(* ===== verification/Getopt.v ===== *)
(** The replacement for getopt_long on Windows (src/getopt_compat.h).

    The arguments are C strings: lists of bytes without a zero, which [char_at]
    supplies at the end.  The function keeps its place in static variables, here
    the record [getopt_state]: the argument [optind], the character [sp] inside a
    cluster of short options, and [optarg], a pointer into an argument, as the
    string it points to.  opterr is never cleared, so it only decides about
    messages, which are left out; the callers pass no flags and no longindex.

    Shown here: whatever the arguments, the loop over the options ends, reads no
    string beyond its end, and hands an argument to every option that needs one;
    and options written in any of the usual ways are read back as written, up to
    the first operand. *)

From stdpp Require Import base list numbers tactics strings.
From Stdlib Require Import ZArith Lia Ascii.
From S2P Require Import Prelude Stdio.
Open Scope Z_scope.

(** * The program *)

(** A C string has no zero inside. *)
Definition cstring (s : bytes) : Prop := Forall (fun c => 0 < c < 256) s.

(** s[i], the terminating zero included. *)
Definition char_at (s : bytes) (i : Z) : outcome Z :=
  match zget (s ++ [0]) i with Some c => Ok c | None => UB end.

(** strchr: what follows the first [c]. *)
Fixpoint strchr (s : bytes) (c : Z) : option bytes :=
  match s with
  | [] => None
  | d :: s => if d =? c then Some s else strchr s c
  end.

(** strncmp(a, b, n) == 0 *)
Definition strncmp_eq (a b : bytes) (n : Z) : bool := bool_decide (take (Z.to_nat n) a = take (Z.to_nat n) b).

Inductive arg_kind : Type := no_argument | required_argument | optional_argument.

#[global] Instance arg_kind_eq_dec : EqDecision arg_kind.
Proof. solve_decision. Defined.

Record option_t : Type := mkOption { lo_name : bytes; lo_has_arg : arg_kind; lo_val : Z }.

Record getopt_state : Type := mkGetopt {
  optarg : option bytes;
  optind : Z;
  optopt : Z;
  sp : Z
}.

Definition getopt_init : getopt_state := mkGetopt None 1 0 1.

(** The code '?' and the end of the options. *)
Definition BAD_OPTION : Z := 63.
Definition NO_OPTION : Z := - 1.

Section Getopt.
Context (argv : list bytes) (optstring : bytes) (longopts : list option_t).

Definition argc : Z := zlen argv.

Definition set_place (i k : Z) (s : getopt_state) : getopt_state := mkGetopt (optarg s) i (optopt s) k.
Definition set_optarg (a : option bytes) (s : getopt_state) : getopt_state := mkGetopt a (optind s) (optopt s) (sp s).
Definition set_optopt (c : Z) (s : getopt_state) : getopt_state := mkGetopt (optarg s) (optind s) c (sp s).

Definition arg_at (i : Z) : outcome bytes := match zget argv i with Some a => Ok a | None => UB end.

(** while (opt && opt->name), for an argument "--" [name]. *)
Fixpoint long_loop (name : bytes) (opts : list option_t) (s : getopt_state) : outcome (Z * getopt_state) :=
  match opts with
  | [] => Ok (BAD_OPTION, set_place (optind s + 1) (sp s) s)
  | opt :: opts =>
      let eq := strchr name 61 in
      let cmp_len := match eq with Some v => zlen name - zlen v - 1 | None => zlen name end in
      if strncmp_eq name (lo_name opt) cmp_len && (zlen (lo_name opt) =? cmp_len) then
        let s := set_place (optind s + 1) (sp s) s in
        match lo_has_arg opt with
        | required_argument =>
            match eq with
            | Some v => Ok (lo_val opt, set_optarg (Some v) s)
            | None =>
                if optind s <? argc then
                  a ← arg_at (optind s);
                  Ok (lo_val opt, set_place (optind s + 1) (sp s) (set_optarg (Some a) s))
                else Ok (BAD_OPTION, s)
            end
        | _ => Ok (lo_val opt, s)
        end
      else long_loop name opts s
  end.

(** From the comment "Short option" on.  A zero would be found at the end of
    [optstring], and the character after it read. *)
Definition short_option (s : getopt_state) : outcome (Z * getopt_state) :=
  arg ← arg_at (optind s);
  c ← char_at arg (sp s);
  let s := set_optopt (sgn 8 c) s in
  if c =? 0 then UB else
  match (if c =? 58 then None else strchr optstring c) with
  | None =>
      next ← char_at arg (sp s + 1);
      Ok (BAD_OPTION, if next =? 0 then set_place (optind s + 1) 1 s else set_place (optind s) (sp s + 1) s)
  | Some cp =>
      colon ← char_at cp 0;
      if colon =? 58 then
        next ← char_at arg (sp s + 1);
        if negb (next =? 0) then
          Ok (sgn 8 c, set_place (optind s + 1) 1 (set_optarg (Some (drop (Z.to_nat (sp s + 1)) arg)) s))
        else
          let s := set_place (optind s + 1) 1 s in
          if argc <=? optind s then Ok (BAD_OPTION, s) else
          a ← arg_at (optind s);
          Ok (sgn 8 c, set_place (optind s + 1) 1 (set_optarg (Some a) s))
      else
        next ← char_at arg (sp s + 1);
        let s := if next =? 0 then set_place (optind s + 1) 1 s else set_place (optind s) (sp s + 1) s in
        Ok (sgn 8 c, set_optarg None s)
  end.

Definition getopt_long (s : getopt_state) : outcome (Z * getopt_state) :=
  if sp s =? 1 then
    if argc <=? optind s then Ok (NO_OPTION, s) else
    arg ← arg_at (optind s);
    c0 ← char_at arg 0;
    if negb (c0 =? 45) then Ok (NO_OPTION, s) else
    c1 ← char_at arg 1;
    if c1 =? 0 then Ok (NO_OPTION, s) else
    if bool_decide (arg = [45; 45]) then Ok (NO_OPTION, set_place (optind s + 1) (sp s) s) else
    if c1 =? 45 then long_loop (drop 2 arg) longopts s else short_option s
  else short_option s.

(** while ((opt = getopt_long(...)) != -1): the options with their arguments and
    the state at the end. *)
Fixpoint getopt_all (fuel : nat) (s : getopt_state) : outcome (list (Z * option bytes) * getopt_state) :=
  match fuel with
  | O => NoFuel
  | S fuel =>
      '(c, s) ← getopt_long s;
      if c =? NO_OPTION then Ok ([], s) else
      '(l, s') ← getopt_all fuel s;
      Ok ((c, optarg s) :: l, s')
  end.

(** Every call that finds an option moves on by a character or an argument. *)
Definition getopt_fuel : nat := S (length argv + length (concat argv)).

End Getopt.

(** * Strings *)

Lemma char_at_ok s i : cstring s → 0 ≤ i ≤ zlen s → ∃ c, char_at s i = Ok c ∧ (c = 0 ↔ i = zlen s) ∧ 0 ≤ c < 256.
Proof.
  intros Hs Hi. unfold char_at, zget. destruct (Z.leb_spec 0 i); [|lia].
  destruct (decide (i = zlen s)) as [->|Hne].
  - exists 0. unfold zlen. rewrite Nat2Z.id, lookup_app_r, Nat.sub_diag by lia. done.
  - destruct (lookup_lt_is_Some_2 s (Z.to_nat i)) as [c Hc]; [unfold zlen in *; lia|].
    rewrite lookup_app_l, Hc by (eapply lookup_lt_Some; exact Hc). exists c.
    pose proof (proj1 (Forall_lookup _ _) Hs _ _ Hc) as Hr. cbn in Hr. split; [done|]. lia.
Qed.

Lemma char_at_nth s i c : s !! Z.to_nat i = Some c → 0 ≤ i → char_at s i = Ok c.
Proof.
  intros Hc Hi. unfold char_at, zget. destruct (Z.leb_spec 0 i); [|lia].
  rewrite lookup_app_l; [by rewrite Hc|by eapply lookup_lt_Some].
Qed.

Lemma char_at_end s : char_at s (zlen s) = Ok 0.
Proof.
  unfold char_at, zget. destruct (Z.leb_spec 0 (zlen s)); [|pose proof (zlen_nonneg s); lia].
  unfold zlen. by rewrite Nat2Z.id, lookup_app_r, Nat.sub_diag by lia.
Qed.

Lemma strchr_Some s c r : strchr s c = Some r → ∃ p, s = p ++ c :: r ∧ c ∉ p.
Proof.
  revert r. induction s as [|d s IH]; intros r; [done|]. cbn. destruct (Z.eqb_spec d c) as [->|Hne].
  - intros [= <-]. exists []. split; [done|]. apply not_elem_of_nil.
  - intros H. destruct (IH r H) as (p & -> & Hp). exists (d :: p). split; [done|]. by apply not_elem_of_cons.
Qed.

Lemma strchr_first p c r : c ∉ p → strchr (p ++ c :: r) c = Some r.
Proof.
  induction p as [|d p IH]; cbn; intros Hc; [by rewrite Z.eqb_refl|].
  apply not_elem_of_cons in Hc as [Hd Hc]. destruct (Z.eqb_spec d c); [congruence|]. by apply IH.
Qed.

Lemma strchr_None s c : c ∉ s → strchr s c = None.
Proof.
  induction s as [|d s IH]; cbn; intros Hc; [done|].
  apply not_elem_of_cons in Hc as [Hd Hc]. destruct (Z.eqb_spec d c); [congruence|]. by apply IH.
Qed.

(** * One call *)

Section Proofs.
Context {argv : list bytes} {optstring : bytes} {longopts : list option_t}.
Context (Hargv : Forall cstring argv) (Hopt : Forall (fun c => 0 < c < 128) optstring).
Context (Hlong : Forall (fun o => 0 ≤ lo_val o) longopts).

Abbreviation argc := (argc argv).
Abbreviation arg_at := (arg_at argv).

(** [sp] is inside the argument at [optind]. *)
Record place_ok (s : getopt_state) : Prop := {
  gp_ind : 0 ≤ optind s ≤ Z.max 1 argc;
  gp_sp : 1 ≤ sp s;
  gp_in : sp s ≠ 1 → ∃ a, argv !! Z.to_nat (optind s) = Some a ∧ sp s < zlen a
}.

(** The characters and arguments still to be seen. *)
Definition budget (s : getopt_state) : Z :=
  zlen (concat (drop (Z.to_nat (optind s)) argv)) + zlen (drop (Z.to_nat (optind s)) argv) - (sp s - 1).

(** What a call may return: an error, or an option the caller knows, with an
    argument if it takes one. *)
Definition option_ok (c : Z) (a : option bytes) : Prop :=
  c = BAD_OPTION ∨
  (∃ r, strchr optstring c = Some r ∧ (head r = Some 58 → is_Some a)) ∨
  (∃ o, o ∈ longopts ∧ lo_val o = c ∧ (lo_has_arg o = required_argument → is_Some a)).

Lemma arg_at_ok i : 0 ≤ i < argc → ∃ a, arg_at i = Ok a ∧ argv !! Z.to_nat i = Some a ∧ cstring a.
Proof.
  intros Hi. unfold Getopt.arg_at. destruct (zget_is_Some argv i Hi) as [a Ha]. rewrite Ha.
  unfold zget in Ha. destruct (Z.leb_spec 0 i); [|lia]. exists a. split_and!; [done|done|].
  exact (proj1 (Forall_lookup _ _) Hargv _ _ Ha).
Qed.

Lemma budget_next i a o : 0 ≤ i → argv !! Z.to_nat i = Some a →
  budget (mkGetopt o (i + 1) 0 1) = zlen (concat (drop (Z.to_nat i) argv)) + zlen (drop (Z.to_nat i) argv) - zlen a - 1.
Proof.
  intros Hi Ha. unfold budget. cbn. rewrite (drop_S _ _ _ Ha). replace (Z.to_nat (i + 1)) with (S (Z.to_nat i)) by lia.
  cbn [concat]. rewrite zlen_app, zlen_cons. lia.
Qed.

(** The place after the argument at [i]. *)
Definition after (i : Z) (s : getopt_state) : Prop := optind s = i + 1 ∧ sp s = 1.

Lemma after_place i s : after i s → 0 ≤ i < argc → place_ok s.
Proof. intros [Hi Hs] Hlt. constructor; rewrite ?Hi, ?Hs; [lia|lia|]. intros []. done. Qed.

Lemma after_budget i s s' a :
  after i s' → optind s = i → 0 ≤ i → argv !! Z.to_nat i = Some a → sp s ≤ Z.max 1 (zlen a) → budget s' < budget s.
Proof.
  intros [Hi' Hs'] Hi H0 Ha Hsp. pose proof (budget_next i a (optarg s') H0 Ha) as Hn. pose proof (zlen_nonneg a).
  unfold budget in *. cbn in Hn. rewrite Hi', Hs', Hi. lia.
Qed.

(** A call that consumed the argument at the place, and perhaps the next one. *)
Definition moved (s s' : getopt_state) : Prop := after (optind s) s' ∨ optind s + 1 < argc ∧ after (optind s + 1) s'.

Lemma moved_ok s s' a :
  moved s s' → place_ok s → argv !! Z.to_nat (optind s) = Some a → sp s ≤ Z.max 1 (zlen a) →
  place_ok s' ∧ budget s' < budget s.
Proof.
  intros Hm [Hi Hs _] Ha Hsp. assert (optind s < argc) by (apply lookup_lt_Some in Ha; unfold Getopt.argc, zlen; lia).
  destruct Hm as [Hm|[Hlt Hm]].
  - split; [eapply after_place; [exact Hm|lia]|]. eapply after_budget; [exact Hm|done|lia|exact Ha|exact Hsp].
  - split; [eapply after_place; [exact Hm|lia]|].
    destruct (arg_at_ok (optind s + 1)) as (b & _ & Hb & _); [lia|].
    set (m := mkGetopt None (optind s + 1) 0 1).
    assert (H1 : budget m < budget s) by (eapply (after_budget (optind s)); [by split|done|lia|exact Ha|exact Hsp]).
    assert (H2 : budget s' < budget m).
    { eapply (after_budget (optind s + 1) m s' b); [exact Hm|done|lia|done|]. cbn. pose proof (zlen_nonneg b). lia. }
    lia.
Qed.

(** Within a cluster of short options. *)
Lemma stay_ok s s' a :
  optind s' = optind s → sp s' = sp s + 1 → place_ok s → argv !! Z.to_nat (optind s) = Some a → sp s + 1 < zlen a →
  place_ok s' ∧ budget s' < budget s.
Proof.
  intros Hi Hs [Hi0 Hs0 _] Ha Hlt. split; [|unfold budget; rewrite Hi, Hs; lia].
  constructor; rewrite ?Hi, ?Hs; [done|lia|]. intros _. by exists a.
Qed.

(** What a call that finds an option promises. *)
Definition found (s : getopt_state) (r : outcome (Z * getopt_state)) : Prop :=
  ∃ c s', r = Ok (c, s') ∧ c ≠ NO_OPTION ∧ option_ok c (optarg s') ∧ place_ok s' ∧ budget s' < budget s.

Lemma found_moved s a c s' :
  place_ok s → argv !! Z.to_nat (optind s) = Some a → sp s ≤ Z.max 1 (zlen a) →
  c ≠ NO_OPTION → option_ok c (optarg s') → moved s s' → found s (Ok (c, s')).
Proof. intros Hp Ha Hsp Hc Ho Hm. exists c, s'. pose proof (moved_ok _ _ _ Hm Hp Ha Hsp). tauto. Qed.

Lemma long_ok s a name opts :
  place_ok s → sp s = 1 → argv !! Z.to_nat (optind s) = Some a → opts ⊆ longopts →
  found s (long_loop argv name opts s).
Proof.
  intros Hp Hs Ha. induction opts as [|o opts IH]; intros Hin; cbn [long_loop].
  - eapply found_moved; [done|exact Ha|lia|done|by left|left; by split].
  - destruct (_ && _); [|apply IH; intros x Hx; apply Hin; by right].
    assert (Ho : o ∈ longopts) by (apply Hin; left).
    pose proof (proj1 (Forall_forall _ _) Hlong _ Ho) as Hv. cbn in Hv.
    assert (Hne : lo_val o ≠ NO_OPTION) by (unfold NO_OPTION; lia).
    assert (Hok : ∀ v, (lo_has_arg o = required_argument → is_Some v) → option_ok (lo_val o) v)
      by (intros v Hreq; right; right; by exists o).
    destruct (lo_has_arg o) eqn:Eo; try (eapply found_moved; [done|exact Ha|lia|done|by apply Hok|left; by split]).
    destruct (strchr name 61) as [v|]; [eapply found_moved; [done|exact Ha|lia|done|by apply Hok|left; by split]|].
    cbn. destruct (Z.ltb_spec (optind s + 1) argc) as [Hlt|Hge].
    + destruct Hp as [Hi Hsp Hin']. destruct (arg_at_ok (optind s + 1)) as (b & -> & _); [lia|]. cbn.
      eapply found_moved; [done|exact Ha|lia|done|by apply Hok|right; by split].
    + eapply found_moved; [done|exact Ha|lia|done|by left|left; by split].
Qed.

Lemma short_ok s a : place_ok s → argv !! Z.to_nat (optind s) = Some a → sp s < zlen a →
  found s (short_option argv optstring s).
Proof.
  intros Hp Ha Hsp. unfold short_option. assert (Hp' := Hp). destruct Hp' as [Hi Hs _].
  assert (Hlt : optind s < argc) by (apply lookup_lt_Some in Ha; unfold Getopt.argc, zlen; lia).
  destruct (arg_at_ok (optind s)) as (a' & -> & Ha' & Hcs); [lia|]. rewrite Ha in Ha'. injection Ha' as <-. cbn [mbind outcome_bind].
  destruct (char_at_ok a (sp s) Hcs) as (c & -> & Hc0 & Hc); [lia|]. cbn [mbind outcome_bind].
  destruct (Z.eqb_spec c 0) as [|_]; [lia|].
  destruct (char_at_ok a (sp s + 1) Hcs) as (n & Hn & Hn0 & _); [lia|].
  cbv zeta. change (sp (set_optopt (sgn 8 c) s)) with (sp s). rewrite Hn.
  change (optind (set_optopt (sgn 8 c) s)) with (optind s).
  assert (Hmove : ∀ c' s', c' ≠ NO_OPTION → option_ok c' (optarg s') → moved s s' → found s (Ok (c', s')))
    by (intros; eapply found_moved; [done|exact Ha|lia|done..]).
  assert (Hstay : ∀ c' s', c' ≠ NO_OPTION → option_ok c' (optarg s') → n ≠ 0 →
                           optind s' = optind s → sp s' = sp s + 1 → found s (Ok (c', s'))).
  { intros c' s' Hc' Ho Hn' H1 H2. exists c', s'. destruct (stay_ok s s' a H1 H2 Hp Ha) as [? ?]; [|by split_and!].
    destruct (decide (sp s + 1 = zlen a)) as [E|]; [|lia]. by apply Hn0 in E. }
  destruct (if c =? 58 then None else strchr optstring c) as [r|] eqn:Er.
  - assert (Hr : strchr optstring c = Some r) by (by destruct (c =? 58)).
    destruct (strchr_Some _ _ _ Hr) as (p & Hp' & _).
    assert (Hos := Hopt). rewrite Hp' in Hos. apply Forall_app in Hos as [_ Hos]. inversion_clear Hos as [|? ? Hcr Hrr].
    assert (Hsg : sgn 8 c = c) by (rewrite sgn_small; lia). rewrite Hsg. assert (c ≠ NO_OPTION) by (unfold NO_OPTION; lia).
    assert (Hok : ∀ v, (head r = Some 58 → is_Some v) → option_ok c v) by (intros; right; left; by exists r).
    destruct (char_at_ok r 0) as (k & Hk & _).
    { eapply Forall_impl; [exact Hrr|]. cbn. lia. } { pose proof (zlen_nonneg r). lia. }
    rewrite Hk. cbn [mbind outcome_bind]. destruct (Z.eqb_spec k 58) as [->|Hk58].
    + destruct (Z.eqb_spec n 0); cbn [negb]; [|apply Hmove; [done|by apply Hok|left; by split]].
      cbn. destruct (Z.leb_spec argc (optind s + 1)); [apply Hmove; [done|by left|left; by split]|].
      destruct (arg_at_ok (optind s + 1)) as (b & -> & _); [lia|]. cbn. apply Hmove; [done|by apply Hok|right; by split].
    + assert (Hh : head r = Some 58 → is_Some (None : option bytes)).
      { destruct r as [|x r]; [done|]. intros [= ->]. assert (E : char_at (58 :: r) 0 = Ok 58) by done.
        rewrite E in Hk. by injection Hk. }
      destruct (Z.eqb_spec n 0); [apply Hmove; [done|by apply Hok|left; by split]|by apply Hstay; try apply Hok].
  - cbn [mbind outcome_bind]. destruct (Z.eqb_spec n 0); [apply Hmove; [done| |left; by split]|apply Hstay; [done| |done|done|done]]; by left.
Qed.

(** One call: the end, at an argument boundary, or an option. *)
Lemma getopt_long_ok s : place_ok s →
  (∃ s', getopt_long argv optstring longopts s = Ok (NO_OPTION, s') ∧ place_ok s' ∧ sp s' = 1) ∨
  found s (getopt_long argv optstring longopts s).
Proof.
  intros Hp. assert (Hp' := Hp). destruct Hp' as [Hi Hs Hin]. unfold getopt_long. destruct (Z.eqb_spec (sp s) 1) as [H1|H1].
  - destruct (Z.leb_spec argc (optind s)); [left; by exists s|].
    destruct (arg_at_ok (optind s)) as (a & -> & Ha & Hcs); [lia|]. cbn [mbind outcome_bind].
    destruct (char_at_ok a 0 Hcs) as (c0 & -> & Hc0 & _); [pose proof (zlen_nonneg a); lia|]. cbn [mbind outcome_bind].
    destruct (Z.eqb_spec c0 45); cbn [negb]; [|left; by exists s].
    destruct (char_at_ok a 1 Hcs) as (c1 & -> & Hc1 & _); [pose proof (zlen_nonneg a); lia|]. cbn [mbind outcome_bind].
    destruct (Z.eqb_spec c1 0); [left; by exists s|].
    case_bool_decide.
    { left. eexists. split_and!; [done| |done]. eapply after_place; [by split|lia]. }
    right. destruct (Z.eqb_spec c1 45); [by eapply long_ok|eapply short_ok; [done|exact Ha|]].
    pose proof (zlen_nonneg a). lia.
  - right. destruct (Hin H1) as (a & Ha & Hlt). by eapply short_ok.
Qed.

Lemma getopt_all_ok fuel s : place_ok s → budget s < Z.of_nat fuel →
  ∃ l s', getopt_all argv optstring longopts fuel s = Ok (l, s') ∧ place_ok s' ∧ sp s' = 1 ∧
          Forall (fun o => option_ok (fst o) (snd o)) l.
Proof.
  revert s. induction fuel as [|fuel IH]; intros s Hp Hb.
  - exfalso. destruct Hp as [Hi Hs Hin]. unfold budget in Hb.
    pose proof (zlen_nonneg (concat (drop (Z.to_nat (optind s)) argv))).
    pose proof (zlen_nonneg (drop (Z.to_nat (optind s)) argv)).
    destruct (decide (sp s = 1)) as [|H1]; [lia|]. destruct (Hin H1) as (a & Ha & Hlt).
    rewrite (drop_S _ _ _ Ha) in Hb. cbn [concat] in Hb. rewrite zlen_app, zlen_cons in Hb.
    pose proof (zlen_nonneg (concat (drop (S (Z.to_nat (optind s))) argv))).
    pose proof (zlen_nonneg (drop (S (Z.to_nat (optind s))) argv)). lia.
  - cbn [getopt_all]. destruct (getopt_long_ok s Hp) as [(s' & -> & Hp' & Hs')|(c & s' & -> & Hc & Ho & Hp' & Hlt)].
    + exists [], s'. done.
    + cbn [mbind outcome_bind]. destruct (Z.eqb_spec c NO_OPTION); [done|].
      destruct (IH s' Hp') as (l & s2 & -> & Hp2 & Hs2 & Hl); [lia|]. exists ((c, optarg s') :: l), s2.
      split_and!; [done|done|done|]. by constructor.
Qed.

Lemma init_place : place_ok getopt_init.
Proof. constructor; cbn; [lia|lia|done]. Qed.

Lemma init_budget : budget getopt_init < Z.of_nat (getopt_fuel argv).
Proof.
  unfold budget, getopt_fuel. cbn [optind sp getopt_init]. change (Z.to_nat 1) with 1%nat.
  destruct argv as [|a l]; [by vm_compute|]. rewrite skipn_cons, drop_0. cbn [concat length]. rewrite length_app. unfold zlen. lia.
Qed.

End Proofs.

(** * Arguments written out and read back *)

(** One argument with options in it, or two: [Cluster [a; b]] is -ab,
    [ClusterArg [a] b true v] is -abv, with [false] it is -ab v;
    [LongArg o true v] is --name=v, with [false] it is --name v. *)
Inductive word : Type :=
| Cluster (flags : list Z)
| ClusterArg (flags : list Z) (c : Z) (attached : bool) (v : bytes)
| LongFlag (o : option_t)
| LongArg (o : option_t) (attached : bool) (v : bytes).

Definition word_args (w : word) : list bytes :=
  match w with
  | Cluster flags => [45 :: flags]
  | ClusterArg flags c true v => [45 :: flags ++ c :: v]
  | ClusterArg flags c false v => [45 :: flags ++ [c]; v]
  | LongFlag o => [45 :: 45 :: lo_name o]
  | LongArg o true v => [45 :: 45 :: lo_name o ++ 61 :: v]
  | LongArg o false v => [45 :: 45 :: lo_name o; v]
  end.

(** The options in the order written, with the arguments of those that take one. *)
Definition word_options (w : word) : list (Z * option bytes) :=
  match w with
  | Cluster flags => (fun c => (c, None)) <$> flags
  | ClusterArg flags c _ v => ((fun c => (c, None)) <$> flags) ++ [(c, Some v)]
  | LongFlag o => [(lo_val o, None)]
  | LongArg o _ v => [(lo_val o, Some v)]
  end.

Section Words.
Context (argv : list bytes) (optstring : bytes) (longopts : list option_t).

Definition flag_ok (c : Z) : Prop :=
  c ≠ 45 ∧ c ≠ 58 ∧ 0 < c < 128 ∧ ∃ r, strchr optstring c = Some r ∧ head r ≠ Some 58.

Definition with_arg_ok (c : Z) : Prop :=
  c ≠ 45 ∧ c ≠ 58 ∧ 0 < c < 128 ∧ ∃ r, strchr optstring c = Some (58 :: r).

Definition long_ok_opt (o : option_t) : Prop := o ∈ longopts ∧ lo_name o ≠ [] ∧ 61 ∉ lo_name o.

Definition spelling_ok (w : word) : Prop :=
  match w with
  | Cluster flags => flags ≠ [] ∧ Forall flag_ok flags
  | ClusterArg flags c attached v => Forall flag_ok flags ∧ with_arg_ok c ∧ (attached = true → v ≠ [])
  | LongFlag o => long_ok_opt o ∧ lo_has_arg o = no_argument
  | LongArg o _ _ => long_ok_opt o ∧ lo_has_arg o = required_argument
  end.

(** Where the options end: at the first operand, or after "--". *)
Definition is_operand (a : bytes) : Prop := head a ≠ Some 45 ∨ a = [45].

Inductive options_end (operands : list bytes) : list bytes → Prop :=
| end_operand : (∀ a, head operands = Some a → is_operand a) → options_end operands operands
| end_dashes : options_end operands ([45; 45] :: operands).

(** A flag says nothing about its optarg. *)
Definition answers (want got : Z * option bytes) : Prop :=
  fst want = fst got ∧ (is_Some (snd want) → snd want = snd got).

#[global] Instance answers_refl : Reflexive answers.
Proof. by intros x. Qed.

(** Calls that find the options [l]. *)
Inductive reads : getopt_state → list (Z * option bytes) → getopt_state → Prop :=
| reads_nil s : reads s [] s
| reads_cons s c s1 l s2 :
    getopt_long argv optstring longopts s = Ok (c, s1) → c ≠ NO_OPTION → reads s1 l s2 →
    reads s ((c, optarg s1) :: l) s2.

Lemma reads_app s l s1 l' s2 : reads s l s1 → reads s1 l' s2 → reads s (l ++ l') s2.
Proof. induction 1; [done|]. intros H'. cbn. econstructor; eauto. Qed.

Lemma reads_all s l s' s'' : reads s l s' → getopt_long argv optstring longopts s' = Ok (NO_OPTION, s'') →
  ∀ fuel r, getopt_all argv optstring longopts fuel s = Ok r → r = (l, s'').
Proof.
  intros Hr Hend. induction Hr as [s|s c s1 l s2 Hs Hc Hr IH]; intros [|fuel] r; try done; cbn [getopt_all].
  - rewrite Hend. by intros [= <-].
  - rewrite Hs. cbn [mbind outcome_bind]. destruct (Z.eqb_spec c NO_OPTION); [done|].
    intros Hx. apply bind_Ok_inv in Hx as ([l' s'] & Hx & Hy). apply (IH Hend) in Hx. by simplify_eq.
Qed.

End Words.

Section RoundTrip.
Context {argv : list bytes} {optstring : bytes} {longopts : list option_t}.
Context (Hargv : Forall cstring argv) (Hlong : Forall (fun o => 0 ≤ lo_val o) longopts).
Context (Huniq : NoDup (lo_name <$> longopts)).

Abbreviation getopt_long := (getopt_long argv optstring longopts).
Abbreviation reads := (reads argv optstring longopts).

Lemma char_at_split p c r : char_at (p ++ c :: r) (zlen p) = Ok c.
Proof. apply char_at_nth; [unfold zlen; rewrite Nat2Z.id; by apply list_lookup_middle|apply zlen_nonneg]. Qed.

Lemma char_at_next p c r : char_at (p ++ c :: r) (zlen p + 1) = Ok (default 0 (head r)).
Proof.
  replace (p ++ c :: r) with ((p ++ [c]) ++ r) by (by rewrite <- app_assoc).
  replace (zlen p + 1) with (zlen (p ++ [c])) by (rewrite zlen_app; done).
  destruct r as [|d r]; [by rewrite app_nil_r, char_at_end|apply char_at_split].
Qed.

Lemma arg_lookup s a : argv !! Z.to_nat (optind s) = Some a → 0 ≤ optind s →
  arg_at argv (optind s) = Ok a ∧ cstring a ∧ optind s < argc argv.
Proof.
  intros Ha Hi. assert (optind s < argc argv) by (apply lookup_lt_Some in Ha; unfold argc, zlen; lia).
  destruct (arg_at_ok Hargv (optind s)) as (b & -> & Hb & Hcs); [done|]. by simplify_eq.
Qed.

(** A call on an argument that begins with a short option goes to the option at the place. *)
Lemma at_short s cs : argv !! Z.to_nat (optind s) = Some (45 :: cs) → 0 ≤ optind s →
  cs ≠ [] → head cs ≠ Some 45 → getopt_long s = short_option argv optstring s.
Proof.
  intros Ha Hi Hne Hd. unfold Getopt.getopt_long. destruct (Z.eqb_spec (sp s) 1); [|done].
  destruct (arg_lookup s _ Ha Hi) as (-> & Hcs & Hlt). destruct (Z.leb_spec (argc argv) (optind s)); [lia|].
  destruct cs as [|c cs]; [done|]. inversion_clear Hcs as [|? ? _ Hcs']. inversion_clear Hcs' as [|? ? Hc _].
  cbn [mbind outcome_bind]. change (char_at (45 :: c :: cs) 0) with (Ok 45 : outcome Z).
  change (char_at (45 :: c :: cs) 1) with (Ok c : outcome Z). cbn.
  destruct (Z.eqb_spec c 0); [lia|]. assert (c ≠ 45) by (intros ->; done).
  rewrite bool_decide_eq_false_2 by congruence. by destruct (Z.eqb_spec c 45).
Qed.

(** The place of the character after [p] in the argument [p ++ r]. *)
Definition at_char (p r : bytes) (i : Z) (s : getopt_state) : Prop :=
  0 ≤ i ∧ optind s = i ∧ sp s = zlen p ∧ argv !! Z.to_nat i = Some (p ++ r).

Definition short_place (p : bytes) (r : bytes) : Prop := ∃ cs, p ++ r = 45 :: cs ∧ cs ≠ [] ∧ head cs ≠ Some 45.

Lemma flag_step p c r i s : at_char p (c :: r) i s → short_place p (c :: r) → flag_ok optstring c →
  ∃ s', getopt_long s = Ok (c, s') ∧ optarg s' = None ∧
    match r with [] => after i s' | _ => at_char (p ++ [c]) r i s' end.
Proof.
  intros (Hi & <- & Hsp & Ha) (cs & Hcs & Hne & Hd) (Hc1 & Hc2 & Hc & o & Ho & Hno).
  assert (Ha2 := Ha). rewrite Hcs in Ha2. rewrite (at_short s cs Ha2 Hi Hne Hd). unfold short_option.
  destruct (arg_lookup s _ Ha Hi) as (-> & Hstr & Hlt). cbn [mbind outcome_bind].
  rewrite Hsp, char_at_split. cbn [mbind outcome_bind]. rewrite (sgn_small 8) by lia. destruct (Z.eqb_spec c 0); [lia|].
  destruct (Z.eqb_spec c 58); [lia|]. rewrite Ho.
  assert (Hk : ∃ k, char_at o 0 = Ok k ∧ k ≠ 58).
  { destruct o as [|k o]; [by exists 0|exists k; split; [done|]]. intros ->. done. }
  destruct Hk as (k & -> & Hk). cbn [mbind outcome_bind]. destruct (Z.eqb_spec k 58); [done|].
  change (sp (set_optopt c s)) with (sp s). rewrite Hsp, char_at_next. cbn.
  eexists. split; [done|]. split; [done|]. apply Forall_app in Hstr as [_ Hstr]. inversion_clear Hstr as [|? ? _ Hr].
  destruct r as [|d r]; cbn; [by split|]. inversion_clear Hr. destruct (Z.eqb_spec d 0); [lia|].
  split_and!; [done|done|cbn; by rewrite zlen_app|by rewrite <- app_assoc].
Qed.

Lemma arg_step p c (attached : bool) v i s :
  at_char p (c :: if attached then v else []) i s → short_place p (c :: if attached then v else []) →
  with_arg_ok optstring c → (attached = true → v ≠ []) →
  (attached = false → argv !! Z.to_nat (i + 1) = Some v) →
  ∃ s', getopt_long s = Ok (c, s') ∧ optarg s' = Some v ∧ after (if attached then i else i + 1) s'.
Proof.
  set (r := if attached then v else []).
  intros (Hi & <- & Hsp & Ha) (cs & Hcs & Hne & Hd) (Hc1 & Hc2 & Hc & o & Ho) Hv Hnext.
  assert (Ha2 := Ha). rewrite Hcs in Ha2. rewrite (at_short s cs Ha2 Hi Hne Hd). unfold short_option.
  destruct (arg_lookup s _ Ha Hi) as (-> & Hstr & Hlt). cbn [mbind outcome_bind].
  rewrite Hsp, char_at_split. cbn [mbind outcome_bind]. rewrite (sgn_small 8) by lia. destruct (Z.eqb_spec c 0); [lia|].
  destruct (Z.eqb_spec c 58); [lia|]. rewrite Ho. change (char_at (58 :: o) 0) with (Ok 58 : outcome Z).
  cbn [mbind outcome_bind]. change (58 =? 58) with true. cbn [negb].
  change (sp (set_optopt c s)) with (sp s). rewrite Hsp, char_at_next. cbn [mbind outcome_bind].
  apply Forall_app in Hstr as [_ Hstr]. inversion_clear Hstr as [|? ? _ Hr].
  destruct attached; subst r.
  - destruct v as [|d v]; [by destruct (Hv eq_refl)|]. inversion_clear Hr. change (default 0 (head (d :: v))) with d.
    destruct (Z.eqb_spec d 0); [lia|]. cbn. eexists. split; [done|]. split; [|by split]. cbn. f_equal.
    replace (p ++ c :: d :: v) with ((p ++ [c]) ++ d :: v) by (by rewrite <- app_assoc).
    rewrite drop_app_length'; [done|]. rewrite length_app. cbn. unfold zlen. lia.
  - cbn. set (s2 := set_place (optind s + 1) 1 (set_optopt c s)).
    destruct (arg_lookup s2 v (Hnext eq_refl) ltac:(cbn; lia)) as (Hat & _ & Hlt2). cbn in Hat, Hlt2.
    destruct (Z.leb_spec (argc argv) (optind s + 1)); [lia|]. rewrite Hat. cbn. eexists. split; [done|]. by split.
Qed.

Lemma flags_read flags p r i s : at_char p (flags ++ r) i s → short_place p (flags ++ r) → r ≠ [] →
  Forall (flag_ok optstring) flags →
  ∃ s', reads s ((fun c => (c, None)) <$> flags) s' ∧ at_char (p ++ flags) r i s'.
Proof.
  intros Hat Hsp Hr Hf. revert p s Hat Hsp. induction Hf as [|c flags Hc Hf IH]; intros p s Hat Hsp.
  - exists s. split; [constructor|by rewrite app_nil_r].
  - destruct (flag_step p c (flags ++ r) i s Hat Hsp Hc) as (s1 & H1 & Ho & Hs1).
    assert (Hs1' : at_char (p ++ [c]) (flags ++ r) i s1) by (by destruct flags; [destruct r; [by destruct Hr|]|]).
    destruct (IH _ _ Hs1') as (s' & Hrd & Hs'); [unfold short_place in *; by rewrite <- app_assoc|].
    exists s'. rewrite <- app_assoc in Hs'. split; [|done].
    assert (Hne : c ≠ NO_OPTION) by (destruct Hc as (_ & _ & ? & _); unfold NO_OPTION; lia).
    pose proof (reads_cons _ _ _ _ _ _ _ _ H1 Hne Hrd) as Hx. by rewrite Ho in Hx.
Qed.

Lemma long_loop_first name (v : option bytes) o opts s :
  o ∈ opts → opts ⊆ longopts → lo_name o ≠ [] → 61 ∉ lo_name o →
  name = lo_name o ++ match v with Some v => 61 :: v | None => [] end →
  long_loop argv name opts s =
    let s := set_place (optind s + 1) (sp s) s in
    match lo_has_arg o with
    | required_argument =>
        match v with
        | Some v => Ok (lo_val o, set_optarg (Some v) s)
        | None =>
            if optind s <? argc argv then
              a ← arg_at argv (optind s);
              Ok (lo_val o, set_place (optind s + 1) (sp s) (set_optarg (Some a) s))
            else Ok (BAD_OPTION, s)
        end
    | _ => Ok (lo_val o, s)
    end.
Proof.
  intros Hin Hsub Hne Hno ->. set (name := _ ++ _).
  assert (Heq : strchr name 61 = v).
  { destruct v; [by apply strchr_first|]. apply strchr_None. unfold name. by rewrite app_nil_r. }
  assert (Hlen : match v with Some v => zlen name - zlen v - 1 | None => zlen name end = zlen (lo_name o)).
  { unfold name. rewrite zlen_app. destruct v; [rewrite zlen_cons; lia|]. rewrite zlen_nil. lia. }
  assert (Htake : take (Z.to_nat (zlen (lo_name o))) name = lo_name o) by (unfold zlen, name; by rewrite Nat2Z.id, take_app_length).
  clearbody name. induction opts as [|o' opts IH]; [by apply elem_of_nil in Hin|]. cbn [long_loop].
  rewrite Heq. cbv zeta. rewrite Hlen. unfold strncmp_eq. rewrite Htake.
  destruct (decide (lo_name o' = lo_name o)) as [He|He].
  - assert (o' = o) as ->.
    { assert (Ho : o ∈ longopts) by (by apply Hsub). assert (Ho' : o' ∈ longopts) by (apply Hsub; left).
      apply list_elem_of_lookup in Ho as [i Hi], Ho' as [j Hj].
      assert (i = j); [|by simplify_eq].
      eapply (NoDup_lookup (lo_name <$> longopts)); [done|rewrite list_lookup_fmap, Hi; done|].
      rewrite list_lookup_fmap, Hj. cbn. by rewrite He. }
    rewrite bool_decide_eq_true_2, Z.eqb_refl; [done|]. unfold zlen. by rewrite Nat2Z.id, firstn_all.
  - assert (Hb : bool_decide (lo_name o = take (Z.to_nat (zlen (lo_name o))) (lo_name o')) && (zlen (lo_name o') =? zlen (lo_name o)) = false).
    { destruct (Z.eqb_spec (zlen (lo_name o')) (zlen (lo_name o))) as [El|]; [|by rewrite andb_false_r].
      rewrite bool_decide_eq_false_2; [done|]. rewrite <- El. unfold zlen. rewrite Nat2Z.id, firstn_all. congruence. }
    rewrite Hb. apply IH; [|intros x Hx; apply Hsub; by right]. apply elem_of_cons in Hin as [->|]; [done|done].
Qed.

(** A call on an argument "--name" or "--name=v" enters the loop over the long options. *)
Lemma at_long s cs : argv !! Z.to_nat (optind s) = Some (45 :: 45 :: cs) → 0 ≤ optind s → sp s = 1 → cs ≠ [] →
  getopt_long s = long_loop argv cs longopts s.
Proof.
  intros Ha Hi Hs Hne. unfold Getopt.getopt_long. rewrite Hs. destruct (arg_lookup s _ Ha Hi) as (-> & _ & Hlt).
  change (1 =? 1) with true. cbv iota. destruct (Z.leb_spec (argc argv) (optind s)); [lia|]. cbn.
  rewrite bool_decide_eq_false_2; [done|]. intros [=]. done.
Qed.

Lemma reads_one s c s' : getopt_long s = Ok (c, s') → c ≠ NO_OPTION → reads s [(c, optarg s')] s'.
Proof. intros. eapply reads_cons; [done|done|constructor]. Qed.

(** The flags of a cluster are read; what is left is at the character [c]. *)
Lemma cluster_read flags c r s :
  0 ≤ optind s → sp s = 1 → argv !! Z.to_nat (optind s) = Some (45 :: flags ++ c :: r) →
  Forall (flag_ok optstring) flags → c ≠ 45 →
  ∃ s', reads s ((fun c => (c, None)) <$> flags) s' ∧ at_char (45 :: flags) (c :: r) (optind s) s' ∧
        short_place (45 :: flags) (c :: r).
Proof.
  intros Hi Hs Ha Hf Hc.
  assert (Hp : short_place [45] (flags ++ c :: r)).
  { eexists. split; [done|]. destruct Hf as [|d flags Hd _]; cbn; [split; congruence|].
    destruct Hd as [Hd _]. split; congruence. }
  destruct (flags_read flags [45] (c :: r) (optind s) s) as (s' & Hr & Hs'); [by split_and!|done|done|done|].
  exists s'. by split_and!.
Qed.

(** The place before the argument at [i]. *)
Definition before (i : Z) (s : getopt_state) : Prop := 0 ≤ i ∧ optind s = i ∧ sp s = 1.

Lemma long_val_ok o : long_ok_opt longopts o → lo_val o ≠ NO_OPTION.
Proof.
  intros [Ho _]. pose proof (proj1 (Forall_forall _ _) Hlong _ Ho) as Hv. cbn in Hv. unfold NO_OPTION. lia.
Qed.

Lemma word_read w i s : before i s → spelling_ok optstring longopts w →
  (∀ k a, word_args w !! k = Some a → argv !! (Z.to_nat i + k)%nat = Some a) →
  ∃ l s', reads s l s' ∧ Forall2 answers (word_options w) l ∧ before (i + zlen (word_args w)) s'.
Proof.
  intros (Hi & <- & Hs) Hw Hargs.
  assert (H0 : ∀ a, word_args w !! 0%nat = Some a → argv !! Z.to_nat (optind s) = Some a)
    by (intros a Ha; rewrite <- (Nat.add_0_r (Z.to_nat _)); by apply Hargs).
  assert (H1 : ∀ a, word_args w !! 1%nat = Some a → argv !! Z.to_nat (optind s + 1) = Some a)
    by (intros a Ha; rewrite Z2Nat.inj_add by lia; by apply Hargs).
  assert (Hb : ∀ j s', 0 ≤ j → after j s' → before (j + 1) s') by (intros j s' Hj []; split_and!; [lia|done..]).
  destruct w as [flags|flags c attached v|o|o attached v]; cbn in Hw.
  - destruct Hw as [Hne Hf]. destruct (exists_last Hne) as (fl & c & ->).
    apply Forall_app in Hf as [Hf Hc]. inversion_clear Hc as [|? ? Hc' _].
    destruct (cluster_read fl c [] s) as (s1 & Hr & Hs1 & Hp); [done|done|by apply H0|done|by destruct Hc'|].
    destruct (flag_step _ _ _ _ _ Hs1 Hp Hc') as (s2 & H2 & Ho & Haft).
    assert (Hc : c ≠ NO_OPTION) by (destruct Hc' as (_ & _ & ? & _); unfold NO_OPTION; lia).
    eexists _, s2. split; [eapply reads_app; [exact Hr|by apply reads_one]|]. split; [|by apply Hb].
    cbn. rewrite fmap_app, Ho. reflexivity.
  - destruct Hw as (Hf & Hc & Hv). assert (Hc' : c ≠ 45 ∧ c ≠ NO_OPTION) by (unfold with_arg_ok, NO_OPTION in *; lia).
    destruct (cluster_read flags c (if attached then v else []) s) as (s1 & Hr & Hs1 & Hp);
      [done|done|apply H0; by destruct attached|done|tauto|].
    destruct (arg_step _ _ _ _ _ _ Hs1 Hp Hc Hv) as (s2 & H2 & Ho & Haft); [intros ->; by apply H1|].
    eexists _, s2. split; [eapply reads_app; [exact Hr|apply reads_one; [exact H2|tauto]]|]. split; [cbn; rewrite Ho; reflexivity|].
    destruct attached; [by apply Hb|]. change (zlen _) with (1 + 1). rewrite Z.add_assoc. apply Hb; [lia|done].
  - destruct Hw as [Ho Hk]. assert (Hc := long_val_ok o Ho). destruct Ho as (Ho & Hne & Heq).
    pose proof (at_long s _ (H0 _ eq_refl) Hi Hs Hne) as Hg.
    rewrite (long_loop_first _ None o longopts) in Hg by (done || by rewrite app_nil_r). cbv zeta in Hg. rewrite Hk in Hg.
    eexists _, _. split; [by apply reads_one|]. split; [|by apply Hb].
    constructor; [|constructor]. split; [done|]. by intros [? ?].
  - destruct Hw as [Ho Hk]. assert (Hc := long_val_ok o Ho). destruct Ho as (Ho & Hne & Heq). destruct attached.
    + pose proof (at_long s _ (H0 _ eq_refl) Hi Hs ltac:(by destruct (lo_name o))) as Hg.
      rewrite (long_loop_first _ (Some v) o longopts) in Hg by done. cbv zeta in Hg. rewrite Hk in Hg.
      eexists _, _. split; [by apply reads_one|]. split; [reflexivity|by apply Hb].
    + pose proof (at_long s _ (H0 _ eq_refl) Hi Hs Hne) as Hg.
      rewrite (long_loop_first _ None o longopts) in Hg by (done || by rewrite app_nil_r). cbv zeta in Hg. rewrite Hk in Hg.
      set (s2 := set_place (optind s + 1) (sp s) s) in Hg.
      destruct (arg_lookup s2 v (H1 _ eq_refl) ltac:(cbn; lia)) as (Hat & _ & Hlt).
      destruct (Z.ltb_spec (optind s2) (argc argv)); [|lia]. rewrite Hat in Hg. cbn in Hg.
      eexists _, _. split; [by apply reads_one|]. split; [reflexivity|].
      change (zlen _) with (1 + 1). rewrite Z.add_assoc. apply Hb; [lia|done].
Qed.

Lemma words_read ws i s : before i s → Forall (spelling_ok optstring longopts) ws →
  (∀ k a, concat (word_args <$> ws) !! k = Some a → argv !! (Z.to_nat i + k)%nat = Some a) →
  ∃ l s', reads s l s' ∧ Forall2 answers (concat (word_options <$> ws)) l ∧
          before (i + zlen (concat (word_args <$> ws))) s'.
Proof.
  intros Hb Hws. revert i s Hb. induction Hws as [|w ws Hw Hws IH]; intros i s Hb Hargs.
  - exists [], s. split_and!; [constructor|constructor|]. cbn. by rewrite zlen_nil, Z.add_0_r.
  - assert (Hi : 0 ≤ i) by apply Hb. cbn in Hargs.
    destruct (word_read w i s Hb Hw) as (l1 & s1 & Hr1 & Ha1 & Hb1).
    { intros k a Hk. apply Hargs. by apply lookup_app_l_Some. }
    destruct (IH _ _ Hb1) as (l2 & s2 & Hr2 & Ha2 & Hb2).
    { intros k a Hk. specialize (Hargs (length (word_args w) + k)%nat a).
      rewrite lookup_app_r, Nat.add_comm, Nat.add_sub in Hargs by lia. unfold zlen.
      replace (Z.to_nat (i + Z.of_nat (length (word_args w))) + k)%nat
        with (Z.to_nat i + (k + length (word_args w)))%nat by lia. by apply Hargs. }
    exists (l1 ++ l2), s2. cbn. split_and!; [by eapply reads_app|by apply Forall2_app|].
    by rewrite zlen_app, Z.add_assoc.
Qed.

(** The call that ends the loop. *)
Lemma options_end_stop i s operands tail : before i s → drop (Z.to_nat i) argv = tail → options_end operands tail →
  ∃ s', getopt_long s = Ok (NO_OPTION, s') ∧ drop (Z.to_nat (optind s')) argv = operands.
Proof.
  intros (Hi & <- & Hs) Hd Hend. unfold Getopt.getopt_long. rewrite Hs. change (1 =? 1) with true. cbv iota.
  destruct tail as [|a tail].
  - inversion Hend; subst operands.
    assert (argc argv ≤ optind s).
    { apply (f_equal length) in Hd. rewrite length_drop in Hd. cbn in Hd. unfold argc, zlen. lia. }
    destruct (Z.leb_spec (argc argv) (optind s)); [|lia]. by exists s.
  - assert (Ha : argv !! Z.to_nat (optind s) = Some a) by (rewrite <- (Nat.add_0_r (Z.to_nat _)), <- lookup_drop, Hd; done).
    destruct (arg_lookup s a Ha Hi) as (-> & Hcs & Hlt). destruct (Z.leb_spec (argc argv) (optind s)); [lia|].
    cbn [mbind outcome_bind]. inversion Hend as [Hop Heq|Heq]; subst.
    + destruct (Hop a eq_refl) as [Hn| ->]; [|by exists s]. destruct a as [|c a]; [by exists s|].
      change (char_at (c :: a) 0) with (Ok c : outcome Z). cbn [mbind outcome_bind].
      destruct (Z.eqb_spec c 45) as [->|]; [done|]. by exists s.
    + eexists. split; [done|]. cbn. rewrite Z2Nat.inj_add by lia.
      rewrite <- drop_drop, Hd. done.
Qed.

End RoundTrip.

(** * Properties *)

(** What the program hands over: its own option string and table, and the
    arguments of the system. *)
Record getopt_call (argv : list bytes) (optstring : bytes) (longopts : list option_t) : Prop := {
  gc_argv : Forall cstring argv;
  gc_optstring : Forall (fun c => 0 < c < 128) optstring;
  gc_vals : Forall (fun o => 0 ≤ lo_val o) longopts;
  gc_names : NoDup (lo_name <$> longopts)
}.

(** C40: whatever the arguments, the loop over the options ends and reads nothing
    outside the strings; each option it finds is an error or one the program
    knows, with an argument when it takes one; and what is left are operands, an
    index within the arguments. *)
Theorem getopt_all_safe argv optstring longopts :
  getopt_call argv optstring longopts →
  ∃ l s, getopt_all argv optstring longopts (getopt_fuel argv) getopt_init = Ok (l, s) ∧
         Forall (fun o => option_ok (optstring := optstring) (longopts := longopts) (fst o) (snd o)) l ∧
         0 ≤ optind s ≤ Z.max 1 (zlen argv).
Proof.
  intros [Hargv Hos Hv _]. destruct (getopt_all_ok Hargv Hos Hv (getopt_fuel argv) getopt_init init_place (init_budget Hargv))
    as (l & s & Hl & [Hi _ _] & _ & Ho).
  exists l, s. split_and!; [done|done|apply Hi|apply Hi].
Qed.

(** Options written in the usual ways, up to the first operand or "--". *)
Lemma words_found argv optstring longopts prog ws tail operands :
  getopt_call argv optstring longopts → argv = prog :: concat (word_args <$> ws) ++ tail →
  Forall (spelling_ok optstring longopts) ws → options_end operands tail →
  ∃ l s, getopt_all argv optstring longopts (getopt_fuel argv) getopt_init = Ok (l, s) ∧
         Forall2 answers (concat (word_options <$> ws)) l ∧ drop (Z.to_nat (optind s)) argv = operands.
Proof.
  intros [Hargv Hos Hv Hn] Heq Hws Hend.
  destruct (words_read (optstring := optstring) Hargv Hv Hn ws 1 getopt_init) as (l & s & Hr & Ha & Hb); [by split_and!|done| |].
  { intros k a Hk. rewrite Heq. cbn. by apply lookup_app_l_Some. }
  destruct (options_end_stop Hargv (longopts := longopts) (optstring := optstring) _ s operands tail Hb) as (s' & Hs' & Hd); [|done|].
  { rewrite Heq. rewrite Z2Nat.inj_add by (zl || lia). change (Z.to_nat 1) with 1%nat. cbn. unfold zlen. rewrite Nat2Z.id.
    apply drop_app_length. }
  destruct (getopt_all_ok Hargv Hos Hv (getopt_fuel argv) getopt_init init_place (init_budget Hargv)) as (l' & s2 & Hl & _).
  pose proof (reads_all _ _ _ _ _ _ _ Hr Hs' _ _ Hl) as Hx. injection Hx as -> ->. exists l, s'. by split_and!.
Qed.

(** prog -vb 5 --out x: "b" takes an argument, and so does "out". *)
Lemma getopt_all_safe_witness :
  let argv := [bytes_of "prog"; bytes_of "-vb"; bytes_of "5"; bytes_of "--out"; bytes_of "x"] in
  let longopts := [mkOption (bytes_of "out") required_argument 111] in
  ∃ l s, getopt_all argv (bytes_of "b:v") longopts (getopt_fuel argv) getopt_init = Ok (l, s) ∧
         Forall (fun o => option_ok (optstring := bytes_of "b:v") (longopts := longopts) (fst o) (snd o)) l ∧
         0 ≤ optind s ≤ Z.max 1 (zlen argv).
Proof.
  intros argv longopts. apply (getopt_all_safe argv (bytes_of "b:v") longopts).
  constructor; unfold cstring; apply (bool_decide_eq_true_1 _); by vm_compute.
Defined.
