(* ===== verification/Cli.v ===== *)
(** The command line tool (tools/fsdiff.c): argument parsing, the commands delta,
    patch and info, and the exit code.

    getopt_long splits the arguments into options and operands: its answers are the
    list [args] of options with their arguments and the list of operands that
    remain.  On Windows they are those of the program's own replacement ([Getopt]),
    elsewhere it is a system library.  strtoull and atoi are written out with the
    base 10 of the calls; atof is the parameter [atof].  A threshold that is not a
    finite number acts in the library like any other value outside (0, 1).
    Messages and the printed statistics are not modelled.

    Shown here: whatever the arguments, the options that reach the library are in
    range and consistent, the search radius covers the bytes asked for, a Windows
    command line means what was written, and a delta command that succeeds leaves a patch that recreates the destination;
    but a block size is checked only after it was cut to eight bits, and a
    negative radius is accepted. *)

From stdpp Require Import base list numbers tactics strings.
From Stdlib Require Import ZArith Lia Ascii.
From S2P Require Import Prelude Stdio Getopt Header MemoryPool Simd Tracker Source Patch Matches StagePartial StageController.
From S2P Require Import PatchSafety EndToEnd Diff Library.
Open Scope Z_scope.

(** * Numbers *)

Definition isspace (c : Z) : bool := (c =? 32) || ((9 <=? c) && (c <=? 13)).

Definition isdigit (c : Z) : bool := (48 <=? c) && (c <=? 57).

Fixpoint skip_space (s : bytes) : bytes :=
  match s with
  | c :: s' => if isspace c then skip_space s' else s
  | [] => []
  end.

(** An optional sign; [true] is a minus. *)
Definition read_sign (s : bytes) : bool * bytes :=
  match s with
  | c :: s' => if c =? 45 then (true, s') else if c =? 43 then (false, s') else (false, s)
  | [] => (false, [])
  end.

(** The value of the leading digits and what follows them. *)
Fixpoint read_digits (acc : Z) (s : bytes) : Z * bytes :=
  match s with
  | c :: s' => if isdigit c then read_digits (acc * 10 + (c - 48)) s' else (acc, s)
  | [] => (acc, [])
  end.

Definition starts_with_digit (s : bytes) : bool := match s with c :: _ => isdigit c | [] => false end.

(** strtoull(s, &end, 10): the value and the rest; [None] is end = s.  A value
    out of range gives ULLONG_MAX, a minus sign negates in unsigned arithmetic. *)
Definition strtoull (s : bytes) : option (Z * bytes) :=
  let '(neg, s) := read_sign (skip_space s) in
  if negb (starts_with_digit s) then None else
  let '(v, rest) := read_digits 0 s in
  Some (if 2 ^ 64 <=? v then 2 ^ 64 - 1 else if neg then u64 (- v) else v, rest).

(** A value that is not an int is undefined. *)
Definition atoi (s : bytes) : outcome Z :=
  let '(neg, s) := read_sign (skip_space s) in
  let v := fst (read_digits 0 s) in
  let v := if neg then - v else v in
  if (- 2 ^ 31 <=? v) && (v <? 2 ^ 31) then Ok v else UB.

(** [None] is -1. *)
Definition parse_size_arg (s : bytes) : option Z :=
  match s with
  | [] => None
  | _ =>
      match strtoull s with
      | None => None
      | Some (v, rest) =>
          let finish v (rest : bytes) :=
            match rest with [] => if v =? 0 then None else Some v | _ => None end in
          match rest with
          | c :: rest' =>
              if (c =? 107) || (c =? 75) then
                if (2 ^ 64 - 1) / 1024 <? v then None else finish (u64 (v * 1024)) rest'
              else finish v rest
          | [] => finish v rest
          end
      end
  end.

Definition parse_source_mode (s : bytes) : option fsd_source_mode_t :=
  if bool_decide (s = bytes_of "auto") then Some FSD_SOURCE_AUTO else
  if bool_decide (s = bytes_of "mmap") then Some FSD_SOURCE_MMAP else
  if bool_decide (s = bytes_of "direct") then Some FSD_SOURCE_DIRECT else None.

(** * Options *)

(** What the options of delta set so far. *)
Record delta_args := mkDelta {
  da_opts : fsd_diff_options_t;
  da_source_mode : fsd_source_mode_t;
  da_verbose : bool;
  da_search_radius_bytes : Z
}.

Definition delta_init : delta_args := mkDelta fsd_diff_options_init FSD_SOURCE_AUTO false 0.

Definition with_opts (f : fsd_diff_options_t → fsd_diff_options_t) (a : delta_args) : delta_args :=
  mkDelta (f (da_opts a)) (da_source_mode a) (da_verbose a) (da_search_radius_bytes a).

Definition set_block_size (v : Z) (o : fsd_diff_options_t) : fsd_diff_options_t :=
  mkOptions v (opt_enable_identity o) (opt_enable_relocation o) (opt_enable_partial o) (opt_partial_threshold o)
    (opt_search_radius o) (opt_force_scalar o) (opt_enable_fsmap o).

Definition set_threshold (v : dyadic) (o : fsd_diff_options_t) : fsd_diff_options_t :=
  mkOptions (opt_block_size_log2 o) (opt_enable_identity o) (opt_enable_relocation o) (opt_enable_partial o) v
    (opt_search_radius o) (opt_force_scalar o) (opt_enable_fsmap o).

Definition set_radius (v : Z) (o : fsd_diff_options_t) : fsd_diff_options_t :=
  mkOptions (opt_block_size_log2 o) (opt_enable_identity o) (opt_enable_relocation o) (opt_enable_partial o)
    (opt_partial_threshold o) v (opt_force_scalar o) (opt_enable_fsmap o).

(** The switches: identity, relocation, partial, fsmap, scalar. *)
Definition set_switches (i r p f s : bool → bool) (o : fsd_diff_options_t) : fsd_diff_options_t :=
  mkOptions (opt_block_size_log2 o) (i (opt_enable_identity o)) (r (opt_enable_relocation o)) (p (opt_enable_partial o))
    (opt_partial_threshold o) (opt_search_radius o) (s (opt_force_scalar o)) (f (opt_enable_fsmap o)).

Definition keep (b : bool) : bool := b.
Definition off (b : bool) : bool := false.
Definition on (b : bool) : bool := true.

(** A command returns an exit code ([inl]) or goes on ([inr]). *)
Abbreviation exit_or A := (outcome (Z + A)).

(** The body of the switch in cmd_create, for one option and its argument. *)
Definition delta_option (atof : bytes → dyadic) (opt : ascii) (optarg : bytes) (a : delta_args) : exit_or delta_args :=
  match opt with
  | "b"%char =>
      v ← atoi optarg;
      let v := u8 v in
      if (v <? 5) || (24 <? v) then Ok (inl 1) else Ok (inr (with_opts (set_block_size v) a))
  | "r"%char =>
      match parse_size_arg optarg with
      | None => Ok (inl 1)
      | Some n => Ok (inr (mkDelta (da_opts a) (da_source_mode a) (da_verbose a) n))
      end
  | "t"%char => Ok (inr (with_opts (set_threshold (atof optarg)) a))
  | "I"%char => Ok (inr (with_opts (set_switches off keep keep keep keep) a))
  | "R"%char => Ok (inr (with_opts (set_switches keep off keep keep keep) a))
  | "P"%char => Ok (inr (with_opts (set_switches keep keep off keep keep) a))
  | "F"%char => Ok (inr (with_opts (set_switches keep keep keep off keep) a))
  | "S"%char => Ok (inr (with_opts (set_switches keep keep keep keep on) a))
  | "v"%char | "V"%char => Ok (inr (mkDelta (da_opts a) (da_source_mode a) true (da_search_radius_bytes a)))
  | "M"%char =>
      match parse_source_mode optarg with
      | None => Ok (inl 1)
      | Some m => Ok (inr (mkDelta (da_opts a) m (da_verbose a) (da_search_radius_bytes a)))
      end
  | "h"%char => Ok (inl 0)
  | _ => Ok (inl 1)
  end.

(** while ((opt = getopt_long(...)) != -1) *)
Fixpoint delta_options (atof : bytes → dyadic) (args : list (ascii * bytes)) (a : delta_args) : exit_or delta_args :=
  match args with
  | [] => Ok (inr a)
  | (opt, optarg) :: args =>
      r ← delta_option atof opt optarg a;
      match r with
      | inl code => Ok (inl code)
      | inr a => delta_options atof args a
      end
  end.

(** What follows the options: relocation implies identity, bytes become blocks. *)
Definition delta_finish (a : delta_args) : Z + delta_args :=
  let a := if opt_enable_relocation (da_opts a) && negb (opt_enable_identity (da_opts a))
           then with_opts (set_switches on keep keep keep keep) a else a in
  if 0 <? da_search_radius_bytes a then
    let bs := u64 (Z.shiftl 1 (opt_block_size_log2 (da_opts a))) in
    let blocks := u64 (da_search_radius_bytes a + bs - 1) / bs in
    if 0x7fffffff <? blocks then inl 1 else inr (with_opts (set_radius blocks) a)
  else inr a.

(** cmd_create up to the call of the library; [rest] are the operands. *)
Definition delta_parse (atof : bytes → dyadic) (args : list (ascii * bytes)) (rest : list bytes)
  : exit_or (delta_args * (bytes * bytes * bytes)) :=
  r ← delta_options atof args delta_init;
  match r with
  | inl code => Ok (inl code)
  | inr a =>
      match delta_finish a with
      | inl code => Ok (inl code)
      | inr a =>
          match rest with
          | [src_path; dest_path; patch_path] => Ok (inr (a, (src_path, dest_path, patch_path)))
          | _ => Ok (inl 1)
          end
      end
  end.

(** The option string and the table of cmd_create. *)
Definition delta_optstring : bytes := bytes_of "b:r:t:vVh".

Definition long_option (name : string) (has_arg : arg_kind) (val : string) : option_t :=
  mkOption (bytes_of name) has_arg (default 0 (head (bytes_of val))).

Definition delta_long_options : list option_t :=
  [long_option "block-size" required_argument "b"; long_option "search-radius" required_argument "r";
   long_option "threshold" required_argument "t"; long_option "no-identity" no_argument "I";
   long_option "no-relocation" no_argument "R"; long_option "no-partial" no_argument "P";
   long_option "no-fsmap" no_argument "F"; long_option "scalar" no_argument "S";
   long_option "verbose" no_argument "v"; long_option "very-verbose" no_argument "V";
   long_option "source-mode" required_argument "M"; long_option "help" no_argument "h"].

(** The answers of getopt_long as the switch sees them; only the options that take
    an argument look at it. *)
Definition as_args (l : list (Z * option bytes)) : list (ascii * bytes) :=
  (fun o => (ascii_of_N (Z.to_N (fst o)), default [] (snd o))) <$> l.

(** cmd_create on Windows up to the call of the library.  The calls of getopt_long
    are all made first: they always return, so that nothing changes when the switch
    leaves the loop early. *)
Definition delta_argv (atof : bytes → dyadic) (argv : list bytes) : exit_or (delta_args * (bytes * bytes * bytes)) :=
  '(l, s) ← getopt_all argv delta_optstring delta_long_options (getopt_fuel argv) getopt_init;
  delta_parse atof (as_args l) (drop (Z.to_nat (optind s)) argv).

Section Commands.
Context {A : Type} {AL : Allocator A}.

(** [world] is what the surroundings answer for a source mode and three paths.
    The exit code, and what the diff did if it was run. *)
Definition cmd_create (atof : bytes → dyadic) (world : fsd_source_mode_t → bytes * bytes * bytes → diff_env A)
    (args : list (ascii * bytes)) (rest : list bytes) : outcome (Z * option diff_result) :=
  r ← delta_parse atof args rest;
  match r with
  | inl code => Ok (code, None)
  | inr (a, paths) =>
      let env := world (da_source_mode a) paths in
      match fsd_diff_create (de_malloc env) (Some (da_opts a)) with
      | Ok ctx =>
          let ctx := if da_verbose a then fsd_diff_set_progress ctx true else ctx in
          let d := fsd_diff_files env ctx in
          match df_status d with
          | Ok _ => Ok (0, Some d)
          | Err _ => Ok (1, Some d)
          | UB => UB
          | NoFuel => NoFuel
          end
      | Err _ => Ok (1, None)
      | UB => UB
      | NoFuel => NoFuel
      end
  end.

End Commands.

(** ** patch *)

Record apply_args := mkApply { aa_opts : fsd_patch_options_t; aa_verbose : bool }.

(** The body of the switch in cmd_apply. *)
Definition apply_option (opt : ascii) (optarg : bytes) (a : apply_args) : Z + apply_args :=
  match opt with
  | "V"%char => inr (mkApply (mkPatchOptions true (po_source_mode (aa_opts a))) (aa_verbose a))
  | "v"%char => inr (mkApply (aa_opts a) true)
  | "M"%char =>
      match parse_source_mode optarg with
      | None => inl 1
      | Some m => inr (mkApply (mkPatchOptions (po_verify_output (aa_opts a)) m) (aa_verbose a))
      end
  | "h"%char => inl 0
  | _ => inl 1
  end.

Fixpoint apply_options (args : list (ascii * bytes)) (a : apply_args) : Z + apply_args :=
  match args with
  | [] => inr a
  | (opt, optarg) :: args =>
      match apply_option opt optarg a with
      | inl code => inl code
      | inr a => apply_options args a
      end
  end.

(** [world] gives the patcher's surroundings, but for the progress switch. *)
Definition cmd_apply {R} `{SourceReader R} (malloc_ok : Z → bool)
    (world : fsd_source_mode_t → bytes * bytes * bytes → bool → patch_env R)
    (args : list (ascii * bytes)) (rest : list bytes) : outcome (Z * option patch_result) :=
  match apply_options args (mkApply fsd_patch_options_init false) with
  | inl code => Ok (code, None)
  | inr a =>
      match rest with
      | [src_path; patch_path; output_path] =>
          match fsd_patch_create malloc_ok (Some (aa_opts a)) with
          | Ok ctx =>
              let ctx := if aa_verbose a then fsd_patch_set_progress ctx true else ctx in
              let p := fsd_patch_apply (world (po_source_mode (pc_opts ctx)) (src_path, patch_path, output_path)
                                          (pc_progress_cb ctx)) in
              match pr_status p with
              | Ok _ => Ok (0, Some p)
              | Err _ => Ok (1, Some p)
              | UB => UB
              | NoFuel => NoFuel
              end
          | Err _ => Ok (1, None)
          | UB => UB
          | NoFuel => NoFuel
          end
      | _ => Ok (1, None)
      end
  end.

(** ** info *)

(** The exit code, the header and the output size; [None] when it overflows. *)
Definition cmd_info (world : bytes → option FILE) (rest : list bytes) : outcome (Z * option (fsd_header_t * option Z)) :=
  match rest with
  | [] => Ok (1, None)
  | patch_path :: _ =>
      match fsd_patch_read_header (world patch_path) with
      | Ok header =>
          let block_size := u64 (Z.shiftl 1 (block_size_log2 header)) in
          Ok (0, Some (header, if UINT64_MAX / block_size <? Header.dest_blocks header then None
                               else Some (u64 (Header.dest_blocks header * block_size))))
      | Err _ => Ok (1, None)
      | UB => UB
      | NoFuel => NoFuel
      end
  end.

(** ** main *)

(** The command names; [None] is the usage message, with its exit code. *)
Inductive command : Type := CmdDelta | CmdPatch | CmdInfo | CmdUsage (code : Z) | CmdVersion.

Definition main_command (cmd : option bytes) : command :=
  match cmd with
  | None => CmdUsage 1
  | Some cmd =>
      if bool_decide (cmd = bytes_of "delta") then CmdDelta else
      if bool_decide (cmd = bytes_of "patch") then CmdPatch else
      if bool_decide (cmd = bytes_of "info") then CmdInfo else
      if bool_decide (cmd = bytes_of "--help") || bool_decide (cmd = bytes_of "-h") then CmdUsage 0 else
      if bool_decide (cmd = bytes_of "--version") then CmdVersion else CmdUsage 1
  end.

(** The percentage that progress_callback shows. *)
Definition progress_percent (current total : Z) : Z := if 0 <? total then s32 (u64 (current * 100) / total) else 100.

(** * The options that reach the library *)

Lemma read_digits_range acc s : 0 ≤ acc → 0 ≤ fst (read_digits acc s).
Proof.
  revert acc. induction s as [|c s IH]; intros acc Ha; cbn; [done|]. destruct (isdigit c) eqn:E; [|done].
  apply IH. unfold isdigit in E. lia.
Qed.

Lemma strtoull_range s v rest : strtoull s = Some (v, rest) → 0 ≤ v < 2 ^ 64.
Proof.
  unfold strtoull. destruct (read_sign (skip_space s)) as [neg s'].
  destruct (negb (starts_with_digit s')); [done|]. pose proof (read_digits_range 0 s' ltac:(lia)) as Hd.
  destruct (read_digits 0 s') as [w r]. cbn in Hd. intros [= <- <-].
  destruct (Z.leb_spec (2 ^ 64) w); [lia|]. destruct neg; [apply (wrap_range 64); lia|lia].
Qed.

Lemma parse_size_arg_range s n : parse_size_arg s = Some n → 0 < n < 2 ^ 64.
Proof.
  unfold parse_size_arg. destruct s as [|c0 s0]; [done|]. set (s := c0 :: s0).
  destruct (strtoull s) as [[v rest]|] eqn:E; [|done]. apply strtoull_range in E.
  assert (Hfin : ∀ v' (r : bytes), 0 ≤ v' < 2 ^ 64 →
    match r with [] => if v' =? 0 then None else Some v' | _ => None end = Some n → 0 < n < 2 ^ 64).
  { intros v' [|] Hv; [|done]. destruct (Z.eqb_spec v' 0); [done|]. intros [= <-]. lia. }
  destruct rest as [|c rest]; [by apply (Hfin v [])|]. destruct (_ || _); [|done].
  destruct (_ <? v); [done|]. apply (Hfin _ rest). apply (wrap_range 64). lia.
Qed.

Record args_ok (a : delta_args) : Prop := {
  ao_block_size : 5 ≤ opt_block_size_log2 (da_opts a) ≤ 24;
  ao_radius : 0 ≤ opt_search_radius (da_opts a) < 2 ^ 31;
  ao_bytes : 0 ≤ da_search_radius_bytes a < 2 ^ 64
}.

Lemma delta_option_ok atof opt optarg a a' :
  args_ok a → delta_option atof opt optarg a = Ok (inr a') → args_ok a'.
Proof.
  intros [Hb Hr Hn]. unfold delta_option. repeat case_match; intros Hx; try discriminate;
    try (injection Hx as <-; constructor; cbn; done).
  all: first
    [ injection Hx as <-; constructor; cbn; [done..|];
      match goal with H : parse_size_arg _ = _ |- _ => apply parse_size_arg_range in H end; lia
    | apply bind_Ok_inv in Hx as (v & _ & Hx); destruct (_ || _) eqn:E; [done|]; injection Hx as <-;
      apply orb_false_iff in E as [E1 E2]; constructor; cbn; [lia|done..] ].
Qed.

Lemma delta_options_ok atof args a a' :
  args_ok a → delta_options atof args a = Ok (inr a') → args_ok a'.
Proof.
  revert a. induction args as [|[opt optarg] args IH]; intros a Ha; cbn [delta_options]; [by intros [= <-]|].
  intros Hx. apply bind_Ok_inv in Hx as ([code|a1] & H1 & Hx); [done|]. by eapply IH, Hx; eapply delta_option_ok.
Qed.

Lemma delta_finish_ok a a' :
  args_ok a → delta_finish a = inr a' →
  args_ok a' ∧ (opt_enable_relocation (da_opts a') = true → opt_enable_identity (da_opts a') = true) ∧
  (let n := da_search_radius_bytes a' in let bs := 2 ^ opt_block_size_log2 (da_opts a') in
   let radius := opt_search_radius (da_opts a') in
   0 < n → n + bs ≤ 2 ^ 64 → (radius - 1) * bs < n ≤ radius * bs).
Proof.
  intros Ha. unfold delta_finish. set (a1 := if _ && _ then _ else a).
  assert (H1 : args_ok a1 ∧ (opt_enable_relocation (da_opts a1) = true → opt_enable_identity (da_opts a1) = true)).
  { subst a1. destruct (opt_enable_relocation (da_opts a)) eqn:Er, (opt_enable_identity (da_opts a)) eqn:Ei; cbn;
      rewrite ?Er, ?Ei; (split; [|done]); try done. by destruct Ha. }
  clearbody a1. destruct H1 as [[Hb Hr Hn] Hri].
  destruct (Z.ltb_spec 0 (da_search_radius_bytes a1)) as [Hpos|]; [|intros [= <-]; cbn; split_and!; [done|done|lia]].
  assert (Hbs : u64 (Z.shiftl 1 (opt_block_size_log2 (da_opts a1))) = 2 ^ opt_block_size_log2 (da_opts a1)).
  { rewrite Z.shiftl_mul_pow2, Z.mul_1_l by lia. apply wrap_small. split; [apply Z.pow_nonneg; lia|].
    apply Z.pow_lt_mono_r; lia. }
  rewrite Hbs. set (bs := 2 ^ opt_block_size_log2 (da_opts a1)) in *.
  assert (Hbs1 : 0 < bs) by (apply Z.pow_pos_nonneg; lia). set (blocks := u64 _ / bs).
  assert (Hbl : 0 ≤ blocks) by (apply Z.div_pos; [apply (wrap_range 64); lia|done]).
  destruct (Z.ltb_spec 0x7fffffff blocks); [done|]. intros [= <-]. split_and!; [constructor; cbn; lia|done|].
  cbn. intros _ Hw. unfold bs in Hw |- *. cbn in Hw. fold bs in Hw |- *. subst blocks. rewrite wrap_small by lia.
  pose proof (Z.div_mod (da_search_radius_bytes a1 + bs - 1) bs ltac:(lia)).
  pose proof (Z.mod_pos_bound (da_search_radius_bytes a1 + bs - 1) bs ltac:(lia)). nia.
Qed.

Lemma delta_parse_ok atof args rest a paths :
  delta_parse atof args rest = Ok (inr (a, paths)) →
  ∃ a0, args_ok a0 ∧ delta_finish a0 = inr a ∧ rest = [paths.1.1; paths.1.2; paths.2].
Proof.
  unfold delta_parse. intros Hx. apply bind_Ok_inv in Hx as ([code|a0] & H0 & Hx); [done|].
  exists a0. split; [eapply delta_options_ok; [|exact H0]; constructor; cbn; lia|].
  destruct (delta_finish a0) as [code|a1]; [done|]. destruct rest as [|x [|y [|z [|]]]]; try done.
  by injection Hx as <- <-.
Qed.

(** ** Command lines *)

Lemma delta_table argv : Forall cstring argv → getopt_call argv delta_optstring delta_long_options.
Proof.
  intros Hargv. constructor; [done| | |].
  - apply (bool_decide_eq_true_1 _). by vm_compute.
  - by repeat constructor.
  - apply (bool_decide_eq_true_1 _). by vm_compute.
Qed.

(** The options without an argument do not look at it. *)
Definition delta_flags : bytes := bytes_of "IRPFSvVh".

Lemma delta_flag_optarg atof c a1 a2 d : c ∈ delta_flags →
  delta_option atof (ascii_of_N (Z.to_N c)) a1 d = delta_option atof (ascii_of_N (Z.to_N c)) a2 d.
Proof.
  unfold delta_flags. cbn. rewrite !elem_of_cons, elem_of_nil.
  intros [->|[->|[->|[->|[->|[->|[->|[->|[]]]]]]]]]; reflexivity.
Qed.

Definition flags_known (o : Z * option bytes) : Prop := snd o = None → fst o ∈ delta_flags.

Lemma delta_word_flags w : spelling_ok delta_optstring delta_long_options w → Forall flags_known (word_options w).
Proof.
  assert (Hs : ∀ c, flag_ok delta_optstring c → c ∈ delta_flags).
  { intros c (_ & Hc & _ & r & Hr & Hh). cbn in Hr. repeat case_match; simplify_eq; try done.
    all: repeat match goal with H : (_ =? _) = true |- _ => apply Z.eqb_eq in H end; subst;
      try done; by apply (bool_decide_eq_true_1 _); vm_compute. }
  assert (Hl : ∀ o, o ∈ delta_long_options → lo_has_arg o = no_argument → lo_val o ∈ delta_flags).
  { intros o Ho. apply list_elem_of_In in Ho. cbn in Ho. repeat destruct Ho as [<-|Ho]; try done;
      intros _; by apply (bool_decide_eq_true_1 _); vm_compute. }
  assert (Hf : ∀ flags, Forall (flag_ok delta_optstring) flags → Forall flags_known ((fun c => (c, None)) <$> flags)).
  { intros flags H. apply Forall_fmap. eapply Forall_impl; [exact H|]. intros c Hc _. by apply Hs. }
  destruct w as [flags|flags c attached v|o|o attached v]; cbn.
  - intros [_ H]. by apply Hf.
  - intros [H _]. apply Forall_app. split; [by apply Hf|]. by constructor; [|constructor].
  - intros [[Ho _] Hk]. constructor; [|constructor]. intros _. by apply Hl.
  - intros _. by constructor; [|constructor].
Qed.

Lemma delta_options_answers atof want got a :
  Forall2 answers want got → Forall flags_known want →
  delta_options atof (as_args want) a = delta_options atof (as_args got) a.
Proof.
  intros H. revert a. induction H as [|[c v] [c' v'] want got [Hc Hv] H IH]; intros a Hk; [done|].
  inversion_clear Hk as [|? ? Hck Hk']. unfold as_args in *. cbn in *. subst c'.
  assert (E : delta_option atof (ascii_of_N (Z.to_N c)) (default [] v) a =
              delta_option atof (ascii_of_N (Z.to_N c)) (default [] v') a).
  { destruct v as [v|]; [by rewrite <- Hv|]. apply delta_flag_optarg. by apply Hck. }
  rewrite E. destruct (delta_option atof (ascii_of_N (Z.to_N c)) (default [] v') a) as [[code|a1]| | |]; cbn; try done. by apply IH.
Qed.

(** A delta command that ran and exits with 0 is a diff that succeeded. *)
Lemma cmd_create_diff {A} `{Allocator A} atof (world : fsd_source_mode_t → bytes * bytes * bytes → diff_env A) args rest d :
  cmd_create atof world args rest = Ok (0, Some d) →
  ∃ a paths ctx, delta_parse atof args rest = Ok (inr (a, paths)) ∧ ctx_ok ctx ∧ dc_opts ctx = da_opts a ∧
    d = fsd_diff_files (world (da_source_mode a) paths) ctx ∧ df_status d = Ok tt.
Proof.
  unfold cmd_create. destruct (delta_parse atof args rest) as [[code|[a paths]]|e| |] eqn:Hp; [done| |done..].
  cbn [mbind outcome_bind]. intros Hc. destruct (delta_parse_ok _ _ _ _ _ Hp) as (a0 & Ha0 & Hf & _).
  destruct (delta_finish_ok a0 a Ha0 Hf) as ([Hb Hrad _] & _ & _).
  unfold fsd_diff_create in Hc. destruct (negb _); [done|]. destruct (_ || _); [done|].
  set (ctx := if da_verbose a then _ else _) in Hc. exists a, paths, ctx.
  assert (Hctx : ctx_ok ctx ∧ dc_opts ctx = da_opts a).
  { subst ctx. destruct (da_verbose a); (split; [constructor; cbn; lia|done]). }
  clearbody ctx. destruct Hctx as [Hctx Hopts].
  destruct (df_status (fsd_diff_files _ ctx)) as [[]|e| |] eqn:Hok; [|done..]. injection Hc as <-. by split_and!.
Qed.

(** * Properties *)

(** C30: a Windows command line means what was written: the options, in any of the
    usual forms, before the operands or before "--", reach the delta command in
    their order and with their arguments, and what follows are its operands. *)
Theorem delta_argv_reads atof argv prog ws tail operands :
  Forall cstring argv → argv = prog :: concat (word_args <$> ws) ++ tail →
  Forall (spelling_ok delta_optstring delta_long_options) ws → options_end operands tail →
  delta_argv atof argv = delta_parse atof (as_args (concat (word_options <$> ws))) operands.
Proof.
  intros Hargv Heq Hws Hend.
  destruct (words_found argv _ _ prog ws tail operands (delta_table argv Hargv) Heq Hws Hend) as (l & s & Hl & Ha & Hd).
  unfold delta_argv. rewrite Hl. cbn [mbind outcome_bind]. rewrite Hd. unfold delta_parse.
  rewrite (delta_options_answers atof _ l delta_init Ha); [done|].
  clear -Hws. induction Hws; cbn; [done|]. apply Forall_app. split; [by apply delta_word_flags|done].
Qed.

(** C29: whatever the arguments, the options that a delta command hands to the
    library are in range and consistent: the block size is between 2^5 and 2^24,
    the radius is a non-negative int, relocation comes with identity; and a radius
    given in bytes is covered by the smallest number of blocks that does, if it is
    not within a block of 2^64. *)
Theorem delta_options_valid atof args rest a paths :
  delta_parse atof args rest = Ok (inr (a, paths)) →
  let o := da_opts a in
  5 ≤ opt_block_size_log2 o ≤ 24 ∧ 0 ≤ opt_search_radius o < 2 ^ 31 ∧
  (opt_enable_relocation o = true → opt_enable_identity o = true) ∧
  (0 < da_search_radius_bytes a → da_search_radius_bytes a + 2 ^ opt_block_size_log2 o ≤ 2 ^ 64 →
   (opt_search_radius o - 1) * 2 ^ opt_block_size_log2 o < da_search_radius_bytes a ≤
     opt_search_radius o * 2 ^ opt_block_size_log2 o).
Proof.
  intros Hp. destruct (delta_parse_ok _ _ _ _ _ Hp) as (a0 & H0 & Hf & _).
  destruct (delta_finish_ok a0 a H0 Hf) as ([Hb Hr _] & Hri & Hrad). cbv zeta. split_and!; [lia..|done|exact Hrad].
Qed.

(** The tool from end to end: when a delta command runs and exits with 0, it
    left a patch file; a patch command on that file and the source image exits
    with 0 and writes the destination image. *)
Theorem delta_then_patch {A R} `{ALL : AllocatorLaws A} `{SRL : SourceReaderLaws R} atof world args rest a paths src dest d
    pargs pa prest malloc_ok pworld (r : R) out reg malloc_ok' :
  delta_parse atof args rest = Ok (inr (a, paths)) →
  diff_env_ok (A := A) (2 ^ opt_block_size_log2 (da_opts a)) src dest (world (da_source_mode a) paths) →
  cmd_create atof world args rest = Ok (0, Some d) →
  sr_ok r → sr_contents r = src → sr_reliable r → f_data out = [] → zlen dest ≤ f_room out ≤ 2 ^ 62 →
  malloc_ok sizeof_patch_ctx = true → malloc_ok' (2 ^ opt_block_size_log2 (da_opts a)) = true →
  apply_options pargs (mkApply fsd_patch_options_init false) = inr pa → length prest = 3%nat →
  (∀ m p hp, pworld m p hp = mkEnv (Ok r) (Ok (f_data <$> df_output d)) reg (Some out) malloc_ok' hp) →
  ∃ p, cmd_apply malloc_ok pworld pargs prest = Ok (0, Some p) ∧ f_data <$> pr_output p = Some dest ∧
    pr_file p = if fclose out then Some dest else None.
Proof.
  intros Hp Henv Hc Hr Hrc Hrel Hout Hroom Hm Hm' Hpa Hrest Hw.
  destruct (cmd_create_diff _ _ _ _ _ Hc) as (a' & paths' & ctx & Hp' & Hctx & Hopts & -> & Hok).
  rewrite Hp in Hp'. injection Hp' as <- <-.
  assert (Hbs : ctx_block_size ctx = 2 ^ opt_block_size_log2 (da_opts a)) by (unfold ctx_block_size; by rewrite Hopts).
  rewrite <- Hbs in Henv, Hm'.
  unfold cmd_apply. rewrite Hpa. destruct prest as [|x [|y [|z [|]]]]; try done. unfold fsd_patch_create.
  rewrite Hm. cbn [negb]. set (pctx := if aa_verbose pa then _ else _).
  destruct (diff_applies ctx _ src dest r out reg malloc_ok' (pc_progress_cb pctx) Hctx Henv Hok Hr Hrc Hrel Hout Hroom Hm')
    as (patch & Hpatch & _ & _ & Hst & Hpo & Hpf & _).
  rewrite Hw, Hpatch. cbn [fmap option_fmap option_map].
  rewrite Hst. eexists. split; [reflexivity|exact (conj Hpo Hpf)].
Qed.

(** Two checks of the arguments come too late.  The block size is stored in
    eight bits before its range is tested, so that [-b 268] runs with 2^12; and
    strtoull takes a minus sign, so that the negative radius [-r -5] is accepted
    and, rounded up past 2^64, becomes the default. *)
Theorem late_argument_checks atof paths :
  (∃ a, delta_parse atof [("b"%char, bytes_of "268")] [paths; paths; paths] = Ok (inr (a, (paths, paths, paths))) ∧
        opt_block_size_log2 (da_opts a) = 12) ∧
  (∃ a, delta_parse atof [("r"%char, bytes_of "-5")] [paths; paths; paths] = Ok (inr (a, (paths, paths, paths))) ∧
        da_search_radius_bytes a = 2 ^ 64 - 5 ∧ opt_search_radius (da_opts a) = 0).
Proof. split; (eexists; split; [reflexivity|done]). Qed.

(** ** A run of the tool on the small images *)

Definition demo_args : list (ascii * bytes) :=
  [("b"%char, bytes_of "5"); ("r"%char, bytes_of "33"); ("v"%char, [])].

Definition demo_paths : list bytes := [bytes_of "v1"; bytes_of "v2"; bytes_of "patch"].

Definition demo_delta : delta_args :=
  mkDelta (mkOptions 5 true true true half 2 false true) FSD_SOURCE_AUTO true 33.

(** fsdiff delta -vb5 --search-radius=33 -- v1 v2 patch *)
Definition demo_words : list word :=
  [ClusterArg [118] 98 true (bytes_of "5"); LongArg (long_option "search-radius" required_argument "r") true (bytes_of "33")].

Definition demo_argv : list bytes :=
  [bytes_of "delta"; bytes_of "-vb5"; bytes_of "--search-radius=33"; bytes_of "--";
   bytes_of "v1"; bytes_of "v2"; bytes_of "patch"].

Lemma delta_argv_reads_witness :
  delta_argv (fun _ => half) demo_argv = Ok (inr (demo_delta, (bytes_of "v1", bytes_of "v2", bytes_of "patch"))).
Proof.
  rewrite (delta_argv_reads (fun _ => half) demo_argv (bytes_of "delta") demo_words
             [bytes_of "--"; bytes_of "v1"; bytes_of "v2"; bytes_of "patch"] demo_paths).
  - reflexivity.
  - unfold cstring. apply (bool_decide_eq_true_1 _). by vm_compute.
  - reflexivity.
  - repeat constructor; try done; try (by eexists); try (by apply (bool_decide_eq_true_1 _); vm_compute).
    all: intros; by vm_compute.
  - apply end_dashes.
Defined.

Lemma delta_options_valid_witness :
  delta_parse (fun _ => half) demo_args demo_paths =
    Ok (inr (demo_delta, (bytes_of "v1", bytes_of "v2", bytes_of "patch"))) ∧
  (opt_search_radius (da_opts demo_delta) - 1) * 2 ^ 5 < 33 ≤ opt_search_radius (da_opts demo_delta) * 2 ^ 5.
Proof.
  assert (H : delta_parse (fun _ => half) demo_args demo_paths =
    Ok (inr (demo_delta, (bytes_of "v1", bytes_of "v2", bytes_of "patch")))) by reflexivity.
  split; [exact H|].
  apply (proj2 (proj2 (proj2 (delta_options_valid (fun _ => half) demo_args demo_paths _ _ H)))).
  - reflexivity.
  - vm_compute. discriminate.
Defined.

Definition no_result : diff_result := mkDiffResult (Ok tt) demo_ctx None false [] None.

Definition demo_create : outcome (Z * option diff_result) :=
  cmd_create (fun _ => half) (fun _ _ => demo_diff_env) demo_args demo_paths.

Definition demo_result : diff_result := default no_result (from_ok (1, None) demo_create).2.

Local Strategy 100 [fsd_diff_files fsd_patch_apply cmd_create cmd_apply].

Lemma demo_create_ok : demo_create = Ok (0, Some demo_result).
Proof.
  assert (Hc : is_ok demo_create = true ∧ (from_ok (1, None) demo_create).1 = 0 ∧
    match (from_ok (1, None) demo_create).2 with Some _ => true | None => false end = true) by (vm_compute; done).
  unfold demo_result. destruct demo_create as [[code [d|]]|e| |]; cbn in Hc; naive_solver.
Qed.

Lemma delta_then_patch_witness :
  ∃ p, cmd_apply (fun _ => true)
    (fun _ _ => mkEnv (Ok demo_reader) (Ok (f_data <$> df_output demo_result)) true (Some (file_new 1000)) (fun _ => true))
    [] demo_paths = Ok (0, Some p) ∧ f_data <$> pr_output p = Some demo_dest ∧ pr_file p = Some demo_dest.
Proof.
  apply (delta_then_patch (fun _ => half) (fun _ _ => demo_diff_env) demo_args demo_paths demo_delta
    (bytes_of "v1", bytes_of "v2", bytes_of "patch") demo_src demo_dest demo_result
    [] (mkApply fsd_patch_options_init false) demo_paths (fun _ => true) _ demo_reader (file_new 1000) true (fun _ => true)).
  - reflexivity.
  - exact demo_diff_env_ok.
  - exact demo_create_ok.
  - exact demo_source_ok.
  - reflexivity.
  - done.
  - reflexivity.
  - vm_compute. split; discriminate.
  - reflexivity.
  - reflexivity.
  - reflexivity.
  - reflexivity.
  - intros m p hp. reflexivity.
Defined.
