(* ===== verification/Main.v ===== *)
(** The tool as a whole: main of tools/fsdiff.c on a command line.

    [fsdiff_main] is main for the Windows build, whose getopt_long is the program's
    own: from the arguments to the exit code, what is printed on the standard
    output (before a text stream translates its newlines), and what the diff or the
    patcher did.  The messages on the standard
    error and the usage text are left out; fsd_init and fsd_cleanup are those of
    Library.v and never fail.

    Shown here: whatever the command line, a delta command that ran and exits with 0
    leaves a file from which every patch command recreates the destination, and of
    which info prints the block size, the blocks, the size of the output and the
    lengths of the streams modulo 2^32: [unsigned long] has 32 bits there. *)

From stdpp Require Import base list numbers tactics strings pretty.
From Stdlib Require Import ZArith Lia Ascii.
From S2P Require Import Prelude Stdio Getopt Header MemoryPool Simd Tracker Source Patch Matches StagePartial StageController.
From S2P Require Import PatchSafety EndToEnd Diff Library Cli.
Open Scope Z_scope.

(** * Printing *)

(** %u, %lu and the like. *)
Definition decimal (z : Z) : bytes := bytes_of (pretty z).

(** The integer nearest to [a / b], the even one of two. *)
Definition round_even (a b : Z) : Z :=
  let q := a / b in
  let r := a mod b in
  if 2 * r <? b then q else if b <? 2 * r then q + 1 else if Z.even q then q else q + 1.

(** An unsigned 64-bit integer as a double. *)
Definition to_double (n : Z) : Z :=
  let e := Z.max 0 (Z.log2 n - 52) in
  round_even n (2 ^ e) * 2 ^ e.

(** %.2f of [n] MiB. *)
Definition mebibytes (n : Z) : bytes :=
  let cents := round_even (100 * to_double n) (2 ^ 20) in
  decimal (cents / 100) ++ bytes_of "." ++ decimal (cents / 10 mod 10) ++ decimal (cents mod 10).

Definition line (parts : list bytes) : bytes := concat parts ++ [10].

(** The cast to unsigned long, which has 32 bits on the Windows build. *)
Definition unsigned_long (n : Z) : Z := u32 n.

(** A line of the stream sizes: %lu of a length cast to unsigned long. *)
Definition stream_line (label : string) (len : Z) : bytes :=
  line [bytes_of label; decimal (unsigned_long len); bytes_of " bytes"].

(** What cmd_info prints. *)
Definition info_text (patch_path : bytes) (header : fsd_header_t) : bytes :=
  let block_size := u64 (Z.shiftl 1 (block_size_log2 header)) in
  concat [
    line [bytes_of "Patch file: "; patch_path];
    line [];
    line [bytes_of "Format:           BKDF (Binary Block Diff Format)"];
    line [bytes_of "Version:          "; decimal (version header)];
    line [bytes_of "Block size:       "; decimal block_size; bytes_of " bytes (2^"; decimal (block_size_log2 header); bytes_of ")"];
    line [bytes_of "Output blocks:    "; decimal (Header.dest_blocks header)];
    if UINT64_MAX / block_size <? Header.dest_blocks header
    then line [bytes_of "Output size:      (overflows 64-bit; corrupt header)"]
    else let output_size := u64 (Header.dest_blocks header * block_size) in
         line [bytes_of "Output size:      "; decimal output_size; bytes_of " bytes ("; mebibytes output_size; bytes_of " MiB)"];
    line [];
    line [bytes_of "Stream sizes:"];
    stream_line "  Operations:     " (op_stream_len header);
    stream_line "  Diff data:      " (diff_stream_len header) ].

Example mebibytes_1 : mebibytes 1572864 = bytes_of "1.50".
Proof. reflexivity. Qed.

(** * The program *)

Definition apply_optstring : bytes := bytes_of "vh".

Definition apply_long_options : list option_t :=
  [long_option "verify" no_argument "V"; long_option "verbose" no_argument "v";
   long_option "source-mode" required_argument "M"; long_option "help" no_argument "h"].

(** The world of a run: atof, the surroundings of a diff and of the patcher for a
    source mode and three paths, malloc, the files that info opens, the compiler. *)
Record tool_world (A R : Type) := mkTool {
  tw_atof : bytes → dyadic;
  tw_diff : fsd_source_mode_t → bytes * bytes * bytes → diff_env A;
  tw_malloc : allocator;
  tw_patch : fsd_source_mode_t → bytes * bytes * bytes → bool → patch_env R;
  tw_fopen : bytes → option FILE;
  tw_build_info : bytes
}.
Arguments mkTool {A R}.
Arguments tw_atof {A R}.
Arguments tw_diff {A R}.
Arguments tw_malloc {A R}.
Arguments tw_patch {A R}.
Arguments tw_fopen {A R}.
Arguments tw_build_info {A R}.

Section Main.
Context {A : Type} {AL : Allocator A} {R : Type} {SR : SourceReader R}.

(** What a command did besides printing. *)
Inductive action : Type :=
| NoAction
| Made (d : diff_result)
| Applied (p : @patch_result).

Definition cmd_create_argv (w : tool_world A R) (argv : list bytes) : outcome (Z * option diff_result) :=
  '(l, s) ← getopt_all argv delta_optstring delta_long_options (getopt_fuel argv) getopt_init;
  cmd_create (tw_atof w) (tw_diff w) (as_args l) (drop (Z.to_nat (optind s)) argv).

Definition cmd_apply_argv (w : tool_world A R) (argv : list bytes) : outcome (Z * option patch_result) :=
  '(l, s) ← getopt_all argv apply_optstring apply_long_options (getopt_fuel argv) getopt_init;
  cmd_apply (tw_malloc w) (tw_patch w) (as_args l) (drop (Z.to_nat (optind s)) argv).

(** The exit code, the standard output and the action. *)
Definition fsdiff_main (w : tool_world A R) (argv : list bytes) : outcome (Z * bytes * action) :=
  match main_command (argv !! 1%nat) with
  | CmdDelta =>
      '(code, d) ← cmd_create_argv w (drop 1 argv);
      Ok (code, [], match d with Some d => Made d | None => NoAction end)
  | CmdPatch =>
      '(code, p) ← cmd_apply_argv w (drop 1 argv);
      Ok (code, [], match p with Some p => Applied p | None => NoAction end)
  | CmdInfo =>
      '(code, h) ← cmd_info (tw_fopen w) (drop 2 argv);
      Ok (code, match h, drop 2 argv with Some (header, _), patch_path :: _ => info_text patch_path header | _, _ => [] end,
          NoAction)
  | CmdUsage code => Ok (code, [], NoAction)
  | CmdVersion =>
      Ok (0, line [bytes_of "fsdiff "; bytes_of fsd_version] ++ line [bytes_of "Build: "; tw_build_info w], NoAction)
  end.

End Main.

(** * Command lines *)

Section Proofs.
Context {A : Type} {AL : Allocator A} {ALS : AllocatorSpec A} {ALL : AllocatorLaws A}.
Context {R : Type} {SR : SourceReader R} {SRS : SourceReaderSpec R} {SRL : SourceReaderLaws R}.
Implicit Types w : tool_world A R.

Lemma apply_table argv : Forall cstring argv → getopt_call argv apply_optstring apply_long_options.
Proof.
  intros Hargv. constructor; [done| | |].
  - apply (bool_decide_eq_true_1 _). by vm_compute.
  - by repeat constructor.
  - apply (bool_decide_eq_true_1 _). by vm_compute.
Qed.

(** A delta command line that made a patch. *)
Lemma main_made w argv out d : fsdiff_main w argv = Ok (0, out, Made d) →
  ∃ args rest, cmd_create (tw_atof w) (tw_diff w) args rest = Ok (0, Some d).
Proof.
  unfold fsdiff_main. destruct (main_command (argv !! 1%nat)); [| | |done|done].
  - intros Hx. apply bind_Ok_inv in Hx as ([code r] & Hc & Hx). destruct r as [r|]; [|done]. injection Hx as -> <- <-.
    unfold cmd_create_argv in Hc. apply bind_Ok_inv in Hc as ([l s] & _ & Hc). by eexists _, _.
  - intros Hx. by apply bind_Ok_inv in Hx as ([code [r|]] & Hc & Hx).
  - intros Hx. by apply bind_Ok_inv in Hx as ([code h] & Hc & Hx).
Qed.

(** A patch command line whose options are accepted, with three operands. *)
Definition patch_line (argv : list bytes) : Prop :=
  ∃ l s pa, main_command (argv !! 1%nat) = CmdPatch ∧
    getopt_all (drop 1 argv) apply_optstring apply_long_options (getopt_fuel (drop 1 argv)) getopt_init = Ok (l, s) ∧
    apply_options (as_args l) (mkApply fsd_patch_options_init false) = inr pa ∧
    length (drop (Z.to_nat (optind s)) (drop 1 argv)) = 3%nat.

(** What info prints about a header without overflow contains the output size and
    ends with the stream sizes. *)
Lemma info_text_size path header n :
  5 ≤ block_size_log2 header ≤ 24 → 0 ≤ Header.dest_blocks header →
  Header.dest_blocks header * 2 ^ block_size_log2 header = n → n < 2 ^ 64 →
  ∃ before middle, info_text path header =
    before ++ line [bytes_of "Output size:      "; decimal n; bytes_of " bytes ("; mebibytes n; bytes_of " MiB)"] ++
    middle ++ stream_line "  Operations:     " (op_stream_len header) ++
    stream_line "  Diff data:      " (diff_stream_len header).
Proof.
  intros Hlg H0 Hn Hmax. unfold info_text.
  assert (Hp : 1 ≤ 2 ^ block_size_log2 header ≤ 2 ^ 24) by (split; [apply (Z.pow_le_mono_r 2 0)|apply Z.pow_le_mono_r]; lia).
  rewrite (wrap_small 64 (Z.shiftl 1 _)) by (rewrite Z.shiftl_mul_pow2 by lia; lia).
  rewrite Z.shiftl_mul_pow2, Z.mul_1_l by lia. set (bs := 2 ^ block_size_log2 header) in *.
  destruct (Z.ltb_spec (UINT64_MAX / bs) (Header.dest_blocks header)) as [Hlt|_].
  { assert (Header.dest_blocks header ≤ UINT64_MAX / bs) by (apply Z.div_le_lower_bound; unfold UINT64_MAX; lia). lia. }
  rewrite (wrap_small 64 (Header.dest_blocks header * bs)) by nia. rewrite Hn. cbn [concat].
  set (size := line [bytes_of "Output size:      "; _; _; _; _]).
  match goal with |- ∃ before middle, ?a ++ ?b ++ ?c ++ ?d ++ ?e ++ ?f ++ size ++ ?g ++ ?h ++ _ = _ =>
    exists (a ++ b ++ c ++ d ++ e ++ f), (g ++ h) end.
  by rewrite <- !app_assoc, app_nil_r.
Qed.

End Proofs.

(** * Properties *)

Section Theorems.
Context {A : Type} {AL : Allocator A} {ALS : AllocatorSpec A} {ALL : AllocatorLaws A}.
Context {R : Type} {SR : SourceReader R} {SRS : SourceReaderSpec R} {SRL : SourceReaderLaws R}.

(** C2: from command line to command line: when main, run as delta with any
    arguments at all, made a patch and exits with 0, then main run with any patch
    command line on that file and the source image exits with 0 and writes the
    destination image, which the file holds when fclose does not fail; and info on
    that file exits with 0 and prints the header of a well-formed patch, among it the
    size of the destination and, last, the lengths of the two streams as an unsigned
    long of 32 bits holds them. *)
Theorem command_lines_roundtrip (w1 : tool_world A R) (w2 : tool_world A R) argv1 argv2 printed d src dest (r : R) out reg malloc_ok patch :
  fsdiff_main w1 argv1 = Ok (0, printed, Made d) → df_output d = Some patch →
  (∀ lg m paths, 5 ≤ lg ≤ 24 → diff_env_ok (2 ^ lg) src dest (tw_diff w1 m paths)) →
  patch_line argv2 → sr_ok r → sr_contents r = src → sr_reliable r →
  f_data out = [] → zlen dest ≤ f_room out ≤ 2 ^ 62 →
  tw_malloc w2 sizeof_patch_ctx = true → (∀ z, z ≤ 2 ^ 24 → malloc_ok z = true) →
  (∀ m paths hp, tw_patch w2 m paths hp = mkEnv (Ok r) (Ok (Some (f_data patch))) reg (Some out) malloc_ok hp) →
  (∀ path, tw_fopen w2 path = Some (file_of (f_data patch))) →
  (∃ p, fsdiff_main w2 argv2 = Ok (0, [], Applied p) ∧ f_data <$> pr_output p = Some dest ∧
     pr_file p = if fclose out then Some dest else None) ∧
  ∀ prog path more, ∃ header ops diffs lits before middle,
    fsdiff_main w2 (prog :: bytes_of "info" :: path :: more) = Ok (0, info_text path header, NoAction) ∧
    open_streams (Some (f_data patch)) = Ok (header, 2 ^ block_size_log2 header, ops, diffs, lits) ∧
    info_text path header =
      before ++ line [bytes_of "Output size:      "; decimal (zlen dest); bytes_of " bytes ("; mebibytes (zlen dest);
                      bytes_of " MiB)"] ++
      middle ++ stream_line "  Operations:     " (zlen ops) ++ stream_line "  Diff data:      " (zlen diffs).
Proof.
  intros Hmain Hpatch Henv (l & s & pa & Hcmd & Hgo & Hpa & Hrest) Hr Hrc Hrel Hout Hroom Hm Hm' Hw Hf.
  destruct (main_made w1 argv1 printed d Hmain) as (args & rest & Hc).
  destruct (cmd_create_diff _ _ _ _ _ Hc) as (a & paths & ctx & Hp & Hctx & Hopts & Hd & Hok).
  pose proof (cx_block_size _ Hctx) as Hlg. rewrite Hopts in Hlg. split.
  - destruct (delta_then_patch (tw_atof w1) (tw_diff w1) args rest a paths src dest d (as_args l) pa
      (drop (Z.to_nat (optind s)) (drop 1 argv2)) (tw_malloc w2) (tw_patch w2) r out reg malloc_ok) as (p & Hp2 & Hdest);
      try done.
    + by apply Henv.
    + apply Hm'. apply Z.pow_le_mono_r; lia.
    + intros m paths' hp. by rewrite Hw, Hpatch.
    + exists p. split; [|done]. unfold fsdiff_main, cmd_apply_argv. rewrite Hcmd, Hgo. cbn [mbind outcome_bind].
      by rewrite Hp2.
  - intros prog path more.
    assert (Hbs : ctx_block_size ctx = 2 ^ opt_block_size_log2 (da_opts a)) by (unfold ctx_block_size; by rewrite Hopts).
    assert (He : diff_env_ok (ctx_block_size ctx) src dest (tw_diff w1 (da_source_mode a) paths)) by (rewrite Hbs; by apply Henv).
    rewrite Hd in Hok, Hpatch.
    destruct (diff_output_header ctx _ src dest Hctx He Hok) as (patch' & dbs & ops & diffs & lits & Hp' & Hb & Hs & Hh & Hn & H0 & Hmax & _).
    rewrite Hpatch in Hp'. injection Hp' as <-. rewrite Hopts in Hs, Hh. rewrite Hbs in Hs, Hn.
    set (header := header_of dbs _ _ _) in *.
    destruct (info_text_size path header (zlen dest)) as (before & middle & Hinfo); [done|done|exact Hn|lia|].
    exists header, ops, diffs, lits, before, middle. split_and!; [|exact Hs|exact Hinfo].
    unfold fsdiff_main. cbn [lookup list_lookup]. change (main_command (Some (bytes_of "info"))) with CmdInfo.
    cbn [drop]. unfold cmd_info. rewrite Hf, Hh. done.
Qed.

End Theorems.

(** The length of a stream of 4 GiB is printed as 0. *)
Example info_cuts_lengths : stream_line "  Diff data:      " (2 ^ 32) = stream_line "  Diff data:      " 0.
Proof. reflexivity. Qed.

(** ** A run on the small images *)

Local Strategy 100 [fsd_diff_files fsd_patch_apply cmd_create cmd_apply fsdiff_main].

Definition demo_tool1 : tool_world bump fsd_source_reader :=
  mkTool (fun _ => half) (fun _ _ => demo_diff_env) (fun _ => true) (fun _ _ _ => mkEnv (Err FSD_ERR_IO) (Err FSD_ERR_IO) true None (fun _ => true) false)
    (fun _ => None) [].

(** fsdiff delta -vb5 --search-radius=33 -- v1 v2 patch *)
Definition demo_line1 : list bytes := bytes_of "fsdiff" :: demo_argv.

(** fsdiff patch --verify v1 patch out *)
Definition demo_line2 : list bytes :=
  [bytes_of "fsdiff"; bytes_of "patch"; bytes_of "--verify"; bytes_of "v1"; bytes_of "patch"; bytes_of "out"].

Definition demo_main : outcome (Z * bytes * action) := fsdiff_main demo_tool1 demo_line1.

Definition demo_made : diff_result :=
  match from_ok (1, [], NoAction) demo_main with (_, _, Made d) => d | _ => no_result end.

Definition demo_file : FILE := default (file_new 0) (df_output demo_made).

Lemma demo_main_ok : demo_main = Ok (0, [], Made demo_made) ∧ df_output demo_made = Some demo_file.
Proof.
  assert (Hc : is_ok demo_main = true ∧ (from_ok (1, [], NoAction) demo_main).1 = (0, []) ∧
    match (from_ok (1, [], NoAction) demo_main).2 with Made _ => true | _ => false end = true ∧
    match df_output demo_made with Some _ => true | None => false end = true) by (vm_compute; done).
  unfold demo_file. destruct Hc as (H1 & H2 & H3 & H4). split; [|by destruct (df_output demo_made)].
  clear H4. unfold demo_made. revert H1 H2 H3. generalize demo_main as m.
  intros [[[code out] [|d|p]]|e| |]; cbn; [done|intros _ [= -> ->] _; done|done..].
Qed.

Definition demo_tool2 : tool_world bump fsd_source_reader :=
  mkTool (fun _ => half) (fun _ _ => demo_diff_env) (fun _ => true)
    (fun _ _ hp => mkEnv (Ok demo_reader) (Ok (Some (f_data demo_file))) true (Some (file_new 1000)) (fun _ => true) hp)
    (fun _ => Some (file_of (f_data demo_file))) [].

Lemma demo_env_any lg : 5 ≤ lg ≤ 24 → diff_env_ok (2 ^ lg) demo_src demo_dest demo_diff_env.
Proof.
  intros Hlg. destruct demo_diff_env_ok. constructor; try done.
  assert (1 ≤ 2 ^ lg) by (apply (Z.pow_le_mono_r 2 0); lia).
  apply Z.div_lt_upper_bound; [lia|]. change (zlen demo_dest) with 96. lia.
Qed.

Lemma demo_patch_line : patch_line demo_line2.
Proof.
  eexists _, _, _. split; [reflexivity|]. split; [vm_compute; reflexivity|]. split; reflexivity.
Qed.

Lemma command_lines_roundtrip_witness :
  ∃ p, fsdiff_main demo_tool2 demo_line2 = Ok (0, [], Applied p) ∧ f_data <$> pr_output p = Some demo_dest ∧
    pr_file p = Some demo_dest.
Proof.
  apply (command_lines_roundtrip demo_tool1 demo_tool2 demo_line1 demo_line2 [] demo_made demo_src demo_dest
    demo_reader (file_new 1000) true (fun _ => true) demo_file).
  - exact (proj1 demo_main_ok).
  - exact (proj2 demo_main_ok).
  - intros lg m paths. exact (demo_env_any lg).
  - exact demo_patch_line.
  - exact demo_source_ok.
  - reflexivity.
  - done.
  - reflexivity.
  - vm_compute. split; discriminate.
  - reflexivity.
  - done.
  - intros m paths hp. reflexivity.
  - intros path. reflexivity.
Defined.
