(* ===== verification/UnitTests.v ===== *)
(** The repository's unit tests (src/tests/), run on the model.

    Each Module is a test program, each Example one of its cases: the same inputs,
    built by the same steps, and the result the test asserts, computed by the
    definitions of the development.  Buffers of kilobytes are scaled down to a
    few hundred bytes and long repetitions to a few.  Left out are the cases that
    only create and destroy an object, those that need files and devices of the
    machine (O_DIRECT among them), and test_ext_reader.c and the last case of
    test_roundtrip.c, whose images mkfs.ext4 makes at run time. *)

From stdpp Require Import base list numbers tactics strings.
From Stdlib Require Import ZArith Lia.
From S2P Require Import Prelude Stdio Header Writer Varint Crc32 MemoryPool HashTable Simd Tracker Source Patch.
From S2P Require Import PatchSafety Encoder StagePartial StageController EndToEnd Diff.
Open Scope Z_scope.

(** for (i = 0; i < n; i++) buf[i] = f(i) *)
Fixpoint tabulate_loop (n : nat) (i : Z) (f : Z → Z) : bytes :=
  match n with O => [] | S n => f i :: tabulate_loop n (i + 1) f end.

Definition tabulate (n : Z) (f : Z → Z) : bytes := tabulate_loop (Z.to_nat n) 0 f.

(** memcmp on whole buffers; long results are compared by it inside the
    computation. *)
Fixpoint same_bytes (a b : bytes) : bool :=
  match a, b with
  | [], [] => true
  | x :: a, y :: b => (x =? y) && same_bytes a b
  | _, _ => false
  end.

Definition gives (o : outcome bytes) (l : bytes) : bool := match o with Ok b => same_bytes b l | _ => false end.

Definition ascending (n : Z) : bytes := tabulate n (fun i => i mod 256).

(** * test_crc32.c *)

Module TestCrc32.

Definition digits : bytes := bytes_of "123456789".

Example test_empty : fsd_crc32 [0] 0 = Ok 0.
Proof. vm_compute. reflexivity. Qed.

Example test_known_values : fsd_crc32 digits 9 = Ok 0xCBF43926.
Proof. vm_compute. reflexivity. Qed.

(** Byte by byte. *)
Definition incremental (data : bytes) : outcome Z :=
  crc ← foldl (fun crc c => crc ← crc; fsd_crc32_update crc [c] 1) (Ok (2 ^ 32 - 1)) data;
  Ok (fsd_crc32_final crc).

Example test_incremental :
  let data := bytes_of "Hello, World!" in incremental data = fsd_crc32 data (zlen data).
Proof. vm_compute. reflexivity. Qed.

Example test_incremental_chunks :
  (crc ← fsd_crc32_update (2 ^ 32 - 1) digits 4; crc ← fsd_crc32_update crc (drop 4 digits) 5;
   Ok (fsd_crc32_final crc)) = Ok 0xCBF43926.
Proof. vm_compute. reflexivity. Qed.

Example test_different_data :
  fsd_crc32 [0; 1; 2; 3; 4; 5; 6; 7] 8 ≠ fsd_crc32 [0; 1; 2; 3; 4; 5; 6; 8] 8.
Proof. vm_compute. discriminate. Qed.

Example test_block_crc :
  fsd_crc32 (fill 256 0xAB) 256 ≠ fsd_crc32 (0xAC :: fill 255 0xAB) 256.
Proof. vm_compute. discriminate. Qed.

End TestCrc32.

(** * test_bkdf_header.c *)

Module TestHeader.

(** A header written to a new file. *)
Definition written (dest_blocks block_size_log2 op_stream_len diff_stream_len : Z) : bytes :=
  match fsd_header_write (Some (file_new 1000)) dest_blocks block_size_log2 op_stream_len diff_stream_len with
  | (FSD_SUCCESS, Some f) => f_data f
  | _ => []
  end.

Definition read_back (data : bytes) : outcome fsd_header_t := fst (fsd_header_read (Some (file_of data))).

Example test_write_read :
  (fun h => (magic h, version h, block_size_log2 h, Header.dest_blocks h, op_stream_len h, diff_stream_len h))
    <$> match read_back (written 1000 12 5000 2000) with Ok h => Some h | _ => None end
  = Some (bytes_of "BKDF", FSD_VERSION, 12, 1000, 5000, 2000).
Proof. vm_compute. reflexivity. Qed.

Example test_memory_read :
  (fun h => (Header.dest_blocks h, block_size_log2 h))
    <$> match fsd_header_read_memory (Some (written 500 14 1000 500)) FSD_HEADER_SIZE with Ok h => Some h | _ => None end
  = Some (500, 14).
Proof. vm_compute. reflexivity. Qed.

Example test_invalid_magic : read_back (le_bytes 4 0xDEADBEEF ++ fill 28 0) = Err FSD_ERR_BAD_MAGIC.
Proof. vm_compute. reflexivity. Qed.

Example test_truncated_header : read_back (fill 16 0) = Err FSD_ERR_TRUNCATED.
Proof. vm_compute. reflexivity. Qed.

Example test_header_size : zlen (written 100 12 1000 500) = 32.
Proof. vm_compute. reflexivity. Qed.

End TestHeader.

(** * test_block_tracker.c *)

Module TestTracker.

Definition fresh (n : Z) : fsd_block_tracker_t :=
  from_ok demo_tracker1 (fsd_block_tracker_create (fun _ => true) n 4096).

(** for (i = from; i < upto; i += step) set_match(tracker, i, m, f(i)) *)
Definition match_all (m : fsd_match_type_t) (l : list Z) (f : Z → Z) (t : fsd_block_tracker_t) : fsd_block_tracker_t :=
  foldl (fun t i => fsd_block_tracker_set_match t i m (f i)) t l.

Definition type_at (t : fsd_block_tracker_t) (i : Z) : option fsd_match_type_t := match_type <$> fsd_block_tracker_get t i.

Example test_initial_state :
  forallb (fun i => bool_decide (type_at (fresh 100) i = Some FSD_MATCH_NONE)) (seqZ 0 100) = true ∧
  fsd_block_tracker_unmatched_count (fresh 100) = 100.
Proof. split; vm_compute; reflexivity. Qed.

Definition five : fsd_block_tracker_t :=
  let t := fsd_block_tracker_set_match (fresh 100) 0 FSD_MATCH_IDENTITY 0 in
  let t := fsd_block_tracker_set_match t 1 FSD_MATCH_RELOCATE 50 in
  let t := fsd_block_tracker_set_match t 2 FSD_MATCH_ZERO 0 in
  let t := fsd_block_tracker_set_match t 3 FSD_MATCH_ONE 0 in
  fsd_block_tracker_set_match t 4 FSD_MATCH_PARTIAL 25.

Example test_set_match :
  type_at five <$> seqZ 0 5 =
    [Some FSD_MATCH_IDENTITY; Some FSD_MATCH_RELOCATE; Some FSD_MATCH_ZERO; Some FSD_MATCH_ONE; Some FSD_MATCH_PARTIAL] ∧
  (fun i => src_index <$> fsd_block_tracker_get five i) <$> [0; 1; 4] = [Some 0; Some 50; Some 25] ∧
  fsd_block_tracker_unmatched_count five = 95.
Proof. split_and!; vm_compute; reflexivity. Qed.

Definition even_matched : fsd_block_tracker_t :=
  match_all FSD_MATCH_IDENTITY (filter (fun i => i mod 2 = 0) (seqZ 0 100)) id (fresh 100).

Example test_is_unmatched :
  forallb (fun i => Bool.eqb (fsd_block_tracker_is_unmatched even_matched i) (i mod 2 =? 1)) (seqZ 0 100) = true ∧
  fsd_block_tracker_unmatched_count even_matched = 50.
Proof. split; vm_compute; reflexivity. Qed.

Definition mixed : fsd_block_tracker_t :=
  let t := match_all FSD_MATCH_IDENTITY (seqZ 0 30) id (fresh 100) in
  let t := match_all FSD_MATCH_RELOCATE (seqZ 30 20) (fun i => i + 10) t in
  let t := match_all FSD_MATCH_ZERO (seqZ 50 10) (fun _ => 0) t in
  let t := match_all FSD_MATCH_ONE (seqZ 60 5) (fun _ => 0) t in
  match_all FSD_MATCH_PARTIAL (seqZ 65 5) (fun i => i - 10) t.

Example test_counters :
  (identity_count mixed, relocate_count mixed, zero_count mixed, one_count mixed, partial_count mixed,
   fsd_block_tracker_unmatched_count mixed) = (30, 20, 10, 5, 5, 30).
Proof. vm_compute. reflexivity. Qed.

Definition finalized : fsd_block_tracker_t :=
  fsd_block_tracker_finalize (match_all FSD_MATCH_IDENTITY (seqZ 0 5) id (fresh 10)).

Example test_finalize :
  fsd_block_tracker_unmatched_count finalized = 0 ∧ literal_count finalized = 5 ∧
  type_at finalized <$> seqZ 5 5 = replicate 5 (Some FSD_MATCH_NONE).
Proof. split_and!; vm_compute; reflexivity. Qed.

End TestTracker.

(** * test_memory_pool.c *)

Module TestPool.

Definition pool_of (chunk_size : Z) : fsd_memory_pool_t * @world bump :=
  match fsd_pool_create chunk_size 0 empty_world with
  | (Ok (_, pool), w) => (pool, w)
  | (_, w) => (mkPool 0 0 0 0 0, w)
  end.

(** [n] allocations of [size] bytes. *)
Fixpoint allocs (n : nat) (size : Z) (pool : fsd_memory_pool_t) (w : @world bump) : outcome (list Z) :=
  match n with
  | O => Ok []
  | S n =>
      '(p, pool, w) ← fsd_pool_alloc pool size w;
      ps ← allocs n size pool w;
      Ok (p :: ps)
  end.

Definition first_alloc (size : Z) : outcome Z :=
  let '(pool, w) := pool_of 4096 in '(p, _, _) ← fsd_pool_alloc pool size w; Ok p.

Example test_basic_alloc : is_ok (first_alloc 100) = true ∧ from_ok 0 (first_alloc 100) ≠ 0.
Proof. split; [reflexivity|vm_compute; discriminate]. Qed.

(** Twenty-five allocations, none null and none inside another. *)
Example test_multiple_allocs :
  let '(pool, w) := pool_of 4096 in
  let ps := from_ok [] (allocs 25 64 pool w) in
  length ps = 25%nat ∧ forallb (fun p => negb (p =? 0)) ps = true ∧
  forallb (fun p => forallb (fun q => (p =? q) || (p + 64 <=? q) || (q + 64 <=? p)) ps) ps = true ∧ NoDup ps.
Proof. cbv zeta. split_and!; [reflexivity|vm_compute; reflexivity|vm_compute; reflexivity|apply (bool_decide_unpack _); vm_compute; exact Logic.I]. Qed.

Example test_large_alloc : from_ok 0 (first_alloc 8192) ≠ 0.
Proof. vm_compute. discriminate. Qed.

Example test_aligned_alloc :
  let '(pool, w) := pool_of 4096 in
  match fsd_pool_alloc_aligned pool 256 64 w with Ok (p, _, _) => negb (p =? 0) && (p mod 64 =? 0) | _ => false end = true.
Proof. vm_compute. reflexivity. Qed.

Example test_reset :
  let '(pool, w) := pool_of 4096 in
  match ('(_, pool, w) ← fsd_pool_alloc pool 1000 w; '(_, pool, w) ← fsd_pool_alloc pool 2000 w;
         '(_, pool, w) ← fsd_pool_alloc pool 500 w; '(pool, w) ← fsd_pool_reset pool w;
         '(p, _, _) ← fsd_pool_alloc pool 3000 w; Ok p) with
  | Ok p => p ≠ 0
  | _ => False
  end.
Proof. vm_compute. discriminate. Qed.

End TestPool.

(** * test_buffered_writer.c *)

Module TestWriter.

(** The bytes of the file after the writer was closed, and the count the writer gave
    before. *)
Definition written (run : ST fsd_buffered_writer_t unit) : option (Z * bytes) :=
  match fsd_writer_create_from_file (fun _ => true) (Some (file_new (2 ^ 21))) 0 with
  | Ok w =>
      match run w with
      | (Ok _, w) =>
          match fsd_writer_close w with (Ok _, f) => Some (fsd_writer_bytes_written w, f_data f) | _ => None end
      | _ => None
      end
  | _ => None
  end.

Fixpoint each_byte (l : bytes) : ST fsd_buffered_writer_t unit :=
  match l with [] => mret tt | b :: l => fsd_writer_write_byte b;; each_byte l end.

Example test_create_close : written (mret tt) = Some (0, []).
Proof. vm_compute. reflexivity. Qed.

Example test_write_byte : written (each_byte (seqZ 0 8)) = Some (8, seqZ 0 8).
Proof. vm_compute. reflexivity. Qed.

Example test_write_u16 :
  snd <$> written (fsd_writer_write_u16_le 0x1234;; fsd_writer_write_u16_le 0xABCD) = Some [0x34; 0x12; 0xCD; 0xAB].
Proof. vm_compute. reflexivity. Qed.

Example test_write_u32 : snd <$> written (fsd_writer_write_u32_le 0x12345678) = Some [0x78; 0x56; 0x34; 0x12].
Proof. vm_compute. reflexivity. Qed.

Example test_write_buffer :
  written (fsd_writer_write (ascending 1024)) = Some (1024, ascending 1024).
Proof. vm_compute. reflexivity. Qed.

End TestWriter.

(** * test_decoder.c *)

Module TestDecoder.

Definition BLOCK_SIZE : Z := 512.

(** A patch: the header, with the lengths of the streams, and the streams. *)
Definition patch (dest_blocks : Z) (ops diffs lits : bytes) : bytes :=
  header_buf dest_blocks 9 (zlen ops) (zlen diffs) ++ ops ++ diffs ++ lits.

(** fsd_patch_apply on files of these contents: the code, and the output file. *)
Definition apply (src p : bytes) : outcome unit * option bytes :=
  let reader := mkReader FSD_BACKEND_MMAP (zlen src) (Some src) no_device 0 [] 0 0 0 None in
  let r := fsd_patch_apply (mkEnv (Ok reader) (Ok (Some p)) true (Some (file_new (2 ^ 20))) (fun _ => true) false) in
  (pr_status r, if pr_unlinked r then None else pr_file r).

(** The first byte of an operation. *)
Definition op (op_type count_enc low : Z) : Z := Z.lor (Z.lor (Z.shiftl op_type 5) (Z.shiftl count_enc 3)) low.

Definition blocks (from n : Z) (src : bytes) : bytes := slice (from * BLOCK_SIZE) (n * BLOCK_SIZE) src.

(** Counts of 2 (inline), 5 (one byte) and 3 (two bytes). *)
Example test_copy_identity :
  let src := ascending (10 * BLOCK_SIZE) in
  apply src (patch 10 ([op 0 3 1] ++ [op 0 0 0; 4] ++ op 0 1 0 :: le_bytes 2 2) [] []) = (Ok tt, Some src).
Proof. vm_compute. reflexivity. Qed.

(** Four operations, of which the test only asserts that they are accepted.  Its
    second says "count=1" in a comment, but the three bits of an inline count are
    also the offset encoding and the sign: the count is 2, six blocks are reached
    and the fourth operation is never decoded. *)
Definition relocate_src : bytes := tabulate (12 * BLOCK_SIZE) (fun i => (i / BLOCK_SIZE + 65) mod 256).

Example test_copy_relocate :
  let first_three := [op 1 0 0; 1; 3] ++ [op 1 3 1; 2] ++ op 1 0 2 :: 1 :: le_bytes 2 5 in
  let fourth := op 1 3 4 :: le_bytes 4 100 in
  let expected := blocks 3 2 relocate_src ++ blocks 0 2 relocate_src ++ blocks 9 2 relocate_src in
  apply relocate_src (patch 6 (first_three ++ fourth) [] []) = (Ok tt, Some expected) ∧
  apply relocate_src (patch 6 first_three [] []) = (Ok tt, Some expected).
Proof. split; vm_compute; reflexivity. Qed.

Example test_zero : apply (fill BLOCK_SIZE 255) (patch 3 [op 2 3 2] [] []) = (Ok tt, Some (fill (3 * BLOCK_SIZE) 0)).
Proof. vm_compute. reflexivity. Qed.

Example test_one : apply (fill BLOCK_SIZE 0) (patch 2 [op 3 0 0; 1] [] []) = (Ok tt, Some (fill (2 * BLOCK_SIZE) 255)).
Proof. vm_compute. reflexivity. Qed.

Example test_literal :
  let lits := tabulate (2 * BLOCK_SIZE) (fun i => Z.lor (i mod 256) 128) in
  apply (fill BLOCK_SIZE 0) (patch 2 [op 5 3 1] [] lits) = (Ok tt, Some lits).
Proof. vm_compute. reflexivity. Qed.

Example test_copy_add_dense :
  let src := ascending (5 * BLOCK_SIZE) in
  let diff := tabulate (2 * BLOCK_SIZE) (fun i => i mod 7) in
  apply src (patch 2 (op 4 0 0 :: le_bytes 2 10 ++ [1] ++ le_bytes 4 (2 * BLOCK_SIZE)) diff [])
    = (Ok tt, Some (tabulate (2 * BLOCK_SIZE) (fun i => ((10 + i) mod 256 + i mod 7) mod 256))).
Proof. vm_compute. reflexivity. Qed.

(** Bytes 10, 20 and 30 change; the last copy length takes two varint bytes. *)
Example test_copy_add_sparse :
  let src := ascending (3 * BLOCK_SIZE) in
  let diff := [0; 10; 1; 0x11; 9; 1; 0x22; 9; 1; 0x33; 0xE1; 0x03] in
  apply src (patch 1 (op 4 0 1 :: le_bytes 2 5 ++ [0] ++ le_bytes 4 (zlen diff)) diff [])
    = (Ok tt, Some (tabulate BLOCK_SIZE (fun i =>
        ((5 + i) mod 256 + if i =? 10 then 0x11 else if i =? 20 then 0x22 else if i =? 30 then 0x33 else 0) mod 256))).
Proof. vm_compute. reflexivity. Qed.

(** The third block comes from byte 1024 - 256. *)
Example test_copy_add_negative :
  let src := ascending (5 * BLOCK_SIZE) in
  apply src (patch 3 ([op 0 3 1] ++ op 4 0 0 :: le_bytes 2 (2 ^ 16 - 256) ++ [0] ++ le_bytes 4 BLOCK_SIZE)
               (fill BLOCK_SIZE 0) [])
    = (Ok tt, Some (slice 0 (2 * BLOCK_SIZE) src ++ slice 768 BLOCK_SIZE src)).
Proof. vm_compute. reflexivity. Qed.

Example test_copy_add_large_offsets :
  let src := ascending 100000 in
  apply src (patch 1 (op 4 0 2 :: le_bytes 3 40000 ++ [0] ++ le_bytes 4 BLOCK_SIZE) (fill BLOCK_SIZE 0) [])
    = (Ok tt, Some (slice 40000 BLOCK_SIZE src)).
Proof. vm_compute. reflexivity. Qed.

Example test_mixed_operations :
  let src := ascending (10 * BLOCK_SIZE) in
  apply src (patch 6 ([op 0 3 0; op 2 3 0; op 3 3 0] ++ [op 1 3 0; 2] ++ [op 5 3 0] ++
                      op 4 0 0 :: le_bytes 2 0 ++ [0] ++ le_bytes 4 BLOCK_SIZE)
               (fill BLOCK_SIZE 1) (fill BLOCK_SIZE 0xAA))
    = (Ok tt, Some (blocks 0 1 src ++ fill BLOCK_SIZE 0 ++ fill BLOCK_SIZE 255 ++ blocks 5 1 src ++
                    fill BLOCK_SIZE 0xAA ++ ((fun b => (b + 1) mod 256) <$> blocks 5 1 src))).
Proof. vm_compute. reflexivity. Qed.

(** Bad magic, a source block before the image, a reserved operation. *)
Example test_errors :
  let src := fill BLOCK_SIZE 0 in
  apply src (<[0%nat := 88]> (patch 1 [0xF8] [] [])) = (Err FSD_ERR_BAD_MAGIC, None) ∧
  apply src (patch 1 [op 1 3 1; 5] [] []) = (Err FSD_ERR_CORRUPT_DATA, None) ∧
  apply src (patch 1 [op 6 3 0] [] []) = (Err FSD_ERR_BAD_OPERATION, None).
Proof. split_and!; vm_compute; reflexivity. Qed.

End TestDecoder.

(** * test_simd.c, on the table of a machine without vector instructions *)

Module TestSimd.

Definition is_zero (l : bytes) (n : Z) : outcome bool := fsd_scalar_is_zero l 0 n.
Definition is_one (l : bytes) (n : Z) : outcome bool := fsd_scalar_is_one l 0 n.
Definition count_matches (a b : bytes) (n : Z) : outcome Z := fsd_scalar_count_matches a 0 b 0 n.

Definition small_sizes : list Z := [1; 7; 16; 31; 33; 255].

Example test_is_zero :
  let zeros := fill 256 0 in
  is_zero zeros 256 = Ok true ∧
  (fun i => is_zero (zput zeros i 1) 256) <$> [0; 128; 255] = replicate 3 (Ok false) ∧
  is_zero zeros <$> small_sizes = replicate 6 (Ok true).
Proof. cbv zeta. split_and!; vm_compute; reflexivity. Qed.

Example test_is_one :
  let ones := fill 256 255 in
  is_one ones 256 = Ok true ∧
  (fun '(i, v) => is_one (zput ones i v) 256) <$> [(0, 0); (128, 0); (255, 0); (100, 0x7F)] = replicate 4 (Ok false) ∧
  is_one ones <$> small_sizes = replicate 6 (Ok true).
Proof. cbv zeta. split_and!; vm_compute; reflexivity. Qed.

Example test_count_matches :
  let a := ascending 256 in
  let u := fill 256 0x55 in
  count_matches a a 256 = Ok 256 ∧
  count_matches a (tabulate 256 (fun i => (i + 1) mod 256)) 256 = Ok 0 ∧
  count_matches a (tabulate 256 (fun i => if i mod 2 =? 0 then i mod 256 else 255 - i mod 256)) 256 = Ok 128 ∧
  count_matches (fill 256 0xAA) (fill 128 0xAA ++ fill 128 0xBB) 256 = Ok 128 ∧
  count_matches a a <$> [1; 7; 15; 31; 33; 100] = Ok <$> [1; 7; 15; 31; 33; 100] ∧
  (fun i => count_matches u (zput u i 0x56) 256) <$> [0; 100; 255] = replicate 3 (Ok 255).
Proof. cbv zeta. split_and!; vm_compute; reflexivity. Qed.

Example test_edge_cases :
  is_zero [0] 0 = Ok true ∧ is_one [0] 0 = Ok true ∧ count_matches [0] [0] 0 = Ok 0 ∧
  (fun b => is_zero [b] 1) <$> [0; 255; 0x42] = [Ok true; Ok false; Ok false] ∧
  (fun b => is_one [b] 1) <$> [255; 0; 0x42] = [Ok true; Ok false; Ok false] ∧
  count_matches [0x42] [0x42] 1 = Ok 1 ∧ count_matches [0] [255] 1 = Ok 0 ∧
  let sizes := [8; 16; 32; 64; 128; 256; 9; 17; 31; 63; 127; 255] in
  is_zero (fill 256 0) <$> sizes = replicate 12 (Ok true) ∧
  is_one (fill 256 255) <$> sizes = replicate 12 (Ok true) ∧
  (fun n => count_matches (fill 256 0) (fill 256 0) n) <$> sizes = Ok <$> sizes.
Proof. cbv zeta. split_and!; vm_compute; reflexivity. Qed.

(** The generator of the test, seeded; the bytes and the last seed. *)
Definition next_seed (seed : Z) : Z := u32 (u32 (seed * 1103515245) + 12345).

Fixpoint random (n : nat) (seed : Z) : list Z :=
  match n with O => [] | S n => let seed := next_seed seed in Z.shiftr seed 16 :: random n seed end.

(** [b] with the bytes at [positions] turned over once, and how many there were. *)
Fixpoint turn_over (positions : list Z) (a b : bytes) (turned : Z) : bytes * Z :=
  match positions with
  | [] => (b, turned)
  | pos :: positions =>
      match zget a pos, zget b pos with
      | Some x, Some y => if x =? y then turn_over positions a (zput b pos (255 - x)) (turned + 1)
                          else turn_over positions a b turned
      | _, _ => turn_over positions a b turned
      end
  end.

Example test_random_data :
  let a := (fun v => v mod 256) <$> random 256 12345 in
  let '(b, turned) := turn_over ((fun v => v mod 256) <$> random 100 67890) a a 0 in
  count_matches a b 256 = Ok (256 - turned) ∧ is_zero a 256 = Ok false ∧ is_one a 256 = Ok false.
Proof. vm_compute. split_and!; reflexivity. Qed.

End TestSimd.

(** * test_source_reader.c and test_mmap_reader.c *)

Module TestSource.

(** A regular file of these contents on a filesystem that knows O_DIRECT. *)
Definition file_env (data : bytes) : path_env :=
  mkPath (fun _ => true) (inr (mkStat S_ISREG (zlen data))) (fun _ => inr (mkDevice data []))
    (inr (mkStat S_ISREG (zlen data))) None None None (fun n => Some (slice 0 n data)).

Definition missing : path_env :=
  mkPath (fun _ => true) (inl ENOENT) (fun _ => inl ENOENT) (inl ENOENT) None None None (fun _ => None).

Definition TEST_FILE_SIZE : Z := 2 * 1024.
Definition expected (from n : Z) : bytes := tabulate n (fun i => ((from + i) * 31 + 7) mod 256).

(** A reader of the test's file in one of the modes. *)
Definition opened (mode : fsd_source_mode_t) : option fsd_source_reader :=
  match fsd_source_reader_open (file_env (expected 0 TEST_FILE_SIZE)) mode with Ok r => Some r | _ => None end.

(** for (i = 0; i < TEST_FILE_SIZE; i += 512) the byte at i is the expected one. *)
Definition spot_check (data : bytes) : bool :=
  forallb (fun k => match zget data (512 * k) with Some b => b =? (512 * k * 31 + 7) mod 256 | None => false end)
    (seqZ 0 (TEST_FILE_SIZE / 512)).

(** The size, a sequence of reads, then the base pointer twice. *)
Definition session (mode : fsd_source_mode_t) (reads : list (Z * Z)) : bool :=
  match opened mode with
  | None => false
  | Some r =>
      let '(ok, r) :=
        foldl (fun '(ok, r) '(off, n) =>
                 let '(o, r) := fsd_source_reader_read_at off n r in (ok && gives o (expected off n), r)) (true, r) reads in
      let '(data, r) := fsd_source_reader_data (fun _ => true) r in
      let '(again, r) := fsd_source_reader_data (fun _ => true) r in
      let base o := match o with Ok (Some d) => spot_check d | _ => false end in
      ok && (fsd_source_reader_size r =? TEST_FILE_SIZE) && base data && base again
  end.

Example test_mmap_open_read : session FSD_SOURCE_MMAP [(0, 256); (7, 100)] = true.
Proof. vm_compute. reflexivity. Qed.

Example test_auto_picks_mmap_for_regular_file :
  backend <$> opened FSD_SOURCE_AUTO = Some FSD_BACKEND_MMAP ∧ session FSD_SOURCE_AUTO [] = true.
Proof. split; vm_compute; reflexivity. Qed.

Example test_read_past_eof :
  match opened FSD_SOURCE_MMAP with
  | Some r => (fun '(off, n) => fst (fsd_source_reader_read_at off n r)) <$> [(TEST_FILE_SIZE - 8, 16); (TEST_FILE_SIZE + 1, 1)]
                = replicate 2 (Err FSD_ERR_TRUNCATED)
  | None => False
  end.
Proof. vm_compute. reflexivity. Qed.

Example test_nonexistent_source : fsd_source_reader_open missing FSD_SOURCE_AUTO = Err FSD_ERR_FILE_NOT_FOUND.
Proof. reflexivity. Qed.

Example test_mmap_size_and_data : fsd_mmap_open (file_env (ascending 2048)) = Ok (Some (ascending 2048), 2048).
Proof. vm_compute. reflexivity. Qed.

Example test_nonexistent_file : fsd_mmap_open missing = Err FSD_ERR_FILE_NOT_FOUND.
Proof. reflexivity. Qed.

End TestSource.

(** * test_roundtrip.c *)

Module TestRoundtrip.

Definition opts_of (block_size_log2 : Z) : fsd_diff_options_t := mkOptions block_size_log2 true true true StagePartial.half 8 false true.

Definition result_of (opts : fsd_diff_options_t) (src dest : bytes) : diff_result :=
  let reader := mkReader FSD_BACKEND_MMAP (zlen src) (Some src) no_device 0 [] 0 0 0 None in
  let temp := Temp (file_new (2 ^ 20)) in
  let env := mkDiffEnv (fun _ => true) demo_memory setup_scalar_dispatch (Ok reader) (Ok (Some dest)) (fun _ => false) None
    temp temp temp true (Some (file_new (2 ^ 20))) in
  fsd_diff_files env (mkCtx opts (mkStats 0 0 0 0 0 0 0 0) false false).

(** The statistics of the diff, and whether the patch turns the source into the
    destination. *)
Definition roundtrip (opts : fsd_diff_options_t) (src dest : bytes) : outcome (fsd_diff_stats_t * bool) :=
  let d := result_of opts src dest in
  df_status d;;
  Ok (fsd_diff_get_stats (df_ctx d),
      match df_output d with
      | Some patch => match TestDecoder.apply src (f_data patch) with (Ok _, Some out) => same_bytes out dest | _ => false end
      | None => false
      end).

(** Ten equal blocks; the tests' blocks of 4096 bytes are scaled down to 32. *)
Example test_identical_files :
  let data := ascending (10 * 32) in
  match roundtrip (opts_of 5) data data with
  | Ok (stats, same) => identity_matches stats = total_blocks stats ∧ total_blocks stats = 10 ∧ same = true
  | _ => False
  end.
Proof. vm_compute. split_and!; reflexivity. Qed.

Example test_different_files :
  let src := ascending (10 * 32) in
  let dest := tabulate (10 * 32) (fun i => (i + 1) mod 256) in
  match roundtrip (opts_of 5) src dest with Ok (stats, same) => same = true | _ => False end.
Proof. vm_compute. reflexivity. Qed.

Example test_zero_blocks :
  let src := fill (5 * 32) 0 in
  let dest := tabulate (5 * 32) (fun i => if i <? 2 * 32 then 0 else i mod 256) in
  match roundtrip (opts_of 5) src dest with Ok (stats, same) => 2 <= zero_blocks stats ∧ same = true | _ => False end.
Proof. vm_compute. split; [discriminate | reflexivity]. Qed.

Example test_one_blocks :
  let src := ascending (5 * 32) in
  let dest := tabulate (5 * 32) (fun i => if i <? 2 * 32 then 255 else i mod 256) in
  match roundtrip (opts_of 5) src dest with Ok (stats, same) => 2 <= one_blocks stats ∧ same = true | _ => False end.
Proof. vm_compute. split; [discriminate | reflexivity]. Qed.

(** The blocks A B C D E become E D C B A. *)
Example test_relocated_blocks :
  let src := tabulate (5 * 32) (fun i => (i / 32 * 50 + i mod 16) mod 256) in
  let dest := tabulate (5 * 32) (fun i => ((4 - i / 32) * 50 + i mod 16) mod 256) in
  match roundtrip (opts_of 5) src dest with
  | Ok (stats, same) => 5 - 1 <= identity_matches stats + relocate_matches stats ∧ same = true
  | _ => False
  end.
Proof. vm_compute. split; [discriminate | reflexivity]. Qed.

(** The relocation stage needs the checksums of the identity stage; both may be off. *)
Example test_relocation_requires_identity :
  let data := fill (2 * 32) 0 in
  let opts identity relocation := mkOptions 5 identity relocation true StagePartial.half 8 false true in
  roundtrip (opts false true) data data = Err FSD_ERR_INVALID_ARG ∧
  match roundtrip (opts false false) data data with Ok (_, same) => same = true | _ => False end.
Proof. split; vm_compute; reflexivity. Qed.

End TestRoundtrip.
